(* ===== verification/_CoqProject ===== *)
-Q . S2P
Prelude.v
PyString.v
Target.v
Setup.v
JsonFile.v
Dmcdp.v
Files.v
Seed.v
Replica.v
Apply.v
Throttle.v
SshScript.v
CopyProtocol.v
CopyLoop.v
CopyRuns.v
Consume.v
Daemon.v
CopyThreads.v
CopyAlone.v
MainLoop.v
Lifecycle.v
Rebuild.v
HostScript.v
Standby.v
SeedTool.v
Locate.v
Api.v
Launch.v
ApiNodes.v
Driver.v
Ring.v
DirtyMap.v
DriverRuns.v
DriverStream.v
ChangeMap.v
CdpTools.v
DriverLife.v
DriverRecovery.v
LiveCopy.v
SeedDrain.v
DriverLine.v
SeedCli.v
ApiRebuild.v
CdpDrain.v
Lives.v
BitmapRace.v
