(* ===== verification/Prelude.v ===== *)
(** * rkcdp: a verification library for the replication of a disk

    The repository keeps a whole-disk image of a running Linux node on shared
    storage.  A device-mapper target (the C driver [dm-cdp]) puts a record for
    every write of the disk into a ring and marks the chunk in a bitmap; the
    daemon [rkcdpd] reads the ring from [/dev/cdpN] and applies the records to
    [replica.raw]; [rkcdp-rebuild] turns the replica of a dead node into a VM.
    This library models the Python userspace under [src/rkcdp/], the driver
    [src/drivers/md/dm-cdp.c] and the work of the C tools as executable
    definitions and proves what makes them correct, apart and together, and where they are
    not.

    ** Files

    - [Prelude] (this file): bytes, outcomes ([res]: a value, an exception, or
      never returning), steps on a state that keep what they did when they
      raise ([SM], with [sm_finally] and [sm_except] for [try]), Python slices,
      automation ([zlen], [zbool], [res_inv], [keeps_step], [returns_step],
      [preserves_step], [in_list]), extents.
    - [PyString]: Python's [strip], [split], [basename], [dirname].
    - [Target]: the configuration ([load_conf], the settings of
      [Daemon.__init__]) and [ensure_target] of [rkcdpd.py], with the class
      [DmTools] of what [dmsetup] documents.
    - [Setup]: the installer [rkcdp-setup.py] on the files of a machine, whose
      calls can break off anywhere ([fate]), a write in the middle.
    - [JsonFile]: [write_json] and [load_json] over a file system that can
      crash.
    - [Dmcdp]: [dmcdp.py].  [struct] formats, the record header [rec]
      ([Rec_init], [pack_rec]), the generator [iter_records] (the list of what
      it yields and how it ends), the ioctls, [bitmap_extents].
    - [Files]: disk images (a byte per offset, compared pointwise), sparse files
      and the class [SparseFS] of the file system's [SEEK_DATA]/[SEEK_HOLE],
      with the laws [SparseFSLaws] at some block size and an instance.
    - [Seed]: [data_regions] and [SeedLayer] of [rkcdpd.py], the
      copy-on-first-write layer; its invariant is [seed_inv].
    - [Replica]: [Replica] of [rkcdpd.py]; its specification is [apply_img], the
      effect of a record on an image.
    - [Apply]: [Daemon.apply_one] and the sections of [Daemon.copy_chunk] on the
      state [applier] the two threads share.
    - [Throttle]: [Throttle] of [rkcdpd.py].
    - [CopyProtocol]: the transition system [sys_next] of the guest, the apply
      loop and one copy thread; [run] is any interleaving of their steps.
    - [CopyLoop]: the interface of a loop that copies chunks ([CopyLoop],
      [CopyLoopLaws]) and its two instances, the loops of [Daemon.base_copy] and
      [Daemon.recover].
    - [CopyRuns]: such a loop in its thread, section by section, beside the
      guest, the apply loop and the signal ([tsys_next]); it refines
      [CopyProtocol].
    - [Consume]: [Daemon.consume] and [Daemon.apply_pending], on the state [feed].
    - [Daemon]: the state of the daemon and of its node directory.
    - [CopyThreads]: [Daemon.base_copy], [start_recovery], [recover].
    - [CopyAlone]: the threads of [CopyRuns] and the functions of [CopyThreads]
      are the same code: what one does undisturbed is what the other computes.
    - [MainLoop]: [Daemon.mark_consistent], [check_seed], [write_status] and the
      body of [Daemon.main].
    - [Lifecycle]: [node_json], the status thread, the end of [Daemon.main], and
      what a restart finds.
    - [Rebuild]: [rkcdp-rebuild.py], with [rb_main] for its [main].
    - [SshScript]: [sh] and [ssh_script] of [rkcdp-rebuild.py], with base64 and
      the class [Shells] of what the shells do with a command line.
    - [HostScript]: the text of the script for the hypervisor ([host_script]) and
      what it does there ([host_build]): its commands one by one when no value
      in it means anything to the shell ([plain_build]), whatever [bash] makes
      of it otherwise.  The class [Qm] is what [qm] documents.
    - [Standby]: [mark_standby] of [rkcdp-rebuild.py].
    - [SeedTool]: [rkcdp-seed.py], with [seed_main] for its [main]: the copy on
      the hypervisor, its resume point in [seed.json], the seed point.
    - [Locate]: how [rkcdp-seed.py] finds the VM, its disk and the node directory:
      the pattern and the command of [find_vm], and what the manual of [grep]
      says of them.
    - [Api]: [api_rkcdp.py]: the state shown for a node ([node_view], in
      [_nodes]) and the request that starts a rebuild ([rkcdp_rebuild]).
    - [Launch]: [argparse] for options and values, and with it the argument
      parser of [rkcdp-rebuild.py] on the command line of such a request.
    - [ApiNodes]: the node list of [api_rkcdp.py] and its cache.
    - [Driver]: [dm-cdp.c] over the bytes of its ring ([ring], [cdp_target]):
      [cdp_reserve], [cdp_map], [cdp_end_io], [cdp_next], [cdp_read], the ioctls
      by their numbers, the message, the constructor and its error path, and the
      references that keep the context alive ([life]).
    - [Ring]: the ring as a queue of slots ([ring_inv]); every ring operation of
      [Driver] is specified on that queue.
    - [DirtyMap]: the bitmap, and what [dmcdp.py] reads of it and of the status
      block ([fd_of] is the driver as [dmcdp.py] sees it).
    - [DriverRuns]: the driver among the requests of the machine, the device and
      the reader: [step] on [world], with a request submitted in two events,
      the reservation and the filling of its record; [world_inv] holds in every
      run.
    - [DriverStream]: what the reader gets in such runs, and the daemon on it.
    - [ChangeMap]: what the bitmap promises in such runs.
    - [CdpTools]: [cdp-apply.c] and the bitmap listing of [cdp-drain.c].
    - [DriverLife]: construction and removal of a target.
    - [DriverRecovery]: the daemon's recovery on the bitmap of the driver.
    - [LiveCopy]: a base copy or recovery in its thread, and what the apply loop
      must still do when the thread is done.
    - [SeedDrain]: a seed on the live driver: what the hypervisor copied while
      the node ran, [check_seed], the drain of the bitmap and the reads after
      it.
    - [DriverLine]: the text of [cdp_status], the table line [cdp_ctr] scans,
      and the loading of the module.
    - [SeedCli]: the command line of [rkcdp-seed.py], its [--status] listing, and
      the program from its arguments to [seed_main].
    - [ApiRebuild]: the manager, the rebuilds it starts and the files they share,
      as a transition system.
    - [CdpDrain]: the drain loop of [cdp-drain.c] and the file it writes.
    - [BitmapRace]: the bitmap ioctl word by word, beside requests.
    - [Lives]: [Daemon.main] whole, and a node whose daemon is stopped and started
      while the machine writes on ([daemon_lives]).

    ** What the theorems show

    - From the machine to the replica: whatever the order in which the device
      completes requests, the reader gets the logged requests in the order of
      their submission, whole and with their data ([driver_stream_in_order]);
      gaps are announced exactly ([driver_gaps_announced]), nothing is dropped
      while half of the ring is free ([half_empty_ring_logs]), the daemon's
      buffer is large enough ([daemon_read_fits]) and its reads empty the ring
      ([driver_drains]).  When nothing was dropped or failed and no requests
      overlapped in flight, the stream is the disk
      ([driver_stream_replicates]), through the daemon ([replica_follows_disk])
      and through the tools: [cdp-drain] writes what it reads
      ([cdp_drain_verbatim]; with a limit, whole reads of it, [cdp_drain_limit])
      and [cdp-apply] makes a disk of it ([tools_restore_disk]), applying whole
      records as [cdp_apply_replays] says; a stream cut in a header passes for a
      complete one ([cdp_apply_cut_header]).
    - Overflows: the bitmap covers every change ([bitmap_covers_changes]), and a
      recovery makes the replica the disk again ([overflow_recovered]).  A
      request in flight or a record in the ring at that moment can undo it for
      good ([inflight_at_clear_lost], [backlog_undoes_recovery]).  The ioctl that
      empties the bitmap loses no mark ([no_mark_lost]; alone it is the one step
      of the driver's runs, [bitmap_read_alone]), but can lose the flag of an
      overflow ([overflow_flag_lost]).
    - The memory of a target is safe to use unless an open races with the
      removal ([cdp_life_safe], [open_after_free]) or a status is asked for
      after it ([status_after_removal]); the constructor keeps all or
      nothing ([cdp_ctr_all_or_nothing]) and lets one bad parameter pass
      ([ctr_accepts_chunk_zero]); so does the loading of the module
      ([module_all_or_nothing]).  The status line of the driver is what the daemon
      looks for when it adopts a mapping ([driver_adopted]), and the table line
      gives the parameters back ([table_roundtrip]).
    - Copies beside live writes: a base copy or a recovery that runs to its end
      leaves the replica equal to the disk wherever it has been, on every
      schedule that applies records in order ([base_copy_live],
      [recovery_live]); the threads follow the protocol ([copy_loop_refines])
      and are never stuck ([copy_loop_completes]); run alone they are the sequential
      functions ([base_copy_alone], [recover_alone]).  The protocol converges
      ([copy_protocol_converges], [copy_protocol_aligned]), and so do the
      threads ([live_copy_converges]).  The code does not
      enforce the order it needs: [late_records_race],
      [straddling_record_race] and [second_copy_drops_deferred] are runs that
      do not converge.
    - Framing: the record stream is read correctly however it is cut
      ([iter_records_frames], [iter_records_stream]), packing and unpacking are
      inverse, the bitmap's extents are exact; [iter_records] hangs only on a
      record of length zero, and what it yields is well typed on any bytes
      ([iter_records_typed]).
    - The replica follows the records ([Replica_writes_spec]), through the reads
      ([consume_reads_applies]), the main loop ([main_loop_tracks], and with its
      consistent points [main_loop_points]), a rebuild's pause
      ([park_then_replay]) and a clean stop ([clean_stop_durable]), and over any
      number of lives of the daemon it is the disk ([lives_follow_disk]).
      [restart_forgets_gaps] is what a restart loses, [killed_after_read] what a
      daemon that dies loses; [status_loop_last] is about the status file.
    - Base copy and recovery copy what they have to, record completion only
      after a sync, and can be interrupted at any test of the signal;
      [base_copy_keeps_stale] is the case of a replica that was not blank.  The
      throttle keeps its rate when that is at least a chunk a second
      ([throttle_keeps_rate]), and does not below ([throttle_cap]).
    - State files: [write_json] is atomic across crashes
      ([write_json_atomic]); the writers without fsync are not
      ([write_json_nosync_torn]), nor are two programs with one temporary name
      ([shared_tmp_torn]).
    - Consistent points are exact ([consistent_point_exact]), the thaw is always
      tried ([mark_consistent_thaws]: the filesystem stays frozen when it does
      not work, or when the freeze itself timed out), gaps abandon the point;
      [consistent_point_parked] and [parked_replayed_last] are the hazards
      around the rebuild lock.
    - Start: the daemon adopts or creates the [cdp] mapping of its name and
      touches no other ([ensure_target_refines], [ensure_target_outcome]);
      [settings_of_file] says what a configuration means.
    - Installer: what it leaves ([install_result], [install_idempotent]), what a
      removal takes and leaves behind ([remove_result], [install_remove]), that
      nothing that breaks it off leaves a half-written file in place
      ([install_atomic]; a power failure is another matter, the installer syncs
      nothing), what the check
      checks ([install_then_check]), and that a fresh installation configures a
      daemon that waits for its seed ([installed_settings]).
    - Rebuild: when it succeeds ([rebuild_success]), that it always unlocks, what
      the seed overlay restores; [seed_rebuild_fails] and
      [refused_rebuild_removes_lock] are defects.  From the request to the VM:
      the rebuild runs with what was asked for ([request_reaches_rebuild]), its
      script arrives on the hypervisor ([ssh_script_delivers]), and a success
      is a started VM whose disk was the copy ([rebuild_runs_node]); no other VM
      is touched ([host_build_keeps_vms]), both for values without characters
      special to the shell; but what a failure leaves is in the
      way of the next try ([host_build_taken]).  [mark_standby_cleans]: what is
      mounted and attached is taken away again.
    - Seeding: a copy, broken off and resumed or not, leaves in the replica every
      byte of the running disk as it was when it was read ([seed_copies_disk],
      [seed_resume_completes]); [seed_resume_keeps_old], [seed_resume_stale] and
      [seed_of_unknown_size] are seeds that do not.
      The VM is found by the node's addresses ([find_vm_located]), or is any VM
      when there is none ([find_vm_no_address]), its disk from
      its configuration ([vm_disk_outcome]), and it is the daemon's node
      directory that is seeded ([same_node_dir]).  What was written during
      the seeding is caught up with from the driver's bitmap
      ([seed_drain_follows]),
      unless the ring overflowed meanwhile ([gap_while_seeding]).  The program
      does what its command line says ([seed_args_roundtrip],
      [seed_status_result]), and the daemon takes a seed only of the boot it
      runs in ([seed_of_this_boot]).
    - The manager shows "cdp" exactly for a node that is protected
      ([api_cdp_protected]) and starts rebuilds of plain node names on known
      hosts only ([rebuild_request_accepts]).  Its list has one row for each node
      ([nodes_rows]), every answer is the result of one refresh
      ([answers_are_refreshes]), and a seed that exits is shown as running
      ([seed_exit_shown]).  One node has one rebuild at a time when no request is
      checked while another waits for its first progress
      ([one_rebuild_at_a_time]); otherwise it can have two
      ([two_rebuilds_started]); the clean-up of a rebuild that failed can remove
      the lock of the next ([late_cleanup_unlocks]), and a rebuild that was
      killed blocks the next ([killed_rebuild_blocks]).

    ** Conventions and bounds

    Integers are unbounded as in Python; the fields of a record are bounded by
    their width where a header is read or packed.  A [while] loop is a fixpoint
    with fuel that yields [Forever] when it runs out: the fuel is one more than
    the length of the buffer, the file or the disk, and each round advances by
    at least one byte, so that it runs out only where the loop does not end;
    the theorems state the returned result.  A wait without a limit
    ([wait_cdp]) runs over the list of what its polls find and yields
    [Forever] at its end.  Chunk sizes are parameters where the proofs do not
    depend on them.  Clock readings are integers, and exact rationals in
    [Throttle].  [recovery_live] is about extents inside the disk.  What other
    programs decide (the driver's answers, [fallocate], [cp], [dd], [fsfreeze],
    [dmsetup], [systemctl], ssh, ping, the file system) is an argument.  In
    the driver every field has its width: offsets and sequence numbers wrap at
    64 bits, and the theorems about runs ask that the ring is young
    ([ring_young]: the offset of the producer stays two rings below 2^64).  Its
    loops have fuel: [next_fuel], a round of [cdp_next] advancing by at least a
    byte towards the head, and the size of the buffer in [cdp_read], a round
    delivering at least a header; [cdp_next_spec] and [cdp_read_loop_spec] show
    that it never runs out.  [drain_records] has one more than the length of the
    buffer, and each record it counts is at least a header long.  The block layer splits writes at 4 MiB and keeps
    requests inside the target ([valid_bio]).  In
    [Setup] the files the installer handles and the world its commands change
    are separate parts of the machine.  In [DriverRuns] an ioctl is one event;
    for the bitmap ioctl, which takes no lock, [BitmapRace] shows what that
    leaves out.  The reset of the counters at the start of the daemon is such an
    event too.

    ** Not modelled

    Of the driver: memory orderings weaker than sequential consistency, and the
    sleep of a blocking reader (it is an outcome).  Of the C tools: option
    parsing and printing.  The boot scripts and units, the HTTP layer and the
    database of the manager, log messages, what the programs print and the
    rates shown in progress files, the entry [dm_name] of the manifest, which
    nothing reads, JSON syntax (a file is its parsed content).  Of the shells:
    what [bash] makes of a text with special characters, which is a parameter.  In the main loop a call is
    atomic with respect to the copy threads, whose interleaving is the subject
    of [CopyProtocol] and [CopyRuns], with one copy thread at a time.
    [SshScript] takes a script as its bytes. *)
From Stdlib Require Export ZArith Lia.
From stdpp Require Export base gmap strings numbers list.
From coqutil Require Word.LittleEndianList Byte.

Global Open Scope Z_scope.

(** ** Bytes *)

Abbreviation byte := Init.Byte.byte.
Abbreviation bytes := (list Init.Byte.byte).
Abbreviation x00 := Init.Byte.x00.
Abbreviation le_split := LittleEndianList.le_split.
Abbreviation le_combine := LittleEndianList.le_combine.

(** The value of a byte, between 0 and 255. *)
Abbreviation byte_Z := coqutil.Byte.byte.unsigned.

#[export] Instance byte_eq_dec : EqDecision byte := Byte.byte_eq_dec.

(** Length of a buffer, as the integer [len(buf)] the code computes with. *)
Definition blen {A} (l : list A) : Z := Z.of_nat (length l).

(** ** Outcomes

    The exceptions the modelled code raises or lets through.  A call that may
    raise, or may never return, has an outcome in [res]; [mbind] propagates
    the exception, as an uncaught exception does. *)
Inductive exn : Type :=
  | ValueError (at_off : Z)       (* "bad record magic at %d" *)
  | StructError                   (* struct.error *)
  | IndexError
  | KeyError
  | TypeError
  | NameError (name : string)
  | OSError
  | TimeoutExpired
  | RuntimeError (msg : string)
  | CalledProcessError (cmd : list string)
  | SystemExit (msg : string).

#[export] Instance exn_eq_dec : EqDecision exn.
Proof. solve_decision. Defined.

Inductive res (A : Type) : Type :=
  | Ok (a : A)
  | Raise (e : exn)
  | Forever.
Arguments Ok {A} a.
Arguments Raise {A} e.
Arguments Forever {A}.

#[export] Instance res_ret : MRet res := fun A a => Ok a.
#[export] Instance res_bind : MBind res := fun A B f m =>
  match m with Ok a => f a | Raise e => Raise e | Forever => Forever end.
#[export] Instance res_fmap : FMap res := fun A B f m =>
  match m with Ok a => Ok (f a) | Raise e => Raise e | Forever => Forever end.

Section ResLemmas.
Context {A B : Type}.

Lemma res_bind_Ok (a : A) (f : A -> res B) : Ok a ≫= f = f a.
Proof. done. Qed.

Lemma res_bind_Ok_inv (m : res A) (f : A -> res B) b :
  m ≫= f = Ok b <-> exists a, m = Ok a /\ f a = Ok b.
Proof.
  destruct m as [a|e|]; cbn; split.
  - intros H. by exists a.
  - by intros (? & [= ->] & H).
  - discriminate.
  - by intros (? & ? & ?).
  - discriminate.
  - by intros (? & ? & ?).
Qed.
End ResLemmas.

(** Splits every [m ≫= f = Ok b] of the context into its two halves. *)
Ltac res_inv :=
  repeat match goal with
  | H : mbind _ _ = Ok _ |- _ =>
      apply res_bind_Ok_inv in H; destruct H as (? & ? & H)
  | H : Ok _ = Ok _ |- _ => injection H as H; try subst
  | H : Raise _ = Ok _ |- _ => discriminate H
  | H : Forever = Ok _ |- _ => discriminate H
  end.

(** *** Code that raises and keeps what it has done

    A step on a state: the state it leaves is there whether it returns or
    raises, as the attributes of an object are after an exception. *)
Definition SM (S A : Type) : Type := S -> res A * S.

#[export] Instance SM_ret S : MRet (SM S) := fun A a s => (Ok a, s).
#[export] Instance SM_bind S : MBind (SM S) := fun A B f m s =>
  match m s with
  | (Ok a, s') => f a s'
  | (Raise e, s') => (Raise e, s')
  | (Forever, s') => (Forever, s')
  end.

Definition sm_get {S A} (f : S -> A) : SM S A := fun s => (Ok (f s), s).
Definition sm_upd {S} (f : S -> S) : SM S unit := fun s => (Ok tt, f s).
Definition sm_res {S A} (m : res A) : SM S A := fun s => (m, s).

(** [try: m finally: fin]; a body that never ends never gets to [fin]. *)
Definition sm_finally {S A} (m : SM S A) (fin : SM S unit) : SM S A := fun s =>
  match m s with
  | (Forever, s1) => (Forever, s1)
  | (o, s1) =>
      match fin s1 with
      | (Ok _, s2) => (o, s2)
      | (Raise e, s2) => (Raise e, s2)
      | (Forever, s2) => (Forever, s2)
      end
  end.

(** [try: m except Exception as e: h(e)]; [SystemExit] is not an [Exception]. *)
Definition sm_except {S A} (m : SM S A) (h : exn -> SM S A) : SM S A := fun s =>
  match m s with
  | (Raise (SystemExit msg), s1) => (Raise (SystemExit msg), s1)
  | (Raise e, s1) => h e s1
  | x => x
  end.

Lemma sm_bind_Ok {S A B} (m : SM S A) (f : A -> SM S B) s a s' :
  m s = (Ok a, s') -> (m ≫= f) s = f a s'.
Proof. unfold mbind, SM_bind. by intros ->. Qed.

Lemma sm_bind_Ok_inv {S A B} (m : SM S A) (f : A -> SM S B) s b s' :
  (m ≫= f) s = (Ok b, s') -> exists a s1, m s = (Ok a, s1) /\ f a s1 = (Ok b, s').
Proof. unfold mbind, SM_bind. destruct (m s) as [[a|e|] s1]; [|done..]. intros E. by exists a, s1. Qed.

Lemma sm_bind_assoc {S A B C} (m : SM S A) (f : A -> SM S B) (g : B -> SM S C) s :
  ((m ≫= f) ≫= g) s = (m ≫= fun a => f a ≫= g) s.
Proof. unfold mbind, SM_bind. by destruct (m s) as [[] ?]. Qed.

Lemma sm_bind_ext {S A B} (m : SM S A) (f g : A -> SM S B) s :
  (forall a s', f a s' = g a s') -> (m ≫= f) s = (m ≫= g) s.
Proof. intros H. unfold mbind, SM_bind. destruct (m s) as [[] ?]; done || apply H. Qed.

(** *** Parts of the state a step never changes, whatever its outcome *)

Definition keeps {S A B} (f : S -> B) (m : SM S A) : Prop := forall s, f (m s).2 = f s.

Create HintDb keeps.

Section Keeps.
Context {S B : Type} (f : S -> B).

Lemma keeps_ret {A} (a : A) : keeps f (mret a : SM S A).
Proof. by intros s. Qed.

Lemma keeps_bind {A C} (m : SM S A) (k : A -> SM S C) :
  keeps f m -> (forall a, keeps f (k a)) -> keeps f (m ≫= k).
Proof.
  intros Hm Hk s. unfold mbind, SM_bind. specialize (Hm s).
  destruct (m s) as [[a|e|] s1]; cbn in *; [by rewrite (Hk a s1)|done..].
Qed.

Lemma keeps_get {A} (g : S -> A) : keeps f (sm_get g).
Proof. by intros s. Qed.

Lemma keeps_res {A} (r : res A) : keeps f (sm_res r).
Proof. by intros s. Qed.

Lemma keeps_upd (g : S -> S) : (forall s, f (g s) = f s) -> keeps f (sm_upd g).
Proof. intros H s. apply H. Qed.

Lemma keeps_if {A} (b : bool) (m1 m2 : SM S A) :
  keeps f m1 -> keeps f m2 -> keeps f (if b then m1 else m2).
Proof. by destruct b. Qed.
End Keeps.

#[export] Hint Resolve keeps_ret keeps_bind keeps_get keeps_res keeps_upd keeps_if : keeps.

(** Walks through a step; what is left are the calls without a hint. *)
Ltac keeps_step := repeat first
  [ progress intros | apply keeps_bind | apply keeps_if | apply keeps_ret | apply keeps_get
  | apply keeps_res | (apply keeps_upd; intros; done) | case_match ]; try done; auto with keeps.

(** *** Steps that never hang *)

Definition returns {S A} (m : SM S A) : Prop := forall s, (m s).1 <> Forever.

Create HintDb returns.

Section Returns.
Context {S : Type}.

Lemma returns_bind {A C} (m : SM S A) (k : A -> SM S C) :
  returns m -> (forall a, returns (k a)) -> returns (m ≫= k).
Proof.
  intros Hm Hk s. unfold mbind, SM_bind. specialize (Hm s).
  destruct (m s) as [[a|e|] s1]; [apply Hk|done..].
Qed.

Lemma returns_if {A} (b : bool) (m1 m2 : SM S A) : returns m1 -> returns m2 -> returns (if b then m1 else m2).
Proof. by destruct b. Qed.

Lemma returns_res {A} (r : res A) : r <> Forever -> returns (sm_res r : SM S A).
Proof. by intros H s. Qed.
End Returns.

(** Walks through a step; what is left are the calls without a hint. *)
Ltac returns_step := repeat first
  [ match goal with |- forall _, returns _ => intros ? end
  | apply returns_bind | apply returns_if | (apply returns_res; solve [done | auto with returns | by case_match])
  | match goal with |- returns _ => intros ?; cbn; discriminate end | case_match | done ]; auto with returns.

(** *** Invariants of a step, whatever its outcome *)

Definition preserves {S A} (P : S -> Prop) (m : SM S A) : Prop := forall s, P s -> P (m s).2.

Section Preserves.
Context {S : Type} (P : S -> Prop).

Lemma preserves_bind {A C} (m : SM S A) (k : A -> SM S C) :
  preserves P m -> (forall a, preserves P (k a)) -> preserves P (m ≫= k).
Proof.
  intros Hm Hk s Hs. unfold mbind, SM_bind. specialize (Hm s Hs).
  destruct (m s) as [[a|e|] s1]; [by apply Hk|done..].
Qed.

Lemma preserves_same {A} (m : SM S A) : (forall s, (m s).2 = s) -> preserves P m.
Proof. intros H s. by rewrite H. Qed.

Lemma preserves_upd (g : S -> S) : (forall s, P s -> P (g s)) -> preserves P (sm_upd g).
Proof. done. Qed.

Lemma preserves_except {A} (m : SM S A) (h : exn -> SM S A) :
  preserves P m -> (forall e, preserves P (h e)) -> preserves P (sm_except m h).
Proof.
  intros Hm Hh s Hs. unfold sm_except. specialize (Hm s Hs).
  destruct (m s) as [[a|e|] s1]; [done| |done]. destruct e; done || by apply Hh.
Qed.
End Preserves.

(** Walks through a step for an invariant. *)
Ltac preserves_step := repeat first
  [ progress intros | apply preserves_bind | apply preserves_except
  | (apply preserves_same; intros; done) | (apply preserves_upd; intros; by cbn in *) | case_match ].

(** ** Python slices

    [buf[a:b]] for offsets that are never negative: out-of-range bounds are
    clipped, and an empty range gives an empty slice. *)
Definition slice {A} (l : list A) (a b : Z) : list A :=
  take (Z.to_nat (b - a)) (drop (Z.to_nat a) l).

(** [buf[a:]] *)
Definition slice_from {A} (l : list A) (a : Z) : list A := drop (Z.to_nat a) l.

Declare Scope py_scope.
Delimit Scope py_scope with py.
Notation "l '.[' a ':' b ']'" := (slice l a%Z b%Z)
  (at level 1, a at level 80, b at level 80, left associativity,
   format "l .[ a  :  b ]") : py_scope.
Notation "l '.[' a ':' ]" := (slice_from l a%Z)
  (at level 1, a at level 80, left associativity, format "l .[ a  : ]") : py_scope.
Global Open Scope py_scope.

(** ** Automation *)

Create Rewrite HintDb zlen.

(** Rewrites the lengths of the list operations used below and closes the
    arithmetic that is left. *)
Ltac zlen :=
  unfold blen in *; repeat first
    [ progress autorewrite with zlen in *
    | rewrite length_app in *
    | rewrite length_drop in *
    | rewrite length_take in *
    | rewrite length_replicate in *
    | rewrite length_insert in *
    | rewrite length_fmap in *
    | rewrite LittleEndianList.length_le_split in * ];
  try lia.

(** A decidable fact about concrete values. *)
Ltac in_list := apply (bool_decide_unpack _); vm_compute; exact I.

(** Case analysis on every boolean comparison of integers in the goal. *)
Ltac zbool :=
  repeat match goal with
  | |- context [Z.ltb ?a ?b] => destruct (Z.ltb_spec a b)
  | |- context [Z.leb ?a ?b] => destruct (Z.leb_spec a b)
  | |- context [Z.eqb ?a ?b] => destruct (Z.eqb_spec a b)
  end.

(** ** Lists with integer offsets *)

Section Slices.
Context {A : Type}.
Implicit Types l : list A.

Lemma blen_nonneg l : 0 <= blen l.
Proof. unfold blen. lia. Qed.

Lemma blen_nil : blen (@nil A) = 0.
Proof. done. Qed.

Lemma blen_cons x l : blen (x :: l) = 1 + blen l.
Proof. unfold blen. cbn [length]. lia. Qed.

Lemma blen_app l1 l2 : blen (l1 ++ l2) = blen l1 + blen l2.
Proof. zlen. Qed.

Lemma blen_replicate n (x : A) : blen (replicate n x) = Z.of_nat n.
Proof. zlen. Qed.

Lemma blen_slice_from l a : 0 <= a -> blen (l.[a : ]) = Z.max 0 (blen l - a).
Proof. intros. unfold slice_from. zlen. Qed.

Lemma blen_slice l a b :
  0 <= a -> a <= b -> b <= blen l -> blen (l.[a : b]) = b - a.
Proof. intros. unfold slice. zlen. Qed.

Lemma slice_app_l l1 l2 a b :
  0 <= a -> b <= blen l1 -> (l1 ++ l2).[a : b] = l1.[a : b].
Proof.
  intros. unfold slice, blen in *.
  destruct (decide (a <= b)).
  - rewrite drop_app_le by lia. rewrite take_app_le; [done|]. zlen.
  - replace (Z.to_nat (b - a)) with 0%nat by lia. done.
Qed.

Lemma slice_app_r l1 l2 a b :
  blen l1 <= a ->
  (l1 ++ l2).[a : b] = l2.[a - blen l1 : b - blen l1].
Proof.
  intros. unfold slice, blen in *.
  rewrite drop_app_ge by lia. f_equal; [lia|]. f_equal. lia.
Qed.

Lemma slice_from_app_r l1 l2 a :
  blen l1 <= a -> (l1 ++ l2).[a : ] = l2.[a - blen l1 : ].
Proof.
  intros. unfold slice_from, blen in *.
  rewrite drop_app_ge by lia. f_equal. lia.
Qed.

Lemma slice_from_app_l l1 l2 a :
  0 <= a -> a <= blen l1 -> (l1 ++ l2).[a : ] = l1.[a : ] ++ l2.
Proof. intros. unfold slice_from, blen in *. apply drop_app_le. lia. Qed.

Lemma slice_all l b : blen l <= b -> l.[0 : b] = l.
Proof. intros. unfold slice, blen in *. rewrite drop_0. apply take_ge. lia. Qed.

Lemma slice_prefix l1 l2 : (l1 ++ l2).[0 : blen l1] = l1.
Proof. rewrite slice_app_l by lia. by apply slice_all. Qed.

Lemma slice_from_0 l : l.[0 : ] = l.
Proof. apply drop_0. Qed.

Lemma slice_from_blen l1 l2 : (l1 ++ l2).[blen l1 : ] = l2.
Proof. rewrite slice_from_app_r, Z.sub_diag by lia. apply slice_from_0. Qed.

Lemma slice_from_slice_from l a b :
  0 <= a -> 0 <= b -> l.[a : ].[b : ] = l.[a + b : ].
Proof. intros. unfold slice_from. rewrite drop_drop. f_equal. lia. Qed.

Lemma slice_slice_from l a b c :
  0 <= a -> 0 <= b -> l.[a : ].[b : c] = l.[a + b : a + c].
Proof.
  intros. unfold slice, slice_from. rewrite drop_drop.
  f_equal; [lia|]. f_equal. lia.
Qed.

Lemma slice_split l a b :
  0 <= a -> a <= b -> b <= blen l -> l.[a : ] = l.[a : b] ++ l.[b : ].
Proof.
  intros. unfold slice, slice_from.
  rewrite <-(take_drop (Z.to_nat (b - a)) (drop (Z.to_nat a) l)) at 1.
  f_equal. rewrite drop_drop. f_equal. lia.
Qed.

Lemma slice_empty l a b : b <= a -> l.[a : b] = [].
Proof. intros. unfold slice. by replace (Z.to_nat (b - a)) with 0%nat by lia. Qed.
End Slices.

Create Rewrite HintDb blen.
#[export] Hint Rewrite @blen_nil @blen_cons @blen_app @blen_replicate : blen.

(** ** Integers *)

(** [(x + 7) & ~7]: the next multiple of eight. *)
Lemma land_lnot_7 x : Z.land x (Z.lnot 7) = x / 8 * 8.
Proof.
  change 7 with (Z.ones 3). rewrite <-Z.ldiff_land, Z.ldiff_ones_r by lia.
  rewrite Z.shiftl_mul_pow2, Z.shiftr_div_pow2 by lia. done.
Qed.

Lemma div_ceil_spec a b : 0 < b -> (a + b - 1) / b * b < a + b /\ a <= (a + b - 1) / b * b.
Proof. intros. pose proof (Z.div_mod (a + b - 1) b). pose proof (Z.mod_pos_bound (a + b - 1) b). nia. Qed.

(** ** Extents

    Runs [(start, length)] of sectors or of bytes. *)
Definition in_extent (x : Z) (e : Z * Z) : Prop := e.1 <= x < e.1 + e.2.

(** Extents that are non-empty, sorted and separated by at least one unit. *)
Fixpoint separated (lo : Z) (es : list (Z * Z)) : Prop :=
  match es with
  | [] => True
  | e :: es' => lo <= e.1 /\ 0 < e.2 /\ separated (e.1 + e.2 + 1) es'
  end.

Lemma separated_mono lo lo' es : lo' <= lo -> separated lo es -> separated lo' es.
Proof. destruct es as [|e es]; cbn; [done|]. intros ? (?&?&?). repeat split; lia || done. Qed.

Lemma separated_bound lo es x : separated lo es -> Exists (in_extent x) es -> lo <= x.
Proof.
  revert lo; induction es as [|e es IH]; intros lo; [by rewrite Exists_nil|].
  cbn. rewrite Exists_cons. intros (Hlo&Hpos&Hs) [[Hx _]|Hx]; [lia|].
  specialize (IH _ Hs Hx). lia.
Qed.

Lemma separated_nonneg lo es :
  0 <= lo -> separated lo es -> Forall (fun e => 0 <= e.1 /\ 0 <= e.2) es.
Proof.
  revert lo; induction es as [|e es IH]; intros lo Hlo; [done|].
  intros (? & ? & Hs). constructor; [lia|]. apply (IH (e.1 + e.2 + 1)); [lia|done].
Qed.
