(* ===== verification/PyString.v ===== *)
(** * Python's strings and paths

    [str.strip], [str.split], [str.startswith], [os.path.basename] and
    [os.path.dirname] for ASCII text, with what the programs rely on: the
    fields of a line are what was joined, a path splits into its directory and
    its name. *)
From Stdlib Require Import Ascii.
From S2P Require Import Prelude.

Abbreviation chars := String.list_ascii_of_string.
Abbreviation of_chars := String.string_of_list_ascii.

Infix "+++" := String.append (at level 60, right associativity) : string_scope.

Lemma chars_app s t : chars (s +++ t)%string = chars s ++ chars t.
Proof. induction s as [|c s IH]; [done|]. change (c :: chars (s +++ t)%string = c :: (chars s ++ chars t)). by rewrite IH. Qed.

Lemma of_chars_app l1 l2 : of_chars (l1 ++ l2) = (of_chars l1 +++ of_chars l2)%string.
Proof.
  induction l1 as [|c l1 IH]; [done|].
  change (String c (of_chars (l1 ++ l2)) = String c (of_chars l1 +++ of_chars l2)%string). by rewrite IH.
Qed.

Lemma chars_inj s t : chars s = chars t -> s = t.
Proof. intros H. apply (f_equal of_chars) in H. by rewrite !String.string_of_list_ascii_of_string in H. Qed.

Lemma append_assoc s t u : ((s +++ t) +++ u)%string = (s +++ t +++ u)%string.
Proof. apply chars_inj. by rewrite !chars_app, app_assoc. Qed.

Lemma append_inj_l s t u : (s +++ t)%string = (s +++ u)%string -> t = u.
Proof. intros H. apply chars_inj. apply (f_equal String.list_ascii_of_string) in H. rewrite !chars_app in H. by apply app_inv_head in H. Qed.

(** ** White space *)

Definition is_space (c : ascii) : bool :=
  let n := nat_of_ascii c in (n =? 32)%nat || ((9 <=? n)%nat && (n <=? 13)%nat) || ((28 <=? n)%nat && (n <=? 31)%nat).

Fixpoint lstrip (s : list ascii) : list ascii :=
  match s with c :: s' => if is_space c then lstrip s' else s | [] => [] end.

(** [s.strip()] *)
Definition strip (s : list ascii) : list ascii := reverse (lstrip (reverse (lstrip s))).

Definition strip_str (s : string) : string := of_chars (strip (chars s)).

(** [str.lower], for ASCII. *)
Definition lower (s : string) : string :=
  String.string_of_list_ascii ((fun c : Ascii.ascii => let n := Ascii.nat_of_ascii c in
    if ((65 <=? n) && (n <=? 90))%nat then Ascii.ascii_of_nat (n + 32) else c) <$> String.list_ascii_of_string s).

(** [s.split()]: the fields between runs of white space. *)
Fixpoint split_from (word : list ascii) (s : list ascii) : list (list ascii) :=
  match s with
  | [] => if decide (word = []) then [] else [reverse word]
  | c :: s' =>
      if is_space c
      then (if decide (word = []) then split_from [] s' else reverse word :: split_from [] s')
      else split_from (c :: word) s'
  end.

Definition split (s : string) : list string := of_chars <$> split_from [] (chars s).

(** A field: not empty, and no white space in it. *)
Definition field (w : string) : Prop := w <> ""%string /\ Forall (fun c => is_space c = false) (chars w).

#[export] Instance field_dec w : Decision (field w).
Proof. unfold field. apply _. Defined.

Lemma lstrip_id s : (match s with c :: _ => is_space c = false | [] => True end) -> lstrip s = s.
Proof. destruct s as [|c s]; [done|]. cbn. by intros ->. Qed.

Lemma split_from_word word w s :
  Forall (fun c => is_space c = false) w -> split_from word (w ++ s) = split_from (reverse w ++ word) s.
Proof.
  intros Hw. revert word. induction Hw as [|c w Hc _ IH]; intros word; [done|].
  cbn [app split_from]. rewrite Hc, IH, reverse_cons. by rewrite <-app_assoc.
Qed.

(** The first field of a line, and the fields after it. *)
Lemma split_field w s :
  field w -> split (w +++ (String " " s))%string = w :: split s.
Proof.
  intros [Hne Hw]. unfold split. rewrite chars_app, split_from_word by done. cbn [chars split_from].
  assert (reverse (chars w) ++ [] <> []) as Hr.
  { rewrite app_nil_r. intros E%(f_equal reverse). rewrite reverse_involutive in E. by destruct w. }
  change (is_space " ") with true. cbn iota. rewrite decide_False by done.
  by rewrite app_nil_r, reverse_involutive, fmap_cons, String.string_of_list_ascii_of_string.
Qed.

Lemma split_last w : field w -> split w = [w].
Proof.
  intros [Hne Hw]. unfold split. rewrite <-(app_nil_r (chars w)), split_from_word by done. cbn [split_from].
  rewrite decide_False.
  - by rewrite app_nil_r, reverse_involutive; cbn; rewrite String.string_of_list_ascii_of_string.
  - rewrite app_nil_r. intros E%(f_equal reverse). rewrite reverse_involutive in E. by destruct w.
Qed.

(** Joining fields with blanks is undone by [split]. *)
Lemma split_concat ws : Forall field ws -> split (String.concat " " ws) = ws.
Proof.
  induction 1 as [|w ws Hw Hws IH]; [done|]. destruct ws as [|w' ws]; [by apply split_last|].
  cbn [String.concat] in *. change (" " +++ ?s)%string with (String " " s). by rewrite split_field, IH.
Qed.

(** ** Paths *)

Definition is_slash (c : ascii) : bool := Ascii.eqb c "/".

Fixpoint until_slash (s : list ascii) : list ascii :=
  match s with c :: s' => if is_slash c then [] else c :: until_slash s' | [] => [] end.

Fixpoint from_slash (s : list ascii) : list ascii :=
  match s with c :: s' => if is_slash c then s else from_slash s' | [] => [] end.

(** [os.path.basename] *)
Definition basename (p : string) : string := of_chars (reverse (until_slash (reverse (chars p)))).

Fixpoint drop_slashes (s : list ascii) : list ascii :=
  match s with c :: s' => if is_slash c then drop_slashes s' else s | [] => [] end.

(** [os.path.dirname]: without the name and, unless nothing else is left,
    without the slashes before it. *)
Definition dirname (p : string) : string :=
  let head := from_slash (reverse (chars p)) in
  of_chars (reverse (match drop_slashes head with [] => head | d => d end)).

(** [os.path.join(d, b)] for a relative [b] and a [d] without a slash at its
    end. *)
Definition path_join (d b : string) : string := (d +++ String "/" b)%string.

Definition no_slash (b : string) : Prop := Forall (fun c => is_slash c = false) (chars b).

Lemma until_slash_stop w s : Forall (fun c => is_slash c = false) w -> until_slash (w ++ "/"%char :: s) = w.
Proof. induction 1 as [|c w Hc _ IH]; cbn; [done|]. by rewrite Hc, IH. Qed.

Lemma from_slash_stop w s : Forall (fun c => is_slash c = false) w -> from_slash (w ++ "/"%char :: s) = "/"%char :: s.
Proof. induction 1 as [|c w Hc _ IH]; cbn; [done|]. by rewrite Hc, IH. Qed.

Lemma chars_join d b : reverse (chars (path_join d b)) = reverse (chars b) ++ "/"%char :: reverse (chars d).
Proof.
  unfold path_join. rewrite chars_app, reverse_app. cbn [chars]. by rewrite reverse_cons, <-app_assoc.
Qed.

Lemma basename_join d b : no_slash b -> basename (path_join d b) = b.
Proof.
  intros Hb. unfold basename. rewrite chars_join, until_slash_stop by by apply Forall_reverse.
  by rewrite reverse_involutive, String.string_of_list_ascii_of_string.
Qed.

Lemma dirname_join d b :
  no_slash b -> (exists c s, reverse (chars d) = c :: s /\ is_slash c = false) -> dirname (path_join d b) = d.
Proof.
  intros Hb (c & s & E & Hc). unfold dirname. rewrite chars_join, from_slash_stop by by apply Forall_reverse.
  cbn [drop_slashes]. change (is_slash "/") with true. cbn iota.
  assert (drop_slashes (reverse (chars d)) = reverse (chars d)) as ->
    by (rewrite E; cbn [drop_slashes]; by rewrite Hc).
  rewrite E, <-E. by rewrite reverse_involutive, String.string_of_list_ascii_of_string.
Qed.

(** [s.startswith(p)] *)
Abbreviation startswith s p := (String.prefix p s).

Lemma startswith_append p s : startswith (p +++ s)%string p = true.
Proof.
  induction p as [|c p IH]; [by destruct s|].
  change (startswith (String c (p +++ s)) (String c p) = true)%string. cbn [String.prefix].
  destruct (Ascii.ascii_dec c c); done.
Qed.

Example split_example : split "0 64 cdp 8:0 0
" = ["0"; "64"; "cdp"; "8:0"; "0"]%string.
Proof. done. Qed.

Example dirname_example : map dirname ["/etc/rkcdp/rkcdp.conf"; "/a"; "b"]%string = ["/etc/rkcdp"; "/"; ""]%string.
Proof. done. Qed.
