(* ===== verification/Target.v ===== *)
(** * Configuration and target ([load_conf], [ensure_target])

    What the daemon does before it reads a record: the configuration file over
    the built-in values, the settings taken from it, and the device-mapper
    target that is adopted or created by running [dmsetup], [modprobe] and
    [blockdev].  What those commands answer depends on all that ran before
    them and is an argument; the commands that ran are part of the state. *)
From Stdlib Require Import Ascii QArith FunctionalExtensionality.
From stdpp Require Import pretty fin_maps.
From S2P Require Import Prelude PyString.

Local Open Scope Z_scope.

(** ** Configuration *)

(** A JSON value of the configuration file. *)
Inductive jval : Type :=
  | JNull
  | JBool (b : bool)
  | JInt (n : Z)
  | JFloat (q : Q)
  | JStr (s : string).

Abbreviation conf := (gmap string jval).

Definition CONF : string := "/etc/rkcdp/rkcdp.conf".

(** [bool(v)] *)
Definition jtruthy (v : jval) : bool :=
  match v with
  | JNull => false
  | JBool b => b
  | JInt n => negb (n =? 0)
  | JFloat q => negb (Qeq_bool q 0)
  | JStr s => negb (bool_decide (s = ""%string))
  end.

(** [conf.get(k)] *)
Definition conf_get (c : conf) (k : string) : jval := default JNull (c !! k).

(** [conf[k]], where a string is needed: as a command's argument, or in a path. *)
Definition conf_str (c : conf) (k : string) : res string :=
  match c !! k with
  | Some (JStr s) => Ok s
  | Some _ => Raise TypeError
  | None => Raise KeyError
  end.

Lemma conf_str_returns c k : conf_str c k <> Forever.
Proof. unfold conf_str. by repeat case_match. Qed.

#[export] Hint Resolve conf_str_returns : returns.

Definition default_conf (hostname : string) : conf :=
  list_to_map [("device", JNull); ("dm_name", JStr "rkcdp"); ("journal", JStr "/replication/_kvmdr/rkcdp");
    ("node", JStr hostname); ("cycle_sec", JFloat 1); ("base_copy_mbps", JInt 15)]%string.

(** The configuration file: missing, no JSON object, or an object. *)
Inductive conf_file : Type := NoFile | NotJson | Object (c : conf).

Definition load_conf (hostname : string) (f : conf_file) : res conf :=
  match f with
  | NoFile => Ok (default_conf hostname)
  | NotJson => Raise (ValueError 0)
  | Object c => Ok (c ∪ default_conf hostname)
  end.

(** [os.path.join] *)
Definition os_join (a b : string) : string :=
  if startswith b "/" then b
  else match last (chars a) with
       | None => b
       | Some c => if is_slash c then (a +++ b)%string else path_join a b
       end.

(** What [Daemon.__init__] takes from the configuration. *)
Record settings : Type := mk_settings {
  se_root : string;
  se_mbps : jval;
  se_cycle_sec : Q;
  se_seed_required : bool;           (* bool(conf.get("seed_required")) *)
  se_consistent_sec : Q;
  se_freeze_cap_sec : Q;
}.

Section Settings.
(** [float] of a string *)
Variable float_str : string -> res Q.

Definition py_float (v : jval) : res Q :=
  match v with
  | JNull => Raise TypeError
  | JBool b => Ok (if b then 1%Q else 0%Q)
  | JInt n => Ok (inject_Z n)
  | JFloat q => Ok q
  | JStr s => float_str s
  end.

(** [v or d] *)
Definition py_or (v d : jval) : jval := if jtruthy v then v else d.

Definition Daemon_settings (c : conf) : res settings :=
  journal ← conf_str c "journal";
  node ← conf_str c "node";
  cycle ← match c !! "cycle_sec"%string with Some v => py_float v | None => Raise KeyError end;
  consistent ← py_float (py_or (conf_get c "consistent_sec") (JInt 3600));
  cap ← py_float (py_or (conf_get c "freeze_cap_sec") (JInt 30));
  Ok (mk_settings (os_join journal node) (py_or (conf_get c "base_copy_mbps") (JInt 0)) cycle
        (jtruthy (conf_get c "seed_required")) consistent cap).
End Settings.

(** ** Running commands *)

(** Python's [int] of a string: blanks around it, a sign, digits with single
    underscores between them. *)
Definition digit_Z (c : ascii) : option Z :=
  let n := Z.of_nat (nat_of_ascii c) in
  if (48 <=? n) && (n <=? 57) then Some (n - 48) else None.

Fixpoint digits_Z (acc : Z) (after_digit : bool) (s : list ascii) : option Z :=
  match s with
  | [] => if after_digit then Some acc else None
  | c :: s' =>
      match digit_Z c with
      | Some d => digits_Z (10 * acc + d) true s'
      | None => if Ascii.eqb c "_" && after_digit then digits_Z acc false s' else None
      end
  end.

Definition py_int (s : string) : option Z :=
  match strip (chars s) with
  | "-"%char :: s' => Z.opp <$> digits_Z 0 false s'
  | "+"%char :: s' => digits_Z 0 false s'
  | s' => digits_Z 0 false s'
  end.

Record completed : Type := mk_completed {
  cp_returncode : Z;
  cp_stdout : string;
}.

Record tgt : Type := mk_tgt {
  t_conf : conf;
  t_ran : list (list string);        (* the commands run so far *)
}.

Section Target.
(** What a command answers after the given ones; [None]: there is no such
    program. *)
Variable answer : list (list string) -> list string -> option completed.
(** [os.path.realpath] *)
Variable realpath : string -> string.

Definition run (cmd : list string) (check : bool) : SM tgt completed := fun s =>
  let s' := mk_tgt (t_conf s) (t_ran s ++ [cmd]) in
  match answer (t_ran s) cmd with
  | None => (Raise OSError, s')
  | Some c => (if check && negb (cp_returncode c =? 0) then Raise (CalledProcessError cmd) else Ok c, s')
  end.

Definition blockdev_sectors (dev : string) : SM tgt Z :=
  c ← run ["blockdev"; "--getsz"; dev]%string true;
  sm_res (match py_int (cp_stdout c) with Some n => Ok n | None => Raise (ValueError 0) end).

Definition root_disk : SM tgt string :=
  c ← run ["findmnt"; "-n"; "-o"; "SOURCE"; "/"]%string true;
  let name := basename (realpath (strip_str (cp_stdout c))) in
  mret ("/dev/" +++ basename (realpath ("/sys/class/block/" +++ name +++ "/..")))%string.

Definition not_cdp (name text : string) : string := ("dm " +++ name +++ " is not a cdp target: " +++ text)%string.

Definition table_device (name : string) : SM tgt string :=
  c ← run ["dmsetup"; "table"; name]%string true;
  let tbl := split (cp_stdout c) in
  let bad := sm_res (Raise (SystemExit (not_cdp name (String.concat " " tbl)))) in
  match tbl with
  | _ :: _ :: kind :: node :: _ :: _ =>
      if bool_decide (kind = "cdp"%string)
      then mret ("/dev/" +++ basename (realpath ("/sys/dev/block/" +++ node)))%string
      else bad
  | _ => bad
  end.

Definition set_device (dev : string) (s : tgt) : tgt :=
  mk_tgt (<["device"%string := JStr dev]> (t_conf s)) (t_ran s).

Definition not_wrapped (disk : string) : string :=
  ("root disk " +++ disk +++ " is not wrapped: install the initramfs hook and reboot, or set 'device' in "
    +++ CONF +++ " to a non-root disk")%string.

(** [out.find(w) < 0] *)
Definition not_found (w out : string) : bool := bool_decide (String.index 0 w out = None).

(** The module, the device and its size: what the new table needs. *)
Definition attach_prepare : SM tgt (string * Z) :=
  mods ← run ["lsmod"]%string true;
  (if not_found "dm_cdp" (cp_stdout mods)
   then run ["modprobe"; "dm-cdp"]%string true ≫= fun _ => mret tt
   else mret tt);;
  c ← sm_get t_conf;
  dev ← sm_res (conf_str c "device");
  n ← blockdev_sectors dev;
  mret (dev, n).

(** The [else] branch of [ensure_target]. *)
Definition attach (name : string) : SM tgt completed :=
  c ← sm_get t_conf;
  if negb (jtruthy (conf_get c "device")) then
    disk ← root_disk;
    sm_res (Raise (SystemExit (not_wrapped disk)))
  else
    '(dev, n) ← attach_prepare;
    run ["dmsetup"; "create"; name; "--table"; "0 " +++ pretty n +++ " cdp " +++ dev +++ " 0"]%string true;;
    run ["dmsetup"; "status"; name]%string true.

(** The ring device a status line names. *)
Definition ring_device (name out : string) : res string :=
  match split out with
  | _ :: _ :: kind :: node :: _ =>
      if bool_decide (kind = "cdp"%string) then Ok ("/dev/" +++ node)%string
      else Raise (SystemExit (not_cdp name (strip_str out)))
  | _ => Raise (SystemExit (not_cdp name (strip_str out)))
  end.

Definition ensure_target : SM tgt string :=
  c ← sm_get t_conf;
  name ← sm_res (conf_str c "dm_name");
  st ← run ["dmsetup"; "status"; name]%string false;
  st' ← (if cp_returncode st =? 0
         then dev ← table_device name; sm_upd (set_device dev);; mret st
         else attach name);
  sm_res (ring_device name (cp_stdout st')).

(** ** The device mapper behind the commands *)

Record mapping : Type := mk_mapping {
  mp_kind : string;                  (* the target: cdp, linear, ... *)
  mp_node : string;                  (* cdp0: the name of the ring device *)
  mp_devno : string;                 (* 8:0, the device under it *)
}.

(** What the tools document: [status] and [table] describe the mapping, only
    [create] changes one, and it does so exactly when it exits with 0. *)
Class DmTools (dm : list (list string) -> string -> option mapping) : Prop := {
  dm_status h name :
    match dm h name with
    | None => exists c, answer h ["dmsetup"; "status"; name]%string = Some c /\ cp_returncode c <> 0
    | Some m => exists out start len rest,
        answer h ["dmsetup"; "status"; name]%string = Some (mk_completed 0 out) /\
        split out = start :: len :: mp_kind m :: rest /\
        (mp_kind m = "cdp"%string -> exists rest', rest = mp_node m :: rest')
    end;
  dm_table h name m :
    dm h name = Some m ->
    exists out start len rest, answer h ["dmsetup"; "table"; name]%string = Some (mk_completed 0 out) /\
      split out = start :: len :: mp_kind m :: rest /\
      (mp_kind m = "cdp"%string -> exists off rest', rest = mp_devno m :: off :: rest');
  dm_query h cmd : take 2 cmd <> ["dmsetup"; "create"]%string -> dm (h ++ [cmd]) = dm h;
  dm_create h name dev n other :
    dm h name = None ->
    let cmd := ["dmsetup"; "create"; name; "--table"; "0 " +++ pretty (n : Z) +++ " cdp " +++ dev +++ " 0"]%string in
    exists c, answer h cmd = Some c /\
      (cp_returncode c <> 0 -> dm (h ++ [cmd]) other = dm h other) /\
      (cp_returncode c = 0 -> (other <> name -> dm (h ++ [cmd]) other = dm h other) /\
         exists m, dm (h ++ [cmd]) name = Some m /\ mp_kind m = "cdp"%string);
}.

Lemma run_spec cmd check s r s' :
  run cmd check s = (r, s') ->
  s' = mk_tgt (t_conf s) (t_ran s ++ [cmd]) /\
  match r with
  | Ok c => answer (t_ran s) cmd = Some c /\ (check = true -> cp_returncode c = 0)
  | Raise _ => answer (t_ran s) cmd = None \/
      exists c, answer (t_ran s) cmd = Some c /\ check = true /\ cp_returncode c <> 0
  | Forever => False
  end.
Proof.
  unfold run. destruct (answer (t_ran s) cmd) as [c|] eqn:E; intros [= <- <-]; [|by split; [|left]].
  split; [done|]. destruct check; cbn [andb].
  - destruct (Z.eqb_spec (cp_returncode c) 0); cbn [negb]; [done|]. right. by exists c.
  - done.
Qed.

Lemma keeps_run_conf cmd check : keeps t_conf (run cmd check).
Proof. intros s. destruct (run cmd check s) as [r s'] eqn:E. by apply run_spec in E as [-> _]. Qed.

Lemma returns_run cmd check : returns (run cmd check).
Proof. intros s. destruct (run cmd check s) as [r s'] eqn:E. apply run_spec in E as [-> H]. by destruct r. Qed.

#[local] Hint Resolve keeps_run_conf : keeps.
#[local] Hint Resolve returns_run : returns.

Lemma keeps_attach_conf name : keeps t_conf (attach name).
Proof. unfold attach, attach_prepare, blockdev_sectors, root_disk. keeps_step. Qed.

Lemma returns_attach name : returns (attach name).
Proof. unfold attach, attach_prepare, blockdev_sectors, root_disk. returns_step. Qed.

Section Refinement.
Context {dm : list (list string) -> string -> option mapping} {tools : DmTools dm}.

(** The mappings as they are after what has run. *)
Definition dm_of (s : tgt) : string -> option mapping := dm (t_ran s).

Lemma keeps_run cmd check :
  take 2 cmd <> ["dmsetup"; "create"]%string -> keeps dm_of (run cmd check).
Proof.
  intros H s. destruct (run cmd check s) as [r s'] eqn:E. apply run_spec in E as [-> _].
  unfold dm_of. cbn. by rewrite dm_query.
Qed.

Lemma keeps_root_disk : keeps dm_of root_disk.
Proof. unfold root_disk. keeps_step. by apply keeps_run. Qed.

Lemma keeps_blockdev dev : keeps dm_of (blockdev_sectors dev).
Proof. unfold blockdev_sectors. keeps_step. by apply keeps_run. Qed.

Lemma keeps_table_device name : keeps dm_of (table_device name).
Proof. unfold table_device. keeps_step; by apply keeps_run. Qed.

(** What [table_device] finds under a mapping. *)
Lemma table_device_run name s m :
  dm_of s name = Some m ->
  let s' := mk_tgt (t_conf s) (t_ran s ++ [["dmsetup"; "table"; name]%string]) in
  if bool_decide (mp_kind m = "cdp"%string)
  then table_device name s = (Ok ("/dev/" +++ basename (realpath ("/sys/dev/block/" +++ mp_devno m)))%string, s')
  else exists msg, table_device name s = (Raise (SystemExit msg), s').
Proof.
  intros Em. destruct (dm_table _ _ _ Em) as (out & st & len & rest & Ea & Es & Hc).
  unfold table_device, mbind, SM_bind, run. rewrite Ea. cbn [negb andb Z.eqb cp_returncode cp_stdout].
  rewrite Es. case_bool_decide as Hk.
  - destruct (Hc Hk) as (off & rest' & ->). done.
  - destruct rest as [|node [|off rest]]; [by eexists..|]. by eexists.
Qed.

(** The first [dmsetup status]. *)
Lemma status_run name s check :
  let cmd := ["dmsetup"; "status"; name]%string in
  let s' := mk_tgt (t_conf s) (t_ran s ++ [cmd]) in
  dm_of s' = dm_of s /\
  match dm_of s name with
  | None => exists c, cp_returncode c <> 0 /\
      run cmd check s = (if check then Raise (CalledProcessError cmd) else Ok c, s')
  | Some m => exists out start len rest, run cmd check s = (Ok (mk_completed 0 out), s') /\
      split out = start :: len :: mp_kind m :: rest /\
      (mp_kind m = "cdp"%string -> exists rest', rest = mp_node m :: rest')
  end.
Proof.
  intros cmd s'. unfold s', cmd. clear s' cmd. split; [unfold dm_of; cbn; by rewrite dm_query|].
  pose proof (dm_status (t_ran s) name) as H. unfold dm_of. destruct (dm (t_ran s) name) as [m|].
  - destruct H as (out & st & len & rest & Ea & Es & Hc). exists out, st, len, rest.
    unfold run. rewrite Ea. cbn. by rewrite andb_false_r.
  - destruct H as (c & Ea & Hc). exists c. split; [done|]. unfold run. rewrite Ea.
    rewrite (proj2 (Z.eqb_neq _ _) Hc). by destruct check.
Qed.

Lemma keeps_attach_prepare : keeps dm_of attach_prepare.
Proof. unfold attach_prepare, blockdev_sectors. keeps_step; by apply keeps_run. Qed.

(** The [dmsetup create] of [attach]. *)
Lemma create_run name dev n s r s' :
  dm_of s name = None ->
  run ["dmsetup"; "create"; name; "--table"; "0 " +++ pretty (n : Z) +++ " cdp " +++ dev +++ " 0"]%string true s = (r, s') ->
  match r with
  | Ok _ => (forall other, other <> name -> dm_of s' other = dm_of s other) /\
      exists m, dm_of s' name = Some m /\ mp_kind m = "cdp"%string
  | Raise _ => forall other, dm_of s' other = dm_of s other
  | Forever => False
  end.
Proof.
  intros Hn [-> H]%run_spec. unfold dm_of in *. cbn [t_ran].
  pose proof (fun other => dm_create (t_ran s) name dev n other Hn) as D. cbv zeta in D.
  destruct r as [c|e|]; [| |done].
  - destruct H as [Ea H0]. specialize (H0 eq_refl). split.
    + intros other Hne. destruct (D other) as (c' & Ea' & _ & Hyes).
      assert (c' = c) as -> by congruence. by apply (Hyes H0).
    + destruct (D name) as (c' & Ea' & _ & Hyes). assert (c' = c) as -> by congruence. by apply (Hyes H0).
  - intros other. destruct (D other) as (c' & Ea' & Hno & _).
    destruct H as [H|(c & Ea & _ & H)]; [congruence|]. apply Hno. congruence.
Qed.

(** What [attach] does where there is no mapping of that name. *)
Lemma attach_run name s r s' :
  dm_of s name = None -> attach name s = (r, s') ->
  t_conf s' = t_conf s /\
  match r with
  | Ok st => jtruthy (conf_get (t_conf s) "device") = true /\
      (forall other, other <> name -> dm_of s' other = dm_of s other) /\
      exists m start len rest, dm_of s' name = Some m /\ mp_kind m = "cdp"%string /\
        split (cp_stdout st) = start :: len :: mp_kind m :: mp_node m :: rest
  | Raise e => forall other, dm_of s' other = dm_of s other
  | Forever => False
  end.
Proof.
  intros Hn E.
  assert (Hc : t_conf s' = t_conf s) by (pose proof (keeps_attach_conf name s) as K; by rewrite E in K).
  assert (Hr : r <> Forever) by (pose proof (returns_attach name s) as K; by rewrite E in K).
  split; [done|]. revert E. unfold attach. rewrite (sm_bind_Ok _ _ s (t_conf s) s) by done.
  destruct (jtruthy (conf_get (t_conf s) "device")) eqn:Ej; cbn [negb].
  2:{ intros E. assert (K : dm_of s' = dm_of s).
      { transitivity (dm_of (snd (r, s'))); [done|]. rewrite <-E.
        assert (keeps dm_of (disk ← root_disk; sm_res (Raise (SystemExit (not_wrapped disk)) : res completed))) as K'
          by (apply keeps_bind; [apply keeps_root_disk|intros; apply keeps_res]). apply K'. }
      revert E. unfold mbind, SM_bind, sm_res. destruct (root_disk s) as [[] ?]; intros [= <- <-]; by rewrite ?K. }
  pose proof (keeps_attach_prepare s) as Hp. unfold mbind at 1, SM_bind at 1.
  destruct (attach_prepare s) as [[[dev n]|e|] s1] eqn:Ep; cbn in Hp; [|intros [= <- <-]; by rewrite Hp|by intros [= <- <-]].
  unfold mbind at 1, SM_bind at 1. destruct (run _ true s1) as [r2 s2] eqn:Er.
  pose proof (create_run _ _ _ _ _ _ ltac:(by rewrite Hp) Er) as Hm.
  destruct r2 as [c|e|]; [|intros [= <- <-] other; by rewrite Hm, Hp|done].
  destruct Hm as (Hother & m & Em & Hk). destruct (status_run name s2 true) as [Hs2 Hst].
  rewrite Em in Hst. destruct Hst as (out & start & len & rest & Er2 & Es & Hrest).
  rewrite Er2. intros [= <- <-]. destruct (Hrest Hk) as (rest' & ->).
  split; [done|]. split; [intros other Hne; by rewrite Hs2, Hother, Hp|].
  exists m, start, len, rest'. by rewrite Hs2.
Qed.

Lemma ring_device_cdp name out start len m rest :
  split out = start :: len :: mp_kind m :: mp_node m :: rest -> mp_kind m = "cdp"%string ->
  ring_device name out = Ok ("/dev/" +++ mp_node m)%string.
Proof. intros Es Hk. unfold ring_device. by rewrite Es, bool_decide_eq_true_2. Qed.

(** C34: the daemon's target.  It comes up on a [cdp] mapping of the configured
    name and reads that mapping's ring: the mapping that was there, which is
    left as it is and whose device becomes the configuration's, or, where
    there was none, one it creates over the configured device.  No other
    mapping changes; and where it fails none changes at all. *)
Theorem ensure_target_refines c ran name r s' :
  conf_str c "dm_name" = Ok name -> ensure_target (mk_tgt c ran) = (r, s') ->
  match r with
  | Ok path => exists m, dm_of s' name = Some m /\ mp_kind m = "cdp"%string /\
      path = ("/dev/" +++ mp_node m)%string /\
      match dm ran name with
      | Some _ => (forall other, dm_of s' other = dm ran other) /\
          t_conf s' = <["device"%string := JStr ("/dev/" +++ basename (realpath ("/sys/dev/block/" +++ mp_devno m)))]> c
      | None => (forall other, other <> name -> dm_of s' other = dm ran other) /\
          jtruthy (conf_get c "device") = true /\ t_conf s' = c
      end
  | Raise _ => forall other, dm_of s' other = dm ran other
  | Forever => False
  end.
Proof.
  intros Hname. set (s := mk_tgt c ran). unfold ensure_target.
  rewrite (sm_bind_Ok _ _ s c s) by done. rewrite (sm_bind_Ok _ _ s name s) by (unfold sm_res; by rewrite Hname).
  change (dm ran) with (dm_of s). destruct (status_run name s false) as [Hs1 Hst]. unfold mbind at 1, SM_bind at 1.
  destruct (dm_of s name) as [m|] eqn:Em.
  - destruct Hst as (out & start & len & rest & -> & Es & Hrest). cbn [cp_returncode Z.eqb].
    set (s1 := mk_tgt (t_conf s) _) in *.
    pose proof (table_device_run name s1 m ltac:(by rewrite Hs1)) as Ht.
    pose proof (keeps_table_device name s1) as Hk. rewrite Hs1 in Hk.
    case_bool_decide as Hcdp.
    + unfold mbind, SM_bind, sm_upd, mret, SM_ret, sm_res. rewrite Ht in Hk |- *. cbn [cp_stdout].
      destruct (Hrest Hcdp) as (rest' & ->). rewrite (ring_device_cdp _ _ _ _ _ _ Es Hcdp). intros [= <- <-].
      exists m. assert (dm_of (set_device _ _) = dm_of s) as -> by exact Hk. done.
    + destruct Ht as (msg & Ht). unfold mbind, SM_bind. rewrite Ht in Hk |- *. cbn in Hk. intros [= <- <-] other. by rewrite Hk.
  - destruct Hst as (st & Hrc & ->). set (s1 := mk_tgt (t_conf s) _) in *.
    rewrite (proj2 (Z.eqb_neq _ _) Hrc). unfold mbind at 1, SM_bind at 1.
    destruct (attach name s1) as [r2 s2] eqn:Ea.
    destruct (attach_run _ _ _ _ ltac:(by rewrite Hs1) Ea) as [Hc H].
    destruct r2 as [st2|e|]; [|intros [= <- <-] other; by rewrite H, Hs1|done].
    destruct H as (Hj & Hother & m & start & len & rest & Em2 & Hk & Es).
    unfold sm_res. rewrite (ring_device_cdp _ _ _ _ _ _ Es Hk). intros [= <- <-]. exists m. split_and!; try done.
    intros other Hne. by rewrite Hother, Hs1.
Qed.

(** The tools an [attach] needs do their work. *)
Record tools_work (name dev : string) : Prop := {
  work_lsmod h : exists out, answer h ["lsmod"]%string = Some (mk_completed 0 out);
  work_modprobe h : exists out, answer h ["modprobe"; "dm-cdp"]%string = Some (mk_completed 0 out);
  work_getsz h : exists out n, answer h ["blockdev"; "--getsz"; dev]%string = Some (mk_completed 0 out) /\
    py_int out = Some n;
  work_create h n : exists out,
    answer h ["dmsetup"; "create"; name; "--table"; "0 " +++ pretty (n : Z) +++ " cdp " +++ dev +++ " 0"]%string =
      Some (mk_completed 0 out);
}.

Lemma run_ok cmd check s out :
  answer (t_ran s) cmd = Some (mk_completed 0 out) ->
  run cmd check s = (Ok (mk_completed 0 out), mk_tgt (t_conf s) (t_ran s ++ [cmd])).
Proof. intros E. unfold run. rewrite E. by rewrite andb_false_r. Qed.

Lemma attach_prepare_works name dev s :
  tools_work name dev -> conf_str (t_conf s) "device" = Ok dev ->
  exists n s', attach_prepare s = (Ok (dev, n), s') /\ t_conf s' = t_conf s.
Proof.
  intros W Hdev. destruct (work_lsmod _ _ W (t_ran s)) as (o1 & E1).
  unfold attach_prepare. rewrite (sm_bind_Ok _ _ _ _ _ (run_ok _ true _ _ E1)).
  set (s1 := mk_tgt _ _). cbn [cp_stdout].
  assert (exists s2, (if not_found "dm_cdp" o1 then run ["modprobe"; "dm-cdp"]%string true ≫= fun _ => mret tt else mret tt) s1
    = (Ok tt, s2) /\ t_conf s2 = t_conf s) as (s2 & E2 & H2).
  { destruct (not_found _ _); [|by exists s1]. destruct (work_modprobe _ _ W (t_ran s1)) as (o2 & E2).
    rewrite (sm_bind_Ok _ _ _ _ _ (run_ok _ true _ _ E2)). by eexists. }
  rewrite (sm_bind_Ok _ _ _ _ _ E2), (sm_bind_Ok _ _ s2 (t_conf s2) s2) by done.
  rewrite (sm_bind_Ok _ _ s2 dev s2) by (unfold sm_res; by rewrite H2, Hdev).
  destruct (work_getsz _ _ W (t_ran s2)) as (o3 & n & E3 & Hn).
  set (s3 := mk_tgt (t_conf s2) (t_ran s2 ++ [["blockdev"; "--getsz"; dev]%string])).
  exists n, s3. split; [|done]. rewrite (sm_bind_Ok _ _ s2 n s3); [done|].
  unfold blockdev_sectors. rewrite (sm_bind_Ok _ _ _ _ _ (run_ok _ true _ _ E3)). unfold sm_res. cbn. by rewrite Hn.
Qed.

(** The target comes up.  A [cdp] mapping of the configured name is
    adopted, whatever the configured device; another kind of mapping stops the
    daemon; without a mapping a configured device is wrapped when the tools
    work, and without a device the daemon does not start. *)
Theorem ensure_target_outcome c ran name :
  conf_str c "dm_name" = Ok name ->
  let r := (ensure_target (mk_tgt c ran)).1 in
  match dm ran name with
  | Some m =>
      if bool_decide (mp_kind m = "cdp"%string) then r = Ok ("/dev/" +++ mp_node m)%string
      else exists msg, r = Raise (SystemExit msg)
  | None =>
      (forall dev, conf_str c "device" = Ok dev -> dev <> ""%string -> tools_work name dev -> exists path, r = Ok path) /\
      (jtruthy (conf_get c "device") = false -> exists e, r = Raise e)
  end.
Proof.
  intros Hname. cbv zeta. set (s := mk_tgt c ran). unfold ensure_target.
  rewrite (sm_bind_Ok _ _ s c s) by done. rewrite (sm_bind_Ok _ _ s name s) by (unfold sm_res; by rewrite Hname).
  change (dm ran) with (dm_of s). destruct (status_run name s false) as [Hs1 Hst].
  unfold mbind, SM_bind, sm_upd, mret, SM_ret, sm_res. destruct (dm_of s name) as [m|] eqn:Em.
  - destruct Hst as (out & start & len & rest & -> & Es & Hrest). cbn [cp_returncode Z.eqb].
    set (s1 := mk_tgt (t_conf s) _) in *.
    pose proof (table_device_run name s1 m ltac:(by rewrite Hs1)) as Ht.
    case_bool_decide as Hcdp.
    + rewrite Ht. cbn [cp_stdout]. destruct (Hrest Hcdp) as (rest' & ->). by rewrite (ring_device_cdp _ _ _ _ _ _ Es Hcdp).
    + destruct Ht as (msg & Ht). rewrite Ht. by exists msg.
  - destruct Hst as (st & Hrc & ->). set (s1 := mk_tgt (t_conf s) _) in *.
    rewrite (proj2 (Z.eqb_neq _ _) Hrc).
    destruct (attach name s1) as [r2 s2] eqn:Ea.
    destruct (attach_run _ _ _ _ ltac:(by rewrite Hs1) Ea) as [_ H]. split.
    + intros dev Hdev Hne W. destruct r2 as [st2|e|]; [|exfalso|done].
      { destruct H as (_ & _ & m & start & len & rest & _ & Hk & Es).
        rewrite (ring_device_cdp _ _ _ _ _ _ Es Hk). by eexists. }
      revert Ea. unfold attach. rewrite (sm_bind_Ok _ _ s1 c s1) by done.
      assert (jtruthy (conf_get c "device") = true) as ->.
      { unfold conf_get. unfold conf_str in Hdev. destruct (c !! "device"%string) as [[]|]; try done.
        injection Hdev as ->. cbn. by rewrite bool_decide_eq_false_2. }
      cbn [negb]. destruct (attach_prepare_works name dev s1 W Hdev) as (n & s3 & E3 & _).
      rewrite (sm_bind_Ok _ _ _ _ _ E3). cbn iota. destruct (work_create _ _ W (t_ran s3) n) as (o & E4).
      rewrite (sm_bind_Ok _ _ _ _ _ (run_ok _ true _ _ E4)).
      pose proof (keeps_attach_prepare s1) as K. rewrite E3 in K. cbn in K.
      pose proof (create_run name dev n s3 _ _ ltac:(by rewrite K, Hs1) (run_ok _ true _ _ E4)) as Hc.
      cbv iota in Hc. destruct Hc as (_ & m & Em4 & _).
      destruct (status_run name (mk_tgt (t_conf s3) (t_ran s3 ++
        [["dmsetup"; "create"; name; "--table"; "0 " +++ pretty n +++ " cdp " +++ dev +++ " 0"]%string])) true) as [_ Hst].
      rewrite Em4 in Hst. destruct Hst as (? & ? & ? & ? & -> & _). discriminate.
    + intros Hj. destruct r2 as [st2|e|]; [|by eexists|done]. destruct H as [H _]. change (t_conf s1) with c in H. congruence.
Qed.
End Refinement.
End Target.

(** ** Settings *)

(** The settings of a configuration that is read.  A key of the file
    replaces the built-in value and a missing one does not; and a number that
    is zero does not switch the consistent points off: they are taken every
    hour. *)
Theorem settings_of_file float_str hostname c st :
  Daemon_settings float_str (c ∪ default_conf hostname) = Ok st ->
  load_conf hostname (Object c) = Ok (c ∪ default_conf hostname) /\
  (exists j n, se_root st = os_join j n /\
     (c !! "journal"%string = Some (JStr j) \/ c !! "journal"%string = None /\ j = "/replication/_kvmdr/rkcdp"%string) /\
     (c !! "node"%string = Some (JStr n) \/ c !! "node"%string = None /\ n = hostname)) /\
  (c !! "base_copy_mbps"%string = None -> se_mbps st = JInt 15) /\
  (forall v, c !! "consistent_sec"%string = Some v -> jtruthy v = false -> se_consistent_sec st = 3600%Q) /\
  (c !! "seed_required"%string = None -> se_seed_required st = false).
Proof.
  unfold Daemon_settings, conf_str, conf_get. rewrite !lookup_union.
  change (default_conf hostname !! "journal"%string) with (Some (JStr "/replication/_kvmdr/rkcdp")).
  change (default_conf hostname !! "node"%string) with (Some (JStr hostname)).
  change (default_conf hostname !! "cycle_sec"%string) with (Some (JFloat 1)).
  change (default_conf hostname !! "base_copy_mbps"%string) with (Some (JInt 15)).
  change (default_conf hostname !! "consistent_sec"%string) with (@None jval).
  change (default_conf hostname !! "freeze_cap_sec"%string) with (@None jval).
  change (default_conf hostname !! "seed_required"%string) with (@None jval).
  intros H. res_inv.
  match goal with H : py_float _ (py_or (default JNull (c !! "consistent_sec"%string ∪ None)) _) = Ok ?q |- _ =>
    rename H into Hcs end.
  split; [done|]. split; [|split_and!; cbn [se_mbps se_consistent_sec se_seed_required]].
  - exists x, x0. split; [done|].
    destruct (c !! "journal"%string) as [[]|], (c !! "node"%string) as [[]|]; cbn in *; simplify_eq; auto.
  - by intros ->.
  - intros v E Hv. rewrite E in Hcs. cbn in Hcs. unfold py_or in Hcs. rewrite Hv in Hcs. by injection Hcs as <-.
  - by intros ->.
Qed.

(** ** A machine *)

Definition demo_mapping : mapping := mk_mapping "cdp" "cdp0" "8:16".

(** The mapping is there from boot on, or once it is created. *)
Definition demo_dm (at_boot : bool) (h : list (list string)) (name : string) : option mapping :=
  if bool_decide (name = "rkcdp"%string) &&
     (at_boot || existsb (fun cmd => bool_decide (take 3 cmd = ["dmsetup"; "create"; "rkcdp"]%string)) h)
  then Some demo_mapping else None.

Definition demo_answer (at_boot : bool) (h : list (list string)) (cmd : list string) : option completed :=
  if bool_decide (take 2 cmd = ["dmsetup"; "create"]%string) then
    Some (mk_completed (if bool_decide (take 1 (drop 2 cmd) = ["rkcdp"]%string) then 0 else 1) "")
  else if bool_decide (take 2 cmd = ["dmsetup"; "status"]%string) then
    match demo_dm at_boot h (default ""%string (cmd !! 2%nat)) with
    | Some m => Some (mk_completed 0 "0 64 cdp cdp0 ok ring 0/1024 records 0")
    | None => Some (mk_completed 1 "")
    end
  else if bool_decide (take 2 cmd = ["dmsetup"; "table"]%string) then Some (mk_completed 0 "0 64 cdp 8:16 0")
  else if bool_decide (take 1 cmd = ["blockdev"]%string) then Some (mk_completed 0 "64")
  else Some (mk_completed 0 "").

#[export] Instance demo_tools at_boot : DmTools (demo_answer at_boot) (demo_dm at_boot).
Proof.
  assert (Hdm : forall h name m, demo_dm at_boot h name = Some m -> m = demo_mapping).
  { unfold demo_dm. intros h name m. by case_match; intros [= <-]. }
  split.
  - intros h name. change (demo_answer at_boot h ["dmsetup"; "status"; name]%string) with
      (match demo_dm at_boot h name with
       | Some m => Some (mk_completed 0 "0 64 cdp cdp0 ok ring 0/1024 records 0")
       | None => Some (mk_completed 1 "") end).
    destruct (demo_dm at_boot h name) as [m|] eqn:E; [|by eexists].
    rewrite (Hdm _ _ _ E). eexists _, _, _, _. split; [done|]. split; [by vm_compute|]. by eexists.
  - intros h name m E. rewrite (Hdm _ _ _ E). eexists _, _, _, _. split; [done|]. split; [by vm_compute|]. by eexists _, _.
  - intros h cmd Hne. apply functional_extensionality. intros name. unfold demo_dm.
    rewrite existsb_app. cbn [existsb]. rewrite (bool_decide_eq_false_2 (take 3 cmd = _)).
    + by rewrite !orb_false_r.
    + intros E. apply Hne. apply (f_equal (take 2)) in E. rewrite take_take in E. exact E.
  - intros h name dev n other Hn cmd. unfold demo_answer.
    change (take 2 cmd) with ["dmsetup"; "create"]%string. change (take 1 (drop 2 cmd)) with [name].
    rewrite bool_decide_eq_true_2 by done. eexists. split; [done|]. cbn [cp_returncode].
    assert (Hx : demo_dm at_boot (h ++ [cmd]) other =
      (if bool_decide (other = "rkcdp"%string) && bool_decide (name = "rkcdp"%string) then Some demo_mapping
       else demo_dm at_boot h other)).
    { unfold demo_dm. rewrite existsb_app. cbn [existsb]. change (take 3 cmd) with ["dmsetup"; "create"; name]%string.
      case_bool_decide as Ho; cbn [andb]; [|done]. destruct (decide (name = "rkcdp"%string)) as [->|Hne].
      - rewrite !bool_decide_eq_true_2 by done. by rewrite !orb_true_r.
      - rewrite !bool_decide_eq_false_2 by (intros [=]; done). by rewrite !orb_false_r. }
    destruct (decide (name = "rkcdp"%string)) as [->|Hc].
    all: rewrite ?(bool_decide_eq_true_2 (["rkcdp"%string] = _)), ?(bool_decide_eq_false_2 ([name] = _)) by (done || congruence).
    + split; [done|]. intros _. split.
      * intros Hne. rewrite Hx, bool_decide_eq_false_2 by done. done.
      * exists demo_mapping. split; [|done]. unfold demo_dm. rewrite existsb_app. cbn [existsb].
        change (take 3 cmd) with ["dmsetup"; "create"; "rkcdp"]%string.
        rewrite !bool_decide_eq_true_2 by done. by rewrite !orb_true_r.
    + split; [intros _|done]. rewrite Hx, (bool_decide_eq_false_2 (name = _)) by congruence. by rewrite andb_false_r.
Qed.

Lemma demo_tools_work at_boot : tools_work (demo_answer at_boot) "rkcdp" "/dev/sdb".
Proof. split; intros; eexists; try eexists; try split; done || by vm_compute. Qed.

Definition demo_conf : conf := <["device"%string := JStr "/dev/sdb"]> (default_conf "km1").

(** The mapping the initramfs made is adopted; without one it is created. *)
Example ensure_target_adopted :
  let realpath := fun _ => "/devices/sdb"%string in
  let r := ensure_target (demo_answer true) realpath (mk_tgt (default_conf "km1") []) in
  r.1 = Ok "/dev/cdp0"%string /\ t_ran r.2 = [["dmsetup"; "status"; "rkcdp"]; ["dmsetup"; "table"; "rkcdp"]]%string /\
  conf_get (t_conf r.2) "device" = JStr "/dev/sdb".
Proof. by vm_compute. Qed.

Lemma ensure_target_refines_witness :
  let s' := (ensure_target (demo_answer false) id (mk_tgt demo_conf [])).2 in
  demo_dm false [] "rkcdp" = None /\ demo_dm false (t_ran s') "rkcdp" <> None /\ demo_dm false (t_ran s') "other" = None.
Proof.
  destruct (ensure_target (demo_answer false) id (mk_tgt demo_conf [])) as [r s'] eqn:E.
  assert (Hr : r = Ok "/dev/cdp0"%string) by (transitivity (r, s').1; [done|rewrite <-E; by vm_compute]).
  pose proof (ensure_target_refines (demo_answer false) id demo_conf [] "rkcdp" r s' eq_refl E) as H.
  rewrite Hr in H. destruct H as (m & Em & _ & _ & Hother & _). unfold dm_of in *.
  split; [done|]. split; [cbn [snd]; rewrite Em; done|]. rewrite Hother; done.
Defined.

Lemma ensure_target_outcome_witness :
  exists path, (ensure_target (demo_answer false) id (mk_tgt demo_conf [])).1 = Ok path.
Proof.
  destruct (ensure_target_outcome (demo_answer false) id demo_conf [] "rkcdp" eq_refl) as [H _].
  apply (H "/dev/sdb"%string); [done|done|apply demo_tools_work].
Defined.

Lemma settings_of_file_witness :
  let c := <["consistent_sec"%string := JInt 0]> (<["journal"%string := JStr "/j"]> ∅) in
  exists st, Daemon_settings (fun _ => Raise (ValueError 0)) (c ∪ default_conf "km1") = Ok st /\
    se_consistent_sec st = 3600%Q /\ se_root st = "/j/km1"%string.
Proof.
  intros c. eexists. split; [vm_compute; reflexivity|]. split; [|reflexivity].
  refine (proj1 (proj2 (proj2 (proj2 (settings_of_file (fun _ => Raise (ValueError 0)) "km1" c _ _)))) (JInt 0) _ _);
    vm_compute; reflexivity.
Defined.
