(* ===== verification/Setup.v ===== *)
(** * The installer ([rkcdp/rkcdp-setup.py])

    [install_file], [do_install], [do_check], [do_remove] and [main] on the
    files of the machine.  A write, and every other call on a file, can break
    off: [fate] says where.  What the installer's commands change -- the initial
    ramdisk, the module index, packages and units -- is the machine's world,
    which only commands change and read; a directory is known or not, its
    ancestors are not kept.  What is printed is left out. *)
From Stdlib Require Import Ascii QArith.
From stdpp Require Import fin_maps.
From S2P Require Import Prelude PyString Target.

Local Open Scope Z_scope.

(** ** The machine *)

(** What a file holds: text or an asset's bytes, or a configuration. *)
Inductive fdata : Type := Raw (s : string) | ConfJson (c : conf) | TornConf (k : nat) (c : conf).

(** The first [k] bytes. *)
Definition torn (k : nat) (d : fdata) : fdata :=
  match d with Raw s => Raw (String.substring 0 k s) | ConfJson c => TornConf k c | TornConf n c => TornConf (k `min` n) c end.

(** The calls on files. *)
Inductive fcall : Type :=
  | Makedirs (d : string) | Write (p : string) | Chmod (p : string) | Rename (src dst : string) | Unlink (p : string).

Record entry : Type := mk_entry { e_data : fdata; e_mode : Z }.

Abbreviation filemap := (gmap string entry).

Record host (W : Type) : Type := mk_host {
  h_files : filemap;
  h_dirs : gset string;
  h_world : W;
}.
Arguments mk_host {W} _ _ _.
Arguments h_files {W} _.
Arguments h_dirs {W} _.
Arguments h_world {W} _.

Record proc : Type := mk_proc { p_returncode : Z; p_stdout : string; p_stderr : string }.

(** [for x in l: f(x)] *)
Fixpoint for_each {S A} (f : A -> SM S unit) (l : list A) : SM S unit :=
  match l with
  | [] => mret tt
  | x :: l' => f x;; for_each f l'
  end.

Section Setup.
Context {W : Type}.
Variable KVER : string.
(** The embedded assets, and the mode of a file that [open] creates. *)
Variable assets : gmap string string.
Variable new_mode : Z.
Variable euid : Z.
(** A shell command: its outcome and the world after it. *)
Variable shell : string -> host W -> proc * W.
(** Where a call breaks off, by an error of the file system or because the
    program is killed there: a write after so many bytes, another call before
    it does anything.  [None]: it works. *)
Variable fate : fcall -> host W -> option nat.
(** [os.path.realpath] *)
Variable realpath : string -> string.

Abbreviation step := (SM (host W)).

Definition set_files (fs : filemap) (s : host W) : host W := mk_host fs (h_dirs s) (h_world s).

(** *** Calls of the standard library *)

Definition path_exists (p : string) (s : host W) : bool :=
  bool_decide (p ∈ dom (h_files s)) || bool_decide (p ∈ h_dirs s).

Definition makedirs (d : string) : step unit := fun s =>
  if bool_decide (d ∈ dom (h_files s)) || bool_decide (is_Some (fate (Makedirs d) s)) then (Raise OSError, s)
  else (Ok tt, mk_host (h_files s) ({[d]} ∪ h_dirs s) (h_world s)).

(** [open(p, "w")], which empties the file, and [data] written into it piece
    by piece: the mode of an existing file stays. *)
Definition write_file (p : string) (data : fdata) : step unit := fun s =>
  if bool_decide (p ∈ h_dirs s) || negb (bool_decide (dirname p ∈ h_dirs s)) then (Raise OSError, s)
  else
    let mode := from_option e_mode new_mode (h_files s !! p) in
    match fate (Write p) s with
    | Some k => (Raise OSError, set_files (<[p := mk_entry (torn k data) mode]> (h_files s)) s)
    | None => (Ok tt, set_files (<[p := mk_entry data mode]> (h_files s)) s)
    end.

Definition chmod (p : string) (mode : Z) : step unit := fun s =>
  match h_files s !! p, fate (Chmod p) s with
  | Some e, None => (Ok tt, set_files (<[p := mk_entry (e_data e) mode]> (h_files s)) s)
  | _, _ => (Raise OSError, s)
  end.

(** [os.replace], of a file *)
Definition replace_file (src dst : string) : step unit := fun s =>
  match h_files s !! src, fate (Rename src dst) s with
  | Some e, None =>
      if bool_decide (dst ∈ h_dirs s) || negb (bool_decide (dirname dst ∈ h_dirs s)) then (Raise OSError, s)
      else (Ok tt, set_files (<[dst := e]> (delete src (h_files s))) s)
  | _, _ => (Raise OSError, s)
  end.

Definition remove_file (p : string) : step unit := fun s =>
  if bool_decide (p ∈ dom (h_files s)) && negb (bool_decide (is_Some (fate (Unlink p) s)))
  then (Ok tt, set_files (delete p (h_files s)) s) else (Raise OSError, s).

(** [shutil.rmtree(d, ignore_errors=True)] *)
Definition below (d p : string) : bool := startswith p (d +++ "/")%string.

Definition rmtree (d : string) : step unit := fun s =>
  if bool_decide (d ∈ h_dirs s)
  then (Ok tt, mk_host (filter (fun x => below d x.1 = false) (h_files s))
                 (filter (fun x => x <> d /\ below d x = false) (h_dirs s)) (h_world s))
  else (Ok tt, s).

(** *** The program *)

Definition sh (cmd : string) (check : bool) : step proc := fun s =>
  let '(r, w) := shell cmd s in
  let s' := mk_host (h_files s) (h_dirs s) w in
  if check && negb (p_returncode r =? 0)
  then (Raise (SystemExit ("rkcdp-setup: " +++ default ""%string (head (split cmd)) +++ " failed: " +++
         String.substring 0 300 (strip_str (if bool_decide (p_stderr r = ""%string) then p_stdout r else p_stderr r)))), s')
  else (Ok r, s').

Definition FILES : list (string * string * Z) :=
  [("dm-cdp.ko", "/lib/modules/" +++ KVER +++ "/extra/dm-cdp.ko", 420);
   ("rkcdpd", "/opt/rkcdp/rkcdpd", 493);
   ("rkcdp-rebuild", "/opt/rkcdp/rkcdp-rebuild", 493);
   ("rkcdp-seed", "/opt/rkcdp/rkcdp-seed", 493);
   ("rkcdpd.service", "/etc/systemd/system/rkcdpd.service", 420);
   ("hook", "/etc/initramfs-tools/hooks/rkcdp", 493);
   ("local-top", "/etc/initramfs-tools/scripts/local-top/rkcdp", 493);
   ("99-rkcdp.rules", "/etc/udev/rules.d/99-rkcdp.rules", 420)]%string.

Definition JOURNAL_DEFAULT : string := "/replication/_kvmdr/rkcdp".
Definition CONF_DIR : string := "/etc/rkcdp".

Definition install_file (row : string * string * Z) : step unit :=
  let '(asset, dst, mode) := row in
  match assets !! asset with
  | None => sm_res (Raise (SystemExit ("rkcdp-setup: embedded asset missing: " +++ asset)))
  | Some data =>
      makedirs (dirname dst);;
      let tmp := (dst +++ ".new")%string in
      write_file tmp (Raw data);;
      chmod tmp mode;;
      replace_file tmp dst
  end.

Definition setup_root_disk : step string :=
  r ← sh "findmnt -n -o SOURCE /" true;
  let src := strip_str (p_stdout r) in
  let name := basename (realpath src) in
  let parent := realpath ("/sys/class/block/" +++ name +++ "/..") in
  mret (if bool_decide (basename parent = "block"%string) then src else ("/dev/" +++ basename parent)%string).

Definition remove_if_exists (p : string) : step unit :=
  e ← sm_get (path_exists p);
  if e : bool then remove_file p else mret tt.

Definition LEFTOVERS : list string :=
  ["/etc/systemd/system/rkcdp-applier.service"; "/opt/rkcdp/rkcdp-applier";
   "/etc/systemd/system/rkcdp-firstboot.service"; "/opt/rkcdp/rkcdp-firstboot.sh";
   "/opt/rkcdp/rkcdpd.py"; "/opt/rkcdp/rkcdp-rebuild.py"; "/opt/rkcdp/dmcdp.py"; "/opt/rkcdp/rkcdp-applier.py"]%string.

Definition first_conf (journal : string) : conf :=
  list_to_map [("dm_name", JStr "rkcdp"); ("journal", JStr journal); ("cycle_sec", JFloat 1);
    ("base_copy_mbps", JInt 15); ("seed_required", JBool true)]%string.

Definition INITRAMFS_CONF : string := "/etc/rkcdp/initramfs.conf".
Definition MODPROBE_CONF : string := "/etc/modprobe.d/dm-cdp.conf".
Definition RESUME_CONF : string := "/etc/initramfs-tools/conf.d/resume".
Definition DROPIN_DIR : string := "/etc/systemd/system/rkcdpd.service.d".
Definition IO_CONF : string := "/etc/systemd/system/rkcdpd.service.d/io.conf".

Definition newline : string := String "010" "".

Definition io_conf (dev : string) : string :=
  ("[Service]" +++ newline +++ "IOReadBandwidthMax=" +++ dev +++ " 20M" +++ newline)%string.

Definition write_confs (journal : string) : step unit :=
  makedirs CONF_DIR;;
  write_file INITRAMFS_CONF (Raw ("DM_NAME=rkcdp" +++ newline));;
  makedirs "/etc/modprobe.d";;
  write_file MODPROBE_CONF (Raw ("options dm-cdp ring_mb=1024" +++ newline));;
  makedirs "/etc/initramfs-tools/conf.d";;
  write_file RESUME_CONF (Raw ("RESUME=none" +++ newline));;
  e ← sm_get (path_exists CONF);
  (if e : bool then mret tt else write_file CONF (ConfJson (first_conf journal))).

(** The commands after the files are in place. *)
Definition activate : step unit :=
  sh "depmod -a" true;;
  sh "update-initramfs -u" true;;
  sh "systemctl daemon-reload" true;;
  sh "systemctl disable rkcdp-applier rkcdp-firstboot >/dev/null 2>&1" false;;
  a ← sh "systemctl is-active rkcdpd" false;
  (if bool_decide (strip_str (p_stdout a) = "active"%string)
   then sh "systemctl restart rkcdpd" false
   else sh "systemctl disable rkcdpd >/dev/null 2>&1" false);;
  mret tt.

Definition do_install (journal : string) : step unit :=
  if negb (euid =? 0) then sm_res (Raise (SystemExit "rkcdp-setup: run as root"))
  else
    sh "apt-get install -y -q kpartx dmsetup >/dev/null 2>&1" false;;
    for_each install_file FILES;;
    for_each remove_if_exists LEFTOVERS;;
    write_confs journal;;
    dev ← setup_root_disk;
    makedirs DROPIN_DIR;;
    write_file IO_CONF (Raw (io_conf dev));;
    activate.

Definition module_path : string := ("/lib/modules/" +++ KVER +++ "/extra/dm-cdp.ko")%string.

Definition local_top : string := "/etc/initramfs-tools/scripts/local-top/rkcdp".
Definition daemon_bin : string := "/opt/rkcdp/rkcdpd".

Definition do_check : step Z :=
  m ← sm_get (path_exists module_path);
  h ← sm_get (path_exists local_top);
  n ← sh ("lsinitramfs /boot/initrd.img-" +++ KVER +++ " 2>/dev/null | grep -c dm-cdp.ko") false;
  let count := strip_str (p_stdout n) in
  d ← sm_get (path_exists daemon_bin);
  sh "systemctl is-enabled rkcdpd 2>/dev/null" false;;
  sh "findmnt -n -o SOURCE /" false;;
  let ok := m && h && negb (bool_decide (count = ""%string) || bool_decide (count = "0"%string)) && d in
  mret (if ok then 0 else 1).

Definition remove_row (row : string * string * Z) : step unit :=
  let '(_, dst, _) := row in if startswith dst "/lib/modules/" then mret tt else remove_if_exists dst.

Definition do_remove : step unit :=
  sh "systemctl disable --now rkcdpd >/dev/null 2>&1" false;;
  for_each remove_row FILES;;
  rmtree DROPIN_DIR;;
  for_each remove_if_exists ["/etc/udev/rules.d/99-rkcdp.rules"; INITRAMFS_CONF]%string;;
  sh "update-initramfs -u" true;;
  sh "systemctl daemon-reload" true;;
  mret tt.

(** [a[a.index(w) + 1]], where [w] occurs *)
Definition arg_after (w : string) (a : list string) : res string :=
  match list_find (eq w) a with
  | Some (i, _) => match a !! S i with Some v => Ok v | None => Raise IndexError end
  | None => Raise (ValueError 0)
  end.

Definition setup_main (a : list string) : step Z :=
  journal ← sm_res (if bool_decide ("--journal"%string ∈ a) then arg_after "--journal" a else Ok JOURNAL_DEFAULT);
  if bool_decide ("--check"%string ∈ a) then do_check
  else if bool_decide ("--remove"%string ∈ a) then do_remove;; mret 0
  else do_install journal;; mret 0.

(** ** Paths the installer works on *)

Definition row_dst (row : string * string * Z) : string := row.1.2.
Definition tmp_name (dst : string) : string := (dst +++ ".new")%string.

Definition CONF_FILES : list string := [INITRAMFS_CONF; MODPROBE_CONF; RESUME_CONF; CONF; IO_CONF].

(** Files that are written, replaced or removed, and directories that are made. *)
Definition paths : list string :=
  map row_dst FILES ++ map (fun row => tmp_name (row_dst row)) FILES ++ LEFTOVERS ++ CONF_FILES.
Definition made : list string :=
  map (fun row => dirname (row_dst row)) FILES ++
  [CONF_DIR; "/etc/modprobe.d"; "/etc/initramfs-tools/conf.d"; DROPIN_DIR]%string.

Definition module_dir : string := ("/lib/modules/" +++ KVER +++ "/extra")%string.

Lemma dirname_module : dirname module_path = module_dir.
Proof.
  assert (module_path = path_join module_dir "dm-cdp.ko") as ->.
  { unfold module_path, module_dir, path_join. by rewrite !append_assoc. }
  apply dirname_join; [by repeat constructor|]. unfold module_dir. rewrite !chars_app, !reverse_app.
  by eexists _, _.
Qed.

(** The paths that do not depend on the kernel's version. *)
Definition fixed_paths : list string :=
  map row_dst (tail FILES) ++ map (fun row => tmp_name (row_dst row)) (tail FILES) ++ LEFTOVERS ++ CONF_FILES.
Definition fixed_made : list string :=
  map (fun row => dirname (row_dst row)) (tail FILES) ++
  [CONF_DIR; "/etc/modprobe.d"; "/etc/initramfs-tools/conf.d"; DROPIN_DIR]%string.

Lemma elem_paths p : p ∈ paths <-> p = module_path \/ p = tmp_name module_path \/ p ∈ fixed_paths.
Proof.
  change paths with (module_path :: map row_dst (tail FILES) ++ tmp_name module_path ::
    map (fun row => tmp_name (row_dst row)) (tail FILES) ++ LEFTOVERS ++ CONF_FILES).
  unfold fixed_paths. rewrite elem_of_cons, !(elem_of_app (map row_dst _)), elem_of_cons. tauto.
Qed.

Lemma elem_made d : d ∈ made <-> d = module_dir \/ d ∈ fixed_made.
Proof. change made with (dirname module_path :: fixed_made). by rewrite elem_of_cons, dirname_module. Qed.

(** Not below [/lib]. *)
Definition not_lib (p : string) : bool := bool_decide (String.get 1 p <> Some "l"%char).

Lemma fixed_not_lib p : p ∈ fixed_paths ++ fixed_made -> not_lib p = true.
Proof.
  intros Hp. assert (H : Forall (fun p => not_lib p = true) (fixed_paths ++ fixed_made)).
  { in_list. }
  rewrite Forall_forall in H. by apply H.
Qed.

Lemma paths_made p : p ∈ paths -> p ∉ made.
Proof.
  rewrite elem_paths, elem_made. intros Hp [->|Hm].
  - destruct Hp as [E|[E|Hp]].
    + unfold module_dir, module_path in E. apply append_inj_l, append_inj_l in E. discriminate.
    + unfold tmp_name, module_dir, module_path in E. rewrite !append_assoc in E.
      apply append_inj_l, append_inj_l in E. discriminate.
    + pose proof (fixed_not_lib module_dir ltac:(apply elem_of_app; by left)). discriminate.
  - destruct Hp as [->|[->|Hp]].
    1, 2: pose proof (fixed_not_lib _ ltac:(apply elem_of_app; right; exact Hm)); discriminate.
    revert p Hp Hm. assert (H : Forall (fun p => p ∉ fixed_made) fixed_paths).
    { in_list. }
    intros p Hp. rewrite Forall_forall in H. by apply H.
Qed.

(** ** Steps that succeed, and what they do to the files *)

(** No file of the installer is a directory, and no directory of it a file. *)
Record ready (s : host W) : Prop := {
  ready_paths p : p ∈ paths -> p ∉ h_dirs s;
  ready_made d : d ∈ made -> h_files s !! d = None;
}.

(** Where the directories [D] are there, [m] succeeds, changes the files as [F]
    does and makes the directories [E]. *)
Definition makes {A} (D E : gset string) (F : filemap -> filemap) (m : step A) : Prop := forall s,
  ready s -> D ⊆ h_dirs s ->
  exists a s', m s = (Ok a, s') /\ h_files s' = F (h_files s) /\ E ∪ h_dirs s ⊆ h_dirs s' /\ ready s'.

Abbreviation does D F m := (makes D ∅ F m).

Lemma makes_bind {A B} D E F G (m : step A) (k : A -> step B) :
  does D F m -> (forall a, makes D E G (k a)) -> makes D E (fun fs => G (F fs)) (m ≫= k).
Proof.
  intros Hm Hk s Hs HD. destruct (Hm s Hs HD) as (a & s1 & E1 & F1 & D1 & R1).
  rewrite union_empty_l_L in D1.
  destruct (Hk a s1 R1 ltac:(by etransitivity)) as (b & s2 & E2 & F2 & D2 & R2).
  exists b, s2. rewrite (sm_bind_Ok _ _ _ _ _ E1). split_and!; [done|congruence| |done].
  etransitivity; [|exact D2]. by apply union_mono_l.
Qed.

Lemma makes_weaken {A} D E F (m : step A) : makes D E F m -> does D F m.
Proof.
  intros Hm s Hs HD. destruct (Hm s Hs HD) as (a & s1 & E1 & F1 & D1 & R1).
  exists a, s1. split_and!; try done. etransitivity; [|exact D1]. apply union_mono_r, empty_subseteq.
Qed.

Lemma does_ret {A} D (a : A) : does D id (mret a).
Proof. intros s Hs _. exists a, s. by rewrite union_empty_l_L. Qed.

Lemma does_each {A} D (F : A -> filemap -> filemap) (f : A -> step unit) l :
  (forall x, x ∈ l -> does D (F x) (f x)) -> does D (fun fs => foldl (fun fs x => F x fs) fs l) (for_each f l).
Proof.
  induction l as [|x l IH]; intros H; [apply does_ret|]. cbn [for_each foldl].
  apply (makes_bind D _ (F x) (fun fs => foldl (fun fs x => F x fs) fs l)); [apply H; by left|].
  intros _. apply IH. intros y Hy. apply H. by right.
Qed.

Lemma ready_dir d s : ready s -> d ∈ made -> ready (mk_host (h_files s) ({[d]} ∪ h_dirs s) (h_world s)).
Proof.
  intros [Hp Hm] Hd. split; cbn; [|done]. intros p Hin [->%elem_of_singleton|H]%elem_of_union.
  - by apply (paths_made d).
  - by apply (Hp p).
Qed.

Lemma ready_files fs s : ready s -> (forall d, d ∈ made -> fs !! d = None) -> ready (set_files fs s).
Proof. by intros [Hp Hm] Hd. Qed.

(** No call breaks off. *)
Definition files_work : Prop := forall c s, fate c s = None.

(** For the theorems on runs that come to their end. *)
Hypothesis working : files_work.

Lemma makes_makedirs {B} D E F d (k : step B) :
  d ∈ made -> makes ({[d]} ∪ D) E F k -> makes D ({[d]} ∪ E) F (makedirs d;; k).
Proof.
  intros Hd Hk s Hs HD. unfold mbind, SM_bind, makedirs.
  rewrite bool_decide_eq_false_2 by (rewrite not_elem_of_dom; by apply Hs). rewrite working. cbn [orb is_Some].
  rewrite (bool_decide_eq_false_2 (is_Some None)) by (by intros [? ?]).
  destruct (Hk _ (ready_dir d s Hs Hd)) as (b & s2 & E2 & F2 & D2 & R2); [cbn; by apply union_mono_l|].
  exists b, s2. split_and!; [exact E2|exact F2| |exact R2]. etransitivity; [|exact D2].
  cbn [h_dirs]. rewrite (union_assoc_L E), (union_comm_L E). reflexivity.
Qed.

Lemma made_insert p e (fs : filemap) :
  p ∈ paths -> (forall d, d ∈ made -> fs !! d = None) -> forall d, d ∈ made -> <[p := e]> fs !! d = None.
Proof. intros Hp H d Hd. rewrite lookup_insert_ne; [by apply H|]. intros ->. by apply (paths_made d). Qed.

Lemma made_delete p (fs : filemap) :
  (forall d, d ∈ made -> fs !! d = None) -> forall d, d ∈ made -> delete p fs !! d = None.
Proof. intros H d Hd. rewrite lookup_delete. case_decide; [done|]. by apply H. Qed.

Lemma does_write_file D p data :
  p ∈ paths -> dirname p ∈ D ->
  does D (fun fs => <[p := mk_entry data (from_option e_mode new_mode (fs !! p))]> fs) (write_file p data).
Proof.
  intros Hp HD s Hs Hd. unfold write_file.
  rewrite bool_decide_eq_false_2 by (by apply Hs). rewrite bool_decide_eq_true_2 by (by apply Hd). cbn [orb negb]. rewrite working.
  eexists tt, _. split_and!; [done|done|by rewrite union_empty_l_L|]. apply ready_files; [done|].
  apply made_insert; [done|apply Hs].
Qed.

Lemma does_remove_if_exists D p : p ∈ paths -> does D (delete p) (remove_if_exists p).
Proof.
  intros Hp s Hs _. unfold remove_if_exists, mbind, SM_bind, sm_get, path_exists, remove_file.
  rewrite (bool_decide_eq_false_2 (p ∈ h_dirs s)) by (by apply Hs). rewrite orb_false_r.
  destruct (decide (p ∈ dom (h_files s))) as [He|He].
  - rewrite !(bool_decide_eq_true_2 (p ∈ dom _)) by done. rewrite working, (bool_decide_eq_false_2 (is_Some None)) by (by intros [? ?]). cbn [andb negb].
    eexists tt, _. split_and!; [done|done|by rewrite union_empty_l_L|]. apply ready_files; [done|]. apply made_delete, Hs.
  - rewrite !(bool_decide_eq_false_2 (p ∈ dom _)) by done. exists tt, s. split_and!; [done|by rewrite delete_id by by apply not_elem_of_dom|by rewrite union_empty_l_L|done].
Qed.

Lemma does_sh D cmd (check : bool) :
  (check = true -> forall s, p_returncode (shell cmd s).1 = 0) -> does D id (sh cmd check).
Proof.
  intros H s Hs _. unfold sh. destruct (shell cmd s) as [r w] eqn:E.
  assert (check && negb (p_returncode r =? 0) = false) as ->.
  { destruct check; [|done]. specialize (H eq_refl s). rewrite E in H. cbn in H. by rewrite H. }
  eexists r, _. split_and!; [done..|by rewrite union_empty_l_L|]. by destruct Hs.
Qed.

(** What [install_file] does to the files. *)
Definition put_asset (row : string * string * Z) (fs : filemap) : filemap :=
  match assets !! row.1.1 with
  | Some data => <[row_dst row := mk_entry (Raw data) row.2]> (delete (tmp_name (row_dst row)) fs)
  | None => fs
  end.

Lemma row_paths row : row ∈ FILES ->
  row_dst row ∈ paths /\ tmp_name (row_dst row) ∈ paths /\ dirname (row_dst row) ∈ made /\
  dirname (tmp_name (row_dst row)) = dirname (row_dst row).
Proof.
  intros Hr. split_and!.
  - unfold paths. apply elem_of_app. left. by apply (list_elem_of_fmap_2 row_dst).
  - unfold paths. apply elem_of_app. right. apply elem_of_app. left.
    by apply (list_elem_of_fmap_2 (fun row => tmp_name (row_dst row))).
  - unfold made. apply elem_of_app. left. by apply (list_elem_of_fmap_2 (fun row => dirname (row_dst row))).
  - change FILES with (("dm-cdp.ko", module_path, 420)%string :: tail FILES) in Hr.
    apply elem_of_cons in Hr as [->|Hr].
    + unfold row_dst. cbn [fst snd]. rewrite dirname_module.
      assert (tmp_name module_path = path_join module_dir "dm-cdp.ko.new") as ->.
      { unfold tmp_name, module_path, module_dir, path_join. by rewrite !append_assoc. }
      apply dirname_join; [by repeat constructor|]. unfold module_dir. rewrite !chars_app, !reverse_app. by eexists _, _.
    + revert row Hr. assert (H : Forall (fun row => dirname (tmp_name (row_dst row)) = dirname (row_dst row)) (tail FILES)).
      { in_list. }
      intros row. rewrite Forall_forall in H. apply H.
Qed.

Lemma does_install_file D row : row ∈ FILES -> is_Some (assets !! row.1.1) -> does D (put_asset row) (install_file row).
Proof.
  intros Hr [data Ha]. destruct (row_paths row Hr) as (Hd & Ht & Hm & Et).
  destruct row as [[asset dst] mode]. unfold put_asset, install_file. cbn [fst snd row_dst] in *. rewrite Ha.
  eapply makes_weaken, makes_makedirs; [done|]. fold (tmp_name dst). intros s Hs HD.
  destruct (does_write_file ({[dirname dst]} ∪ D) (tmp_name dst) (Raw data) Ht ltac:(rewrite Et; apply elem_of_union_l, elem_of_singleton; done) s Hs HD)
    as ([] & s1 & E1 & F1 & D1 & R1).
  rewrite union_empty_l_L in D1. rewrite (sm_bind_Ok _ _ _ _ _ E1). unfold mbind, SM_bind, chmod, replace_file.
  rewrite F1, lookup_insert_eq, working. cbn [h_files set_files h_dirs e_data]. rewrite lookup_insert_eq, working.
  rewrite bool_decide_eq_false_2 by (apply R1; done). rewrite bool_decide_eq_true_2 by (apply D1, HD, elem_of_union_l, elem_of_singleton; done). cbn [orb negb].
  eexists tt, _. split; [done|]. cbn [h_files set_files h_dirs].
  rewrite insert_insert_eq, delete_insert_eq. split; [done|]. split; [by rewrite union_empty_l_L|].
  split; [intros p Hp; by apply R1|]. cbn.
  apply made_insert; [done|]. apply made_delete, Hs.
Qed.

(** What [write_confs] does: three files of fixed content, and a configuration
    where there is none. *)
Definition put_text (p : string) (data : fdata) (fs : filemap) : filemap :=
  <[p := mk_entry data (from_option e_mode new_mode (fs !! p))]> fs.

Definition put_conf (journal : string) (fs : filemap) : filemap :=
  match fs !! CONF with Some _ => fs | None => put_text CONF (ConfJson (first_conf journal)) fs end.

Definition put_confs (journal : string) (fs : filemap) : filemap :=
  put_conf journal (put_text RESUME_CONF (Raw ("RESUME=none" +++ newline))
    (put_text MODPROBE_CONF (Raw ("options dm-cdp ring_mb=1024" +++ newline))
      (put_text INITRAMFS_CONF (Raw ("DM_NAME=rkcdp" +++ newline)) fs))).

Lemma conf_paths : Forall (fun p => p ∈ paths) CONF_FILES.
Proof. rewrite Forall_forall. intros p Hp. unfold paths. rewrite !elem_of_app. tauto. Qed.

Lemma conf_in_paths p : p ∈ CONF_FILES -> p ∈ paths.
Proof. intros Hp. pose proof conf_paths as H. rewrite Forall_forall in H. by apply H. Qed.

Lemma fixed_in_made d : d ∈ [CONF_DIR; "/etc/modprobe.d"; "/etc/initramfs-tools/conf.d"; DROPIN_DIR]%string -> d ∈ made.
Proof. intros Hd. unfold made. apply elem_of_app. by right. Qed.

Lemma does_put_conf D journal :
  CONF_DIR ∈ D ->
  does D (put_conf journal)
    (e ← sm_get (path_exists CONF); if e : bool then mret tt else write_file CONF (ConfJson (first_conf journal))).
Proof.
  intros HD s Hs Hd. assert (Hp : CONF ∈ paths) by (apply conf_in_paths; in_list).
  unfold put_conf. rewrite (sm_bind_Ok _ _ s (path_exists CONF s) s) by done. unfold path_exists.
  rewrite (bool_decide_eq_false_2 (CONF ∈ h_dirs s)) by (by apply Hs). rewrite orb_false_r.
  destruct (h_files s !! CONF) as [e|] eqn:E.
  - rewrite bool_decide_eq_true_2 by (apply elem_of_dom; by eexists). exists tt, s. by rewrite union_empty_l_L.
  - rewrite bool_decide_eq_false_2 by (by apply not_elem_of_dom).
    apply (does_write_file D CONF _ Hp HD s Hs Hd).
Qed.

Lemma does_write_confs D journal : does D (put_confs journal) (write_confs journal).
Proof.
  unfold write_confs, put_confs.
  eapply makes_weaken, makes_makedirs; [apply fixed_in_made; in_list|].
  apply (makes_bind _ _ (put_text INITRAMFS_CONF _)
    (fun fs => put_conf journal (put_text RESUME_CONF _ (put_text MODPROBE_CONF _ fs)))); [|intros _].
  { apply does_write_file; [apply conf_in_paths; in_list|]. by apply elem_of_union_l, elem_of_singleton. }
  eapply makes_weaken, makes_makedirs; [apply fixed_in_made; in_list|].
  apply (makes_bind _ _ (put_text MODPROBE_CONF _)
    (fun fs => put_conf journal (put_text RESUME_CONF _ fs))); [|intros _].
  { apply does_write_file; [apply conf_in_paths; in_list|]. by apply elem_of_union_l, elem_of_singleton. }
  eapply makes_weaken, makes_makedirs; [apply fixed_in_made; in_list|].
  apply (makes_bind _ _ (put_text RESUME_CONF _) (put_conf journal)); [|intros _].
  { apply does_write_file; [apply conf_in_paths; in_list|]. by apply elem_of_union_l, elem_of_singleton. }
  apply does_put_conf. set_unfold. tauto.
Qed.

(** The commands that must succeed do. *)
Record commands_work (src : string) : Prop := {
  work_findmnt s : (shell "findmnt -n -o SOURCE /" s).1 = mk_proc 0 src "";
  work_depmod s : p_returncode (shell "depmod -a" s).1 = 0;
  work_initramfs s : p_returncode (shell "update-initramfs -u" s).1 = 0;
  work_reload s : p_returncode (shell "systemctl daemon-reload" s).1 = 0;
}.

Definition disk_of (src : string) : string :=
  let src := strip_str src in
  let parent := realpath ("/sys/class/block/" +++ basename (realpath src) +++ "/..") in
  if bool_decide (basename parent = "block"%string) then src else ("/dev/" +++ basename parent)%string.

Lemma root_disk_works src s :
  commands_work src -> ready s ->
  exists s', setup_root_disk s = (Ok (disk_of src), s') /\ h_files s' = h_files s /\ h_dirs s' = h_dirs s /\ ready s'.
Proof.
  intros Wk Hs. unfold setup_root_disk, mbind, SM_bind, sh. pose proof (work_findmnt _ Wk s) as E.
  destruct (shell _ s) as [r w]. cbn in E. subst r. cbn [p_returncode Z.eqb negb andb p_stdout].
  eexists. split; [done|]. split; [done|]. split; [done|]. by destruct Hs.
Qed.

Lemma does_activate D src : commands_work src -> does D id activate.
Proof.
  intros Wk. unfold activate.
  assert (Hsh : forall cmd (check : bool) {B} (k : proc -> step B),
    (check = true -> forall s, p_returncode (shell cmd s).1 = 0) -> (forall a, does D id (k a)) -> does D id (sh cmd check ≫= k)).
  { intros cmd check B k Hc Hk. apply (makes_bind D _ id id); [by apply does_sh|done]. }
  apply Hsh; [intros _; apply Wk|intros _]. apply Hsh; [intros _; apply Wk|intros _].
  apply Hsh; [intros _; apply Wk|intros _]. apply Hsh; [done|intros _]. apply Hsh; [done|intros a].
  apply (makes_bind D _ id id); [case_bool_decide; by apply does_sh|intros _; apply does_ret].
Qed.

(** The files after an installation. *)
Definition installed (journal dev : string) (fs : filemap) : filemap :=
  put_text IO_CONF (Raw (io_conf dev))
    (put_confs journal
      (foldl (fun fs p => delete p fs) (foldl (fun fs row => put_asset row fs) fs FILES) LEFTOVERS)).

Definition assets_there : Prop := Forall (fun row : string * string * Z => is_Some (assets !! row.1.1)) FILES.

Lemma install_does journal src :
  euid = 0 -> assets_there -> commands_work src ->
  makes ∅ ({[DROPIN_DIR]} ∪ ∅) (installed journal (disk_of src)) (do_install journal).
Proof.
  intros He Ha Wk. unfold do_install, installed. rewrite He. cbn [Z.eqb negb].
  apply (makes_bind ∅ _ id (fun fs => put_text IO_CONF _ (put_confs journal (foldl _ (foldl _ fs FILES) LEFTOVERS))));
    [by apply does_sh|intros _].
  apply (makes_bind ∅ _ (fun fs => foldl _ fs FILES) (fun fs => put_text IO_CONF _ (put_confs journal (foldl _ fs LEFTOVERS))));
    [|intros _].
  { apply (does_each ∅ put_asset). intros row Hr. apply does_install_file; [done|].
    unfold assets_there in Ha. rewrite Forall_forall in Ha. by apply Ha. }
  apply (makes_bind ∅ _ (fun fs => foldl _ fs LEFTOVERS) (fun fs => put_text IO_CONF _ (put_confs journal fs))); [|intros _].
  { apply (does_each ∅ delete). intros p Hp. apply does_remove_if_exists. unfold paths. rewrite !elem_of_app. tauto. }
  apply (makes_bind ∅ _ (put_confs journal) (put_text IO_CONF _)); [apply does_write_confs|intros _].
  intros s Hs HD. destruct (root_disk_works src s Wk Hs) as (s1 & E1 & F1 & D1 & R1).
  rewrite (sm_bind_Ok _ _ _ _ _ E1), <-F1, <-D1.
  apply (makes_makedirs ∅ _ (put_text IO_CONF _)); [apply fixed_in_made; in_list| |done|by rewrite D1].
  apply (makes_bind _ _ (put_text IO_CONF _) id); [|intros _; by eapply does_activate].
  apply does_write_file; [apply conf_in_paths; in_list|]. by apply elem_of_union_l, elem_of_singleton.
Qed.

(** ** Lookups *)

Lemma paths_NoDup : NoDup paths.
Proof.
  assert (Hf : NoDup fixed_paths) by in_list.
  assert (Hm : forall p, not_lib p = false -> p ∉ fixed_paths).
  { intros p Hp Hin. pose proof (fixed_not_lib p ltac:(apply elem_of_app; by left)). congruence. }
  assert (Hne : module_path <> tmp_name module_path).
  { intros E. apply (f_equal (fun s => length (chars s))) in E. unfold tmp_name in E.
    rewrite chars_app, length_app in E. cbn [chars length] in E. lia. }
  assert (Hperm : paths ≡ₚ module_path :: tmp_name module_path :: fixed_paths).
  { change paths with (module_path :: map row_dst (tail FILES) ++ tmp_name module_path ::
      map (fun row => tmp_name (row_dst row)) (tail FILES) ++ LEFTOVERS ++ CONF_FILES).
    unfold fixed_paths. constructor. symmetry. apply Permutation_middle. }
  rewrite Hperm. constructor; [|constructor; [|done]].
  - intros [E|Hin]%elem_of_cons; [done|]. by apply (Hm module_path).
  - by apply Hm.
Qed.

Abbreviation dsts := (map row_dst FILES).
Abbreviation tmps := (map (fun row => tmp_name (row_dst row)) FILES).

(** The four kinds of paths are different. *)
Lemma paths_apart :
  NoDup dsts /\ (forall p, p ∈ dsts -> p ∉ tmps ++ LEFTOVERS ++ CONF_FILES) /\
  (forall p, p ∈ tmps -> p ∉ LEFTOVERS ++ CONF_FILES) /\ (forall p, p ∈ LEFTOVERS -> p ∉ CONF_FILES).
Proof.
  pose proof paths_NoDup as H. unfold paths in H. apply NoDup_app in H as (H1 & H2 & H).
  apply NoDup_app in H as (_ & H3 & H). apply NoDup_app in H as (_ & H4 & _). done.
Qed.

Lemma put_asset_other p row fs : p <> row_dst row -> p <> tmp_name (row_dst row) -> put_asset row fs !! p = fs !! p.
Proof.
  intros H1 H2. unfold put_asset. destruct (assets !! row.1.1) as [data|]; [|done].
  by rewrite lookup_insert_ne, lookup_delete_ne by done.
Qed.

Lemma put_assets_other p l fs :
  p ∉ map row_dst l -> p ∉ map (fun row => tmp_name (row_dst row)) l ->
  foldl (fun fs row => put_asset row fs) fs l !! p = fs !! p.
Proof.
  revert fs. induction l as [|row l IH]; intros fs H1 H2; [done|]. cbn [foldl].
  cbn [map] in H1, H2. apply not_elem_of_cons in H1 as [? ?], H2 as [? ?].
  by rewrite IH, put_asset_other.
Qed.

Lemma put_assets_dst row data l fs :
  NoDup (map row_dst l) -> (forall p, p ∈ map row_dst l -> p ∉ map (fun row => tmp_name (row_dst row)) l) ->
  row ∈ l -> assets !! row.1.1 = Some data ->
  foldl (fun fs row => put_asset row fs) fs l !! row_dst row = Some (mk_entry (Raw data) row.2).
Proof.
  intros Hnd Ht Hin Ha. revert fs. induction l as [|row' l IH]; intros fs; [by apply not_elem_of_nil in Hin|].
  cbn [map foldl] in *. apply NoDup_cons in Hnd as [Hn Hnd].
  assert (Ht' : forall p, p ∈ map row_dst l -> p ∉ map (fun row => tmp_name (row_dst row)) l).
  { intros p Hp Hp'. apply (Ht p); by right. }
  destruct (decide (row ∈ l)) as [Hl|Hl]; [by apply IH|].
  apply elem_of_cons in Hin as [->|Hin]; [|done].
  rewrite put_assets_other; [|done|].
  - unfold put_asset. by rewrite Ha, lookup_insert_eq.
  - intros Hp. by apply (Ht (row_dst row')); [left|right].
Qed.

Lemma put_assets_tmp row l fs :
  (forall row, row ∈ l -> is_Some (assets !! row.1.1)) ->
  (forall p, p ∈ map row_dst l -> p ∉ map (fun row => tmp_name (row_dst row)) l) ->
  row ∈ l -> foldl (fun fs row => put_asset row fs) fs l !! tmp_name (row_dst row) = None.
Proof.
  intros Ha Ht. set (p := tmp_name (row_dst row)).
  assert (Hkeep : forall l fs, p ∉ map row_dst l -> fs !! p = None -> foldl (fun fs row => put_asset row fs) fs l !! p = None).
  { clear. induction l as [|row' l IH]; intros fs Hd Hn; [done|]. cbn [map foldl] in *.
    apply not_elem_of_cons in Hd as [? ?]. apply IH; [done|]. unfold put_asset.
    destruct (assets !! row'.1.1); [|done]. rewrite lookup_insert_ne by done. by apply lookup_delete_None; right. }
  intros Hin. assert (Hp : p ∉ map row_dst l).
  { intros Hp. apply (Ht p Hp). by apply (list_elem_of_fmap_2 (fun row => tmp_name (row_dst row))). }
  clear Ht. revert fs. induction l as [|row' l IH]; intros fs; [by apply not_elem_of_nil in Hin|].
  cbn [map foldl] in *. apply not_elem_of_cons in Hp as [Hp1 Hp2].
  apply elem_of_cons in Hin as [->|Hin].
  - apply Hkeep; [done|]. unfold put_asset. destruct (Ha row' ltac:(by left)) as [data ->].
    rewrite lookup_insert_ne by done. apply lookup_delete_eq.
  - apply IH; [intros row'' ?; apply Ha; by right|done|done].
Qed.

Lemma delete_all_other p l (fs : filemap) : p ∉ l -> foldl (fun fs p => delete p fs) fs l !! p = fs !! p.
Proof.
  revert fs. induction l as [|q l IH]; intros fs Hp; [done|]. apply not_elem_of_cons in Hp as [? ?].
  cbn [foldl]. by rewrite IH, lookup_delete_ne.
Qed.

Lemma delete_all_in p l (fs : filemap) : p ∈ l -> foldl (fun fs p => delete p fs) fs l !! p = None.
Proof.
  revert fs. induction l as [|q l IH]; intros fs Hp; [by apply not_elem_of_nil in Hp|]. cbn [foldl].
  destruct (decide (p ∈ l)) as [Hl|Hl]; [by apply IH|]. apply elem_of_cons in Hp as [->|]; [|done].
  rewrite delete_all_other by done. apply lookup_delete_eq.
Qed.

Lemma put_text_other p q data fs : p <> q -> put_text q data fs !! p = fs !! p.
Proof. intros H. unfold put_text. by rewrite lookup_insert_ne. Qed.

Lemma put_confs_other p journal fs : p ∉ CONF_FILES -> put_confs journal fs !! p = fs !! p.
Proof.
  intros Hp. unfold CONF_FILES in Hp. rewrite !not_elem_of_cons in Hp. destruct Hp as (? & ? & ? & ? & _ & _).
  unfold put_confs, put_conf. case_match; by rewrite ?put_text_other by done.
Qed.

Ltac path_ne := vm_compute; discriminate.

(** The text a file of [CONF_FILES] gets; [None]: the user's, if there is one. *)
Definition conf_text (dev p : string) : option string :=
  if bool_decide (p = INITRAMFS_CONF) then Some ("DM_NAME=rkcdp" +++ newline)%string
  else if bool_decide (p = MODPROBE_CONF) then Some ("options dm-cdp ring_mb=1024" +++ newline)%string
  else if bool_decide (p = RESUME_CONF) then Some ("RESUME=none" +++ newline)%string
  else if bool_decide (p = IO_CONF) then Some (io_conf dev)
  else None.

Lemma put_confs_in p journal dev fs :
  p ∈ CONF_FILES ->
  put_text IO_CONF (Raw (io_conf dev)) (put_confs journal fs) !! p =
    match conf_text dev p with
    | Some t => Some (mk_entry (Raw t) (from_option e_mode new_mode (fs !! p)))
    | None => Some (default (mk_entry (ConfJson (first_conf journal)) new_mode) (fs !! p))
    end.
Proof.
  intros Hp. unfold put_confs, put_conf. rewrite !(put_text_other CONF) by path_ne.
  unfold CONF_FILES in Hp. rewrite !elem_of_cons, elem_of_nil in Hp.
  destruct Hp as [->|[->|[->|[->|[->|[]]]]]].
  - change (conf_text dev INITRAMFS_CONF) with (Some ("DM_NAME=rkcdp" +++ newline)%string). cbn iota.
    destruct (fs !! CONF); rewrite !put_text_other by path_ne; by unfold put_text; rewrite lookup_insert_eq.
  - change (conf_text dev MODPROBE_CONF) with (Some ("options dm-cdp ring_mb=1024" +++ newline)%string). cbn iota.
    destruct (fs !! CONF); rewrite !put_text_other by path_ne; unfold put_text at 1; rewrite lookup_insert_eq;
      by rewrite !put_text_other by path_ne.
  - change (conf_text dev RESUME_CONF) with (Some ("RESUME=none" +++ newline)%string). cbn iota.
    destruct (fs !! CONF); rewrite !put_text_other by path_ne; unfold put_text at 1; rewrite lookup_insert_eq;
      by rewrite !put_text_other by path_ne.
  - change (conf_text dev CONF) with (@None string). cbn iota.
    destruct (fs !! CONF) as [e|] eqn:E; [by rewrite !put_text_other, E by path_ne|].
    rewrite put_text_other by path_ne. unfold put_text at 1. rewrite lookup_insert_eq.
    by rewrite !put_text_other, E by path_ne.
  - change (conf_text dev IO_CONF) with (Some (io_conf dev)). cbn iota.
    unfold put_text at 1. rewrite lookup_insert_eq.
    destruct (fs !! CONF); by rewrite !put_text_other by path_ne.
Qed.

(** *** The files of an installation, path by path *)

Section Installed.
Variables (journal dev : string) (fs : filemap).

Lemma installed_dst row data :
  row ∈ FILES -> assets !! row.1.1 = Some data ->
  installed journal dev fs !! row_dst row = Some (mk_entry (Raw data) row.2).
Proof.
  intros Hr Ha. destruct paths_apart as (Hnd & Hd & _ & _).
  assert (Hp : row_dst row ∈ dsts) by by apply (list_elem_of_fmap_2 row_dst).
  pose proof (Hd _ Hp) as Hn. rewrite !not_elem_of_app in Hn. destruct Hn as (Ht & Hl & Hc).
  unfold installed. rewrite put_text_other by (intros E; apply Hc; rewrite E; in_list).
  rewrite put_confs_other, delete_all_other by done. apply put_assets_dst; try done.
  intros p Hp' Ht'. apply (Hd p Hp'). apply elem_of_app. by left.
Qed.

Lemma installed_gone p : assets_there -> p ∈ tmps ++ LEFTOVERS -> installed journal dev fs !! p = None.
Proof.
  intros Ha Hp. destruct paths_apart as (_ & Hd & Ht & Hl).
  assert (Hc : p ∉ CONF_FILES).
  { apply elem_of_app in Hp as [Hp|Hp]; [|by apply Hl]. intros Hc. apply (Ht p Hp). apply elem_of_app. by right. }
  unfold installed. rewrite put_text_other by (intros E; apply Hc; rewrite E; in_list).
  rewrite put_confs_other by done. destruct (decide (p ∈ LEFTOVERS)) as [Hp'|Hp']; [by apply delete_all_in|].
  rewrite delete_all_other by done. apply elem_of_app in Hp as [Hp|]; [|done].
  apply list_elem_of_fmap_1 in Hp as (row & -> & Hr). apply put_assets_tmp; [|intros q Hq Hq'|done].
  - unfold assets_there in Ha. rewrite Forall_forall in Ha. exact Ha.
  - apply (Hd q Hq). apply elem_of_app. by left.
Qed.

(** The other paths, as they were. *)
Lemma installed_before p : p ∉ dsts -> p ∉ tmps -> p ∉ LEFTOVERS ->
  foldl (fun fs p => delete p fs) (foldl (fun fs row => put_asset row fs) fs FILES) LEFTOVERS !! p = fs !! p.
Proof. intros. by rewrite delete_all_other, put_assets_other. Qed.

Lemma installed_conf p :
  p ∈ CONF_FILES ->
  installed journal dev fs !! p =
    match conf_text dev p with
    | Some t => Some (mk_entry (Raw t) (from_option e_mode new_mode (fs !! p)))
    | None => Some (default (mk_entry (ConfJson (first_conf journal)) new_mode) (fs !! p))
    end.
Proof.
  intros Hc. destruct paths_apart as (_ & Hd & Ht & Hl). unfold installed.
  rewrite (put_confs_in p journal dev) by done. rewrite installed_before; [done| | |].
  - intros Hp. apply (Hd p Hp). rewrite !elem_of_app. tauto.
  - intros Hp. apply (Ht p Hp). rewrite !elem_of_app. tauto.
  - intros Hp. by apply (Hl p Hp).
Qed.

Lemma installed_other p : p ∉ paths -> installed journal dev fs !! p = fs !! p.
Proof.
  unfold paths. rewrite !not_elem_of_app. intros (Hd & Ht & Hl & Hc). unfold installed.
  rewrite put_text_other by (intros E; apply Hc; rewrite E; in_list). by rewrite put_confs_other, installed_before.
Qed.
End Installed.

Lemma installed_twice journal journal' dev fs :
  assets_there -> installed journal' dev (installed journal dev fs) = installed journal dev fs.
Proof.
  intros Ha. apply map_eq. intros p. destruct (decide (p ∈ paths)) as [Hp|Hp]; [|by apply installed_other].
  unfold paths in Hp. rewrite app_assoc, !elem_of_app in Hp. destruct Hp as [[Hp|Hp]|[Hp|Hp]].
  - apply list_elem_of_fmap_1 in Hp as (row & -> & Hr). pose proof Ha as Ha'. unfold assets_there in Ha'.
    rewrite Forall_forall in Ha'. destruct (Ha' row Hr) as [data E]. by rewrite !(installed_dst _ _ _ row data).
  - rewrite !installed_gone; try done; apply elem_of_app; by left.
  - rewrite !installed_gone; try done; apply elem_of_app; by right.
  - rewrite !installed_conf by done. by destruct (conf_text dev p).
Qed.

(** ** Properties *)

(** C35: what an installation leaves.  Run as root over a machine where the
    paths are free, with its assets there and no call on its files and no
    command it needs failing, it succeeds: every asset is in its place with its mode, no
    temporary file and no leftover of an earlier build is there, the four
    fixed configuration files have their text, the daemon's configuration is
    the user's where there was one, and every other file is untouched. *)
Theorem install_result journal src s :
  euid = 0 -> assets_there -> commands_work src -> ready s ->
  exists s', do_install journal s = (Ok tt, s') /\ ready s' /\
    (forall asset dst mode, (asset, dst, mode) ∈ FILES ->
       exists data, assets !! asset = Some data /\ h_files s' !! dst = Some (mk_entry (Raw data) mode)) /\
    (forall p, p ∈ tmps ++ LEFTOVERS -> h_files s' !! p = None) /\
    (forall p t, p ∈ CONF_FILES -> conf_text (disk_of src) p = Some t -> e_data <$> h_files s' !! p = Some (Raw t)) /\
    h_files s' !! CONF = Some (default (mk_entry (ConfJson (first_conf journal)) new_mode) (h_files s !! CONF)) /\
    (forall p, p ∉ paths -> h_files s' !! p = h_files s !! p).
Proof.
  intros He Ha Wk Hs. destruct (install_does journal src He Ha Wk s Hs ltac:(apply empty_subseteq)) as ([] & s' & E & F & _ & R).
  exists s'. split; [done|]. split; [done|]. rewrite F. split_and!.
  - intros asset dst mode Hr. pose proof Ha as Ha'. unfold assets_there in Ha'. rewrite Forall_forall in Ha'.
    destruct (Ha' _ Hr) as [data Ed]. exists data. split; [done|]. by apply (installed_dst journal _ _ (asset, dst, mode)).
  - intros p Hp. by apply installed_gone.
  - intros p t Hp Et. by rewrite installed_conf, Et by done.
  - rewrite installed_conf by in_list. done.
  - intros p Hp. by apply installed_other.
Qed.

(** Installing is idempotent: a second run succeeds and changes no file,
    whatever journal it is given. *)
Theorem install_idempotent journal journal' src s :
  euid = 0 -> assets_there -> commands_work src -> ready s ->
  exists s1 s2, do_install journal s = (Ok tt, s1) /\ do_install journal' s1 = (Ok tt, s2) /\ h_files s2 = h_files s1.
Proof.
  intros He Ha Wk Hs. destruct (install_does journal src He Ha Wk s Hs ltac:(apply empty_subseteq)) as ([] & s1 & E1 & F1 & _ & R1).
  destruct (install_does journal' src He Ha Wk s1 R1 ltac:(apply empty_subseteq)) as ([] & s2 & E2 & F2 & _ & _).
  exists s1, s2. split_and!; [done..|]. rewrite F2, F1. by apply installed_twice.
Qed.

(** *** Removing *)

Lemma keeps_for_each {S A B} (g : S -> B) (f : A -> SM S unit) l : (forall x, keeps g (f x)) -> keeps g (for_each f l).
Proof. intros H. induction l as [|x l IH]; [by intros s|]. cbn [for_each]. by apply keeps_bind. Qed.

(** The files [do_remove] takes away. *)
Definition removed (s : host W) (p : string) : Prop :=
  p ∈ tail dsts \/ p = INITRAMFS_CONF \/ (DROPIN_DIR ∈ h_dirs s /\ below DROPIN_DIR p = true).

#[local] Instance removed_dec s p : Decision (removed s p).
Proof. unfold removed. apply _. Defined.

Lemma module_startswith : startswith module_path "/lib/modules/" = true.
Proof. apply startswith_append. Qed.

Lemma does_remove_rows D :
  does D (fun fs => foldl (fun fs row => delete (row_dst row) fs) fs (tail FILES)) (for_each remove_row FILES).
Proof.
  change (for_each remove_row FILES) with (remove_row ("dm-cdp.ko", module_path, 420)%string;; for_each remove_row (tail FILES)).
  assert (Hm : remove_row ("dm-cdp.ko", module_path, 420)%string = mret tt) by (unfold remove_row; by rewrite module_startswith). rewrite Hm.
  apply (makes_bind D _ id (fun fs => foldl (fun fs row => delete (row_dst row) fs) fs (tail FILES))); [apply does_ret|intros _].
  apply (does_each D (fun row => delete (row_dst row))). intros row Hr.
  assert (Hs : Forall (fun row => startswith (row_dst row) "/lib/modules/" = false) (tail FILES)) by in_list.
  rewrite Forall_forall in Hs. specialize (Hs row Hr). destruct row as [[a dst] mode]. unfold remove_row.
  unfold row_dst in *. cbn [fst snd] in *. rewrite Hs. apply does_remove_if_exists.
  refine (proj1 (row_paths (a, dst, mode) _)). change FILES with (("dm-cdp.ko", module_path, 420)%string :: tail FILES).
  by right.
Qed.

Lemma keeps_sh_dirs cmd check : keeps h_dirs (sh cmd check).
Proof. intros s. unfold sh. destruct (shell cmd s). by case_match. Qed.

Lemma keeps_remove_dirs p : keeps h_dirs (remove_if_exists p).
Proof. unfold remove_if_exists, remove_file. keeps_step. intros s. by case_match. Qed.

Lemma keeps_remove_rows : keeps h_dirs (for_each remove_row FILES).
Proof. apply keeps_for_each. intros [[a dst] mode]. unfold remove_row. case_match; [by intros s|apply keeps_remove_dirs]. Qed.

Lemma foldl_delete_map {A} (f : A -> string) l (fs : filemap) :
  foldl (fun fs x => delete (f x) fs) fs l = foldl (fun fs p => delete p fs) fs (map f l).
Proof. revert fs. induction l as [|x l IH]; intros fs; cbn; [done|apply IH]. Qed.

Lemma ready_rmtree d s : ready s -> exists s', rmtree d s = (Ok tt, s') /\ ready s' /\
  forall p, h_files s' !! p = if bool_decide (d ∈ h_dirs s) && below d p then None else h_files s !! p.
Proof.
  intros [Hp Hm]. unfold rmtree. case_bool_decide as Hd; cbn [andb]; [|by exists s].
  eexists. split; [done|]. split; [split; cbn|].
  - intros p Hin [_ H]%elem_of_filter. by apply (Hp p).
  - intros q Hq. rewrite map_lookup_filter, Hm by done. done.
  - intros p. cbn [h_files]. rewrite map_lookup_filter.
    destruct (h_files s !! p) as [e|] eqn:E, (below d p) eqn:B; simplify_option_eq; done || congruence.
Qed.

(** What a removal takes away: the installed files other than the module,
    the file of the initramfs and whatever is in the unit's drop-in directory;
    every other file stays, the daemon's configuration among them. *)
Theorem remove_result src s :
  commands_work src -> ready s ->
  exists s', do_remove s = (Ok tt, s') /\ ready s' /\
    forall p, h_files s' !! p = if decide (removed s p) then None else h_files s !! p.
Proof.
  intros Wk Hs. unfold do_remove.
  destruct (makes_bind ∅ _ id (fun fs => foldl (fun fs row => delete (row_dst row) fs) fs (tail FILES))
    (sh "systemctl disable --now rkcdpd >/dev/null 2>&1" false) (fun _ => for_each remove_row FILES)
    (does_sh ∅ _ false ltac:(done)) (fun _ => does_remove_rows ∅) s Hs ltac:(apply empty_subseteq))
    as ([] & s1 & E1 & F1 & _ & R1).
  assert (D1 : h_dirs s1 = h_dirs s).
  { transitivity (h_dirs (Ok tt, s1).2); [done|]. rewrite <-E1.
    apply (keeps_bind h_dirs (sh _ false)); [apply keeps_sh_dirs|intros _; apply keeps_remove_rows]. }
  rewrite <-sm_bind_assoc, (sm_bind_Ok _ _ _ _ _ E1).
  destruct (ready_rmtree DROPIN_DIR s1 R1) as (s2 & E2 & R2 & F2). rewrite (sm_bind_Ok _ _ _ _ _ E2).
  assert (Hp : forall p, p ∈ ["/etc/udev/rules.d/99-rkcdp.rules"; INITRAMFS_CONF]%string -> p ∈ paths).
  { intros p Hp. apply elem_paths. right; right. revert p Hp.
    assert (H : Forall (fun p => p ∈ fixed_paths) ["/etc/udev/rules.d/99-rkcdp.rules"; INITRAMFS_CONF]%string) by in_list.
    intros p. rewrite Forall_forall in H. apply H. }
  destruct (does_each ∅ delete remove_if_exists ["/etc/udev/rules.d/99-rkcdp.rules"; INITRAMFS_CONF]%string
    ltac:(intros p Hin; apply does_remove_if_exists, Hp, Hin) s2 R2 ltac:(apply empty_subseteq)) as ([] & s3 & E3 & F3 & _ & R3).
  rewrite (sm_bind_Ok _ _ _ _ _ E3).
  assert (Hact : does ∅ id (sh "update-initramfs -u" true;; sh "systemctl daemon-reload" true;; mret tt)).
  { apply (makes_bind ∅ _ id id); [apply does_sh; intros _; apply Wk|intros _].
    apply (makes_bind ∅ _ id id); [apply does_sh; intros _; apply Wk|intros _; apply does_ret]. }
  destruct (Hact s3 R3 ltac:(apply empty_subseteq)) as ([] & s4 & E4 & F4 & _ & R4).
  exists s4. split; [done|]. split; [done|]. intros p. rewrite F4, F3. cbn [id foldl].
  rewrite !lookup_delete, F2, F1, D1, (foldl_delete_map row_dst). change (map row_dst (tail FILES)) with (tail dsts).
  unfold id. destruct (decide (p ∈ tail dsts)) as [Hd|Hd].
  { rewrite delete_all_in by done. rewrite (decide_True (P := removed s p)) by by left. by repeat case_match. }
  rewrite delete_all_other by done. rewrite (decide_False (P := "/etc/udev/rules.d/99-rkcdp.rules"%string = p)) by (intros <-; apply Hd; in_list).
  destruct (decide (INITRAMFS_CONF = p)) as [<-|Hi]; [by rewrite (decide_True (P := removed s _)) by (right; by left)|].
  destruct (decide (removed s p)) as [[?|[?|[H1 H2]]]|Hn]; [done|done|by rewrite bool_decide_eq_true_2, H2|].
  destruct (bool_decide (DROPIN_DIR ∈ h_dirs s) && below DROPIN_DIR p) eqn:E; [|done].
  apply andb_true_iff in E as [E%bool_decide_eq_true E']. exfalso. apply Hn. right; by right.
Qed.

Lemma module_stays s : ~ removed s module_path.
Proof.
  intros [H|[H|[_ H]]]; [|discriminate|].
  - pose proof (proj1 paths_apart) as Hn. change dsts with (module_path :: tail dsts) in Hn.
    by apply NoDup_cons in Hn as [? _].
  - unfold below in H. discriminate.
Qed.

(** What is left of an installation that is removed again: on a machine
    where none of its files was there, the module and three configuration
    files stay behind -- the ring size for the module, the disabled resume and
    the daemon's configuration -- and nothing else. *)
Theorem install_remove journal src s :
  euid = 0 -> assets_there -> commands_work src -> ready s ->
  (forall p, p ∈ paths -> h_files s !! p = None) -> (forall p, below DROPIN_DIR p = true -> h_files s !! p = None) ->
  exists s1 s', do_install journal s = (Ok tt, s1) /\ do_remove s1 = (Ok tt, s') /\
    forall p, if decide (p ∈ [module_path; MODPROBE_CONF; RESUME_CONF; CONF]) then is_Some (h_files s' !! p)
              else h_files s' !! p = h_files s !! p.
Proof.
  intros He Ha Wk Hs Hp0 Hb0.
  destruct (install_does journal src He Ha Wk s Hs ltac:(apply empty_subseteq)) as ([] & s1 & E1 & F1 & D1 & R1).
  assert (Hdir : DROPIN_DIR ∈ h_dirs s1) by by apply D1, elem_of_union_l, elem_of_union_l, elem_of_singleton.
  destruct (remove_result src s1 Wk R1) as (s2 & E2 & _ & F2). exists s1, s2. split_and!; [done..|]. intros p. rewrite F2, F1.
  clear E1 E2 F1 F2 D1. case_decide as Hk.
  - rewrite decide_False.
    + rewrite !elem_of_cons, elem_of_nil in Hk. destruct Hk as [->|Hk].
      { unfold assets_there in Ha. rewrite Forall_forall in Ha.
        destruct (Ha ("dm-cdp.ko", module_path, 420)%string ltac:(by left)) as [data Ed].
        rewrite (installed_dst journal _ _ ("dm-cdp.ko", module_path, 420)%string data) by (by left || done). by eexists. }
      destruct Hk as [->|[->|[->|[]]]]; rewrite installed_conf by in_list; case_match; by eexists.
    + rewrite !elem_of_cons, elem_of_nil in Hk. destruct Hk as [->|[->|[->|[->|[]]]]]; [apply module_stays|..].
      all: intros [H|[H|[_ H]]]; [revert H; in_list|discriminate H|discriminate H].
  - destruct (decide (p ∈ paths)) as [Hp|Hp]; [rewrite Hp0 by done|].
    + case_decide as Hr; [done|]. unfold paths in Hp. rewrite !elem_of_app in Hp. destruct Hp as [Hp|[Hp|[Hp|Hp]]].
      * exfalso. change dsts with (module_path :: tail dsts) in Hp. apply elem_of_cons in Hp as [->|Hp].
        -- apply Hk. by left.
        -- apply Hr. by left.
      * apply installed_gone; [done|]. apply elem_of_app. by left.
      * apply installed_gone; [done|]. apply elem_of_app. by right.
      * exfalso. unfold CONF_FILES in Hp. rewrite !elem_of_cons, elem_of_nil in Hp. destruct Hp as [->|[->|[->|[->|[->|[]]]]]].
        -- apply Hr. right. by left.
        -- apply Hk. right. by left.
        -- apply Hk. right. right. by left.
        -- apply Hk. right. right. right. by left.
        -- apply Hr. right. right. by split.
    + case_decide as Hr; [|by apply installed_other].
      destruct Hr as [Hr|[->|[_ Hr]]]; [| |by rewrite Hb0].
      * exfalso. apply Hp. unfold paths. apply elem_of_app. left. change dsts with (module_path :: tail dsts). by right.
      * exfalso. apply Hp. apply conf_in_paths. by left.
Qed.


(** *** Installations that fail *)

(** A destination has what it had in [s0], or its new file, complete. *)
Definition old_or_new (fs0 : filemap) (s : host W) : Prop :=
  forall asset dst mode, (asset, dst, mode) ∈ FILES ->
    h_files s !! dst = fs0 !! dst \/
    exists data, assets !! asset = Some data /\ h_files s !! dst = Some (mk_entry (Raw data) mode).

Section Atomic.
Variable fs0 : filemap.

Lemma old_or_new_other s s' p :
  p ∉ dsts -> (forall q, q <> p -> h_files s' !! q = h_files s !! q) -> old_or_new fs0 s -> old_or_new fs0 s'.
Proof.
  intros Hp H Hs asset dst mode Hr. rewrite H; [by apply Hs|]. intros ->. apply Hp.
  apply (list_elem_of_fmap_2 row_dst _ _ Hr).
Qed.

Lemma preserves_sh cmd check : preserves (old_or_new fs0) (sh cmd check).
Proof. intros s Hs. unfold sh. destruct (shell cmd s). by case_match. Qed.

Lemma preserves_makedirs d : preserves (old_or_new fs0) (makedirs d).
Proof. intros s Hs. unfold makedirs. by case_match. Qed.

Lemma preserves_write_file p data : p ∉ dsts -> preserves (old_or_new fs0) (write_file p data).
Proof.
  intros Hp s Hs. unfold write_file. case_match; [done|]. destruct (fate (Write p) s); apply (old_or_new_other s _ p); try done.
  all: intros q Hq; cbn; by rewrite lookup_insert_ne.
Qed.

Lemma preserves_chmod p mode : p ∉ dsts -> preserves (old_or_new fs0) (chmod p mode).
Proof.
  intros Hp s Hs. unfold chmod. destruct (h_files s !! p) as [e|], (fate (Chmod p) s); try done.
  apply (old_or_new_other s _ p); [done| |done]. intros q Hq. cbn. by rewrite lookup_insert_ne.
Qed.

(** What was written to its end is complete, and [chmod] keeps it. *)
Lemma write_file_Ok p data s s' : write_file p data s = (Ok tt, s') -> exists m, h_files s' !! p = Some (mk_entry data m).
Proof.
  unfold write_file. case_match; [done|]. destruct (fate (Write p) s); intros [= <-].
  eexists. cbn. by rewrite lookup_insert_eq.
Qed.

Lemma chmod_Ok p data m mode s s' :
  h_files s !! p = Some (mk_entry data m) -> chmod p mode s = (Ok tt, s') -> h_files s' !! p = Some (mk_entry data mode).
Proof. intros E. unfold chmod. rewrite E. destruct (fate (Chmod p) s); intros [= <-]. cbn. by rewrite lookup_insert_eq. Qed.

Lemma preserves_remove p : p ∉ dsts -> preserves (old_or_new fs0) (remove_if_exists p).
Proof.
  intros Hp. unfold remove_if_exists. preserves_step. intros s Hs. unfold remove_file. case_match; [|done].
  apply (old_or_new_other s _ p); [done| |done]. intros q Hq. cbn. by rewrite lookup_delete_ne.
Qed.

Lemma same_dst row row' : row ∈ FILES -> row' ∈ FILES -> row_dst row = row_dst row' -> row = row'.
Proof.
  intros Hr Hr' E. apply list_elem_of_lookup in Hr as [i Hi], Hr' as [j Hj].
  assert (j = i) as ->; [|congruence]. eapply (NoDup_lookup _ j i _ (proj1 paths_apart)).
  - change dsts with (row_dst <$> FILES). by rewrite list_lookup_fmap, Hj.
  - change dsts with (row_dst <$> FILES). rewrite list_lookup_fmap, Hi. cbn. by rewrite E.
Qed.

Lemma preserves_install_file row : row ∈ FILES -> preserves (old_or_new fs0) (install_file row).
Proof.
  intros Hr s Hs. destruct row as [[asset dst] mode]. unfold install_file.
  destruct (assets !! asset) as [data|] eqn:Ea; [|done]. fold (tmp_name dst).
  assert (Ht : tmp_name dst ∉ dsts).
  { intros H. apply (proj1 (proj2 paths_apart) _ H), elem_of_app. left.
    by apply (list_elem_of_fmap_2 (fun row => tmp_name (row_dst row)) _ _ Hr). }
  pose proof (preserves_makedirs (dirname dst) s Hs) as H1. unfold mbind at 1, SM_bind at 1.
  destruct (makedirs _ s) as [[[]|e|] s1]; [|done..]. cbn in H1.
  pose proof (preserves_write_file _ (Raw data) Ht s1 H1) as H2. unfold mbind at 1, SM_bind at 1.
  destruct (write_file _ _ s1) as [[[]|e|] s2] eqn:E2; [|done..]. cbn in H2. apply write_file_Ok in E2 as [m0 E2].
  pose proof (preserves_chmod _ mode Ht s2 H2) as H3. unfold mbind at 1, SM_bind at 1.
  destruct (chmod _ _ s2) as [[[]|e|] s3] eqn:E3; [|done..]. cbn in H3. apply (chmod_Ok _ _ _ _ _ _ E2) in E3.
  unfold replace_file. rewrite E3. destruct (fate _ s3); [done|]. case_match; [done|].
  intros a d m Hr'. cbn [h_files set_files snd]. destruct (decide (d = dst)) as [->|Hd].
  - right. rewrite lookup_insert_eq. exists data. by pose proof (same_dst (a, dst, m) (asset, dst, mode) Hr' Hr eq_refl) as [= -> ->].
  - assert (d <> tmp_name dst) by (intros ->; apply Ht; by apply (list_elem_of_fmap_2 row_dst _ _ Hr')).
    rewrite lookup_insert_ne, lookup_delete_ne by done. by apply H3.
Qed.

Lemma preserves_each {A} (f : A -> step unit) l :
  (forall x, x ∈ l -> preserves (old_or_new fs0) (f x)) -> preserves (old_or_new fs0) (for_each f l).
Proof.
  induction l as [|x l IH]; intros H; [by intros s|]. cbn [for_each]. apply preserves_bind; [apply H; by left|].
  intros _. apply IH. intros y Hy. apply H. by right.
Qed.

Lemma preserves_do_install journal : preserves (old_or_new fs0) (do_install journal).
Proof.
  assert (Hc : forall p, p ∈ LEFTOVERS ++ CONF_FILES -> p ∉ dsts).
  { intros p Hp Hd. apply (proj1 (proj2 paths_apart) p Hd). rewrite !elem_of_app in *. tauto. }
  unfold do_install, write_confs, setup_root_disk, activate. destruct (negb (euid =? 0)); [by intros s|].
  repeat first [ (apply preserves_each; exact preserves_install_file)
    | (apply (preserves_each remove_if_exists LEFTOVERS); intros p Hp; apply preserves_remove, Hc, elem_of_app; by left)
    | apply preserves_sh | apply preserves_makedirs | (apply preserves_write_file, Hc; in_list)
    | (apply preserves_bind; [|intros ?]) | (intros s Hs; exact Hs) | case_match ].
Qed.
End Atomic.

(** C36: an installation that breaks off -- a missing asset, a directory in the
    way, a command that fails, a full disk in the middle of a write, or a
    program that is killed at any call -- has no half-written destination: each
    has the file it had or the complete new one with its mode.  Without root
    nothing changes at all. *)
Theorem install_atomic journal s asset dst mode :
  (asset, dst, mode) ∈ FILES ->
  let s' := (do_install journal s).2 in
  (h_files s' !! dst = h_files s !! dst \/
   exists data, assets !! asset = Some data /\ h_files s' !! dst = Some (mk_entry (Raw data) mode)) /\
  (euid <> 0 -> s' = s).
Proof.
  intros Hr s'. split.
  - apply (preserves_do_install (h_files s) journal s); [|done]. intros a d m _. by left.
  - intros He. unfold s', do_install. by rewrite (proj2 (Z.eqb_neq _ _) He).
Qed.

(** *** Checking *)

(** The initial ramdisk: [update-initramfs] puts the module into it when the
    module and the hook are installed, no other command of the installer
    changes it, and [lsinitramfs] lists what is in it. *)
Class Initrd (has_module : W -> bool) : Prop := {
  initrd_update s :
    is_Some (h_files s !! module_path) -> is_Some (h_files s !! "/etc/initramfs-tools/hooks/rkcdp"%string) ->
    has_module (shell "update-initramfs -u" s).2 = true;
  initrd_other cmd s : cmd <> "update-initramfs -u"%string -> has_module (shell cmd s).2 = has_module (h_world s);
  initrd_list s : has_module (h_world s) = true ->
    strip_str (p_stdout (shell ("lsinitramfs /boot/initrd.img-" +++ KVER +++ " 2>/dev/null | grep -c dm-cdp.ko") s).1)
      ∉ [""; "0"]%string;
}.

Section Check.
Context {has_module : W -> bool} {initrd : Initrd has_module}.

Definition in_initrd (s : host W) : Prop := has_module (h_world s) = true.

Lemma preserves_initrd cmd check : cmd <> "update-initramfs -u"%string -> preserves in_initrd (sh cmd check).
Proof.
  intros Hc s Hs. unfold sh, in_initrd in *. pose proof (initrd_other cmd s Hc) as E.
  destruct (shell cmd s) as [r w]. cbn in E. case_match; cbn; congruence.
Qed.

Lemma keeps_sh_files cmd check : keeps h_files (sh cmd check).
Proof. intros s. unfold sh. destruct (shell cmd s). by case_match. Qed.

(** [activate] leaves the files, and a ramdisk with the module when the module
    and its hook are installed. *)
Lemma activate_initrd s s' :
  activate s = (Ok tt, s') -> h_files s' = h_files s /\
  (is_Some (h_files s !! module_path) -> is_Some (h_files s !! "/etc/initramfs-tools/hooks/rkcdp"%string) -> in_initrd s').
Proof.
  intros E. assert (Hf : keeps h_files activate).
  { unfold activate. repeat first [ apply keeps_bind; [|intros ?] | apply keeps_sh_files | apply keeps_ret | case_match ]. }
  split; [transitivity (h_files (activate s).2); [by rewrite E|apply Hf]|]. intros Hm Hh. revert E. unfold activate.
  intros (a1 & s1 & E1 & E)%sm_bind_Ok_inv. apply sm_bind_Ok_inv in E as (a2 & s2 & E2 & E).
  assert (F1 : h_files s1 = h_files s).
  { transitivity (h_files (sh "depmod -a" true s).2); [by rewrite E1|apply keeps_sh_files]. }
  assert (H2 : in_initrd s2).
  { unfold sh in E2. pose proof (initrd_update s1 ltac:(by rewrite F1) ltac:(by rewrite F1)) as Hu.
    destruct (shell _ s1) as [r w]. case_match; [done|]. injection E2 as <- <-. exact Hu. }
  match type of E with ?m s2 = _ => assert (Hp : preserves in_initrd m) end.
  { repeat first [ (apply preserves_bind; [|intros ?]) | (apply preserves_initrd; discriminate) | (intros x Hx; exact Hx) | case_match ]. }
  specialize (Hp s2 H2). by rewrite E in Hp.
Qed.

(** [do_install] is its last step on the state before. *)
Lemma install_activates journal s s' :
  do_install journal s = (Ok tt, s') -> exists s1, activate s1 = (Ok tt, s').
Proof.
  unfold do_install. destruct (negb (euid =? 0)); [done|].
  intros (? & ? & _ & E)%sm_bind_Ok_inv. do 5 apply sm_bind_Ok_inv in E as (? & ? & _ & E).
  apply sm_bind_Ok_inv in E as (? & s1 & _ & E). by exists s1.
Qed.

(** A machine that was just installed passes the check.  It goes on passing
    when other files of the installation are lost: the check looks at the
    module, the boot script, the daemon's binary and the ramdisk only, not at
    the unit, the hook, the other programs or the udev rule. *)
Theorem install_then_check journal src s fs :
  euid = 0 -> assets_there -> commands_work src -> ready s ->
  exists s1, do_install journal s = (Ok tt, s1) /\
    ((forall p, p ∈ [module_path; local_top; daemon_bin] -> fs !! p = h_files s1 !! p) ->
     (do_check (set_files fs s1)).1 = Ok 0).
Proof.
  intros He Ha Wk Hs.
  destruct (install_result journal src s He Ha Wk Hs) as (s1 & E & _ & Hd & _).
  exists s1. split; [done|]. intros Hfs.
  assert (Hsome : forall row, row ∈ FILES -> is_Some (h_files s1 !! row_dst row)).
  { intros [[a d] m] Hr. destruct (Hd a d m Hr) as (data & _ & H). eexists. exact H. }
  destruct (install_activates _ _ _ E) as (s0 & E0). destruct (activate_initrd _ _ E0) as [F0 Hin].
  assert (Hi : in_initrd s1).
  { apply Hin; rewrite <-F0.
    - apply (Hsome ("dm-cdp.ko", module_path, 420)%string). by left.
    - apply (Hsome ("hook", "/etc/initramfs-tools/hooks/rkcdp", 493)%string). do 5 right. by left. }
  assert (Hex : forall p, p ∈ [module_path; local_top; daemon_bin] -> path_exists p (set_files fs s1) = true).
  { intros p Hp. unfold path_exists. apply orb_true_iff. left. apply bool_decide_eq_true. apply elem_of_dom.
    cbn [h_files set_files]. rewrite Hfs by done. rewrite !elem_of_cons, elem_of_nil in Hp.
    destruct Hp as [->|[->|[->|[]]]].
    - apply (Hsome ("dm-cdp.ko", module_path, 420)%string). by left.
    - apply (Hsome ("local-top", local_top, 493)%string). do 6 right. by left.
    - apply (Hsome ("rkcdpd", daemon_bin, 493)%string). right. by left. }
  unfold do_check, mbind, SM_bind, sm_get. rewrite (Hex module_path) by by left.
  rewrite (Hex local_top) by (right; by left).
  pose proof (initrd_list (set_files fs s1) Hi) as Hl. unfold sh at 1.
  destruct (shell _ (set_files fs s1)) as [r w]. cbn [andb p_stdout fst] in *.
  change (path_exists daemon_bin (mk_host (h_files (set_files fs s1)) (h_dirs (set_files fs s1)) w))
    with (path_exists daemon_bin (set_files fs s1)). rewrite (Hex daemon_bin) by (do 2 right; by left).
  unfold sh. destruct (shell _ _) as [r1 w1]. cbn [andb]. destruct (shell _ _) as [r2 w2]. cbn [andb].
  rewrite !not_elem_of_cons in Hl. destruct Hl as (H1 & H2 & _).
  rewrite !bool_decide_eq_false_2 by done. done.
Qed.
End Check.

(** *** The daemon on a fresh installation *)

(** [CONF], as [load_conf] reads it. *)
Definition conf_on (fs : filemap) : conf_file :=
  match fs !! CONF with
  | None => NoFile
  | Some e => match e_data e with ConfJson c => Object c | _ => NotJson end
  end.

(** The daemon that starts on a fresh installation works in the journal
    the installer was given, under the node's name, and waits for its seed. *)
Theorem installed_settings journal src s hostname float_str :
  euid = 0 -> assets_there -> commands_work src -> ready s -> h_files s !! CONF = None ->
  exists s' c st, do_install journal s = (Ok tt, s') /\ load_conf hostname (conf_on (h_files s')) = Ok c /\
    Daemon_settings float_str c = Ok st /\
    se_root st = os_join journal hostname /\ se_seed_required st = true /\
    se_mbps st = JInt 15 /\ se_cycle_sec st = 1%Q /\ se_consistent_sec st = 3600%Q.
Proof.
  intros He Ha Wk Hs Hc. destruct (install_result journal src s He Ha Wk Hs) as (s' & E & _ & _ & _ & _ & F & _).
  rewrite Hc in F. exists s', (first_conf journal ∪ default_conf hostname). unfold conf_on. rewrite F. cbn [e_data default from_option id].
  eexists. split; [done|]. split; [done|]. split.
  - unfold Daemon_settings, conf_str, conf_get. rewrite !lookup_union. reflexivity.
  - by split_and!.
Qed.
End Setup.

(** ** A machine *)

Section Demo.
Local Open Scope string_scope.

Definition demo_assets : gmap string string :=
  list_to_map (map (fun row : string * string * Z => (row.1.1, row.1.1 +++ " bytes")) (FILES "6.1")).

(** The world is whether the module is in the ramdisk. *)
Definition demo_shell (cmd : string) (s : host bool) : proc * bool :=
  if bool_decide (cmd = "findmnt -n -o SOURCE /") then (mk_proc 0 "/dev/sda1" "", h_world s)
  else if bool_decide (cmd = "update-initramfs -u") then
    (mk_proc 0 "" "", bool_decide (is_Some (h_files s !! module_path "6.1")) &&
                      bool_decide (is_Some (h_files s !! "/etc/initramfs-tools/hooks/rkcdp")))
  else if bool_decide (cmd = "lsinitramfs /boot/initrd.img-6.1 2>/dev/null | grep -c dm-cdp.ko") then
    (mk_proc 0 (if h_world s then "1" else "0") "", h_world s)
  else (mk_proc 0 "" "", h_world s).

Definition demo_realpath (p : string) : string :=
  if bool_decide (p = "/sys/class/block/sda1/..") then "/sys/devices/pci/block/sda" else p.

Definition no_fault (c : fcall) (s : host bool) : option nat := None.

Lemma no_fault_works : files_work no_fault.
Proof. done. Qed.

Definition blank_host : host bool := mk_host ∅ ∅ false.
Definition demo_install := do_install "6.1" demo_assets 420 0 demo_shell no_fault demo_realpath.

Lemma demo_assets_there : assets_there "6.1" demo_assets.
Proof. unfold assets_there. in_list. Qed.

Lemma demo_commands_work : commands_work demo_shell "/dev/sda1".
Proof. by split. Qed.

Lemma demo_initrd : Initrd "6.1" demo_shell id.
Proof.
  split.
  - intros s H1 H2. unfold demo_shell, id.
    change (bool_decide ("update-initramfs -u" = "findmnt -n -o SOURCE /")) with false.
    change (bool_decide ("update-initramfs -u" = "update-initramfs -u")) with true. cbn [snd].
    by rewrite !bool_decide_eq_true_2.
  - intros cmd s Hc. unfold demo_shell. rewrite (bool_decide_eq_false_2 (cmd = "update-initramfs -u")) by done.
    by repeat case_bool_decide.
  - intros s Hw. unfold id in Hw. unfold demo_shell. rewrite Hw. in_list.
Qed.

Lemma blank_ready : ready "6.1" blank_host.
Proof. split; [intros p _; apply not_elem_of_empty|intros d _; apply lookup_empty]. Qed.

Lemma install_result_witness :
  exists s', demo_install "/j" blank_host = (Ok tt, s') /\
    h_files s' !! "/opt/rkcdp/rkcdpd" = Some (mk_entry (Raw "rkcdpd bytes") 493).
Proof.
  destruct (install_result "6.1" demo_assets 420 0 demo_shell no_fault demo_realpath no_fault_works "/j" "/dev/sda1" blank_host eq_refl
    demo_assets_there demo_commands_work blank_ready) as (s' & E & _ & Hd & _).
  exists s'. split; [exact E|]. destruct (Hd "rkcdpd" "/opt/rkcdp/rkcdpd" 493%Z) as (data & Ed & ->).
  - right. left.
  - vm_compute in Ed. by injection Ed as <-.
Defined.

Lemma install_idempotent_witness :
  exists s1 s2, demo_install "/j" blank_host = (Ok tt, s1) /\ demo_install "/k" s1 = (Ok tt, s2) /\ h_files s2 = h_files s1.
Proof.
  exact (install_idempotent "6.1" demo_assets 420 0 demo_shell no_fault demo_realpath no_fault_works "/j" "/k" "/dev/sda1" blank_host eq_refl
    demo_assets_there demo_commands_work blank_ready).
Defined.

Lemma remove_result_witness :
  exists s', do_remove "6.1" demo_shell no_fault (mk_host {[CONF := mk_entry (ConfJson ∅) 420]} ∅ false) = (Ok tt, s') /\
    is_Some (h_files s' !! CONF).
Proof.
  set (s := mk_host _ _ _).
  assert (Hs : ready "6.1" s).
  { split; [intros p _; apply not_elem_of_empty|]. intros d Hd. apply lookup_singleton_None.
    intros <-. revert Hd. apply (paths_made _ demo_shell demo_realpath), (conf_in_paths _ demo_shell demo_realpath). in_list. }
  destruct (remove_result "6.1" demo_shell no_fault demo_realpath no_fault_works "/dev/sda1" s demo_commands_work Hs) as (s' & E & _ & H).
  exists s'. split; [exact E|]. rewrite H. rewrite decide_False.
  - by eexists.
  - intros [Hr|[Hr|[Hr _]]]; [revert Hr; in_list|discriminate Hr|by apply not_elem_of_empty in Hr].
Defined.

Lemma install_remove_witness :
  exists s1 s', demo_install "/j" blank_host = (Ok tt, s1) /\ do_remove "6.1" demo_shell no_fault s1 = (Ok tt, s') /\
    is_Some (h_files s' !! CONF) /\ h_files s' !! "/opt/rkcdp/rkcdpd" = None.
Proof.
  destruct (install_remove "6.1" demo_assets 420 0 demo_shell no_fault demo_realpath no_fault_works "/j" "/dev/sda1" blank_host eq_refl
    demo_assets_there demo_commands_work blank_ready) as (s1 & s' & E1 & E2 & H);
    [intros; apply lookup_empty..|].
  exists s1, s'. split; [exact E1|]. split; [exact E2|]. split.
  - specialize (H CONF). rewrite decide_True in H by in_list. exact H.
  - specialize (H "/opt/rkcdp/rkcdpd"). rewrite decide_False in H by in_list. exact H.
Defined.

(** The disk is full in the middle of the daemon. *)
Definition full_disk (c : fcall) (s : host bool) : option nat :=
  match c with
  | Write p => if bool_decide (p = "/opt/rkcdp/rkcdpd.new") then Some 4%nat else None
  | _ => None
  end.

Lemma install_atomic_witness :
  let s := set_files {["/opt/rkcdp/rkcdpd" := mk_entry (Raw "old bytes") 493]} blank_host in
  let s' := (do_install "6.1" demo_assets 420 0 demo_shell full_disk demo_realpath "/j" s).2 in
  h_files s' !! "/opt/rkcdp/rkcdpd.new" = Some (mk_entry (Raw "rkcd") 420) /\
  (h_files s' !! "/opt/rkcdp/rkcdpd" = Some (mk_entry (Raw "old bytes") 493) \/
   exists data, demo_assets !! "rkcdpd" = Some data /\ h_files s' !! "/opt/rkcdp/rkcdpd" = Some (mk_entry (Raw data) 493)).
Proof.
  intros s s'. split; [vm_compute; reflexivity|].
  refine (proj1 (install_atomic "6.1" demo_assets 420 0 demo_shell full_disk demo_realpath "/j" s "rkcdpd" "/opt/rkcdp/rkcdpd" 493 _)).
  right; left.
Defined.

Lemma install_then_check_witness :
  exists s1, demo_install "/j" blank_host = (Ok tt, s1) /\ (do_check "6.1" demo_shell s1).1 = Ok 0%Z /\
    (do_check "6.1" demo_shell (set_files (delete "/etc/systemd/system/rkcdpd.service"
       (delete "/opt/rkcdp/rkcdp-seed" (h_files s1))) s1)).1 = Ok 0%Z.
Proof.
  pose proof (fun fs => install_then_check "6.1" demo_assets 420 0 demo_shell no_fault demo_realpath no_fault_works (initrd := demo_initrd)
    "/j" "/dev/sda1" blank_host fs eq_refl demo_assets_there demo_commands_work blank_ready) as H.
  destruct (H ∅) as (s1 & E & _). exists s1. split; [exact E|].
  assert (Hc : forall fs, (forall p, p ∈ [module_path "6.1"; local_top; daemon_bin] -> fs !! p = h_files s1 !! p) ->
    (do_check "6.1" demo_shell (set_files fs s1)).1 = Ok 0%Z).
  { intros fs. destruct (H fs) as (s2 & E2 & H2). assert (s2 = s1) as -> by congruence. exact H2. }
  split.
  - pose proof (Hc (h_files s1) ltac:(done)) as H1. unfold set_files in H1. by destruct s1.
  - apply Hc. intros p Hp. rewrite !elem_of_cons, elem_of_nil in Hp. destruct Hp as [->|[->|[->|[]]]].
    all: cbn [fst]; by rewrite !lookup_delete_ne by discriminate.
Defined.

Lemma installed_settings_witness :
  exists s' c st, demo_install "/j" blank_host = (Ok tt, s') /\ load_conf "km1" (conf_on (h_files s')) = Ok c /\
    Daemon_settings (fun _ => Raise OSError) c = Ok st /\ se_root st = "/j/km1".
Proof.
  destruct (installed_settings "6.1" demo_assets 420 0 demo_shell no_fault demo_realpath no_fault_works "/j" "/dev/sda1" blank_host "km1"
    (fun _ => Raise OSError) eq_refl demo_assets_there demo_commands_work blank_ready (lookup_empty _))
    as (s' & c & st & E1 & E2 & E3 & E4 & _).
  exists s', c, st. split; [exact E1|]. split; [exact E2|]. split; [exact E3|]. rewrite E4. reflexivity.
Defined.

(** [--journal] without a value stops the program before it does anything. *)
Example journal_without_value :
  setup_main "6.1" demo_assets 420 0 demo_shell no_fault demo_realpath ["--check"; "--journal"] blank_host = (Raise IndexError, blank_host).
Proof. by vm_compute. Qed.
End Demo.
