(* ===== verification/JsonFile.v ===== *)
(** * JSON files that survive a crash ([write_json], [load_json])

    The daemon and its companions keep their state in small JSON files.  A
    file system with what a crash can do to it, the three ways the programs
    write a file and the two ways they read one.  A document is its parsed
    value. *)
From stdpp Require Import fin_maps.
From S2P Require Import Prelude.

(** ** Files across a crash *)

Section JsonFile.
Context {V : Type}.

(** What a file holds: a complete document, or less. *)
Inductive content : Type := Doc (v : V) | Partial.

Record inode : Type := mk_inode {
  i_content : content;
  i_synced : bool;                   (* nothing written since the last fsync *)
}.

Record fsys : Type := mk_fsys {
  dir : gmap string nat;
  olds : list (gmap string nat);     (* earlier versions a crash may bring back *)
  inodes : gmap nat inode;
}.

(** After a crash the directory is the current version or an earlier one --
    renames are not synced -- and a file that was not synced may hold
    anything. *)
Record crash (s s' : fsys) : Prop := {
  crash_dir : dir s' ∈ dir s :: olds s;
  crash_olds : olds s' = [];
  crash_inode i n : inodes s !! i = Some n ->
    exists c, inodes s' !! i = Some (mk_inode c true) /\ (i_synced n = true -> c = i_content n);
}.

(** *** System calls, for one open file *)

Inductive call : Type :=
  | OpenW (path : string)            (* open(path, "w") *)
  | WriteDoc (v : V)                 (* json.dump(v, f); f.flush() *)
  | Fsync
  | Rename (src dst : string).       (* os.replace *)

Definition set_inode (i : nat) (n : inode) (s : fsys) : fsys := mk_fsys (dir s) (olds s) (<[i := n]> (inodes s)).
Definition set_dir (d : gmap string nat) (s : fsys) : fsys := mk_fsys d (dir s :: olds s) (inodes s).

Definition do_call (c : call) (st : fsys * nat) : res (fsys * nat) :=
  let '(s, fd) := st in
  match c with
  | OpenW p =>
      match dir s !! p with
      | Some i => Ok (set_inode i (mk_inode Partial false) s, i)
      | None =>
          let i := fresh (dom (inodes s)) in
          Ok (set_inode i (mk_inode Partial false) (set_dir (<[p := i]> (dir s)) s), i)
      end
  | WriteDoc v => Ok (set_inode fd (mk_inode (Doc v) false) s, fd)
  | Fsync =>
      match inodes s !! fd with
      | Some n => Ok (set_inode fd (mk_inode (i_content n) true) s, fd)
      | None => Raise OSError
      end
  | Rename src dst =>
      match dir s !! src with
      | Some i => Ok (set_dir (<[dst := i]> (delete src (dir s))) s, fd)
      | None => Raise OSError
      end
  end.

Fixpoint do_calls (cs : list call) (st : fsys * nat) : res (fsys * nat) :=
  match cs with
  | [] => Ok st
  | c :: cs' => st' ← do_call c st; do_calls cs' st'
  end.

(** *** The programs' functions *)

Definition tmp_of (path : string) : string := String.append path ".tmp".

(** [write_json] of [rkcdpd] *)
Definition write_json (path : string) (v : V) : list call :=
  [OpenW (tmp_of path); WriteDoc v; Fsync; Rename (tmp_of path) path].

(** [write_json] of [rkcdp-seed]: no fsync. *)
Definition write_json_nosync (path : string) (v : V) : list call :=
  [OpenW (tmp_of path); WriteDoc v; Rename (tmp_of path) path].

(** [Progress.flush] of [rkcdp-rebuild]: the same, and nothing without a
    path. *)
Definition Progress_flush (path : option string) (v : V) : list call :=
  match path with
  | Some p => if bool_decide (p = ""%string) then [] else write_json_nosync p v
  | None => []
  end.

Definition read_in (d : gmap string nat) (s : fsys) (path : string) : res (option V) :=
  match d !! path with
  | None => Ok None
  | Some i =>
      match i_content <$> inodes s !! i with
      | Some (Doc v) => Ok (Some v)
      | _ => Raise (ValueError 0)
      end
  end.

(** [load_json] of [rkcdpd]: the default where there is no file, and an
    exception where it is no document. *)
Definition load_json_file (path : string) (s : fsys) : res (option V) := read_in (dir s) s path.

(** [load_json] of [rkcdp-seed] and [_load] of the manager: the default in both
    cases. *)
Definition load_json_or (default : V) (path : string) (s : fsys) : V :=
  match load_json_file path s with Ok (Some v) => v | _ => default end.

(** ** The invariant *)

(** In every version of the directory [path] is a complete, synced document or
    missing, and the temporary file is another one. *)
Record safe (path : string) (s : fsys) : Prop := {
  safe_exists d p i : d ∈ dir s :: olds s -> d !! p = Some i -> is_Some (inodes s !! i);
  safe_doc d i : d ∈ dir s :: olds s -> d !! path = Some i ->
    exists v, inodes s !! i = Some (mk_inode (Doc v) true);
  safe_tmp d i : d ∈ dir s :: olds s -> d !! path = Some i ->
    dir s !! tmp_of path <> Some i /\ d !! tmp_of path <> Some i;
}.

Lemma tmp_of_ne path : tmp_of path <> path.
Proof.
  unfold tmp_of. intros H. apply (f_equal String.length) in H. revert H.
  assert (E : forall s t, String.length (String.append s t) = (String.length s + String.length t)%nat).
  { induction s as [|a s IH]; intros t; [done|].
    change (S (String.length (String.append s t)) = S (String.length s + String.length t))%nat. by rewrite IH. }
  rewrite E. change (String.length ".tmp") with 4%nat. lia.
Qed.

Lemma read_in_same d s s' path :
  (forall i, d !! path = Some i -> inodes s' !! i = inodes s !! i) ->
  read_in d s' path = read_in d s path.
Proof. unfold read_in. intros H. destruct (d !! path) as [i|]; [|done]. by rewrite H. Qed.

(** What a crash leaves of a safe file. *)
Lemma safe_crash path s s' :
  safe path s -> crash s s' ->
  exists d, d ∈ dir s :: olds s /\ load_json_file path s' = read_in d s path /\
    exists v, read_in d s path = Ok v.
Proof.
  intros Hs [Hd _ Hi]. exists (dir s'). split; [done|]. unfold load_json_file, read_in.
  destruct (dir s' !! path) as [i|] eqn:E; [|by split; [|eexists]].
  destruct (safe_doc _ _ Hs _ _ Hd E) as (v & Ev). rewrite Ev.
  destruct (Hi i _ Ev) as (c & Ec & Hc). rewrite Ec, Hc by done. cbn. by split; [|eexists].
Qed.

(** Changing an inode that no version calls [path]. *)
Lemma safe_set_inode path s i n :
  safe path s -> (forall d, d ∈ dir s :: olds s -> d !! path <> Some i) ->
  safe path (set_inode i n s).
Proof.
  intros [He Hd Ht] Hne. split; cbn [set_inode dir olds inodes].
  - intros d p j Hin E. destruct (decide (j = i)) as [->|Hj].
    + rewrite lookup_insert_eq. by eexists.
    + rewrite lookup_insert_ne by done. by eapply He.
  - intros d j Hin E. destruct (decide (j = i)) as [->|Hj]; [by destruct (Hne d Hin)|].
    rewrite lookup_insert_ne by done. by eapply Hd.
  - done.
Qed.

Lemma read_in_set_inode path s i n d :
  d !! path <> Some i -> read_in d (set_inode i n s) path = read_in d s path.
Proof. intros Hne. apply read_in_same. intros j E. cbn. rewrite lookup_insert_ne; [done|congruence]. Qed.

(** The invariant holds again after a crash. *)
Lemma crash_safe path s s' :
  safe path s -> crash s s' -> safe path s'.
Proof.
  intros Hs [Hd Ho Hi]. split; rewrite Ho.
  - intros d p i ->%list_elem_of_singleton E. destruct (safe_exists _ _ Hs _ _ _ Hd E) as [n Hn].
    destruct (Hi i n Hn) as (c & -> & _). by eexists.
  - intros d i ->%list_elem_of_singleton E. destruct (safe_doc _ _ Hs _ _ Hd E) as (v & Ev).
    destruct (Hi i _ Ev) as (c & -> & Hc). rewrite Hc by done. by exists v.
  - intros d i ->%list_elem_of_singleton E. by destruct (safe_tmp _ _ Hs _ _ Hd E).
Qed.

(** *** The calls, one by one *)

(** After [open]: the temporary file is empty and is nobody else's. *)
Lemma open_tmp path s fd :
  safe path s ->
  exists s' i, do_call (OpenW (tmp_of path)) (s, fd) = Ok (s', i) /\ safe path s' /\
    dir s' !! tmp_of path = Some i /\ is_Some (inodes s' !! i) /\
    dir s' !! path = dir s !! path /\
    (forall d, d ∈ dir s' :: olds s' -> d !! path <> Some i) /\
    (forall d, d ∈ dir s :: olds s -> read_in d s' path = read_in d s path) /\
    (forall d, d ∈ dir s' :: olds s' -> exists d0, d0 ∈ dir s :: olds s /\ d !! path = d0 !! path).
Proof.
  intros Hs. cbn [do_call]. destruct (dir s !! tmp_of path) as [i|] eqn:E.
  - assert (Hne : forall d, d ∈ dir s :: olds s -> d !! path <> Some i).
    { intros d Hd Ep. by destruct (safe_tmp _ _ Hs d i Hd Ep). }
    eexists _, i. split; [done|]. split; [by apply safe_set_inode|]. cbn.
    split_and!; try done.
    + rewrite lookup_insert_eq. by eexists.
    + intros d Hd. by apply read_in_set_inode, Hne.
    + intros d Hd. by exists d.
  - set (i := fresh (dom (inodes s))). set (d1 := <[tmp_of path := i]> (dir s)).
    assert (Hfr : inodes s !! i = None) by (apply not_elem_of_dom, is_fresh).
    assert (Hd1 : d1 !! path = dir s !! path) by (apply lookup_insert_ne, tmp_of_ne).
    assert (Hne : forall d, d ∈ d1 :: dir s :: olds s -> d !! path <> Some i).
    { intros d Hd Ep. assert (exists d0, d0 ∈ dir s :: olds s /\ d0 !! path = Some i) as (d0 & Hd0 & E0).
      { apply elem_of_cons in Hd as [->|Hd]; [exists (dir s); rewrite <-Hd1; by split; [left|]|by exists d]. }
      destruct (safe_exists _ _ Hs d0 path i Hd0 E0) as [n Hn]. congruence. }
    exists (set_inode i (mk_inode Partial false) (set_dir d1 s)), i. split; [done|].
    assert (Hno : forall d p j, d ∈ dir s :: olds s -> d !! p = Some j -> j <> i).
    { intros d p j Hin Ej ->. destruct (safe_exists _ _ Hs d p i Hin Ej) as [n Hn]. congruence. }
    split; [|cbn; split_and!; try done].
    + split; cbn [set_inode set_dir dir olds inodes].
      * intros d p j [->|Hin]%elem_of_cons Ej.
        -- unfold d1 in Ej. destruct (decide (p = tmp_of path)) as [->|Hp].
           ++ rewrite lookup_insert_eq in Ej. injection Ej as <-. rewrite lookup_insert_eq. by eexists.
           ++ rewrite lookup_insert_ne in Ej by done.
              rewrite lookup_insert_ne by (intros <-; by eapply Hno; [left| |]).
              eapply safe_exists; [done|by left|done].
        -- rewrite lookup_insert_ne by (intros <-; by eapply Hno). by eapply safe_exists.
      * intros d j Hin Ej.
        assert (exists d0, d0 ∈ dir s :: olds s /\ d0 !! path = Some j) as (d0 & Hd0 & E0).
        { apply elem_of_cons in Hin as [->|Hin]; [exists (dir s); rewrite <-Hd1; by split; [left|]|by exists d]. }
        rewrite lookup_insert_ne by (intros <-; by eapply Hno). by eapply safe_doc.
      * intros d j Hin Ej. assert (j <> i) by (intros ->; by apply (Hne d Hin)).
        assert (Hd1t : d1 !! tmp_of path <> Some j) by (unfold d1; rewrite lookup_insert_eq; congruence).
        split; [done|]. apply elem_of_cons in Hin as [->|Hin]; [done|].
        by destruct (safe_tmp _ _ Hs d j Hin Ej).
    + apply lookup_insert_eq.
    + rewrite lookup_insert_eq. by eexists.
    + intros d Hd. rewrite read_in_set_inode by (apply Hne; by right). done.
    + intros d [->|Hd]%elem_of_cons; [exists (dir s); by split; [left|]|by exists d].
Qed.

(** Filling and syncing the temporary file. *)
Lemma write_tmp path s i n :
  safe path s -> (forall d, d ∈ dir s :: olds s -> d !! path <> Some i) ->
  safe path (set_inode i n s) /\
  forall d, d ∈ dir s :: olds s -> read_in d (set_inode i n s) path = read_in d s path.
Proof.
  intros Hs Hne. split; [by apply safe_set_inode|]. intros d Hd. by apply read_in_set_inode, Hne.
Qed.

(** The rename of a synced document over [path]. *)
Lemma rename_tmp path s fd i v :
  safe path s -> dir s !! tmp_of path = Some i -> inodes s !! i = Some (mk_inode (Doc v) true) ->
  exists s', do_call (Rename (tmp_of path) path) (s, fd) = Ok (s', fd) /\ safe path s' /\
    load_json_file path s' = Ok (Some v) /\ olds s' = dir s :: olds s /\
    forall d, d ∈ dir s :: olds s -> read_in d s' path = read_in d s path.
Proof.
  intros Hs Et Ei. cbn [do_call]. rewrite Et. set (d1 := <[path := i]> (delete (tmp_of path) (dir s))).
  exists (set_dir d1 s). split; [done|].
  assert (Hp : d1 !! path = Some i) by (unfold d1; by rewrite lookup_insert_eq).
  assert (Hq : d1 !! tmp_of path = None).
  { unfold d1. rewrite lookup_insert_ne by (intros H; by apply (tmp_of_ne path)). apply lookup_delete_eq. }
  split; [|split_and!; try done].
  - split; cbn [set_dir dir olds inodes].
    + intros d p j [->|Hin]%elem_of_cons Ej; [|by eapply safe_exists].
      unfold d1 in Ej. destruct (decide (p = path)) as [->|Hne].
      * rewrite lookup_insert_eq in Ej. injection Ej as <-. by eexists.
      * rewrite lookup_insert_ne in Ej by done. apply lookup_delete_Some in Ej as [_ Ej].
        eapply safe_exists; [done|by left|done].
    + intros d j [->|Hin]%elem_of_cons Ej; [|by eapply safe_doc].
      rewrite Hp in Ej. injection Ej as <-. by exists v.
    + intros d j Hin Ej. rewrite Hq. split; [done|].
      apply elem_of_cons in Hin as [->|Hin]; [by rewrite Hq|]. by destruct (safe_tmp _ _ Hs d j Hin Ej).
  - unfold load_json_file, read_in. cbn. by rewrite Hp, Ei.
Qed.

(** *** Whole calls *)

(** [s'] reads as [s] does, now and after a crash. *)
Definition keeps_file (path : string) (s s' : fsys) : Prop :=
  load_json_file path s' = load_json_file path s /\
  forall d, d ∈ dir s' :: olds s' -> exists d0, d0 ∈ dir s :: olds s /\ read_in d s' path = read_in d0 s path.

Lemma keeps_file_refl path s : keeps_file path s s.
Proof. split; [done|]. intros d Hd. by exists d. Qed.

Lemma keeps_file_trans path s1 s2 s3 : keeps_file path s1 s2 -> keeps_file path s2 s3 -> keeps_file path s1 s3.
Proof.
  intros [L1 H1] [L2 H2]. split; [congruence|]. intros d Hd.
  destruct (H2 d Hd) as (d0 & Hd0 & E0). destruct (H1 d0 Hd0) as (d1 & Hd1 & E1).
  exists d1. split; [done|congruence].
Qed.

Lemma keeps_file_set path s i n :
  (forall d, d ∈ dir s :: olds s -> d !! path <> Some i) -> keeps_file path s (set_inode i n s).
Proof.
  intros Hne. split; [apply read_in_set_inode, Hne; by left|].
  intros d Hd. exists d. split; [done|]. by apply read_in_set_inode, Hne.
Qed.

(** The temporary file, opened, filled and synced. *)
Lemma fill_tmp path v s fd :
  safe path s ->
  exists s1 i, do_call (OpenW (tmp_of path)) (s, fd) = Ok (s1, i) /\
    let s2 := set_inode i (mk_inode (Doc v) false) s1 in
    let s3 := set_inode i (mk_inode (Doc v) true) s2 in
    do_call (WriteDoc v) (s1, i) = Ok (s2, i) /\ do_call Fsync (s2, i) = Ok (s3, i) /\
    (safe path s1 /\ keeps_file path s s1) /\ (safe path s2 /\ keeps_file path s s2) /\
    (safe path s3 /\ keeps_file path s s3) /\ dir s1 !! tmp_of path = Some i /\
    (forall d, d ∈ dir s1 :: olds s1 -> d !! path <> Some i).
Proof.
  intros Hs. destruct (open_tmp path s fd Hs) as (s1 & i & E & Hs1 & Et & _ & Ep & Hne & Hr & Hv).
  exists s1, i. split; [done|]. intros s2 s3.
  assert (Hk1 : keeps_file path s s1).
  { split.
    - transitivity (read_in (dir s) s1 path); [unfold load_json_file, read_in; by rewrite Ep|].
      apply Hr. by left.
    - intros d Hd. destruct (Hv d Hd) as (d0 & Hd0 & E0). exists d0. split; [done|].
      transitivity (read_in d0 s1 path); [unfold read_in; by rewrite E0|]. by apply Hr. }
  assert (Hk2 : keeps_file path s s2) by (eapply keeps_file_trans; [exact Hk1|by apply keeps_file_set]).
  split_and!; try done.
  - cbn. by rewrite lookup_insert_eq.
  - by apply safe_set_inode.
  - by apply safe_set_inode; [apply safe_set_inode|].
  - eapply keeps_file_trans; [exact Hk2|]. by apply keeps_file_set.
Qed.

(** C24: [write_json] is atomic.  It never fails half-way on its own; at every
    point of it the file reads as before, and as the new document at the end;
    and whenever the machine crashes, the file is afterwards complete: the new
    document, or what an earlier state of the directory had. *)
Theorem write_json_atomic path v s fd k :
  safe path s -> (k <= 4)%nat ->
  exists s' fd', do_calls (take k (write_json path v)) (s, fd) = Ok (s', fd') /\ safe path s' /\
    load_json_file path s' = (if decide (k = 4%nat) then Ok (Some v) else load_json_file path s) /\
    forall s'', crash s' s'' -> safe path s'' /\
      ((k = 4%nat /\ load_json_file path s'' = Ok (Some v)) \/
       exists d w, d ∈ dir s :: olds s /\ read_in d s path = Ok w /\ load_json_file path s'' = Ok w).
Proof.
  intros Hs Hk.
  assert (Hold : forall s', safe path s' -> keeps_file path s s' -> forall s'', crash s' s'' -> safe path s'' /\
    exists d w, d ∈ dir s :: olds s /\ read_in d s path = Ok w /\ load_json_file path s'' = Ok w).
  { intros s' Hs' [_ Hv] s'' Hc. split; [by apply (crash_safe path s')|].
    destruct (safe_crash path s' s'' Hs' Hc) as (d & Hd & E & w & Ew).
    destruct (Hv d Hd) as (d0 & Hd0 & E0). exists d0, w. split_and!; [done|congruence..]. }
  destruct (fill_tmp path v s fd Hs) as (s1 & i & E1 & E2 & E3 & [H1 K1] & [H2 K2] & [H3 K3] & Et & _).
  set (s2 := set_inode i (mk_inode (Doc v) false) s1) in *.
  set (s3 := set_inode i (mk_inode (Doc v) true) s2) in *.
  assert (Hx : forall s', safe path s' -> keeps_file path s s' -> (k <> 4)%nat ->
    safe path s' /\ load_json_file path s' = (if decide (k = 4%nat) then Ok (Some v) else load_json_file path s) /\
    forall s'', crash s' s'' -> safe path s'' /\
      ((k = 4%nat /\ load_json_file path s'' = Ok (Some v)) \/
       exists d w, d ∈ dir s :: olds s /\ read_in d s path = Ok w /\ load_json_file path s'' = Ok w)).
  { intros s' Hs' K Hne. rewrite decide_False by done. split; [done|]. split; [apply K|].
    intros s'' Hc. destruct (Hold s' Hs' K s'' Hc). split; [done|by right]. }
  destruct k as [|[|[|[|[|k]]]]]; [..|lia]; cbn [take write_json do_calls].
  - exists s, fd. split; [done|]. apply Hx; [done|apply keeps_file_refl|done].
  - exists s1, i. rewrite E1. split; [done|]. by apply Hx.
  - exists s2, i. rewrite E1, res_bind_Ok, E2. split; [done|]. by apply Hx.
  - exists s3, i. rewrite E1, res_bind_Ok, E2, res_bind_Ok, E3. split; [done|]. by apply Hx.
  - destruct (rename_tmp path s3 i i v H3) as (s4 & E4 & H4 & L4 & O4 & R4); [done|cbn; by rewrite lookup_insert_eq|].
    exists s4, i. rewrite E1, res_bind_Ok, E2, res_bind_Ok, E3, res_bind_Ok, E4.
    split; [done|]. split; [done|]. split; [done|].
    intros s'' Hc. split; [by apply (crash_safe path s4)|].
    destruct (safe_crash path s4 s'' H4 Hc) as (d & Hd & E & w & Ew).
    rewrite O4 in Hd. apply elem_of_cons in Hd as [->|Hd].
    + left. split; [done|]. rewrite E. exact L4.
    + right. destruct K3 as [_ K3]. destruct (K3 d Hd) as (d0 & Hd0 & E0).
      exists d0, w. rewrite R4 in E, Ew by done. split_and!; [done|congruence..].
Qed.

(** ** Without fsync *)

(** [write_json] of [rkcdp-seed] and [Progress.flush] of [rkcdp-rebuild]
    replace the file atomically for a reader on a running machine: it sees the
    old document up to the rename and the new one after it.  A crash after the
    rename may leave a file that is no document: the strict reader then fails
    and the lenient one answers its default. *)
Theorem write_json_nosync_torn path v s fd k :
  safe path s -> (k <= 3)%nat ->
  exists s' fd', do_calls (take k (write_json_nosync path v)) (s, fd) = Ok (s', fd') /\
    load_json_file path s' = (if decide (k = 3%nat) then Ok (Some v) else load_json_file path s) /\
    (k = 3%nat -> exists s'', crash s' s'' /\ load_json_file path s'' = Raise (ValueError 0) /\
      forall w, load_json_or w path s'' = w).
Proof.
  intros Hs Hk.
  destruct (fill_tmp path v s fd Hs) as (s1 & i & E1 & E2 & _ & [H1 K1] & [H2 K2] & _ & Et & _).
  set (s2 := set_inode i (mk_inode (Doc v) false) s1) in *.
  destruct k as [|[|[|[|k]]]]; [..|lia]; cbn [take write_json_nosync do_calls].
  - exists s, fd. split; [done|]. by rewrite decide_False.
  - exists s1, i. rewrite E1. split; [done|]. rewrite decide_False by done. split; [apply K1|done].
  - exists s2, i. rewrite E1, res_bind_Ok, E2. split; [done|]. rewrite decide_False by done. split; [apply K2|done].
  - rewrite E1, res_bind_Ok, E2, res_bind_Ok. cbn [do_call].
    change (dir s2) with (dir s1). rewrite Et.
    set (d1 := <[path := i]> (delete (tmp_of path) (dir s1))).
    exists (set_dir d1 s2), i. split; [done|]. rewrite decide_True by done.
    assert (Hp : d1 !! path = Some i) by apply lookup_insert_eq.
    assert (Hi : inodes s2 !! i = Some (mk_inode (Doc v) false)) by apply lookup_insert_eq.
    split; [unfold load_json_file, read_in; change (dir (set_dir d1 s2)) with d1;
      change (inodes (set_dir d1 s2)) with (inodes s2); by rewrite Hp, Hi|]. intros _.
    set (s'' := mk_fsys d1 [] (<[i := mk_inode Partial true]>
                  ((fun n => mk_inode (i_content n) true) <$> inodes s2))).
    assert (Hr : load_json_file path s'' = Raise (ValueError 0)).
    { unfold load_json_file, read_in. cbn. by rewrite Hp, lookup_insert_eq. }
    exists s''. split; [|split; [done|intros w; unfold load_json_or; by rewrite Hr]].
    split; [by left|done|]. intros j n Ej. change (inodes (set_dir d1 s2)) with (inodes s2) in Ej.
    cbn [s'' inodes]. destruct (decide (j = i)) as [->|Hj].
    + rewrite lookup_insert_eq. exists Partial. split; [done|].
      rewrite Hi in Ej. injection Ej as <-. done.
    + rewrite lookup_insert_ne by done. rewrite lookup_fmap, Ej. by exists (i_content n).
Qed.
End JsonFile.
Arguments content V : clear implicits.
Arguments fsys V : clear implicits.
Arguments inode V : clear implicits.
Arguments call V : clear implicits.

(** *** A concrete directory *)

Definition one_file (path : string) (v : Z) : fsys Z :=
  mk_fsys {[path := 0%nat]} [] {[0%nat := mk_inode (Doc v) true]}.

Lemma one_file_safe path v : safe path (one_file path v).
Proof.
  assert (H1 : forall d p i, d ∈ dir (one_file path v) :: olds (one_file path v) -> d !! p = Some i ->
    p = path /\ i = 0%nat).
  { cbn. intros d p i ->%list_elem_of_singleton [<- <-]%lookup_singleton_Some. done. }
  split.
  - intros d p i Hd E. destruct (H1 d p i Hd E) as [-> ->]. by eexists.
  - intros d i Hd E. destruct (H1 d path i Hd E) as [_ ->]. by exists v.
  - intros d i Hd E. split; intros Et.
    + destruct (H1 _ _ _ (list_elem_of_here _ _) Et) as [X _]. by apply (tmp_of_ne path).
    + destruct (H1 _ _ _ Hd Et) as [X _]. by apply (tmp_of_ne path).
Qed.

Lemma write_json_atomic_witness :
  exists s' fd', do_calls (write_json "manifest.json" 7) (one_file "manifest.json" 5, 0%nat) = Ok (s', fd') /\
    load_json_file "manifest.json" s' = Ok (Some 7) /\
    forall s'', crash s' s'' -> safe "manifest.json" s''.
Proof.
  destruct (write_json_atomic "manifest.json" 7 (one_file "manifest.json" 5) 0 4) as (s' & fd' & E & _ & L & C);
    [apply one_file_safe|lia|].
  exists s', fd'. split; [exact E|]. split; [exact L|]. intros s'' Hc. exact (proj1 (C s'' Hc)).
Defined.

Lemma write_json_nosync_torn_witness :
  exists s' fd' s'', do_calls (write_json_nosync "seed.json" 7) (one_file "seed.json" 5, 0%nat) = Ok (s', fd') /\
    crash s' s'' /\ load_json_or 0 "seed.json" s'' = 0.
Proof.
  destruct (write_json_nosync_torn "seed.json" 7 (one_file "seed.json" 5) 0 3) as (s' & fd' & E & _ & C);
    [apply one_file_safe|lia|].
  destruct (C eq_refl) as (s'' & Hc & _ & Hw). exists s', fd', s''. split; [exact E|]. split; [exact Hc|apply Hw].
Defined.

(** The daemon and [rkcdp-seed] write [manifest.json] through the same
    temporary name.  Here the daemon has written and synced its document when
    the seeding program opens the file again: the daemon renames an empty
    file over the manifest, and the other program's rename finds nothing. *)
Definition interleave (cs : list (bool * call Z)) : fsys Z * nat * nat -> res (fsys Z * nat * nat) :=
  fold_left (fun r c => st ← r; let '(s, f, g) := st : fsys Z * nat * nat in
    if fst (c : bool * call Z)
    then st' ← do_call (snd c) (s, f); Ok (fst st', snd st', g)
    else st' ← do_call (snd c) (s, g); Ok (fst st', f, snd st')) cs ∘ Ok.

Example shared_tmp_torn :
  let path := "manifest.json" in
  let daemon := write_json path 7 in
  let seed := write_json_nosync path 8 in
  let start := (one_file path 5, 0%nat, 0%nat) in
  let run := map (pair true) (take 3 daemon) ++ map (pair false) (take 1 seed) ++ map (pair true) (drop 3 daemon) in
  (fun st => load_json_file path (fst (fst st))) <$> match interleave run start with Ok st => Some st | _ => None end
    = Some (Raise (ValueError 0)) /\
  interleave (run ++ map (pair false) (drop 1 seed)) start = Raise OSError.
Proof. by vm_compute. Qed.
