(* ===== verification/Dmcdp.v ===== *)
(** * The record stream and the dirty bitmap ([rkcdp/dmcdp.py])

    The binary format of [/dev/cdpN]: [struct] formats, the record header
    ([Rec], [pack_rec]), the record iterator ([iter_records]), the status
    block and the run-length reading of the dirty bitmap
    ([bitmap_extents]).  A generator is modelled by the list of the values it
    yields together with the way it ends. *)
From Stdlib Require Import Ascii.
From S2P Require Import Prelude.

(** ** Python's [struct] module, for the little-endian formats used here *)

Definition char_width (c : Ascii.ascii) : option nat :=
  if decide (c = "I"%char) then Some 4%nat
  else if decide (c = "H"%char) then Some 2%nat
  else if decide (c = "Q"%char) then Some 8%nat
  else None.

Definition char_digit (c : Ascii.ascii) : option nat :=
  let n := Ascii.nat_of_ascii c in
  if (48 <=? n)%nat && (n <=? 57)%nat then Some (n - 48)%nat else None.

(** The field widths of a format: ["<IHH"] gives [[4; 2; 2]], a count before a
    letter repeats it. *)
Fixpoint fmt_widths_from (s : string) (count : option nat) : option (list nat) :=
  match s with
  | EmptyString => match count with None => Some [] | Some _ => None end
  | String c s' =>
      match char_digit c with
      | Some d => fmt_widths_from s' (Some (10 * default 0 count + d)%nat)
      | None =>
          w ← char_width c;
          rest ← fmt_widths_from s' None;
          Some (replicate (default 1%nat count) w ++ rest)
      end
  end.

Definition fmt_widths (s : string) : option (list nat) :=
  match s with
  | String "<"%char s' => fmt_widths_from s' None
  | _ => None
  end.

Definition sum_widths (ws : list nat) : nat := foldr Nat.add 0%nat ws.

(** [struct.calcsize] *)
Definition calcsize (fmt : string) : option Z := Z.of_nat ∘ sum_widths <$> fmt_widths fmt.

(** [struct.pack]: every value must fit its field. *)
Fixpoint pack_widths (ws : list nat) (vs : list Z) : res bytes :=
  match ws, vs with
  | [], [] => Ok []
  | w :: ws', v :: vs' =>
      if (0 <=? v) && (v <? 2 ^ (Z.of_nat w * 8)) then
        rest ← pack_widths ws' vs';
        Ok (le_split w v ++ rest)
      else Raise StructError
  | _, _ => Raise StructError
  end.

Definition struct_pack (fmt : string) (vs : list Z) : res bytes :=
  match fmt_widths fmt with
  | Some ws => pack_widths ws vs
  | None => Raise StructError
  end.

Fixpoint unpack_widths (ws : list nat) (buf : bytes) : list Z :=
  match ws with
  | [] => []
  | w :: ws' => le_combine (take w buf) :: unpack_widths ws' (drop w buf)
  end.

(** [struct.unpack] wants exactly [calcsize] bytes, [struct.unpack_from] at
    least that many after the offset. *)
Definition struct_unpack (fmt : string) (buf : bytes) : res (list Z) :=
  match fmt_widths fmt with
  | Some ws =>
      if decide (length buf = sum_widths ws) then Ok (unpack_widths ws buf)
      else Raise StructError
  | None => Raise StructError
  end.

Definition struct_unpack_from (fmt : string) (buf : bytes) (off : Z) : res (list Z) :=
  match fmt_widths fmt with
  | Some ws =>
      if (Z.of_nat (sum_widths ws) <=? blen buf - off)
      then Ok (unpack_widths ws (buf.[off : ]))
      else Raise StructError
  | None => Raise StructError
  end.

(** ** Constants *)

Definition REC_MAGIC : Z := 0x52504443.
Definition ABI_VERSION : Z := 1.
Definition REC_WRITE : Z := 1.
Definition REC_FLUSH : Z := 2.
Definition REC_DISCARD : Z := 3.
Definition REC_ZERO : Z := 4.
Definition REC_PAD : Z := 5.
Definition F_FUA : Z := 1.
Definition F_PREFLUSH : Z := 2.
Definition F_ERROR : Z := 4.
Definition F_GAP_BEFORE : Z := 8.
Definition S_OVERFLOWED : Z := 1.
Definition S_DEAD : Z := 2.
Definition BM_CLEAR : Z := 1.

(** The request numbers of the ioctls. *)
Definition IOC_STATUS : Z := 0x8080CD01.
Definition IOC_BITMAP : Z := 0xC018CD02.
Definition IOC_BITMAP_CLEAR : Z := 0xCD03.
Definition IOC_RESET_STATS : Z := 0xCD04.

Definition REC_FMT : string := "<IHHIIQQIIQQ".
Definition REC_SIZE : Z := default 0 (calcsize REC_FMT).
Definition STATUS_FMT : string := "<IIQIIQQQQQQQQQ4Q".
Definition STATUS_SIZE : Z := default 0 (calcsize STATUS_FMT).
Definition STATUS_FIELDS : list string :=
  ["abi_version"; "flags"; "dev_sectors"; "chunk_sectors"; "minor";
   "bitmap_bits"; "bitmap_bytes"; "bitmap_set"; "ring_size"; "ring_used";
   "seq_next"; "records"; "bytes_logged"; "overflows"]%string.

(** ** Record headers *)

Record rec : Type := mk_rec {
  r_magic : Z;
  r_version : Z;
  r_type : Z;
  r_flags : Z;
  r_state : Z;
  r_seq : Z;
  r_sector : Z;
  r_len : Z;
  r_rec_len : Z;
  r_ts_ns : Z;
  r_reserved : Z;
}.

#[export] Instance rec_eq_dec : EqDecision rec.
Proof. solve_decision. Defined.

Definition rec_fields (r : rec) : list Z :=
  [r_magic r; r_version r; r_type r; r_flags r; r_state r; r_seq r;
   r_sector r; r_len r; r_rec_len r; r_ts_ns r; r_reserved r].

Definition rec_of_fields (vs : list Z) : option rec :=
  match vs with
  | [m; v; t; f; st; sq; sc; l; rl; ts; rs] => Some (mk_rec m v t f st sq sc l rl ts rs)
  | _ => None
  end.

(** [Rec.__init__] *)
Definition Rec_init (buf : bytes) (off : Z) : res rec :=
  vs ← struct_unpack_from REC_FMT buf off;
  match rec_of_fields vs with
  | Some r => if r_magic r =? REC_MAGIC then Ok r else Raise (ValueError off)
  | None => Raise StructError
  end.

(** [Rec.payload_len] *)
Definition payload_len (r : rec) : Z := r_rec_len r - REC_SIZE.

Definition pack_rec (rtype flags seq sector length ts_ns : Z) (payload : bytes) : res bytes :=
  let rec_len := Z.land (REC_SIZE + blen payload + 7) (Z.lnot 7) in
  hdr ← struct_pack REC_FMT
    [REC_MAGIC; ABI_VERSION; rtype; flags; 2; seq; sector; length; rec_len; ts_ns; 0];
  Ok (hdr ++ payload ++ replicate (Z.to_nat (rec_len - REC_SIZE - blen payload)) x00).

(** ** The record iterator *)

(** How a generator ends: it returns, it raises, or it never does (the fuel of
    the model ran out). *)
Inductive gen_end : Type :=
  | GDone (consumed : Z)
  | GRaise (e : exn)
  | GForever.

#[export] Instance gen_end_eq_dec : EqDecision gen_end.
Proof. solve_decision. Defined.

Definition rec_payload (buf : bytes) (off : Z) (r : rec) : bytes :=
  buf.[off + REC_SIZE : off + REC_SIZE + (if r_type r =? REC_WRITE then r_len r else 0)].

Fixpoint iter_records_loop (fuel : nat) (buf : bytes) (off : Z)
    : list (rec * bytes) * gen_end :=
  match fuel with
  | O => ([], GForever)
  | S fuel' =>
      if off + REC_SIZE <=? blen buf then
        match Rec_init buf off with
        | Forever => ([], GForever)
        | Raise e => ([], GRaise e)
        | Ok r =>
            if blen buf <? off + r_rec_len r then ([], GDone off)
            else
              let '(ys, e) := iter_records_loop fuel' buf (off + r_rec_len r) in
              ((r, rec_payload buf off r) :: ys, e)
        end
      else ([], GDone off)
  end.

Definition iter_records (buf : bytes) : list (rec * bytes) * gen_end :=
  iter_records_loop (S (length buf)) buf 0.

(** ** Status and bitmap ioctls *)

(** What the device driver answers to the two ioctls: the status block, and
    the bitmap words for a request of [nbytes] bytes ([clear]: read and
    clear). *)
Record cdp_fd : Type := mk_cdp_fd {
  ioctl_status : res bytes;
  ioctl_bitmap : bool -> Z -> res bytes;
}.

Definition dict_get {A} (d : gmap string A) (k : string) : res A :=
  match d !! k with Some v => Ok v | None => Raise KeyError end.

Definition status (fd : cdp_fd) : res (gmap string Z) :=
  buf ← ioctl_status fd;
  vals ← struct_unpack STATUS_FMT buf;
  Ok (list_to_map (zip STATUS_FIELDS vals)).

Definition read_bitmap (fd : cdp_fd) (clear : bool) : res (bytes * Z * Z) :=
  st ← status fd;
  nbytes ← dict_get st "bitmap_bytes";
  bm ← ioctl_bitmap fd clear nbytes;
  chunk_sectors ← dict_get st "chunk_sectors";
  nbits ← dict_get st "bitmap_bits";
  Ok (bm, chunk_sectors, nbits).

(** ** Dirty extents *)

(** [i < nbits and (bm[i >> 3] >> (i & 7)) & 1] *)
Definition bm_bit (bm : bytes) (nbits i : Z) : res bool :=
  if i <? nbits then
    match bm !! Z.to_nat (Z.shiftr i 3) with
    | Some b => Ok (Z.odd (Z.land (Z.shiftr (byte_Z b) (Z.land i 7)) 1))
    | None => Raise IndexError
    end
  else Ok false.

Fixpoint bitmap_extents_loop (bm : bytes) (chunk_sectors nbits : Z)
    (idxs : list Z) (start : option Z) : res (list (Z * Z)) :=
  match idxs with
  | [] => Ok []
  | i :: idxs' =>
      bit ← bm_bit bm nbits i;
      match bit, start with
      | true, None => bitmap_extents_loop bm chunk_sectors nbits idxs' (Some i)
      | false, Some s =>
          rest ← bitmap_extents_loop bm chunk_sectors nbits idxs' None;
          Ok ((s * chunk_sectors, (i - s) * chunk_sectors) :: rest)
      | _, _ => bitmap_extents_loop bm chunk_sectors nbits idxs' start
      end
  end.

Definition bitmap_extents (bm : bytes) (chunk_sectors nbits : Z) : res (list (Z * Z)) :=
  bitmap_extents_loop bm chunk_sectors nbits (seqZ 0 (nbits + 1)) None.

#[global] Arguments REC_SIZE : simpl never.
#[global] Arguments Rec_init : simpl never.
#[global] Arguments rec_payload : simpl never.

(** ** Lemmas on [struct] *)

Lemma fmt_widths_REC : fmt_widths REC_FMT = Some [4; 2; 2; 4; 4; 8; 8; 4; 4; 8; 8]%nat.
Proof. reflexivity. Qed.

Lemma REC_SIZE_56 : REC_SIZE = 56.
Proof. reflexivity. Qed.

Lemma STATUS_SIZE_128 : STATUS_SIZE = 128.
Proof. reflexivity. Qed.

Lemma pack_widths_length ws vs b :
  pack_widths ws vs = Ok b -> length b = sum_widths ws.
Proof.
  revert vs b; induction ws as [|w ws IH]; intros [|v vs] b; try discriminate.
  - by intros [= <-].
  - cbn. destruct ((0 <=? v) && (v <? _)); [|discriminate].
    unfold res_bind. destruct (pack_widths ws vs) as [rest| |] eqn:E; [|discriminate..].
    intros [= <-]. rewrite length_app, LittleEndianList.length_le_split.
    by rewrite (IH _ _ E).
Qed.

(** Unpacking what was packed, whatever follows it. *)
Lemma unpack_pack_widths ws vs b post :
  pack_widths ws vs = Ok b -> unpack_widths ws (b ++ post) = vs.
Proof.
  revert vs b; induction ws as [|w ws IH]; intros [|v vs] b; try discriminate.
  - done.
  - cbn. destruct ((0 <=? v) && (v <? _)) eqn:R; [|discriminate].
    unfold res_bind. destruct (pack_widths ws vs) as [rest| |] eqn:E; [|discriminate..].
    intros [= <-]. rewrite <-app_assoc.
    rewrite take_app_length', drop_app_length' by (by rewrite LittleEndianList.length_le_split).
    rewrite (IH _ _ E). f_equal.
    rewrite LittleEndianList.le_combine_split. apply Z.mod_small. lia.
Qed.

(** Every buffer of the right length is the packing of what it unpacks to. *)
Lemma pack_unpack_widths ws b :
  length b = sum_widths ws -> pack_widths ws (unpack_widths ws b) = Ok b.
Proof.
  revert b; induction ws as [|w ws IH]; intros b Hl; cbn in *.
  - by apply nil_length_inv in Hl as ->.
  - pose proof (LittleEndianList.le_combine_bound (take w b)) as Hb.
    rewrite length_take, Nat.min_l in Hb by lia.
    rewrite Z.mul_comm in Hb.
    rewrite (proj2 (Z.leb_le _ _) (proj1 Hb)), (proj2 (Z.ltb_lt _ _) (proj2 Hb)).
    cbn [andb]. rewrite IH by (rewrite length_drop, Hl; unfold sum_widths; lia).
    rewrite res_bind_Ok. f_equal. rewrite LittleEndianList.split_le_combine' by (rewrite length_take; lia).
    apply take_drop.
Qed.

(** Only the first [sum_widths ws] bytes matter. *)
Lemma unpack_widths_app ws b post :
  (sum_widths ws <= length b)%nat -> unpack_widths ws (b ++ post) = unpack_widths ws b.
Proof.
  revert b; induction ws as [|w ws IH]; intros b Hl; [done|].
  change (w + sum_widths ws <= length b)%nat in Hl. cbn [unpack_widths].
  rewrite take_app_le, drop_app_le by lia.
  by rewrite IH by (rewrite length_drop; lia).
Qed.

Lemma rec_of_fields_inv vs r : rec_of_fields vs = Some r -> vs = rec_fields r.
Proof.
  unfold rec_of_fields. intros H. repeat (case_match; try discriminate).
  by injection H as <-.
Qed.

(** ** Record headers *)

Definition u16 (z : Z) : Prop := 0 <= z < 2 ^ 16.
Definition u32 (z : Z) : Prop := 0 <= z < 2 ^ 32.
Definition u64 (z : Z) : Prop := 0 <= z < 2 ^ 64.

(** The header [r] read at the start of [buf]; it does not depend on what
    surrounds the 56 bytes. *)
Lemma Rec_init_at pre b post :
  REC_SIZE <= blen b ->
  Rec_init (pre ++ b ++ post) (blen pre) =
    match Rec_init b 0 with
    | Raise (ValueError _) => Raise (ValueError (blen pre))
    | x => x
    end.
Proof.
  intros Hb. unfold Rec_init, struct_unpack_from. rewrite fmt_widths_REC.
  rewrite slice_from_blen, slice_from_0, !blen_app.
  change (Z.of_nat (sum_widths _)) with REC_SIZE.
  pose proof (blen_nonneg pre). pose proof (blen_nonneg post).
  replace (REC_SIZE <=? blen pre + (blen b + blen post) - blen pre) with true by (symmetry; lia).
  replace (REC_SIZE <=? blen b - 0) with true by (symmetry; lia).
  unfold mbind, res_bind.
  rewrite unpack_widths_app by (change (56 <= length b)%nat; change REC_SIZE with 56 in Hb; zlen).
  destruct (rec_of_fields _) as [r|]; [|done]. by destruct (r_magic r =? REC_MAGIC).
Qed.

(** Fields are unsigned integers of their width. *)
Lemma unpack_widths_range ws buf :
  Forall2 (fun w v => 0 <= v < 2 ^ (8 * Z.of_nat w)) ws (unpack_widths ws buf).
Proof.
  revert buf; induction ws as [|w ws IH]; intros buf; constructor; [|apply IH].
  pose proof (LittleEndianList.le_combine_bound (take w buf)) as [H1 H2].
  split; [done|]. eapply Z.lt_le_trans; [exact H2|].
  apply Z.pow_le_mono_r; [lia|]. rewrite length_take. lia.
Qed.

Lemma Rec_init_range buf off r :
  Rec_init buf off = Ok r -> u16 (r_type r) /\ u32 (r_flags r) /\ u64 (r_seq r) /\
    u64 (r_sector r) /\ u32 (r_len r) /\ u32 (r_rec_len r) /\ r_magic r = REC_MAGIC.
Proof.
  unfold Rec_init, struct_unpack_from. rewrite fmt_widths_REC. intros H.
  destruct (_ <=? _); [|discriminate]. rewrite res_bind_Ok in H.
  pose proof (unpack_widths_range [4; 2; 2; 4; 4; 8; 8; 4; 4; 8; 8]%nat (buf.[off : ])) as R.
  destruct (rec_of_fields _) as [r'|] eqn:E; [|discriminate].
  destruct (Z.eqb_spec (r_magic r') REC_MAGIC); [|discriminate]. injection H as ->.
  apply rec_of_fields_inv in E. rewrite E in R. unfold rec_fields in R.
  repeat match goal with H : Forall2 _ (_ :: _) (_ :: _) |- _ => inversion H; clear H; subst end.
  done.
Qed.

Lemma Rec_init_enough buf off r :
  Rec_init buf off = Ok r -> off + REC_SIZE <= blen buf.
Proof.
  unfold Rec_init, struct_unpack_from. rewrite fmt_widths_REC. intros H.
  destruct (Z.leb_spec (Z.of_nat (sum_widths [4; 2; 2; 4; 4; 8; 8; 4; 4; 8; 8]%nat)) (blen buf - off));
    [|discriminate].
  change (Z.of_nat _) with REC_SIZE in *. lia.
Qed.

Lemma Rec_init_returns buf off : Rec_init buf off <> Forever.
Proof.
  unfold Rec_init, struct_unpack_from. rewrite fmt_widths_REC. destruct (_ <=? _); [|done].
  rewrite res_bind_Ok. destruct (rec_of_fields _) as [r|]; [|done]. by destruct (_ =? _).
Qed.

(** [b] is exactly one record, with header [r]. *)
Record frame (b : bytes) (r : rec) : Prop := {
  frame_init : Rec_init b 0 = Ok r;
  frame_len : r_rec_len r = blen b;
  frame_payload : r_type r = REC_WRITE -> r_len r <= payload_len r;
}.

Lemma frame_size b r : frame b r -> REC_SIZE <= blen b.
Proof. intros F. pose proof (Rec_init_enough _ _ _ (frame_init _ _ F)). lia. Qed.

(** The bytes at the end of a buffer that hold no complete record yet. *)
Definition partial_record (t : bytes) : Prop :=
  blen t < REC_SIZE \/ exists r, Rec_init t 0 = Ok r /\ blen t < r_rec_len r.

(** What the iterator yields for one record. *)
Definition frame_item (br : bytes * rec) : rec * bytes :=
  (br.2, rec_payload br.1 0 br.2).

Lemma rec_payload_at pre b post r :
  r_type r <> REC_WRITE \/ (0 <= r_len r /\ REC_SIZE + r_len r <= blen b) ->
  rec_payload (pre ++ b ++ post) (blen pre) r = rec_payload b 0 r.
Proof.
  intros H. unfold rec_payload. pose proof (blen_nonneg pre).
  destruct (Z.eqb_spec (r_type r) REC_WRITE) as [E|E].
  - destruct H as [H|[H1 H2]]; [done|].
    change REC_SIZE with 56 in *.
    rewrite slice_app_r by lia.
    rewrite slice_app_l by lia. f_equal; lia.
  - by rewrite !slice_empty by lia.
Qed.

Lemma frame_payload_at pre b post r :
  frame b r -> rec_payload (pre ++ b ++ post) (blen pre) r = rec_payload b 0 r.
Proof.
  intros F. apply rec_payload_at.
  destruct (decide (r_type r = REC_WRITE)) as [E|E]; [right|by left].
  pose proof (frame_payload _ _ F E) as Hp. rewrite <-(frame_len _ _ F).
  destruct (Rec_init_range _ _ _ (frame_init _ _ F)) as (_&_&_&_&[? _]&_).
  unfold payload_len in Hp. lia.
Qed.

(** The iterator, started between two records, stops at a partial record. *)
Lemma iter_records_loop_partial fuel pre tail :
  partial_record tail ->
  iter_records_loop (S fuel) (pre ++ tail) (blen pre) = ([], GDone (blen pre)).
Proof.
  intros H. cbn [iter_records_loop]. rewrite blen_app.
  destruct (Z.leb_spec (blen pre + REC_SIZE) (blen pre + blen tail)) as [L|L]; [|done].
  destruct H as [H|(r & Hr & Hl)]; [lia|].
  pose proof (Rec_init_at pre tail [] ltac:(lia)) as E.
  rewrite app_nil_r in E. rewrite E, Hr. by rewrite (proj2 (Z.ltb_lt _ _)) by lia.
Qed.

Lemma iter_records_loop_frames pre frames tail fuel :
  Forall (fun '(b, r) => frame b r) frames -> partial_record tail ->
  (length frames < fuel)%nat ->
  iter_records_loop fuel (pre ++ concat frames.*1 ++ tail) (blen pre) =
    (frame_item <$> frames, GDone (blen (pre ++ concat frames.*1))).
Proof.
  intros HF HT. revert pre fuel. induction HF as [|[b r] frames F HF IH]; intros pre fuel Hf.
  - destruct fuel; [cbn in Hf; lia|]. cbn [fmap list_fmap concat app].
    rewrite app_nil_r. by apply iter_records_loop_partial.
  - destruct fuel as [|fuel]; [cbn in Hf; lia|]. cbn [length] in Hf.
    cbn [iter_records_loop fmap list_fmap concat fst].
    rewrite <-(app_assoc b). pose proof (frame_size _ _ F).
    set (rest := concat frames.*1 ++ tail).
    pose proof (blen_nonneg rest).
    rewrite (proj2 (Z.leb_le _ _)) by (rewrite !blen_app; lia).
    rewrite Rec_init_at, (frame_init _ _ F) by done.
    rewrite (proj2 (Z.ltb_ge _ _)) by (rewrite !blen_app, (frame_len _ _ F); lia).
    rewrite frame_payload_at by done. rewrite (frame_len _ _ F), <-blen_app.
    rewrite (app_assoc pre). rewrite IH by lia. by rewrite <-!app_assoc.
Qed.

Lemma concat_frames_length frames :
  Forall (fun '(b, r) => frame b r) frames -> (length frames <= length (concat frames.*1))%nat.
Proof.
  induction 1 as [|[b r] frames F HF IH]; cbn; [lia|].
  pose proof (frame_size _ _ F) as H. change REC_SIZE with 56 in H. zlen.
Qed.

(** The whole frames of a buffer, and the incomplete record after them. *)
Lemma iter_records_whole frames tail :
  Forall (fun '(b, r) => frame b r) frames -> partial_record tail ->
  iter_records (concat frames.*1 ++ tail) =
    (frame_item <$> frames, GDone (blen (concat frames.*1))).
Proof.
  intros HF HT. unfold iter_records.
  apply (iter_records_loop_frames [] frames tail); [done..|].
  pose proof (concat_frames_length _ HF). rewrite length_app. lia.
Qed.

(** C25: framing.  A buffer made of whole records followed by an incomplete one
    is read as exactly those records, each with its own payload, and the
    number of bytes reported as consumed is where the incomplete one starts. *)
Theorem iter_records_frames frames tail :
  Forall (fun '(b, r) => frame b r) frames -> partial_record tail ->
  iter_records (concat frames.*1 ++ tail) =
    (frame_item <$> frames, GDone (blen (concat frames.*1))).
Proof. apply iter_records_whole. Qed.

Lemma pack_widths_Ok ws vs :
  Forall2 (fun w v => 0 <= v < 2 ^ (Z.of_nat w * 8)) ws vs -> exists b, pack_widths ws vs = Ok b.
Proof.
  induction 1 as [|w v ws vs [H1 H2] _ [b IH]]; [by exists []|].
  cbn. rewrite (proj2 (Z.leb_le _ _) H1), (proj2 (Z.ltb_lt _ _) H2), IH. by eexists.
Qed.

(** A packed header reads back as the fields it was packed from. *)
Lemma Rec_init_pack r hdr post :
  struct_pack REC_FMT (rec_fields r) = Ok hdr -> r_magic r = REC_MAGIC ->
  Rec_init (hdr ++ post) 0 = Ok r /\ blen hdr = REC_SIZE.
Proof.
  unfold struct_pack. rewrite fmt_widths_REC. intros H Hm.
  pose proof (pack_widths_length _ _ _ H) as Hl.
  assert (Hb : blen hdr = REC_SIZE) by (unfold blen; by rewrite Hl).
  split; [|done].
  unfold Rec_init, struct_unpack_from. rewrite fmt_widths_REC, slice_from_0.
  rewrite (unpack_pack_widths _ _ _ _ H).
  change (Z.of_nat (sum_widths _)) with REC_SIZE.
  pose proof (blen_nonneg post).
  rewrite (proj2 (Z.leb_le _ _)) by (rewrite blen_app; lia).
  rewrite res_bind_Ok. destruct r; cbn in *. by rewrite Hm.
Qed.

(** [pack_rec] builds one well-formed record. *)
Theorem pack_rec_roundtrip rtype flags seq sector length ts_ns payload :
  u16 rtype -> u32 flags -> u64 seq -> u64 sector -> u32 length -> u64 ts_ns ->
  blen payload <= 2 ^ 32 - 64 -> (rtype = REC_WRITE -> length = blen payload) ->
  exists b, pack_rec rtype flags seq sector length ts_ns payload = Ok b /\
    let r := mk_rec REC_MAGIC ABI_VERSION rtype flags 2 seq sector length (blen b) ts_ns 0 in
    frame b r /\ rec_payload b 0 r = (if rtype =? REC_WRITE then payload else []) /\
    blen b mod 8 = 0 /\ REC_SIZE + blen payload <= blen b < REC_SIZE + blen payload + 8.
Proof.
  intros Ht Hf Hq Hs Hn Hts Hp Hw. unfold pack_rec. rewrite land_lnot_7.
  set (L := (REC_SIZE + blen payload + 7) / 8 * 8).
  pose proof (blen_nonneg payload).
  pose proof (div_ceil_spec (REC_SIZE + blen payload) 8 ltac:(lia)) as HL.
  replace (REC_SIZE + blen payload + 8 - 1) with (REC_SIZE + blen payload + 7) in HL by lia.
  fold L in HL. assert (HL8 : L mod 8 = 0) by (apply Z.mod_mul; lia). clearbody L.
  change REC_SIZE with 56 in *.
  set (r := mk_rec REC_MAGIC ABI_VERSION rtype flags 2 seq sector length L ts_ns 0).
  change [REC_MAGIC; ABI_VERSION; rtype; flags; 2; seq; sector; length; L; ts_ns; 0]
    with (rec_fields r).
  assert (exists hdr, struct_pack REC_FMT (rec_fields r) = Ok hdr) as [hdr Hh].
  { unfold struct_pack. rewrite fmt_widths_REC. apply pack_widths_Ok.
    unfold u16, u32, u64 in *. unfold rec_fields, r, REC_MAGIC, ABI_VERSION; cbn.
    repeat constructor; lia. }
  set (post := payload ++ replicate (Z.to_nat (L - 56 - blen payload)) x00).
  destruct (Rec_init_pack r hdr post Hh eq_refl) as [Hi Hhl]. change REC_SIZE with 56 in Hhl.
  rewrite Hh, res_bind_Ok. exists (hdr ++ post).
  assert (blen (hdr ++ post) = L) as HbL.
  { unfold post. rewrite !blen_app, Hhl, blen_replicate. lia. }
  rewrite HbL. fold r. repeat split; try done; try lia.
  - cbn. intros E. rewrite (Hw E). unfold payload_len. cbn. change REC_SIZE with 56. lia.
  - unfold rec_payload. change REC_SIZE with 56. cbn [r_type r_len r].
    destruct (Z.eqb_spec rtype REC_WRITE) as [E|E]; [|by apply slice_empty; lia].
    rewrite slice_app_r by lia. rewrite Hhl, (Hw E).
    replace (0 + 56 - 56) with 0 by lia.
    replace (0 + 56 + blen payload - 56) with (blen payload) by lia. apply slice_prefix.
Qed.

Lemma pack_rec_roundtrip_witness :
  exists b, pack_rec REC_WRITE F_FUA 7 16 3 99 [Byte.x61; Byte.x62; Byte.x63] = Ok b /\
    let r := mk_rec REC_MAGIC ABI_VERSION REC_WRITE F_FUA 2 7 16 3 (blen b) 99 0 in
    frame b r /\ rec_payload b 0 r = [Byte.x61; Byte.x62; Byte.x63] /\
    blen b mod 8 = 0 /\ REC_SIZE + 3 <= blen b < REC_SIZE + 3 + 8.
Proof.
  apply (pack_rec_roundtrip REC_WRITE F_FUA 7 16 3 99 [Byte.x61; Byte.x62; Byte.x63]);
    try (split; vm_compute; congruence); done.
Defined.

Lemma iter_records_frames_witness :
  exists b1 b2, pack_rec REC_WRITE 0 7 16 3 99 [Byte.x61; Byte.x62; Byte.x63] = Ok b1 /\
    pack_rec REC_DISCARD 0 8 16 512 99 [] = Ok b2 /\
    iter_records (concat [b1; b2] ++ take 20 b1) =
      (frame_item <$> [(b1, mk_rec REC_MAGIC 1 REC_WRITE 0 2 7 16 3 64 99 0);
                       (b2, mk_rec REC_MAGIC 1 REC_DISCARD 0 2 8 16 512 56 99 0)],
       GDone 120).
Proof.
  eexists _, _. split; [vm_compute; reflexivity|]. split; [vm_compute; reflexivity|].
  match goal with |- iter_records (concat [?b1; ?b2] ++ ?t) = (_ <$> [(_, ?r1); (_, ?r2)], _) =>
    apply (iter_records_frames [(b1, r1); (b2, r2)] t) end.
  - repeat constructor; vm_compute; congruence.
  - left. reflexivity.
Defined.

(** ** What the iterator yields is well typed *)

(** A header whose fields are in their widths, with the magic number, and a
    payload that is no longer than the header says, and empty unless the record
    is a write. *)
Record item_typed (buf : bytes) (y : rec * bytes) : Prop := {
  it_magic : r_magic y.1 = REC_MAGIC;
  it_type : u16 (r_type y.1);
  it_flags : u32 (r_flags y.1);
  it_seq : u64 (r_seq y.1);
  it_sector : u64 (r_sector y.1);
  it_len : u32 (r_len y.1);
  it_rec_len : u32 (r_rec_len y.1) /\ r_rec_len y.1 <= blen buf;
  it_payload : blen y.2 <= (if r_type y.1 =? REC_WRITE then r_len y.1 else 0);
}.

Lemma blen_slice_le {A} (l : list A) a b : a <= b -> blen (l.[a : b]) <= b - a.
Proof. intros. unfold slice. zlen. Qed.

(** With a whole header in the buffer only the magic number can be wrong. *)
Lemma Rec_init_raises buf off e :
  off + REC_SIZE <= blen buf -> Rec_init buf off = Raise e -> e = ValueError off.
Proof.
  change REC_SIZE with 56. intros Hb. unfold Rec_init, struct_unpack_from. rewrite fmt_widths_REC.
  change (Z.of_nat (sum_widths [4; 2; 2; 4; 4; 8; 8; 4; 4; 8; 8]%nat)) with 56.
  rewrite (proj2 (Z.leb_le 56 _)) by lia. rewrite res_bind_Ok. cbn [unpack_widths rec_of_fields].
  destruct (_ =? REC_MAGIC); [discriminate|]. by intros [= <-].
Qed.

Lemma iter_records_loop_typed fuel buf : forall off, 0 <= off <= blen buf ->
  Forall (item_typed buf) (iter_records_loop fuel buf off).1 /\
  match (iter_records_loop fuel buf off).2 with
  | GDone o => off <= o <= blen buf
  | GRaise e => exists o, e = ValueError o /\ off <= o /\ o + REC_SIZE <= blen buf
  | GForever => True
  end.
Proof.
  induction fuel as [|fuel IH]; intros off H0; [done|]. cbn [iter_records_loop].
  destruct (Z.leb_spec (off + REC_SIZE) (blen buf)) as [Hb|Hb]; [|by split; [constructor|cbn; lia]].
  destruct (Rec_init buf off) as [r|e|] eqn:E; [| |by apply Rec_init_returns in E].
  2:{ split; [constructor|]. exists off. split; [by eapply Rec_init_raises|]. cbn. lia. }
  destruct (Rec_init_range _ _ _ E) as (Ht & Hf & Hs & Hsec & Hl & Hr & Hm).
  destruct (Z.ltb_spec (blen buf) (off + r_rec_len r)) as [L|L]; [by split; [constructor|cbn; lia]|].
  pose proof (proj1 Hr). destruct (IH (off + r_rec_len r)) as [HF He]; [lia|].
  destruct (iter_records_loop fuel buf (off + r_rec_len r)) as [ys ge]. cbn [fst snd] in *. split.
  - constructor; [|done]. split; try done; [split; [done|cbn; lia]|]. cbn [fst snd]. unfold rec_payload.
    etransitivity; [apply blen_slice_le|]; destruct (r_type r =? REC_WRITE); try lia; pose proof (proj1 Hl); lia.
  - destruct ge as [o|x|]; [lia| |done]. destruct He as (o & -> & ? & ?). exists o. split; [done|]. lia.
Qed.

(** C40: whatever bytes the ring or [pending.bin] hold, what the iterator yields
    is well typed: fields within their widths, the magic number, a record
    inside the buffer and a payload of at most the stated length; it consumes
    no more than the buffer, and the only exception it raises is the one for a
    wrong magic number, at a header that is in the buffer. *)
Theorem iter_records_typed buf :
  Forall (item_typed buf) (iter_records buf).1 /\
  match (iter_records buf).2 with
  | GDone o => 0 <= o <= blen buf
  | GRaise e => exists o, e = ValueError o /\ 0 <= o /\ o + REC_SIZE <= blen buf
  | GForever => True
  end.
Proof. apply iter_records_loop_typed. pose proof (blen_nonneg buf). lia. Qed.

(** ** Termination of the iterator *)

Lemma iter_records_loop_progress fuel buf off :
  0 <= off -> (Z.to_nat (blen buf - off) < fuel)%nat ->
  Forall (fun y => r_rec_len y.1 <> 0) (iter_records_loop fuel buf off).1 ->
  (iter_records_loop fuel buf off).2 <> GForever.
Proof.
  revert off; induction fuel as [|fuel IH]; intros off H0 Hf; [lia|].
  cbn [iter_records_loop]. change REC_SIZE with 56.
  destruct (Z.leb_spec (off + 56) (blen buf)); [|done].
  destruct (Rec_init buf off) as [r|e|] eqn:E; [|done|by apply Rec_init_returns in E].
  destruct (Rec_init_range _ _ _ E) as (_&_&_&_&_&[Hr _]&_).
  destruct (Z.ltb_spec (blen buf) (off + r_rec_len r)); [done|].
  specialize (IH (off + r_rec_len r)).
  destruct (iter_records_loop fuel buf (off + r_rec_len r)) as [ys e] eqn:Ei.
  cbn [fst snd] in *. intros HF. inversion HF as [|? ? Hy HF']; subst. cbn in Hy.
  apply IH; [lia|lia|done].
Qed.

(** At a header with [rec_len = 0] the generator yields that record for ever. *)
Lemma iter_records_loop_stuck buf off r fuel :
  Rec_init buf off = Ok r -> r_rec_len r = 0 -> 0 <= off ->
  iter_records_loop fuel buf off = (replicate fuel (r, rec_payload buf off r), GForever).
Proof.
  intros Hr Hz H0. pose proof (Rec_init_enough _ _ _ Hr) as He.
  induction fuel as [|fuel IH]; [done|]. cbn [iter_records_loop replicate].
  rewrite (proj2 (Z.leb_le _ _) He), Hr, Hz, Z.add_0_r.
  change REC_SIZE with 56 in He.
  rewrite (proj2 (Z.ltb_ge _ _)) by lia. by rewrite IH.
Qed.

Lemma iter_records_loop_nonzero fuel buf off :
  0 <= off -> (iter_records_loop fuel buf off).2 <> GForever ->
  Forall (fun y => r_rec_len y.1 <> 0) (iter_records_loop fuel buf off).1.
Proof.
  revert off; induction fuel as [|fuel IH]; intros off H0; [constructor|].
  cbn [iter_records_loop]. destruct (_ <=? _); [|constructor].
  destruct (Rec_init buf off) as [r|e|] eqn:E; [|constructor..].
  destruct (Rec_init_range _ _ _ E) as (_&_&_&_&_&[Hr _]&_).
  destruct (Z.ltb_spec (blen buf) (off + r_rec_len r)); [constructor|].
  specialize (IH (off + r_rec_len r) ltac:(lia)).
  destruct (Z.eq_dec (r_rec_len r) 0) as [Hz|Hz].
  - rewrite Hz, Z.add_0_r, (iter_records_loop_stuck _ _ _ _ E Hz H0). done.
  - destruct (iter_records_loop fuel buf _). cbn in *. intros. constructor; auto.
Qed.

(** The iterator runs for ever exactly on the buffers in which it meets a
    record whose [rec_len] is zero; on every other buffer it returns or
    raises. *)
Theorem iter_records_forever_iff buf :
  (iter_records buf).2 = GForever <->
  Exists (fun y => r_rec_len y.1 = 0) (iter_records buf).1.
Proof.
  split; intros H.
  - apply dec_stable. intros Hn. revert H. apply iter_records_loop_progress; [lia|zlen|].
    apply not_Exists_Forall in Hn; [done|]. intros y. apply _.
  - apply dec_stable. intros Hn. revert H. apply Forall_not_Exists.
    by apply iter_records_loop_nonzero.
Qed.

(** ** Reading the stream in pieces *)

Definition shift_end (d : Z) (e : gen_end) : gen_end :=
  match e with
  | GDone o => GDone (d + o)
  | GRaise (ValueError o) => GRaise (ValueError (d + o))
  | e => e
  end.

Definition item_fits (y : rec * bytes) : Prop :=
  r_type y.1 = REC_WRITE -> r_len y.1 <= payload_len y.1.

Lemma Rec_init_app buf1 buf2 off :
  0 <= off -> off + REC_SIZE <= blen buf1 -> Rec_init (buf1 ++ buf2) off = Rec_init buf1 off.
Proof.
  intros H0 H. unfold Rec_init, struct_unpack_from. rewrite fmt_widths_REC.
  change (Z.of_nat (sum_widths _)) with REC_SIZE. rewrite blen_app.
  pose proof (blen_nonneg buf2).
  rewrite !(proj2 (Z.leb_le _ _)) by lia.
  change REC_SIZE with 56 in H.
  rewrite slice_from_app_l by lia. rewrite unpack_widths_app; [done|].
  change (56 <= length (buf1.[off : ]))%nat. unfold slice_from. zlen.
Qed.

Lemma Rec_init_slice_from buf d off :
  0 <= d <= blen buf -> 0 <= off ->
  Rec_init buf (d + off) =
    match Rec_init (buf.[d : ]) off with
    | Raise (ValueError o) => Raise (ValueError (d + o))
    | x => x
    end.
Proof.
  intros Hd H0. unfold Rec_init, struct_unpack_from. rewrite fmt_widths_REC.
  rewrite blen_slice_from, slice_from_slice_from by lia.
  change (Z.of_nat (sum_widths _)) with REC_SIZE.
  replace (Z.max 0 (blen buf - d) - off) with (blen buf - (d + off)) by lia.
  destruct (REC_SIZE <=? blen buf - (d + off)); [|done].
  rewrite !res_bind_Ok. destruct (rec_of_fields _) as [r|]; [|done].
  by destruct (r_magic r =? REC_MAGIC).
Qed.

(** Starting at [d] is starting at the beginning of [buf[d:]]. *)
Lemma iter_records_loop_slice_from fuel buf d off :
  0 <= d <= blen buf -> 0 <= off ->
  iter_records_loop fuel buf (d + off) =
    let '(ys, e) := iter_records_loop fuel (buf.[d : ]) off in (ys, shift_end d e).
Proof.
  revert off; induction fuel as [|fuel IH]; intros off Hd H0; [done|].
  cbn [iter_records_loop]. rewrite blen_slice_from, Rec_init_slice_from by lia.
  replace (off + REC_SIZE <=? Z.max 0 (blen buf - d)) with (d + off + REC_SIZE <=? blen buf)
    by (change REC_SIZE with 56; apply eq_true_iff_eq; rewrite !Z.leb_le; lia).
  destruct (Z.leb_spec (d + off + REC_SIZE) (blen buf)); [|done].
  destruct (Rec_init (buf.[d : ]) off) as [r|e|] eqn:E; [|by destruct e|done].
  destruct (Rec_init_range _ _ _ E) as (_&_&_&_&_&[Hr _]&_).
  replace (Z.max 0 (blen buf - d) <? off + r_rec_len r) with (blen buf <? d + off + r_rec_len r)
    by (apply eq_true_iff_eq; rewrite !Z.ltb_lt; lia).
  destruct (Z.ltb_spec (blen buf) (d + off + r_rec_len r)); [done|].
  rewrite <-Z.add_assoc, IH by lia.
  destruct (iter_records_loop fuel (buf.[d : ]) (off + r_rec_len r)) as [ys e].
  f_equal. f_equal. f_equal. unfold rec_payload. change REC_SIZE with 56.
  rewrite slice_slice_from by lia. f_equal; lia.
Qed.

Lemma iter_records_loop_mono fuel fuel' buf off :
  (iter_records_loop fuel buf off).2 <> GForever -> (fuel <= fuel')%nat ->
  iter_records_loop fuel' buf off = iter_records_loop fuel buf off.
Proof.
  revert fuel' off; induction fuel as [|fuel IH]; intros fuel' off; [done|].
  destruct fuel' as [|fuel']; [lia|]. cbn [iter_records_loop]. intros H Hl.
  destruct (_ <=? _); [|done]. destruct (Rec_init buf off) as [r| |]; [|done..].
  destruct (_ <? _); [done|]. rewrite (IH fuel'); [done| |lia].
  by destruct (iter_records_loop fuel buf _).
Qed.

Lemma iter_records_loop_done_ge fuel buf off ys o :
  iter_records_loop fuel buf off = (ys, GDone o) -> off <= o.
Proof.
  revert off ys; induction fuel as [|fuel IH]; intros off ys; [done|].
  cbn [iter_records_loop].
  destruct (_ <=? _); [|intros [= _ <-]; lia].
  destruct (Rec_init buf off) as [r| |] eqn:E; [|done..].
  destruct (Rec_init_range _ _ _ E) as (_&_&_&_&_&[Hr _]&_).
  destruct (_ <? _); [intros [= _ <-]; lia|].
  destruct (iter_records_loop fuel buf (off + r_rec_len r)) as [zs e] eqn:Ei.
  intros [= _ ->]. apply IH in Ei. lia.
Qed.

Lemma iter_records_loop_split fuel1 fuel2 buf1 buf2 off ys o :
  0 <= off -> iter_records_loop fuel1 buf1 off = (ys, GDone o) -> Forall item_fits ys ->
  iter_records_loop (length ys + fuel2) (buf1 ++ buf2) off =
    let '(zs, e) := iter_records_loop fuel2 (buf1 ++ buf2) o in (ys ++ zs, e).
Proof.
  revert off ys; induction fuel1 as [|fuel1 IH]; intros off ys H0; [done|].
  cbn [iter_records_loop]. destruct (Z.leb_spec (off + REC_SIZE) (blen buf1)) as [L|L].
  2:{ intros [= <- <-] _. cbn. by destruct (iter_records_loop fuel2 (buf1 ++ buf2) off). }
  destruct (Rec_init buf1 off) as [r|e|] eqn:E; [|done..].
  destruct (Rec_init_range _ _ _ E) as (_&_&_&_&[Hn _]&[Hr _]&_).
  destruct (Z.ltb_spec (blen buf1) (off + r_rec_len r)) as [L2|L2].
  { intros [= <- <-] _. cbn. by destruct (iter_records_loop fuel2 (buf1 ++ buf2) off). }
  destruct (iter_records_loop fuel1 buf1 (off + r_rec_len r)) as [ys1 e1] eqn:E1.
  intros [= <- ->] HF. inversion HF as [|? ? Hfit HF1]; subst.
  cbn [length Nat.add iter_records_loop]. rewrite blen_app. pose proof (blen_nonneg buf2).
  rewrite (proj2 (Z.leb_le _ _)) by lia. rewrite Rec_init_app, E by lia.
  rewrite (proj2 (Z.ltb_ge _ _)) by lia.
  rewrite (IH (off + r_rec_len r) ys1) by (done || lia).
  destruct (iter_records_loop fuel2 (buf1 ++ buf2) o) as [zs e].
  cbn. do 3 f_equal. unfold item_fits, payload_len in Hfit. cbn in Hfit.
  unfold rec_payload. change REC_SIZE with 56 in *.
  destruct (Z.eqb_spec (r_type r) REC_WRITE) as [Ew|Ew].
  - specialize (Hfit Ew). apply slice_app_l; lia.
  - by rewrite !slice_empty by lia.
Qed.

Lemma iter_records_loop_count fuel buf off ys o :
  0 <= off -> iter_records_loop fuel buf off = (ys, GDone o) -> Z.of_nat (length ys) <= o - off.
Proof.
  intros H0 H. assert (Forall (fun y => r_rec_len y.1 <> 0) ys) as HF.
  { pose proof (iter_records_loop_nonzero fuel buf off H0) as HF. rewrite H in HF. by apply HF. }
  revert off ys H0 H HF; induction fuel as [|fuel IH]; intros off ys H0; [done|].
  cbn [iter_records_loop].
  destruct (_ <=? _); [|intros [= <- <-]; cbn; lia].
  destruct (Rec_init buf off) as [r| |] eqn:E; [|done..].
  destruct (Rec_init_range _ _ _ E) as (_&_&_&_&_&[Hr _]&_).
  destruct (_ <? _); [intros [= <- <-]; cbn; lia|].
  destruct (iter_records_loop fuel buf (off + r_rec_len r)) as [zs e] eqn:Ei.
  intros [= <- ->] HF. inversion HF as [|? ? Hz HF']; subst. cbn in Hz.
  apply IH in Ei; [|lia|done]. cbn [length]. lia.
Qed.

Lemma iter_records_loop_done_le fuel buf off ys o :
  0 <= off <= blen buf -> iter_records_loop fuel buf off = (ys, GDone o) -> o <= blen buf.
Proof.
  revert off ys; induction fuel as [|fuel IH]; intros off ys Ho; [done|].
  cbn [iter_records_loop].
  destruct (_ <=? _); [|intros [= _ <-]; lia].
  destruct (Rec_init buf off) as [r| |] eqn:E; [|done..].
  destruct (Rec_init_range _ _ _ E) as (_&_&_&_&_&[Hr _]&_).
  destruct (Z.ltb_spec (blen buf) (off + r_rec_len r)); [intros [= _ <-]; lia|].
  destruct (iter_records_loop fuel buf (off + r_rec_len r)) as [zs e] eqn:Ei.
  intros [= _ ->]. apply IH in Ei; lia.
Qed.

(** The stream may be cut anywhere.  Reading [buf1], keeping the bytes
    that were not consumed, and reading them in front of [buf2] yields the
    records of the whole stream, and the same end. *)
Theorem iter_records_stream buf1 buf2 ys o zs e :
  iter_records buf1 = (ys, GDone o) -> Forall item_fits ys ->
  iter_records (buf1.[o : ] ++ buf2) = (zs, e) -> e <> GForever ->
  iter_records (buf1 ++ buf2) = (ys ++ zs, shift_end o e).
Proof.
  unfold iter_records. intros H1 HF H2 He.
  pose proof (iter_records_loop_done_ge _ _ _ _ _ H1) as Ho.
  pose proof (iter_records_loop_done_le _ _ _ _ _ (conj (Z.le_refl 0) (blen_nonneg _)) H1) as Ho'.
  rewrite <-slice_from_app_l in H2 by lia.
  set (fuel2 := S (length ((buf1 ++ buf2).[o : ]))) in H2.
  pose proof (iter_records_loop_slice_from fuel2 (buf1 ++ buf2) o 0) as Hs.
  rewrite blen_app, Z.add_0_r, H2 in Hs.
  specialize (Hs ltac:(pose proof (blen_nonneg buf2); lia) ltac:(lia)).
  pose proof (iter_records_loop_split _ fuel2 _ buf2 0 ys o ltac:(lia) H1 HF) as Hsp.
  rewrite Hs in Hsp.
  pose proof (iter_records_loop_count _ _ _ _ _ (Z.le_refl 0) H1) as Hc.
  rewrite (iter_records_loop_mono (length ys + fuel2)).
  - rewrite Hsp. by destruct e as [|[]|].
  - rewrite Hsp. by destruct e as [|[]|].
  - unfold fuel2, slice_from, blen in *. rewrite length_drop, length_app. lia.
Qed.

Lemma iter_records_stream_witness :
  exists b1 b2, pack_rec REC_WRITE 0 7 16 3 99 [Byte.x61; Byte.x62; Byte.x63] = Ok b1 /\
    pack_rec REC_DISCARD 0 8 16 512 99 [] = Ok b2 /\
    let buf1 := b1 ++ take 20 b2 in
    let buf2 := drop 20 b2 in
    iter_records (buf1 ++ buf2) =
      ((iter_records buf1).1 ++ (iter_records (buf1.[64 : ] ++ buf2)).1, GDone 120).
Proof.
  eexists _, _. split; [vm_compute; reflexivity|]. split; [vm_compute; reflexivity|].
  intros buf1 buf2.
  rewrite (iter_records_stream buf1 buf2 (iter_records buf1).1 64
    (iter_records (buf1.[64 : ] ++ buf2)).1 (GDone 56)); [reflexivity|..];
    [vm_compute; reflexivity| |vm_compute; reflexivity|done].
  vm_compute. repeat constructor; vm_compute; congruence.
Defined.

(** ** The dirty bitmap *)

(** Bit [i] of the bitmap, false outside it. *)
Definition dirty (bm : bytes) (nbits i : Z) : bool :=
  match bm_bit bm nbits i with Ok b => (0 <=? i) && b | _ => false end.

Lemma dirty_range bm nbits i : dirty bm nbits i = true -> 0 <= i < nbits.
Proof. unfold dirty, bm_bit. destruct (Z.ltb_spec i nbits); [|by rewrite andb_false_r]. case_match; lia. Qed.

Lemma bm_bit_Ok bm nbits i :
  nbits <= 8 * blen bm -> 0 <= i -> bm_bit bm nbits i = Ok (dirty bm nbits i).
Proof.
  intros Hb Hi. unfold dirty, bm_bit. destruct (Z.ltb_spec i nbits) as [L|L].
  - destruct (bm !! Z.to_nat (i ≫ 3)) as [b|] eqn:E.
    + by rewrite (proj2 (Z.leb_le _ _) Hi).
    + apply lookup_ge_None in E. rewrite Z.shiftr_div_pow2 in E by lia.
      change (2 ^ 3) with 8 in E. pose proof (Z.div_lt_upper_bound i 8 (blen bm)). unfold blen in *. lia.
  - by rewrite andb_false_r.
Qed.

Lemma bitmap_extents_loop_spec bm c nbits (m : nat) i start :
  0 < c -> nbits <= 8 * blen bm -> 0 <= i -> i + Z.of_nat m = nbits + 1 -> (0 < m)%nat ->
  match start with Some s => 0 <= s < i | None => True end ->
  exists es, bitmap_extents_loop bm c nbits (seqZ i (Z.of_nat m)) start = Ok es /\
    separated (match start with Some s => s | None => i end * c) es /\
    (forall x, Exists (in_extent x) es <->
      match start with Some s => s * c <= x < i * c | None => False end \/
      (i <= x / c < nbits /\ dirty bm nbits (x / c) = true)).
Proof.
  intros Hc Hb. revert i start; induction m as [|m IH]; intros i start Hi Hm Hpos Hs; [lia|].
  rewrite seqZ_cons by lia. cbn [bitmap_extents_loop].
  rewrite bm_bit_Ok, res_bind_Ok by done.
  replace (Z.pred (Z.of_nat (S m))) with (Z.of_nat m) by lia.
  assert (Hdiv : forall x, x / c = i <-> i * c <= x < i * c + c).
  { intros x. pose proof (Z.div_mod x c). pose proof (Z.mod_pos_bound x c). split; [nia|].
    intros. symmetry. apply (Z.div_unique x c i (x - i * c)); lia. }
  destruct (Z.eq_dec i nbits) as [->|Hn].
  - assert (dirty bm nbits nbits = false) as ->.
    { unfold dirty, bm_bit. by rewrite Z.ltb_irrefl, andb_false_r. }
    replace m with 0%nat by lia. cbn.
    destruct start as [s|].
    + eexists; split; [done|]. cbn. split; [nia|]. intros x. rewrite Exists_cons, Exists_nil.
      unfold in_extent. cbn. split; [|intros [?|[? _]]; [|lia]]; left; nia.
    + eexists; split; [done|]. split; [done|]. intros x. rewrite Exists_nil. lia.
  - destruct (dirty bm nbits i) eqn:Ed; destruct start as [s|].
    + destruct (IH (Z.succ i) (Some s)) as (es & -> & Hsep & Hcov); [lia..|].
      exists es. split; [done|]. split; [done|]. intros x. rewrite Hcov.
      destruct (Z.eq_dec (x / c) i) as [E|E]; [|specialize (Hdiv x); intuition lia].
      pose proof (proj1 (Hdiv x) E). rewrite E. split; [right; split; [lia|done]|left; nia].
    + destruct (IH (Z.succ i) (Some i)) as (es & -> & Hsep & Hcov); [lia..|].
      exists es. split; [done|]. split; [done|]. intros x. rewrite Hcov.
      destruct (Z.eq_dec (x / c) i) as [E|E]; [|specialize (Hdiv x); intuition lia].
      pose proof (proj1 (Hdiv x) E). rewrite E. split; [right; split; [lia|done]|left; nia].
    + destruct (IH (Z.succ i) None) as (es & -> & Hsep & Hcov); [lia..|].
      eexists; split; [done|]. cbn. split.
      { split; [lia|]. split; [nia|]. eapply separated_mono; [|exact Hsep]. nia. }
      intros x. rewrite Exists_cons, Hcov. unfold in_extent. cbn.
      destruct (Z.eq_dec (x / c) i) as [E|E]; [rewrite E|]; specialize (Hdiv x); intuition (lia || nia || congruence).
    + destruct (IH (Z.succ i) None) as (es & -> & Hsep & Hcov); [lia..|].
      exists es. split; [done|]. split; [eapply separated_mono; [|exact Hsep]; nia|].
      intros x. rewrite Hcov.
      destruct (Z.eq_dec (x / c) i) as [E|E]; [rewrite E|]; intuition (lia || congruence).
Qed.

Lemma bitmap_extents_cover bm c nbits :
  0 < c -> 0 <= nbits <= 8 * blen bm ->
  exists es, bitmap_extents bm c nbits = Ok es /\ separated 0 es /\
    forall x, Exists (in_extent x) es <-> 0 <= x / c < nbits /\ dirty bm nbits (x / c) = true.
Proof.
  intros Hc Hn. unfold bitmap_extents.
  destruct (bitmap_extents_loop_spec bm c nbits (Z.to_nat (nbits + 1)) 0 None)
    as (es & E & Hs & Hcov); [lia..|].
  rewrite Z2Nat.id in E by lia. exists es. split; [done|]. split; [done|].
  intros x. rewrite Hcov. intuition lia.
Qed.

(** The extents of a bitmap cover a sector exactly when its chunk is
    dirty, and they are the maximal runs: sorted, non-empty and separated. *)
Theorem bitmap_extents_exact bm c nbits :
  0 < c -> 0 <= nbits <= 8 * blen bm ->
  exists es, bitmap_extents bm c nbits = Ok es /\ separated 0 es /\
    forall x, Exists (in_extent x) es <-> 0 <= x / c < nbits /\ dirty bm nbits (x / c) = true.
Proof. apply bitmap_extents_cover. Qed.

Lemma bitmap_extents_exact_witness :
  exists es, bitmap_extents [Byte.x0c; Byte.x81] 128 16 = Ok es /\ separated 0 es /\
    forall x, Exists (in_extent x) es <->
      0 <= x / 128 < 16 /\ dirty [Byte.x0c; Byte.x81] 16 (x / 128) = true.
Proof. apply (bitmap_extents_exact [Byte.x0c; Byte.x81] 128 16); vm_compute; intuition congruence. Defined.

Example bitmap_extents_example :
  bitmap_extents [Byte.x0c; Byte.x81] 128 16 = Ok [(256, 256); (1024, 128); (1920, 128)].
Proof. vm_compute. reflexivity. Qed.
