(* ===== verification/Files.v ===== *)
(** * Disk images and sparse files

    The operating-system side the userspace tools rely on: a disk image is a
    byte for every offset, a file has a size, its bytes and the set of bytes
    that were written and not punched out since.  [pread], [pwrite],
    [truncate] and [fallocate(PUNCH_HOLE | KEEP_SIZE)] follow their manual
    pages.  [lseek(SEEK_DATA)] and [lseek(SEEK_HOLE)] depend on the file
    system: they are the operations of the class [SparseFS], with the
    documented behaviour as the laws of [SparseFSLaws]. *)
From S2P Require Import Prelude Dmcdp.

(** ** Images *)

Definition image : Type := Z -> byte.

(** Two images are the same when they agree at every offset. *)
#[export] Instance image_equiv : Equiv image := pointwise_relation Z eq.
#[export] Instance image_equivalence : Equivalence (≡@{image}).
Proof. unfold equiv, image_equiv. apply _. Qed.

Definition in_range (off n i : Z) : bool := (off <=? i) && (i <? off + n).

Definition img_write (img : image) (off : Z) (buf : bytes) : image := fun i =>
  if in_range off (blen buf) i then default x00 (buf !! Z.to_nat (i - off)) else img i.

Definition img_zero (img : image) (off n : Z) : image := fun i =>
  if in_range off n i then x00 else img i.

Definition img_read (img : image) (off n : Z) : bytes := img <$> seqZ off n.

Definition zero_image : image := fun _ => x00.

(** ** Files *)

Record file : Type := mk_file {
  f_size : Z;
  f_byte : image;
  f_data : Z -> bool;
}.

(** [open(path, "wb")] followed by [truncate(size)]. *)
Definition file_create (size : Z) : file := mk_file size zero_image (fun _ => false).

Definition pread (f : file) (n off : Z) : bytes :=
  img_read (f_byte f) off (Z.min n (f_size f - off)).

Definition pwrite (f : file) (buf : bytes) (off : Z) : file :=
  match buf with
  | [] => f
  | _ => mk_file (Z.max (f_size f) (off + blen buf)) (img_write (f_byte f) off buf)
           (fun i => in_range off (blen buf) i || f_data f i)
  end.

(** [fallocate(fd, FALLOC_FL_PUNCH_HOLE | FALLOC_FL_KEEP_SIZE, off, n)] *)
Definition punch_hole (f : file) (off n : Z) : file :=
  mk_file (f_size f) (img_zero (f_byte f) off n)
    (fun i => negb (in_range off n i) && f_data f i).

(** ** Sparse regions *)

Class SparseFS : Type := {
  lseek_data : file -> Z -> option Z;    (* None: OSError (ENXIO) *)
  lseek_hole : file -> Z -> Z;
}.

(** A block of [B] bytes of the file holds data when one of its bytes does. *)
Definition data_block (B : Z) (f : file) (i : Z) : Prop :=
  exists j, j / B = i / B /\ f_data f j = true.

(** The file system reports data at block granularity, never a hole where data
    was written, and an implicit hole at the end of the file. *)
Class SparseFSLaws (fs : SparseFS) (B : Z) : Prop := {
  block_pos : 0 < B;
  seek_data_Some f off d : 0 <= off -> lseek_data f off = Some d ->
    off <= d < f_size f /\ data_block B f d /\ (forall i, off <= i < d -> ~ data_block B f i);
  seek_data_None f off : 0 <= off -> lseek_data f off = None ->
    forall i, off <= i < f_size f -> ~ data_block B f i;
  seek_hole_data f d : 0 <= d < f_size f -> data_block B f d ->
    d < lseek_hole f d <= f_size f /\
    (forall i, d <= i < lseek_hole f d -> data_block B f i) /\
    (lseek_hole f d < f_size f -> ~ data_block B f (lseek_hole f d));
}.

(** *** A byte-granular file system, by scanning *)

Definition scan_data (f : file) (off : Z) : option Z :=
  head (filter (fun i => f_data f i = true) (seqZ off (f_size f - off))).

Definition scan_hole (f : file) (off : Z) : Z :=
  default (f_size f) (head (filter (fun i => f_data f i = false) (seqZ off (f_size f - off)))).

Definition byte_fs : SparseFS := {| lseek_data := scan_data; lseek_hole := scan_hole |}.

(** ** Lemmas *)

Lemma in_range_true off n i : in_range off n i = true <-> off <= i < off + n.
Proof. unfold in_range. lia. Qed.

Lemma in_range_false off n i : in_range off n i = false <-> ~ (off <= i < off + n).
Proof. unfold in_range. lia. Qed.

Lemma in_range_P off n i : reflect (off <= i < off + n) (in_range off n i).
Proof. destruct (in_range off n i) eqn:E; [apply ReflectT; by apply in_range_true|apply ReflectF; by apply in_range_false]. Qed.

#[export] Instance img_write_proper : Proper ((≡) ==> eq ==> eq ==> (≡)) img_write.
Proof. intros f g H off ? <- buf ? <- i. unfold img_write. destruct (in_range _ _ _); [done|apply H]. Qed.

#[export] Instance img_zero_proper : Proper ((≡) ==> eq ==> eq ==> (≡)) img_zero.
Proof. intros f g H off ? <- n ? <- i. unfold img_zero. destruct (in_range _ _ _); [done|apply H]. Qed.

#[export] Instance img_read_proper : Proper ((≡) ==> eq ==> eq ==> eq) img_read.
Proof. intros f g H off ? <- n ? <-. unfold img_read. apply list_fmap_ext. intros ? ? _. apply H. Qed.

Lemma blen_img_read img off n : blen (img_read img off n) = Z.max 0 n.
Proof. unfold img_read, blen. rewrite length_fmap, length_seqZ. lia. Qed.

Lemma img_read_lookup img off n i :
  off <= i < off + n -> img_read img off n !! Z.to_nat (i - off) = Some (img i).
Proof.
  intros H. unfold img_read. rewrite list_lookup_fmap, lookup_seqZ_lt by lia. cbn.
  do 2 f_equal. lia.
Qed.

Lemma img_write_in img off buf i :
  off <= i < off + blen buf ->
  img_write img off buf i = default x00 (buf !! Z.to_nat (i - off)).
Proof. intros H. unfold img_write. by rewrite (proj2 (in_range_true _ _ _) H). Qed.

Lemma img_write_out img off buf i :
  ~ (off <= i < off + blen buf) -> img_write img off buf i = img i.
Proof. intros H. unfold img_write. by rewrite (proj2 (in_range_false _ _ _) H). Qed.

Lemma img_write_nil img off : img_write img off [] ≡ img.
Proof. intros i. apply img_write_out. rewrite blen_nil. lia. Qed.

(** Writing what was read from [img'] copies that range of [img']. *)
Lemma img_write_read img img' off n i :
  img_write img off (img_read img' off n) i = if in_range off n i then img' i else img i.
Proof.
  unfold img_write. rewrite blen_img_read.
  destruct (in_range_P off (Z.max 0 n) i), (in_range_P off n i); try lia; [|done].
  by rewrite img_read_lookup.
Qed.

Lemma img_write_replicate_zero img off n :
  img_write img off (replicate (Z.to_nat n) x00) ≡ img_zero img off n.
Proof.
  intros i. unfold img_write, img_zero. rewrite blen_replicate.
  destruct (in_range_P off (Z.of_nat (Z.to_nat n)) i), (in_range_P off n i); try lia; [|done].
  by rewrite lookup_replicate_2 by lia.
Qed.

Lemma pwrite_byte f buf off : f_byte (pwrite f buf off) ≡ img_write (f_byte f) off buf.
Proof. destruct buf; [by rewrite img_write_nil|done]. Qed.

Lemma pwrite_size f buf off :
  off + blen buf <= f_size f -> f_size (pwrite f buf off) = f_size f.
Proof. destruct buf; [done|]. cbn [pwrite f_size]. lia. Qed.

Lemma pwrite_data f buf off i :
  f_data (pwrite f buf off) i = in_range off (blen buf) i || f_data f i.
Proof.
  destruct buf; [|done]. rewrite (proj2 (in_range_false _ _ _)); [done|]. rewrite blen_nil. lia.
Qed.

Lemma pread_in f n off :
  off + n <= f_size f -> pread f n off = img_read (f_byte f) off n.
Proof. intros H. unfold pread. f_equal. lia. Qed.

(** *** The scanning file system satisfies the laws, with blocks of one byte *)

Lemma data_block_1 f i : data_block 1 f i <-> f_data f i = true.
Proof.
  unfold data_block. split.
  - intros (j & Hj & H). rewrite !Z.div_1_r in Hj. by subst.
  - intros H. by exists i.
Qed.

Lemma head_filter_seqZ (P : Z -> Prop) `{!forall x, Decision (P x)} a n :
  match head (filter P (seqZ a n)) with
  | Some d => a <= d < a + n /\ P d /\ forall i, a <= i < d -> ~ P i
  | None => forall i, a <= i < a + n -> ~ P i
  end.
Proof.
  destruct (decide (0 <= n)) as [Hn|Hn].
  2:{ rewrite seqZ_nil by lia. cbn. intros i ?. lia. }
  revert a. pattern n. apply natlike_ind; [|clear n Hn|done].
  { intros a. cbn. intros i ?. lia. }
  intros n Hn IH a. rewrite seqZ_cons by lia. rewrite filter_cons, Z.pred_succ.
  destruct (decide (P a)) as [Ha|Ha].
  - cbn. split; [lia|]. split; [done|]. intros i ?. lia.
  - specialize (IH (Z.succ a)). destruct (head _) as [d|].
    + destruct IH as (? & ? & IH). split; [lia|]. split; [done|].
      intros i Hi. destruct (Z.eq_dec i a) as [->|]; [done|]. apply IH. lia.
    + intros i Hi. destruct (Z.eq_dec i a) as [->|]; [done|]. apply IH. lia.
Qed.

#[export] Instance byte_fs_laws : SparseFSLaws byte_fs 1.
Proof.
  split; [lia|..]; cbn.
  - intros f off d H0 H. setoid_rewrite data_block_1.
    pose proof (head_filter_seqZ (fun i => f_data f i = true) off (f_size f - off)) as Hs.
    unfold scan_data in H. rewrite H in Hs. destruct Hs as (? & ? & ?).
    split; [lia|]. split; done.
  - intros f off H0 H i Hi. rewrite data_block_1.
    pose proof (head_filter_seqZ (fun i => f_data f i = true) off (f_size f - off)) as Hs.
    unfold scan_data in H. rewrite H in Hs. apply Hs. lia.
  - intros f d Hd. setoid_rewrite data_block_1. intros Hdd.
    pose proof (head_filter_seqZ (fun i => f_data f i = false) d (f_size f - d)) as Hs.
    unfold scan_hole. destruct (head _) as [h|]; cbn.
    + destruct Hs as (? & Hh & Hs). split.
      * split; [|lia]. assert (d <> h) by congruence. lia.
      * split; [|intros _; congruence]. intros i Hi. apply not_false_is_true. by apply Hs.
    + split; [lia|]. split; [|lia]. intros i Hi. apply not_false_is_true. apply Hs. lia.
Qed.
