(* ===== verification/Seed.v ===== *)
(** * The seed layer ([data_regions], [SeedLayer] of [rkcdp/rkcdpd.py])

    [seed.raw] is a sparse file of the size of the disk.  Before a chunk of
    the replica is overwritten for the first time since the seed point, its
    content is copied there (copy-on-first-write); [saved] is a bit per chunk.
    The invariant [seed_inv] says what the layer holds at any later time. *)
From S2P Require Import Prelude Dmcdp Files.

Definition SEED_CHUNK : Z := 65536.

(** ** [data_regions]: the non-hole regions of a sparse file *)

Section DataRegions.
Context {fs : SparseFS}.

Fixpoint data_regions_loop (fuel : nat) (fd : file) (size off : Z)
    : list (Z * Z) * gen_end :=
  match fuel with
  | O => ([], GForever)
  | S fuel' =>
      if off <? size then
        match lseek_data fd off with
        | None => ([], GDone off)
        | Some d =>
            if size <=? d then ([], GDone off)
            else
              let h := lseek_hole fd d in
              let '(rs, e) := data_regions_loop fuel' fd size h in
              ((d, h - d) :: rs, e)
        end
      else ([], GDone off)
  end.

Definition data_regions (fd : file) (size : Z) : list (Z * Z) * gen_end :=
  data_regions_loop (S (Z.to_nat size)) fd size 0.
End DataRegions.

(** ** The [saved] bytearray *)

(** [saved[c >> 3] & (1 << (c & 7))] *)
Definition saved_get (saved : list Z) (c : Z) : res Z :=
  match saved !! Z.to_nat (Z.shiftr c 3) with
  | Some b => Ok (Z.land b (Z.shiftl 1 (Z.land c 7)))
  | None => Raise IndexError
  end.

(** [saved[c >> 3] |= 1 << (c & 7)] *)
Definition saved_set (saved : list Z) (c : Z) : res (list Z) :=
  match saved !! Z.to_nat (Z.shiftr c 3) with
  | Some b => Ok (<[Z.to_nat (Z.shiftr c 3) := Z.lor b (Z.shiftl 1 (Z.land c 7))]> saved)
  | None => Raise IndexError
  end.

Fixpoint saved_set_all (saved : list Z) (cs : list Z) : res (list Z) :=
  match cs with
  | [] => Ok saved
  | c :: cs' => saved' ← saved_set saved c; saved_set_all saved' cs'
  end.

(** ** The layer *)

Record SeedLayer : Type := mk_SeedLayer {
  sl_size : Z;
  sl_fd : file;
  sl_nchunks : Z;
  sl_saved : list Z;
}.

(** The chunks a region [(off, length)] touches:
    [range(off // SEED_CHUNK, (off + length + SEED_CHUNK - 1) // SEED_CHUNK)] *)
Definition region_chunks (r : Z * Z) : list Z :=
  let '(off, length) := r in
  seqZ (off / SEED_CHUNK)
    ((off + length + SEED_CHUNK - 1) / SEED_CHUNK - off / SEED_CHUNK).

(** [SeedLayer.__init__] on an existing [seed.raw] *)
Definition SeedLayer_init {fs : SparseFS} (fd : file) (size : Z) : res SeedLayer :=
  let nchunks := (size + SEED_CHUNK - 1) / SEED_CHUNK in
  let saved := replicate (Z.to_nat ((nchunks + 7) / 8)) 0 in
  match data_regions fd size with
  | (regions, GDone _) =>
      saved' ← saved_set_all saved (regions ≫= region_chunks);
      Ok (mk_SeedLayer size fd nchunks saved')
  | (_, GRaise e) => Raise e
  | (_, GForever) => Forever
  end.

Definition is_saved (l : SeedLayer) (c : Z) : res Z := saved_get (sl_saved l) c.

(** [any(old)] *)
Definition py_any (b : bytes) : bool := existsb (fun x => bool_decide (x <> x00)) b.

(** The body of the loop of [SeedLayer.preserve], for one chunk. *)
Definition preserve_chunk (replica_fd : file) (l : SeedLayer) (c : Z) : res SeedLayer :=
  sv ← is_saved l c;
  if sv =? 0 then
    let o := c * SEED_CHUNK in
    let old := pread replica_fd (Z.min SEED_CHUNK (sl_size l - o)) o in
    let fd := if py_any old then pwrite (sl_fd l) old o else sl_fd l in
    saved' ← saved_set (sl_saved l) c;
    Ok (mk_SeedLayer (sl_size l) fd (sl_nchunks l) saved')
  else Ok l.

Fixpoint preserve_chunks (replica_fd : file) (l : SeedLayer) (cs : list Z) : res SeedLayer :=
  match cs with
  | [] => Ok l
  | c :: cs' => l' ← preserve_chunk replica_fd l c; preserve_chunks replica_fd l' cs'
  end.

(** [SeedLayer.preserve] *)
Definition preserve (l : SeedLayer) (replica_fd : file) (off length : Z) : res SeedLayer :=
  let c0 := off / SEED_CHUNK in
  let c1 := (off + length + SEED_CHUNK - 1) / SEED_CHUNK in
  preserve_chunks replica_fd l (seqZ c0 (Z.min c1 (sl_nchunks l) - c0)).

(** ** The bytearray as a set of chunks *)

Definition saved_bit (saved : list Z) (c : Z) : bool :=
  match saved !! Z.to_nat (Z.shiftr c 3) with
  | Some b => Z.testbit b (Z.land c 7)
  | None => false
  end.

Lemma land_7 c : Z.land c 7 = c mod 8.
Proof. change 7 with (Z.ones 3). by rewrite Z.land_ones. Qed.

Lemma shiftr_3 c : Z.shiftr c 3 = c / 8.
Proof. by rewrite Z.shiftr_div_pow2. Qed.

Lemma chunk_index_lt c n (l : list Z) :
  0 <= c < n -> blen l = (n + 7) / 8 -> (Z.to_nat (c / 8) < length l)%nat.
Proof.
  intros Hc Hl. unfold blen in Hl. apply Nat2Z.inj_lt. rewrite Z2Nat.id, Hl by (apply Z.div_pos; lia).
  apply Z.div_lt_upper_bound; [lia|].
  pose proof (Z.div_mod (n + 7) 8). pose proof (Z.mod_pos_bound (n + 7) 8). lia.
Qed.

Lemma chunk_index_inj c c' :
  0 <= c -> 0 <= c' -> c <> c' -> Z.to_nat (c / 8) = Z.to_nat (c' / 8) -> c mod 8 <> c' mod 8.
Proof.
  intros Hc Hc' Hne Hi Hm. apply Z2Nat.inj in Hi; [|apply Z.div_pos; lia..].
  rewrite (Z.div_mod c 8), (Z.div_mod c' 8) in Hne by lia. congruence.
Qed.

Lemma testbit_1_shiftl k n : 0 <= k -> 0 <= n -> Z.testbit (Z.shiftl 1 k) n = (n =? k).
Proof.
  intros Hk Hn. rewrite Z.shiftl_1_l, Z.pow2_bits_eqb by done. by rewrite Z.eqb_sym.
Qed.

(** The mask test of [is_saved] is the bit test. *)
Lemma saved_get_spec saved n c :
  0 <= c < n -> blen saved = (n + 7) / 8 ->
  exists v, saved_get saved c = Ok v /\ (v =? 0) = negb (saved_bit saved c).
Proof.
  intros Hc Hl. unfold saved_get, saved_bit. rewrite shiftr_3, land_7.
  destruct (lookup_lt_is_Some_2 saved _ (chunk_index_lt _ _ _ Hc Hl)) as [b ->].
  eexists; split; [done|]. pose proof (Z.mod_pos_bound c 8 ltac:(lia)) as Hm.
  destruct (Z.testbit b (c mod 8)) eqn:E; cbn.
  - apply Z.eqb_neq. intros H0.
    pose proof (f_equal (fun z => Z.testbit z (c mod 8)) H0) as H.
    cbn in H. rewrite Z.land_spec, E, testbit_1_shiftl, Z.eqb_refl, Z.bits_0 in H by lia. done.
  - apply Z.eqb_eq, Z.bits_inj'. intros k Hk.
    rewrite Z.land_spec, testbit_1_shiftl, Z.bits_0 by lia.
    destruct (Z.eqb_spec k (c mod 8)) as [->|]; [by rewrite E|apply andb_false_r].
Qed.

Lemma saved_set_spec saved n c :
  0 <= c < n -> blen saved = (n + 7) / 8 ->
  exists saved', saved_set saved c = Ok saved' /\ blen saved' = (n + 7) / 8 /\
    forall c', 0 <= c' -> saved_bit saved' c' = (c' =? c) || saved_bit saved c'.
Proof.
  intros Hc Hl. unfold saved_set. rewrite shiftr_3, land_7.
  pose proof (chunk_index_lt _ _ _ Hc Hl) as Hlt.
  destruct (lookup_lt_is_Some_2 saved _ Hlt) as [b Eb]. rewrite Eb.
  eexists; split; [done|]. split; [by rewrite <-Hl; zlen|].
  intros c' Hc'. unfold saved_bit. rewrite shiftr_3, land_7.
  pose proof (Z.mod_pos_bound c 8 ltac:(lia)). pose proof (Z.mod_pos_bound c' 8 ltac:(lia)).
  destruct (decide (Z.to_nat (c' / 8) = Z.to_nat (c / 8))) as [Ei|Ei].
  - rewrite Ei, list_lookup_insert_eq, Eb by done.
    rewrite Z.lor_spec, testbit_1_shiftl by lia. rewrite orb_comm. f_equal.
    destruct (Z.eqb_spec c' c) as [->|Hne]; [by rewrite Z.eqb_refl|].
    apply Z.eqb_neq. by apply chunk_index_inj; [lia..|].
  - rewrite list_lookup_insert_ne by done.
    destruct (Z.eqb_spec c' c) as [->|Hne]; done.
Qed.

(** ** What the layer holds *)

Definition chunk_nonzero (S0 : image) (size c : Z) : Prop :=
  exists i, i / SEED_CHUNK = c /\ 0 <= i < size /\ S0 i <> x00.

Record layer_wf (l : SeedLayer) : Prop := {
  wf_size : 0 <= sl_size l;
  wf_file : f_size (sl_fd l) = sl_size l;
  wf_nchunks : sl_nchunks l = (sl_size l + SEED_CHUNK - 1) / SEED_CHUNK;
  wf_saved : blen (sl_saved l) = (sl_nchunks l + 7) / 8;
  wf_data i : f_data (sl_fd l) i = true -> 0 <= i < sl_size l;
}.

(** The state of one byte [i] of the disk, with respect to the content [S0] of
    the replica at the seed point and its present content [R]: in a chunk that
    is not saved the replica still has the seed content and [seed.raw] has a
    hole; in a saved one [seed.raw] has the seed content, as a hole when the
    whole chunk was zero. *)
Definition seed_byte (S0 R : image) (l : SeedLayer) (i : Z) : Prop :=
  let c := i / SEED_CHUNK in
  if saved_bit (sl_saved l) c then
    (chunk_nonzero S0 (sl_size l) c -> f_byte (sl_fd l) i = S0 i /\ f_data (sl_fd l) i = true) /\
    (~ chunk_nonzero S0 (sl_size l) c -> f_data (sl_fd l) i = false)
  else R i = S0 i /\ f_data (sl_fd l) i = false.

Record seed_inv (S0 R : image) (l : SeedLayer) : Prop := {
  inv_wf : layer_wf l;
  inv_byte i : 0 <= i < sl_size l -> seed_byte S0 R l i;
}.

Lemma div_chunk i c : i / SEED_CHUNK = c <-> c * SEED_CHUNK <= i < c * SEED_CHUNK + SEED_CHUNK.
Proof.
  change SEED_CHUNK with 65536. split; [intros <-|intros H].
  - pose proof (Z.div_mod i 65536). pose proof (Z.mod_pos_bound i 65536). lia.
  - symmetry. apply (Z.div_unique i 65536 c (i - c * 65536)); lia.
Qed.

Lemma chunk_lt_nchunks i size : 0 <= i < size -> 0 <= i / SEED_CHUNK < (size + SEED_CHUNK - 1) / SEED_CHUNK.
Proof.
  change SEED_CHUNK with 65536. intros H.
  pose proof (div_ceil_spec size 65536 ltac:(lia)).
  split; [apply Z.div_pos; lia|]. apply Z.div_lt_upper_bound; lia.
Qed.

Lemma nchunk_start c size : c < (size + SEED_CHUNK - 1) / SEED_CHUNK -> c * SEED_CHUNK < size.
Proof.
  change SEED_CHUNK with 65536. intros H. pose proof (div_ceil_spec size 65536 ltac:(lia)). nia.
Qed.

Lemma py_any_true b : py_any b = true <-> Exists (fun x => x <> x00) b.
Proof.
  unfold py_any. induction b as [|x b IH]; cbn.
  - by rewrite Exists_nil.
  - by rewrite Exists_cons, orb_true_iff, IH, bool_decide_eq_true.
Qed.

(** [any(old)] on the content of chunk [c]. *)
Lemma py_any_chunk S0 size c :
  0 <= c -> c * SEED_CHUNK < size ->
  py_any (img_read S0 (c * SEED_CHUNK) (Z.min SEED_CHUNK (size - c * SEED_CHUNK))) = true
    <-> chunk_nonzero S0 size c.
Proof.
  intros Hc Hs. rewrite py_any_true, Exists_exists. unfold img_read, chunk_nonzero.
  split.
  - intros (x & (i & -> & Hi)%list_elem_of_fmap & Hn). exists i. rewrite div_chunk.
    apply elem_of_seqZ in Hi. change SEED_CHUNK with 65536 in *. split_and!; lia || done.
  - intros (i & Hi & Hr & Hn). exists (S0 i). split; [|done]. apply list_elem_of_fmap.
    exists i. split; [done|]. apply elem_of_seqZ. apply div_chunk in Hi.
    change SEED_CHUNK with 65536 in *. lia.
Qed.

Lemma seed_byte_unsaved S0 R l i :
  saved_bit (sl_saved l) (i / SEED_CHUNK) = false -> seed_byte S0 R l i ->
  R i = S0 i /\ f_data (sl_fd l) i = false.
Proof. unfold seed_byte. by intros ->. Qed.

(** One step of [preserve]: the chunk becomes saved, the others are untouched. *)
Lemma preserve_chunk_inv S0 replica l c :
  seed_inv S0 (f_byte replica) l -> sl_size l <= f_size replica -> 0 <= c < sl_nchunks l ->
  exists l', preserve_chunk replica l c = Ok l' /\ seed_inv S0 (f_byte replica) l' /\
    sl_size l' = sl_size l /\ sl_nchunks l' = sl_nchunks l /\
    forall c', 0 <= c' -> saved_bit (sl_saved l') c' = (c' =? c) || saved_bit (sl_saved l) c'.
Proof.
  intros [Hwf Hb] Hsz Hc. unfold preserve_chunk, is_saved.
  destruct (saved_get_spec _ _ _ Hc (wf_saved _ Hwf)) as (v & -> & Hv).
  rewrite res_bind_Ok, Hv. destruct (saved_bit (sl_saved l) c) eqn:Es; cbn [negb].
  { exists l. split_and!; try done. intros c' ?.
    destruct (Z.eqb_spec c' c) as [->|]; [by rewrite Es|done]. }
  destruct (saved_set_spec _ _ _ Hc (wf_saved _ Hwf)) as (saved' & -> & Hl & Hs).
  rewrite res_bind_Ok. eexists; split; [done|]. cbn [sl_size sl_nchunks sl_saved].
  split; [|by split_and!]. clear Hv.
  set (o := c * SEED_CHUNK). set (n := Z.min SEED_CHUNK (sl_size l - o)).
  assert (Hcs : o < sl_size l) by (apply nchunk_start; rewrite <-(wf_nchunks _ Hwf); lia).
  assert (Ho : 0 <= o /\ o + n <= sl_size l /\ 0 < n /\ n <= SEED_CHUNK)
    by (unfold o, n in *; change SEED_CHUNK with 65536 in *; lia).
  rewrite pread_in by lia.
  assert (Hold : img_read (f_byte replica) o n = img_read S0 o n).
  { unfold img_read. apply list_fmap_ext. intros k i Hi%list_elem_of_lookup_2.
    apply elem_of_seqZ in Hi. apply (seed_byte_unsaved S0 (f_byte replica) l).
    - rewrite (proj2 (div_chunk i c)); [done|]. fold o. lia.
    - apply Hb. lia. }
  rewrite Hold. pose proof (py_any_chunk S0 (sl_size l) c ltac:(lia) Hcs) as Hany. fold o n in Hany.
  assert (Hin : forall i, 0 <= i < sl_size l -> in_range o n i = true <-> i / SEED_CHUNK = c).
  { intros i Hi. rewrite in_range_true, div_chunk. unfold n, o in *. lia. }
  assert (Hbl : blen (img_read S0 o n) = n) by (rewrite blen_img_read; lia).
  set (fd' := if py_any (img_read S0 o n) then pwrite (sl_fd l) (img_read S0 o n) o else sl_fd l).
  assert (Hfd : forall i, f_byte fd' i = (if in_range o n i && py_any (img_read S0 o n)
                                     then S0 i else f_byte (sl_fd l) i) /\
                f_data fd' i = (in_range o n i && py_any (img_read S0 o n)) || f_data (sl_fd l) i).
  { intros i. unfold fd'. destruct (py_any _); [|by rewrite andb_false_r].
    rewrite andb_true_r, pwrite_data, Hbl. split; [|done].
    by rewrite (pwrite_byte (sl_fd l) (img_read S0 o n) o i), img_write_read. }
  assert (Hfs : f_size fd' = sl_size l).
  { rewrite <-(wf_file _ Hwf). unfold fd'. destruct (py_any _); [|done].
    apply pwrite_size. rewrite Hbl, (wf_file _ Hwf). lia. }
  clearbody fd'. split.
  - split; cbn; try apply Hwf; [done|done|].
    intros i. rewrite (proj2 (Hfd i)), orb_true_iff, andb_true_iff, in_range_true.
    intros [[? _]|?]; [lia|by apply (wf_data _ Hwf)].
  - intros i Hi. cbn in Hi. specialize (Hb i Hi). destruct (Hfd i) as [Hfb Hfdt].
    pose proof (chunk_lt_nchunks i (sl_size l) Hi) as Hci.
    unfold seed_byte in *. cbn [sl_saved sl_size sl_fd]. rewrite Hs by lia.
    destruct (Z.eqb_spec (i / SEED_CHUNK) c) as [Ec|Ec]; cbn [orb].
    + rewrite Ec, Es in Hb. destruct Hb as [_ Hd]. rewrite Ec.
      rewrite (proj2 (Hin i Hi) Ec) in Hfb, Hfdt. cbn [andb] in *. rewrite Hd, orb_false_r in Hfdt.
      split; intros Hnz.
      * rewrite (proj2 Hany Hnz) in *. done.
      * rewrite Hfdt. destruct (py_any _); [|done]. by destruct Hnz; apply Hany.
    + assert (in_range o n i = false) as Hr by (apply not_true_is_false; by rewrite Hin).
      rewrite Hr in Hfb, Hfdt. cbn [andb orb] in *. by rewrite Hfb, Hfdt.
Qed.

Lemma preserve_chunks_inv S0 replica cs : forall l,
  seed_inv S0 (f_byte replica) l -> sl_size l <= f_size replica ->
  Forall (fun c => 0 <= c < sl_nchunks l) cs ->
  exists l', preserve_chunks replica l cs = Ok l' /\ seed_inv S0 (f_byte replica) l' /\
    sl_size l' = sl_size l /\ sl_nchunks l' = sl_nchunks l /\
    forall c', 0 <= c' -> saved_bit (sl_saved l') c' = bool_decide (c' ∈ cs) || saved_bit (sl_saved l) c'.
Proof.
  induction cs as [|c cs IH]; intros l Hinv Hsz HF.
  { by exists l. }
  apply Forall_cons in HF as [Hc HF].
  destruct (preserve_chunk_inv S0 replica l c Hinv Hsz Hc) as (l1 & E1 & Hinv1 & Hs1 & Hn1 & Hb1).
  destruct (IH l1) as (l2 & E2 & Hinv2 & Hs2 & Hn2 & Hb2);
    [done|by rewrite Hs1|by rewrite Hn1|].
  exists l2. cbn [preserve_chunks]. rewrite E1, res_bind_Ok, E2.
  split_and!; [done|done|congruence|congruence|].
  intros c' Hc'. rewrite Hb2, Hb1 by done. rewrite orb_assoc. f_equal.
  apply eq_true_iff_eq. rewrite orb_true_iff, !bool_decide_eq_true, elem_of_cons, Z.eqb_eq. tauto.
Qed.

(** The seed content of a byte no longer depends on the replica once its chunk
    is saved. *)
Lemma seed_inv_change S0 R R' l :
  seed_inv S0 R l ->
  (forall i, 0 <= i < sl_size l -> R' i = R i \/ saved_bit (sl_saved l) (i / SEED_CHUNK) = true) ->
  seed_inv S0 R' l.
Proof.
  intros [Hwf Hb] H. split; [done|]. intros i Hi. specialize (Hb i Hi). unfold seed_byte in *.
  destruct (H i Hi) as [->|E]; [done|]. by rewrite E in *.
Qed.

(** [preserve] never fails on a range of the disk, keeps the invariant, and
    leaves every chunk of the range saved. *)
Lemma preserve_inv S0 l replica off n :
  seed_inv S0 (f_byte replica) l -> sl_size l <= f_size replica -> 0 <= off -> 0 <= n ->
  exists l', preserve l replica off n = Ok l' /\ seed_inv S0 (f_byte replica) l' /\
    sl_size l' = sl_size l /\
    forall i, 0 <= i < sl_size l -> off <= i < off + n -> saved_bit (sl_saved l') (i / SEED_CHUNK) = true.
Proof.
  intros Hinv Hsz Ho Hn. unfold preserve.
  set (cs := seqZ _ _).
  assert (HF : Forall (fun c => 0 <= c < sl_nchunks l) cs).
  { apply Forall_seqZ. intros c Hc.
    change SEED_CHUNK with 65536 in *. pose proof (Z.div_pos off 65536). lia. }
  destruct (preserve_chunks_inv S0 replica cs l Hinv Hsz HF) as (l' & E & Hinv' & Hs & _ & Hb).
  exists l'. split; [done|]. split; [done|]. split; [done|].
  intros i Hi Hr. pose proof (chunk_lt_nchunks i _ Hi) as Hc.
  rewrite Hb by lia. rewrite bool_decide_eq_true_2; [done|].
  apply elem_of_seqZ. rewrite (wf_nchunks _ (inv_wf _ _ _ Hinv)).
  change SEED_CHUNK with 65536 in *.
  pose proof (div_ceil_spec (off + n) 65536 ltac:(lia)).
  assert (off / 65536 <= i / 65536) by (apply Z.div_le_mono; lia).
  assert (i / 65536 < (off + n + 65536 - 1) / 65536) by (apply Z.div_lt_upper_bound; lia).
  lia.
Qed.

(** ** The regions of a sparse file *)

Section RegionLaws.
Context {fs : SparseFS} {B : Z} {laws : SparseFSLaws fs B}.

Definition in_file (f : file) (e : Z * Z) : Prop := 0 <= e.1 /\ e.1 + e.2 <= f_size f.

Lemma data_regions_loop_spec f fuel off :
  0 <= off -> (Z.to_nat (f_size f - off) < fuel)%nat ->
  exists es o, data_regions_loop fuel f (f_size f) off = (es, GDone o) /\
    separated off es /\ Forall (in_file f) es /\
    forall x, off <= x < f_size f -> Exists (in_extent x) es <-> data_block B f x.
Proof.
  revert off; induction fuel as [|fuel IH]; intros off H0 Hf; [lia|].
  cbn [data_regions_loop]. destruct (Z.ltb_spec off (f_size f)) as [L|L].
  2:{ eexists _, _. split; [done|]. split; [done|]. split; [by constructor|]. lia. }
  destruct (lseek_data f off) as [d|] eqn:Ed.
  - destruct (seek_data_Some f off d H0 Ed) as (Hd & Hdb & Hgap).
    destruct (seek_hole_data f d ltac:(lia) Hdb) as (Hh & Hrun & Hend).
    rewrite (proj2 (Z.leb_gt _ _)) by lia. set (h := lseek_hole f d) in *.
    destruct (IH h ltac:(lia) ltac:(lia)) as (es & o & E & Hsep & HF & Hcov).
    rewrite E. eexists _, _. split; [done|]. split; [|split].
    + cbn. split; [lia|]. split; [lia|]. replace (d + (h - d) + 1) with (h + 1) by lia.
      destruct es as [|[s n] es]; [done|]. cbn in *. destruct Hsep as (Hs1 & Hs2 & Hs3).
      split_and!; [|done|done]. inversion HF as [|? ? [Hf1 Hf2] _]; subst. cbn in *.
      destruct (Z.eq_dec s h) as [->|]; [|lia]. destruct Hend; [lia|].
      apply Hcov; [lia|]. left. unfold in_extent. cbn. lia.
    + constructor; [|done]. unfold in_file. cbn. lia.
    + intros x Hx. rewrite Exists_cons. unfold in_extent at 1. cbn.
      destruct (decide (x < h)) as [Hxh|Hxh].
      * split; [|intros Hb; left; destruct (decide (x < d)); [exfalso; by apply (Hgap x); [lia|]|lia]].
        intros [?|He]; [apply Hrun; lia|]. pose proof (separated_bound _ _ _ Hsep He). lia.
      * rewrite <-Hcov by lia. split; [intros [?|?]; [lia|done]|by right].
  - eexists _, _. split; [done|]. split; [done|]. split; [by constructor|].
    intros x Hx. rewrite Exists_nil. split; [done|]. by apply (seek_data_None f off H0 Ed).
Qed.

(** C26: [data_regions] terminates and yields exactly the data of the file, as
    sorted, non-empty, separated regions inside it. *)
Theorem data_regions_exact f :
  exists es o, data_regions f (f_size f) = (es, GDone o) /\
    separated 0 es /\ Forall (in_file f) es /\
    forall x, 0 <= x < f_size f -> Exists (in_extent x) es <-> data_block B f x.
Proof. apply data_regions_loop_spec; lia. Qed.
End RegionLaws.

Example data_regions_example :
  (data_regions (fs := byte_fs) (pwrite (pwrite (file_create 100) [Byte.x41; Byte.x42] 10) [Byte.x43] 99) 100)
    = ([(10, 2); (99, 1)], GDone 100).
Proof. vm_compute. reflexivity. Qed.

(** ** Opening an existing [seed.raw] *)

Lemma region_chunks_spec off n c :
  0 <= off -> 0 < n ->
  c ∈ region_chunks (off, n) <-> exists x, in_extent x (off, n) /\ x / SEED_CHUNK = c.
Proof.
  intros Ho Hn. unfold region_chunks, in_extent. cbn. rewrite elem_of_seqZ.
  pose proof (div_ceil_spec (off + n) SEED_CHUNK ltac:(done)) as Hc.
  setoid_rewrite div_chunk. change SEED_CHUNK with 65536 in *.
  set (hi := (off + n + 65536 - 1) / 65536) in *.
  pose proof (Z.div_mod off 65536). pose proof (Z.mod_pos_bound off 65536).
  split.
  - intros [H1 H2]. exists (Z.max off (c * 65536)). nia.
  - intros (x & Hx & Hxc). nia.
Qed.

Lemma saved_set_all_spec n cs : forall saved,
  blen saved = (n + 7) / 8 -> Forall (fun c => 0 <= c < n) cs ->
  exists saved', saved_set_all saved cs = Ok saved' /\ blen saved' = (n + 7) / 8 /\
    forall c, 0 <= c -> saved_bit saved' c = bool_decide (c ∈ cs) || saved_bit saved c.
Proof.
  induction cs as [|c0 cs IH]; intros saved Hl HF; [by exists saved|].
  apply Forall_cons in HF as [Hc HF].
  destruct (saved_set_spec saved n c0 Hc Hl) as (s1 & E1 & Hl1 & Hb1).
  destruct (IH s1 Hl1 HF) as (s2 & E2 & Hl2 & Hb2).
  exists s2. cbn [saved_set_all]. rewrite E1, res_bind_Ok. split_and!; [done..|].
  intros c Hc0. rewrite Hb2, Hb1 by done. rewrite orb_assoc. f_equal.
  apply eq_true_iff_eq. rewrite orb_true_iff, !bool_decide_eq_true, elem_of_cons, Z.eqb_eq. tauto.
Qed.

Lemma saved_bit_fresh n c : saved_bit (replicate n 0) c = false.
Proof.
  unfold saved_bit. destruct (replicate n 0 !! _) as [b|] eqn:E; [|done].
  apply lookup_replicate in E as [-> _]. apply Z.bits_0.
Qed.

Section Init.
Context {fs : SparseFS} {B : Z} {laws : SparseFSLaws fs B}.

(** A chunk counts as saved when [seed.raw] holds data in it. *)
Lemma SeedLayer_init_spec f :
  0 <= f_size f ->
  exists l, SeedLayer_init f (f_size f) = Ok l /\ sl_size l = f_size f /\ sl_fd l = f /\
    sl_nchunks l = (f_size f + SEED_CHUNK - 1) / SEED_CHUNK /\
    blen (sl_saved l) = (sl_nchunks l + 7) / 8 /\
    forall c, 0 <= c -> saved_bit (sl_saved l) c = true <->
      exists x, 0 <= x < f_size f /\ x / SEED_CHUNK = c /\ data_block B f x.
Proof.
  intros Hs. unfold SeedLayer_init.
  destruct (data_regions_loop_spec f (S (Z.to_nat (f_size f))) 0)
    as (es & o & E & Hsep & HF & Hcov); [lia..|].
  unfold data_regions. rewrite E. set (n := (f_size f + SEED_CHUNK - 1) / SEED_CHUNK).
  assert (Hpos : Forall (fun e => 0 <= e.1 /\ 0 < e.2) es).
  { clear -Hsep. revert Hsep. generalize (Z.le_refl 0). generalize 0 at 2 3.
    induction es as [|e es IH]; intros lo Hlo; [by constructor|]. cbn. intros (?&?&Hs).
    constructor; [lia|]. by apply (IH (e.1 + e.2 + 1)); [lia|]. }
  assert (Hmem : forall c, c ∈ es ≫= region_chunks <->
            exists x, 0 <= x < f_size f /\ x / SEED_CHUNK = c /\ data_block B f x).
  { intros c. rewrite list_elem_of_bind. split.
    - intros ([off m] & Hc & He).
      destruct (proj1 (Forall_forall _ _) Hpos _ He), (proj1 (Forall_forall _ _) HF _ He).
      cbn in *. apply region_chunks_spec in Hc as (x & Hx & Hxc); [|done..].
      unfold in_extent in Hx. cbn in Hx.
      exists x. split; [lia|]. split; [done|]. apply Hcov; [lia|]. apply Exists_exists.
      by exists (off, m).
    - intros (x & Hx & Hxc & Hd). apply Hcov, Exists_exists in Hd as ([off m] & He & Hin); [|lia].
      destruct (proj1 (Forall_forall _ _) Hpos _ He). cbn in *.
      exists (off, m). split; [|done]. apply region_chunks_spec; [done..|]. by exists x. }
  destruct (saved_set_all_spec n (es ≫= region_chunks) (replicate (Z.to_nat ((n + 7) / 8)) 0))
    as (saved' & Es & Hl & Hb).
  { rewrite blen_replicate, Z2Nat.id; [done|].
    assert (0 <= n) by (apply Z.div_pos; change SEED_CHUNK with 65536; lia).
    apply Z.div_pos; lia. }
  { apply Forall_forall. intros c (x & Hx & <- & _)%Hmem. by apply chunk_lt_nchunks. }
  rewrite Es, res_bind_Ok. eexists; split; [done|]. cbn. split_and!; try done.
  intros c Hc. rewrite Hb, saved_bit_fresh, orb_false_r, bool_decide_eq_true by done. apply Hmem.
Qed.

(** A fresh [seed.raw], created at the seed point. *)
Lemma SeedLayer_init_fresh S0 size :
  0 <= size ->
  exists l, SeedLayer_init (file_create size) size = Ok l /\ sl_size l = size /\ seed_inv S0 S0 l.
Proof.
  intros Hs. destruct (SeedLayer_init_spec (file_create size)) as (l & E & H1 & H2 & H3 & H4 & H5); [done|].
  cbn in *. exists l. split; [done|]. split; [done|]. split.
  - split; rewrite ?H2, ?H1; try done.
  - intros i Hi. unfold seed_byte. rewrite H2. rewrite H1 in Hi.
    pose proof (chunk_lt_nchunks i size Hi).
    destruct (saved_bit _ _) eqn:Eb; [|done].
    apply H5 in Eb as (x & _ & _ & (j & _ & ?)); [done|lia].
Qed.

Hypothesis Hdiv : (B | SEED_CHUNK).

Lemma block_chunk i j : j / B = i / B -> j / SEED_CHUNK = i / SEED_CHUNK.
Proof using Hdiv laws.
  pose proof block_pos. destruct Hdiv as [k Hk]. assert (0 < k) by (change SEED_CHUNK with 65536 in Hk; nia).
  rewrite Hk, (Z.mul_comm k B), <-!Z.div_div by lia. by intros ->.
Qed.

Lemma chunk_nonzero_dec S0 size c : 0 <= c -> c * SEED_CHUNK < size ->
  chunk_nonzero S0 size c \/ ~ chunk_nonzero S0 size c.
Proof using.
  intros Hc Hs. rewrite <-(py_any_chunk S0 size c Hc Hs). destruct (py_any _); [by left|by right].
Qed.

(** After a restart of the daemon the layer remembers a saved chunk only
    if its seed content was not all zero. *)
Theorem SeedLayer_restart S0 R l :
  seed_inv S0 R l ->
  exists l', SeedLayer_init (sl_fd l) (sl_size l) = Ok l' /\ layer_wf l' /\
    forall c, 0 <= c < sl_nchunks l ->
      saved_bit (sl_saved l') c = true <->
      saved_bit (sl_saved l) c = true /\ chunk_nonzero S0 (sl_size l) c.
Proof using Hdiv laws.
  intros [Hwf Hb]. rewrite <-(wf_file _ Hwf).
  destruct (SeedLayer_init_spec (sl_fd l)) as (l' & E & H1 & H2 & H3 & H4 & H5).
  { rewrite (wf_file _ Hwf). apply Hwf. }
  exists l'. split; [done|]. rewrite (wf_file _ Hwf) in *. split.
  { split; rewrite ?H1, ?H2, ?H3; try apply Hwf; [done|]. by rewrite <-H3. }
  intros c Hc. rewrite H5 by lia. split.
  - intros (x & Hx & <- & j & Hj & Hd). apply block_chunk in Hj. rewrite <-Hj.
    pose proof (wf_data _ Hwf j Hd) as Hjr. specialize (Hb j Hjr). unfold seed_byte in Hb.
    destruct (saved_bit _ _); [|destruct Hb; congruence]. split; [done|].
    pose proof (chunk_lt_nchunks j _ Hjr).
    destruct (chunk_nonzero_dec S0 (sl_size l) (j / SEED_CHUNK)) as [?|Hz]; [lia|apply nchunk_start; lia|done|].
    apply Hb in Hz. congruence.
  - intros [Hs Hnz]. rewrite (wf_nchunks _ Hwf) in Hc. pose proof (nchunk_start _ _ (proj2 Hc)).
    exists (c * SEED_CHUNK). change SEED_CHUNK with 65536 in *. split; [lia|].
    assert (c * 65536 / 65536 = c) as Ec by (apply Z.div_mul; lia).
    split; [done|]. exists (c * 65536). split; [done|].
    specialize (Hb (c * 65536) ltac:(lia)). unfold seed_byte in Hb.
    change SEED_CHUNK with 65536 in *. rewrite Ec, Hs in Hb. by apply Hb.
Qed.
End Init.

Lemma data_regions_exact_witness :
  let f := pwrite (file_create 100) [Byte.x41; Byte.x42] 10 in
  exists es o, data_regions (fs := byte_fs) f 100 = (es, GDone o) /\
    separated 0 es /\ Forall (in_file f) es /\
    forall x, 0 <= x < 100 -> Exists (in_extent x) es <-> data_block 1 f x.
Proof. intros f. exact (data_regions_exact f). Defined.

Lemma SeedLayer_restart_witness :
  exists l l', SeedLayer_init (fs := byte_fs) (file_create 1024) 1024 = Ok l /\
    SeedLayer_init (fs := byte_fs) (sl_fd l) (sl_size l) = Ok l' /\ layer_wf l' /\
    forall c, 0 <= c < sl_nchunks l ->
      saved_bit (sl_saved l') c = true <->
      saved_bit (sl_saved l) c = true /\ chunk_nonzero zero_image (sl_size l) c.
Proof.
  destruct (SeedLayer_init_fresh (fs := byte_fs) zero_image 1024 ltac:(lia)) as (l & E & _ & Hinv).
  exists l.
  destruct (SeedLayer_restart (fs := byte_fs) (Z.divide_1_l _) _ _ _ Hinv) as (l' & E' & H).
  by exists l'.
Defined.
