(* ===== verification/Replica.v ===== *)
(** * The replica image ([Replica] of [rkcdp/rkcdpd.py])

    [replica.raw], written record by record.  A DISCARD or ZERO record punches
    a hole; where [fallocate] fails, zeros are written instead, and
    [fallocate] is not tried again.  With a seed layer present, every range is
    preserved there before it is overwritten.  [libc_fallocate] is the C
    library: what the call reports for a given file and range. *)
From S2P Require Import Prelude Dmcdp Files Seed.

Inductive fallocate_result : Type :=
  | FaZero          (* returned 0: the hole is punched *)
  | FaError         (* returned -1: nothing was done *)
  | FaException.    (* CDLL or the call raised *)

Record Replica : Type := mk_Replica {
  rp_fd : file;
  rp_punch_ok : bool;
  rp_seed : option SeedLayer;
}.

(** [Replica.__init__]: [existing] is [replica.raw] when the path exists,
    [seed_raw] the file beside it when that one exists. *)
Definition Replica_init {fs : SparseFS} (existing : option file) (size : Z)
    (seed_raw : option file) : res Replica :=
  let fd := match existing with Some f => f | None => file_create size end in
  match seed_raw with
  | Some sf => l ← SeedLayer_init sf size; Ok (mk_Replica fd true (Some l))
  | None => Ok (mk_Replica fd true None)
  end.

(** [if self.seed: self.seed.preserve(self.fd, off, length)] *)
Definition seed_preserve (rp : Replica) (off length : Z) : res Replica :=
  match rp_seed rp with
  | Some l =>
      l' ← preserve l (rp_fd rp) off length;
      Ok (mk_Replica (rp_fd rp) (rp_punch_ok rp) (Some l'))
  | None => Ok rp
  end.

(** [Replica.pwrite] *)
Definition Replica_pwrite (rp : Replica) (buf : bytes) (off : Z) : res Replica :=
  rp' ← seed_preserve rp off (blen buf);
  Ok (mk_Replica (pwrite (rp_fd rp') buf off) (rp_punch_ok rp') (rp_seed rp')).

Section Libc.
Variable libc_fallocate : file -> Z -> Z -> fallocate_result.

(** [Replica.punch] *)
Definition punch (rp : Replica) (off length : Z) : Replica :=
  let zeros := replicate (Z.to_nat length) x00 in
  if rp_punch_ok rp then
    match libc_fallocate (rp_fd rp) off length with
    | FaZero => mk_Replica (punch_hole (rp_fd rp) off length) true (rp_seed rp)
    | _ => mk_Replica (pwrite (rp_fd rp) zeros off) false (rp_seed rp)
    end
  else mk_Replica (pwrite (rp_fd rp) zeros off) false (rp_seed rp).

(** [Replica.write] *)
Definition Replica_write (rp : Replica) (r : rec) (payload : bytes) : res Replica :=
  if r_type r =? REC_WRITE then Replica_pwrite rp payload (r_sector r * 512)
  else if (r_type r =? REC_DISCARD) || (r_type r =? REC_ZERO) then
    rp' ← seed_preserve rp (r_sector r * 512) (r_len r);
    Ok (punch rp' (r_sector r * 512) (r_len r))
  else Ok rp.

Fixpoint Replica_writes (rp : Replica) (items : list (rec * bytes)) : res Replica :=
  match items with
  | [] => Ok rp
  | (r, payload) :: items' => rp' ← Replica_write rp r payload; Replica_writes rp' items'
  end.
End Libc.

(** ** Specification: what a record does to an image *)

(** The range of bytes a record changes. *)
Definition item_range (it : rec * bytes) : Z * Z :=
  let '(r, payload) := it in
  if r_type r =? REC_WRITE then (r_sector r * 512, blen payload)
  else if (r_type r =? REC_DISCARD) || (r_type r =? REC_ZERO) then (r_sector r * 512, r_len r)
  else (0, 0).

Definition apply_img (img : image) (it : rec * bytes) : image :=
  let '(r, payload) := it in
  if r_type r =? REC_WRITE then img_write img (r_sector r * 512) payload
  else if (r_type r =? REC_DISCARD) || (r_type r =? REC_ZERO)
  then img_zero img (r_sector r * 512) (r_len r)
  else img.

Definition apply_all (img : image) (items : list (rec * bytes)) : image := foldl apply_img img items.

Definition touches (it : rec * bytes) (i : Z) : Prop := in_extent i (item_range it).

(** The record stays inside the disk. *)
Definition item_in (size : Z) (it : rec * bytes) : Prop :=
  let '(off, n) := item_range it in 0 <= off /\ 0 <= n /\ off + n <= size.

#[export] Instance apply_img_proper : Proper ((≡) ==> eq ==> (≡)) apply_img.
Proof.
  intros f g H it ? <-. destruct it as [r payload]. unfold apply_img.
  destruct (_ =? _); [by rewrite H|]. destruct (_ || _); [by rewrite H|done].
Qed.

#[export] Instance apply_all_proper : Proper ((≡) ==> eq ==> (≡)) apply_all.
Proof.
  intros f g H items ? <-. revert f g H. induction items as [|it items IH]; intros f g H; [done|].
  apply IH. by rewrite H.
Qed.

Lemma apply_all_cons img it items : apply_all img (it :: items) = apply_all (apply_img img it) items.
Proof. done. Qed.

Lemma apply_all_app img items1 items2 :
  apply_all img (items1 ++ items2) = apply_all (apply_all img items1) items2.
Proof. apply foldl_app. Qed.

Lemma apply_img_untouched img it i : ~ touches it i -> apply_img img it i = img i.
Proof.
  destruct it as [r payload]. unfold touches, item_range, apply_img, in_extent, img_zero.
  destruct (_ =? _); cbn; [apply img_write_out|].
  destruct (_ || _); [|done]. cbn. intros H. by rewrite (proj2 (in_range_false _ _ _) H).
Qed.

(** A record decides the bytes it touches: the previous content is irrelevant. *)
Lemma apply_img_touched img img' it i : touches it i -> apply_img img it i = apply_img img' it i.
Proof.
  destruct it as [r payload]. unfold touches, item_range, apply_img, in_extent, img_zero, img_write.
  destruct (_ =? _); cbn; [|destruct (_ || _); cbn; [|lia]];
    intros H; by rewrite (proj2 (in_range_true _ _ _) H).
Qed.

#[export] Instance in_extent_dec x e : Decision (in_extent x e).
Proof. unfold in_extent. apply _. Defined.

#[export] Instance touches_dec it i : Decision (touches it i).
Proof. unfold touches. apply _. Defined.

(** ** The replica follows the specification *)

(** The replica has the size of the disk and its seed layer, if any, satisfies
    the invariant for the seed image [S0]. *)
Definition replica_ok (S0 : image) (size : Z) (rp : Replica) : Prop :=
  f_size (rp_fd rp) = size /\
  match rp_seed rp with
  | Some l => sl_size l = size /\ seed_inv S0 (f_byte (rp_fd rp)) l
  | None => True
  end.

(** After [seed_preserve], any change of the range keeps the invariant. *)
Lemma seed_preserve_ok S0 size rp off n :
  replica_ok S0 size rp -> 0 <= off -> 0 <= n ->
  exists rp', seed_preserve rp off n = Ok rp' /\ rp_fd rp' = rp_fd rp /\
    rp_punch_ok rp' = rp_punch_ok rp /\
    (rp_seed rp' = None <-> rp_seed rp = None) /\
    forall fd pk, f_size fd = size ->
      (forall i, ~ (off <= i < off + n) -> f_byte fd i = f_byte (rp_fd rp) i) ->
      replica_ok S0 size (mk_Replica fd pk (rp_seed rp')).
Proof.
  intros [Hs Hseed] Ho Hn. unfold seed_preserve.
  destruct (rp_seed rp) as [l|] eqn:El.
  - destruct Hseed as [Hl Hinv].
    destruct (preserve_inv S0 l (rp_fd rp) off n Hinv) as (l' & -> & Hinv' & Hsz & Hsaved); [lia..|].
    rewrite res_bind_Ok. eexists; split; [done|]. cbn. split_and!; try done.
    intros fd pk Hfd Hb. split; [done|]. cbn. split; [congruence|].
    apply (seed_inv_change S0 (f_byte (rp_fd rp))); [done|].
    intros i Hi. destruct (decide (off <= i < off + n)) as [Hr|Hr]; [right|left; by apply Hb].
    rewrite Hsz in Hi. by apply Hsaved.
  - eexists; split; [done|]. rewrite El. by split_and!.
Qed.

(** [Replica.pwrite] inside the disk. *)
Lemma Replica_pwrite_spec S0 size rp buf off :
  replica_ok S0 size rp -> 0 <= off -> off + blen buf <= size ->
  exists rp', Replica_pwrite rp buf off = Ok rp' /\
    f_byte (rp_fd rp') ≡ img_write (f_byte (rp_fd rp)) off buf /\ replica_ok S0 size rp'.
Proof.
  intros Hok Ho Hle. pose proof (proj1 Hok) as Hs. unfold Replica_pwrite.
  destruct (seed_preserve_ok _ _ _ off (blen buf) Hok Ho (blen_nonneg _))
    as (rp1 & -> & Hfd & _ & _ & Hchg).
  rewrite res_bind_Ok. eexists; split; [done|]. cbn. rewrite Hfd. split; [apply pwrite_byte|].
  apply Hchg; [rewrite pwrite_size; lia|].
  intros i Hi. rewrite (pwrite_byte _ _ _ i). by apply img_write_out.
Qed.

Section LibcSpec.
Variable libc_fallocate : file -> Z -> Z -> fallocate_result.

(** Punching and writing zeros have the same effect on the bytes. *)
Lemma punch_byte rp off n :
  f_byte (rp_fd (punch libc_fallocate rp off n)) ≡ img_zero (f_byte (rp_fd rp)) off n.
Proof.
  unfold punch. destruct (rp_punch_ok rp); [destruct (libc_fallocate _ _ _)|]; cbn; try done;
    by rewrite pwrite_byte, img_write_replicate_zero.
Qed.

Lemma punch_size rp off n :
  0 <= n -> off + n <= f_size (rp_fd rp) ->
  f_size (rp_fd (punch libc_fallocate rp off n)) = f_size (rp_fd rp).
Proof.
  intros Hn H. unfold punch.
  destruct (rp_punch_ok rp); [destruct (libc_fallocate _ _ _)|]; cbn; try done;
    apply pwrite_size; rewrite blen_replicate; lia.
Qed.

Lemma punch_seed rp off n : rp_seed (punch libc_fallocate rp off n) = rp_seed rp.
Proof. unfold punch. by destruct (rp_punch_ok rp); [destruct (libc_fallocate _ _ _)|]. Qed.

(** One record.  Whatever [fallocate] does, writing a record that lies
    inside the disk succeeds, changes the replica image exactly as the
    record says, and keeps the seed layer's invariant. *)
Lemma Replica_write_spec S0 size rp r payload :
  replica_ok S0 size rp -> item_in size (r, payload) ->
  exists rp', Replica_write libc_fallocate rp r payload = Ok rp' /\
    f_byte (rp_fd rp') ≡ apply_img (f_byte (rp_fd rp)) (r, payload) /\
    replica_ok S0 size rp'.
Proof.
  intros Hok. pose proof (proj1 Hok) as Hs. unfold item_in, item_range, apply_img, Replica_write.
  destruct (r_type r =? REC_WRITE).
  - intros (Ho & _ & Hle). by apply Replica_pwrite_spec.
  - destruct (_ || _); [|by exists rp].
    intros (Ho & Hn & Hle).
    destruct (seed_preserve_ok _ _ _ (r_sector r * 512) (r_len r) Hok Ho Hn)
      as (rp1 & -> & Hfd & _ & _ & Hchg).
    rewrite res_bind_Ok. eexists; split; [done|]. split; [by rewrite punch_byte, Hfd|].
    pose proof (Hchg (rp_fd (punch libc_fallocate rp1 (r_sector r * 512) (r_len r)))
      (rp_punch_ok (punch libc_fallocate rp1 (r_sector r * 512) (r_len r)))) as Hc.
    rewrite <-(punch_seed rp1 (r_sector r * 512) (r_len r)) in Hc.
    destruct (punch _ rp1 _ _) as [fd pk sd] eqn:Ep. cbn in Hc.
    pose proof (punch_byte rp1 (r_sector r * 512) (r_len r)) as Hb.
    pose proof (punch_size rp1 (r_sector r * 512) (r_len r) Hn ltac:(rewrite Hfd; lia)) as Hz.
    rewrite Ep in Hb, Hz. cbn in Hb, Hz. apply Hc; [by rewrite Hz, Hfd|].
    intros i Hi. rewrite (Hb i), Hfd. unfold img_zero. by rewrite (proj2 (in_range_false _ _ _) Hi).
Qed.

(** C12: whatever [fallocate] does, writing any sequence of records that lie
    inside the disk succeeds, changes the replica image exactly as the
    records say, and keeps the copy-on-first-write invariant of the seed
    layer. *)
Theorem Replica_writes_spec S0 size rp items :
  replica_ok S0 size rp -> Forall (item_in size) items ->
  exists rp', Replica_writes libc_fallocate rp items = Ok rp' /\
    f_byte (rp_fd rp') ≡ apply_all (f_byte (rp_fd rp)) items /\
    replica_ok S0 size rp'.
Proof.
  intros Hok HF. revert rp Hok. induction HF as [|[r payload] items Hit HF IH]; intros rp Hok.
  - by exists rp.
  - destruct (Replica_write_spec S0 size rp r payload Hok Hit) as (rp1 & E1 & Hb1 & Hok1).
    destruct (IH rp1 Hok1) as (rp2 & E2 & Hb2 & Hok2).
    exists rp2. cbn [Replica_writes]. rewrite E1, res_bind_Ok. split; [done|]. split; [|done].
    by rewrite Hb2, Hb1, apply_all_cons.
Qed.
End LibcSpec.

Definition demo_rec (ty sector len : Z) : rec := mk_rec REC_MAGIC ABI_VERSION ty 0 2 0 sector len 0 0 0.

Lemma Replica_writes_spec_witness :
  let items := [(demo_rec REC_WRITE 1 2, [Byte.x41; Byte.x42]); (demo_rec REC_DISCARD 0 512, [])] in
  exists l rp', SeedLayer_init (fs := byte_fs) (file_create 1024) 1024 = Ok l /\
    Replica_writes (fun _ _ _ => FaError) (mk_Replica (file_create 1024) true (Some l)) items = Ok rp' /\
    f_byte (rp_fd rp') ≡ apply_all zero_image items /\ replica_ok zero_image 1024 rp'.
Proof.
  intros items.
  destruct (SeedLayer_init_fresh (fs := byte_fs) zero_image 1024 ltac:(lia)) as (l & E & Hs & Hinv).
  destruct (Replica_writes_spec (fun _ _ _ => FaError) zero_image 1024
    (mk_Replica (file_create 1024) true (Some l)) items) as (rp' & H).
  - by split.
  - repeat constructor; vm_compute; congruence.
  - by exists l, rp'.
Defined.
