(* ===== verification/Apply.v ===== *)
(** * Applying records and copying chunks ([Daemon.apply_one], [Daemon.copy_chunk])

    The part of the daemon that the main thread and a copy thread share: the
    replica, the chunk a copy thread has in flight ([copying]), the records
    set aside for it ([deferred]), and the counters.  [copy_chunk] is given by
    its atomic sections -- flag the range, read the device, write the replica,
    clear the flag -- and as their composition when nothing runs in between.
    The interleavings are the subject of [CopyProtocol]. *)
From S2P Require Import Prelude Dmcdp Files Seed Replica.

Definition COPY_CHUNK : Z := 4 * 2 ^ 20.

Abbreviation item := (rec * bytes)%type.

Record applier : Type := mk_applier {
  replica : Replica;
  copying : option (Z * Z);        (* (start_off, end_off) *)
  deferred : list item;
  last_seq : option Z;
  records : Z;
  nbytes : Z;
}.

Definition with_replica (rp : Replica) (a : applier) : applier :=
  mk_applier rp (copying a) (deferred a) (last_seq a) (records a) (nbytes a).

Definition with_copying (c : option (Z * Z)) (ds : list item) (a : applier) : applier :=
  mk_applier (replica a) c ds (last_seq a) (records a) (nbytes a).

(** [c is not None and start < c[1] and end > c[0]] *)
Definition in_flight (c : option (Z * Z)) (r : rec) : bool :=
  let start := r_sector r * 512 in
  let stop := r_sector r * 512 + r_len r in
  match c with
  | Some (c0, c1) => (start <? c1) && (c0 <? stop)
  | None => false
  end.

Section Libc.
Variable libc_fallocate : file -> Z -> Z -> fallocate_result.

(** [Daemon.apply_one] *)
Definition apply_one (a : applier) (it : item) : res applier :=
  let '(r, payload) := it in
  if in_flight (copying a) r then
    Ok (with_copying (copying a) (deferred a ++ [(r, payload)]) a)
  else
    rp ← Replica_write libc_fallocate (replica a) r payload;
    Ok (mk_applier rp (copying a) (deferred a) (Some (r_seq r)) (records a + 1)
          (if r_type r =? REC_WRITE then nbytes a + r_len r else nbytes a)).

Fixpoint apply_items (a : applier) (items : list item) : res applier :=
  match items with
  | [] => Ok a
  | it :: items' => a' ← apply_one a it; apply_items a' items'
  end.

(** *** [Daemon.copy_chunk], section by section *)

Definition copy_flag (a : applier) (off n : Z) : applier := with_copying (Some (off, off + n)) [] a.

(** [dev.seek(off); buf = dev.read(n)] on a device of [size] bytes *)
Definition dev_read (dev : image) (size off n : Z) : bytes :=
  img_read dev off (Z.min n (size - off)).

(** [if buf and not (skip_zero is not None and buf == skip_zero[:len(buf)])] *)
Definition copy_land (a : applier) (off : Z) (buf : bytes) (skip_zero : option bytes) : res applier :=
  let skip := match skip_zero with
              | Some z => bool_decide (buf = z.[0 : blen buf])
              | None => false
              end in
  if bool_decide (buf <> []) && negb skip then
    rp ← Replica_pwrite (replica a) buf off;
    Ok (with_replica rp a)
  else Ok a.

(** [self.copying = None; late, self.deferred = self.deferred, []] *)
Definition copy_clear (a : applier) : list item * applier := (deferred a, with_copying None [] a).

(** The whole call when no other thread runs during it. *)
Definition copy_chunk (dev : image) (size : Z) (a : applier) (off n : Z) (skip_zero : option bytes)
    : res (applier * Z) :=
  let a := copy_flag a off n in
  let buf := dev_read dev size off n in
  a ← copy_land a off buf skip_zero;
  let '(late, a) := copy_clear a in
  a ← apply_items a late;
  Ok (a, blen buf).
End Libc.

(** ** Records as the driver writes them *)

(** The header's [len] is the length of the range, and the payload of a WRITE
    has that length. *)
Definition item_wf (it : item) : Prop :=
  let '(r, payload) := it in
  0 <= r_sector r /\ 0 <= r_len r /\ (r_type r = REC_WRITE -> blen payload = r_len r).

Lemma item_wf_touches it i :
  item_wf it -> touches it i -> r_sector it.1 * 512 <= i < r_sector it.1 * 512 + r_len it.1.
Proof.
  destruct it as [r p]. unfold item_wf, touches, in_extent, item_range. cbn.
  intros (_ & _ & Hw). destruct (Z.eqb_spec (r_type r) REC_WRITE) as [E|E]; cbn.
  - rewrite (Hw E). lia.
  - destruct (_ || _); cbn; lia.
Qed.

(** A record that is not in flight touches no byte of the chunk. *)
Lemma in_flight_false_untouched c0 c1 it i :
  item_wf it -> in_flight (Some (c0, c1)) it.1 = false -> c0 <= i < c1 -> ~ touches it i.
Proof. intros Hw Hf Hi Ht. apply item_wf_touches in Ht; [|done]. unfold in_flight in Hf. lia. Qed.

(** ** The image after records are applied *)

Definition img_of (a : applier) : image := f_byte (rp_fd (replica a)).

Section Spec.
Variable libc_fallocate : file -> Z -> Z -> fallocate_result.

Lemma apply_one_direct S0 size a it :
  replica_ok S0 size (replica a) -> item_in size it -> in_flight (copying a) it.1 = false ->
  exists a', apply_one libc_fallocate a it = Ok a' /\ img_of a' ≡ apply_img (img_of a) it /\
    replica_ok S0 size (replica a') /\ copying a' = copying a /\ deferred a' = deferred a /\
    last_seq a' = Some (r_seq it.1) /\ records a' = records a + 1 /\
    nbytes a' = nbytes a + (if r_type it.1 =? REC_WRITE then r_len it.1 else 0).
Proof.
  destruct it as [r p]. intros Hok Hin Hf. cbn in Hf. unfold apply_one. rewrite Hf.
  destruct (Replica_write_spec libc_fallocate S0 size (replica a) r p Hok Hin) as (rp & -> & Hb & Hok').
  rewrite res_bind_Ok. eexists; split; [done|]. cbn. split_and!; try done.
  destruct (_ =? _); lia.
Qed.

Lemma apply_one_deferred a it :
  in_flight (copying a) it.1 = true ->
  apply_one libc_fallocate a it = Ok (with_copying (copying a) (deferred a ++ [it]) a).
Proof. destruct it as [r p]. cbn. by intros ->. Qed.

Definition item_nbytes (it : item) : Z := if r_type it.1 =? REC_WRITE then r_len it.1 else 0.

(** What the counters are after a list of records was applied. *)
Definition counted (a a' : applier) (items : list item) : Prop :=
  last_seq a' = match last items with Some it => Some (r_seq it.1) | None => last_seq a end /\
  records a' = records a + Z.of_nat (length items) /\
  nbytes a' = nbytes a + foldr (fun it s => item_nbytes it + s) 0 items.

Lemma apply_items_direct S0 size items : forall a,
  replica_ok S0 size (replica a) -> Forall (item_in size) items -> copying a = None ->
  exists a', apply_items libc_fallocate a items = Ok a' /\
    img_of a' ≡ apply_all (img_of a) items /\ replica_ok S0 size (replica a') /\
    copying a' = None /\ deferred a' = deferred a /\ counted a a' items.
Proof.
  unfold counted. induction items as [|it items IH]; intros a Hok HF Hc.
  - exists a. split_and!; done || (cbn; lia).
  - apply Forall_cons in HF as [Hit HF].
    destruct (apply_one_direct S0 size a it Hok Hit) as (a1 & E1 & Hi1 & Hok1 & Hc1 & Hd1 & Hl1 & Hr1 & Hn1);
      [by rewrite Hc|].
    destruct (IH a1 Hok1 HF) as (a2 & E2 & Hi2 & Hok2 & Hc2 & Hd2 & Hl2 & Hr2 & Hn2); [congruence|].
    exists a2. cbn [apply_items]. rewrite E1, res_bind_Ok. split_and!; try done; try congruence.
    + by rewrite Hi2, Hi1, apply_all_cons.
    + rewrite Hl2, Hl1, last_cons. by destruct (last items).
    + rewrite Hr2, Hr1. cbn. lia.
    + rewrite Hn2, Hn1. cbn. unfold item_nbytes. lia.
Qed.

(** Landing a chunk: the replica gets the bytes read, unless they are all
    zero and zero chunks are skipped. *)
Lemma copy_land_spec S0 size a off buf skip_zero :
  replica_ok S0 size (replica a) -> 0 <= off -> off + blen buf <= size ->
  exists a', copy_land a off buf skip_zero = Ok a' /\ replica_ok S0 size (replica a') /\
    copying a' = copying a /\ deferred a' = deferred a /\
    (img_of a' ≡ img_write (img_of a) off buf \/
     (a' = a /\ exists z, skip_zero = Some z /\ buf = z.[0 : blen buf])).
Proof.
  intros Hok Ho Hle. unfold copy_land.
  set (skip := match skip_zero with Some _ => _ | None => _ end).
  assert (Hskip : skip = true -> exists z, skip_zero = Some z /\ buf = z.[0 : blen buf]).
  { unfold skip. destruct skip_zero as [z|]; [|done]. intros H%bool_decide_eq_true. by exists z. }
  destruct (decide (buf = [])) as [->|Hne].
  { rewrite bool_decide_eq_false_2 by (by intros ?). exists a. split_and!; try done.
    left. by rewrite img_write_nil. }
  rewrite bool_decide_eq_true_2 by done. destruct skip; cbn [andb negb].
  { exists a. split_and!; try done. right. split; [done|]. by apply Hskip. }
  destruct (Replica_pwrite_spec S0 size (replica a) buf off Hok Ho Hle) as (rp & -> & Hb & Hok').
  rewrite res_bind_Ok. eexists; split; [done|]. split_and!; try done. by left.
Qed.

Lemma apply_items_app a items1 items2 :
  apply_items libc_fallocate a (items1 ++ items2) =
    (a' ← apply_items libc_fallocate a items1; apply_items libc_fallocate a' items2).
Proof.
  revert a; induction items1 as [|it items1 IH]; intros a; [done|]. cbn.
  destruct (apply_one libc_fallocate a it); cbn; [apply IH|done..].
Qed.
End Spec.

(** ** Two copy threads

    [copying] and [deferred] have room for one copy thread: when a second
    one flags its chunk, the records set aside for the first are dropped; the
    first then lands its old data, finds nothing late, and the record is never
    applied nor counted. *)
Theorem second_copy_drops_deferred fa S0 size a off n off2 n2 it buf :
  replica_ok S0 size (replica a) -> 0 <= off -> off + blen buf <= size ->
  in_flight (Some (off, off + n)) it.1 = true ->
  exists a2 a3, apply_one fa (copy_flag a off n) it = Ok a2 /\ deferred a2 = [it] /\
    copy_land (copy_flag a2 off2 n2) off buf None = Ok a3 /\ (copy_clear a3).1 = [] /\
    img_of a3 ≡ img_write (img_of a) off buf /\ records a3 = records a.
Proof.
  intros Hok Ho Hle Hf.
  exists (with_copying (Some (off, off + n)) [it] (copy_flag a off n)).
  set (a2 := copy_flag (with_copying _ [it] _) off2 n2).
  destruct (decide (buf = [])) as [->|Hne].
  { exists a2. split_and!; try done; [by apply apply_one_deferred|].
    change (img_of a2) with (img_of a). by rewrite img_write_nil. }
  destruct (Replica_pwrite_spec S0 size (replica a) buf off Hok Ho Hle) as (rp & E & Hi & _).
  exists (with_replica rp a2). split_and!; try done.
  - by apply apply_one_deferred.
  - unfold copy_land. rewrite bool_decide_eq_true_2 by done. cbn [andb negb].
    change (replica a2) with (replica a). by rewrite E.
Qed.

Definition two_sectors : applier :=
  mk_applier (mk_Replica (file_create 2048) true None) None [] None 0 0.

Definition newer_item : item := (demo_rec REC_WRITE 0 2, [Byte.x42; Byte.x42]).

Lemma second_copy_drops_deferred_witness :
  exists a2 a3,
    apply_one (fun _ _ _ => FaZero) (copy_flag two_sectors 0 1024)
      newer_item = Ok a2 /\ deferred a2 = [newer_item] /\
    copy_land (copy_flag a2 1024 1024) 0 [Byte.x41; Byte.x41] None = Ok a3 /\
    (copy_clear a3).1 = [] /\ img_of a3 0 = Byte.x41.
Proof.
  destruct (second_copy_drops_deferred (fun _ _ _ => FaZero) zero_image 2048 two_sectors
    0 1024 1024 1024 newer_item [Byte.x41; Byte.x41])
    as (a2 & a3 & E2 & Hd & E3 & Hc & Hi & _).
  - by split.
  - lia.
  - vm_compute. congruence.
  - reflexivity.
  - exists a2, a3. split; [exact E2|]. split; [exact Hd|]. split; [exact E3|]. split; [exact Hc|].
    rewrite (Hi 0). reflexivity.
Defined.
