(* ===== verification/Throttle.v ===== *)
(** * The throttle of the copy threads ([Throttle] of [rkcdpd.py])

    Times are seconds and rates bytes per second; Python's floats are taken as
    exact rationals. *)
From Stdlib Require Import QArith Qminmax Lqa.
From S2P Require Import Prelude Apply.

Local Open Scope Q_scope.

Record Throttle : Type := mk_Throttle {
  th_rate : Q;
  th_t0 : Q;
  th_done : Z;
}.

(** [Throttle.__init__]: [float(mbps or 0) * 1048576] *)
Definition Throttle_init (mbps : option Q) (now : Q) : Throttle :=
  mk_Throttle (default 0 mbps * 1048576) now 0.

(** [Throttle.account]: how long it sleeps. *)
Definition account (n : Z) (now : Q) (th : Throttle) : Throttle * Q :=
  let th := mk_Throttle (th_rate th) (th_t0 th) (th_done th + n) in
  if Qle_bool (th_rate th) 0 then (th, 0)
  else
    let ahead := inject_Z (th_done th) / th_rate th - (now - th_t0 th) in
    if Qle_bool ahead 0 then (th, 0) else (th, Qmin ahead 1).

(** A copy thread: chunks of [n] bytes that take [dt] seconds to copy each. *)
Fixpoint throttled (chunks : list (Z * Q)) (now : Q) (th : Throttle) : Throttle * Q :=
  match chunks with
  | [] => (th, now)
  | (n, dt) :: chunks' =>
      let now' := now + dt in
      let '(th', pause) := account n now' th in
      throttled chunks' (now' + pause) th'
  end.

(** ** One call *)

(** At or under the rate since the start. *)
Definition within (now : Q) (th : Throttle) : Prop :=
  inject_Z (th_done th) <= th_rate th * (now - th_t0 th).

Lemma Qle_bool_false a b : Qle_bool a b = false <-> b < a.
Proof.
  split.
  - intros H. apply Qnot_le_lt. intros Hle. apply Qle_bool_iff in Hle. congruence.
  - intros H. destruct (Qle_bool a b) eqn:E; [|done]. apply Qle_bool_iff in E. lra.
Qed.

Lemma div_rate a r x : 0 < r -> (a / r <= x <-> a <= r * x).
Proof.
  intros Hr. split; intros H.
  - assert (E : a == r * (a / r)) by (field; lra). rewrite E. by apply Qmult_le_l.
  - apply Qle_shift_div_r; [done|]. lra.
Qed.

(** How far ahead of the rate the stream is. *)
Definition ahead (now : Q) (th : Throttle) : Q := inject_Z (th_done th) / th_rate th - (now - th_t0 th).

Lemma within_ahead now th : 0 < th_rate th -> within now th <-> ahead now th <= 0.
Proof.
  intros Hr. unfold within, ahead. rewrite <-(div_rate _ _ _ Hr). split; intros; lra.
Qed.

Lemma account_fields n now th :
  th_rate (account n now th).1 = th_rate th /\ th_t0 (account n now th).1 = th_t0 th /\
  th_done (account n now th).1 = (th_done th + n)%Z.
Proof. unfold account. destruct (Qle_bool _ 0); [done|]. by destruct (Qle_bool _ 0). Qed.

(** A chunk of at most a second's worth never leaves the stream ahead; when it
    sleeps it sleeps exactly as long as it has to. *)
Lemma account_spec n now th :
  0 < th_rate th -> inject_Z n <= th_rate th -> within now th ->
  forall dt, 0 <= dt ->
  let '(th', pause) := account n (now + dt) th in
  0 <= pause /\ within (now + dt + pause) th' /\ (0 < pause -> ahead (now + dt + pause) th' == 0).
Proof.
  intros Hr Hn Hw dt Hdt. apply within_ahead in Hw; [|done].
  unfold account. cbn [th_rate th_t0 th_done].
  assert (Hnr : Qle_bool (th_rate th) 0 = false) by (by apply Qle_bool_false).
  rewrite Hnr. set (th' := mk_Throttle (th_rate th) (th_t0 th) (th_done th + n)).
  assert (Ha : ahead (now + dt) th' <= 1).
  { unfold ahead in *. cbn [th_rate th_t0 th_done th'].
    assert (E : inject_Z (th_done th + n) / th_rate th ==
            inject_Z (th_done th) / th_rate th + inject_Z n / th_rate th)
      by (rewrite inject_Z_plus; field; lra).
    assert (Hle : inject_Z n / th_rate th <= 1) by (apply div_rate; lra).
    cbn. rewrite E. lra. }
  assert (Hm : forall p, ahead (now + dt + p) th' == ahead (now + dt) th' - p) by (intros; unfold ahead; ring).
  change (inject_Z (th_done th + n) / th_rate th - (now + dt - th_t0 th)) with (ahead (now + dt) th').
  destruct (Qle_bool (ahead (now + dt) th') 0) eqn:E; cbv beta iota.
  - apply Qle_bool_iff in E. split; [lra|]. split; [|intros; lra].
    apply within_ahead; [done|]. rewrite Hm. lra.
  - apply Qle_bool_false in E. pose proof (Q.min_l _ _ Ha) as Hq.
    set (p := Qmin _ _) in *. clearbody p. split; [lra|]. split; [|intros _; rewrite Hm; lra].
    apply within_ahead; [done|]. rewrite Hm. lra.
Qed.

(** ** A whole copy *)

(** The throttle keeps the stream at or under its rate, as long as no
    single read is more than a second's worth: after every chunk the bytes done
    are at most the rate times the time since the start. *)
Theorem throttle_keeps_rate chunks : forall now th,
  0 < th_rate th -> within now th ->
  Forall (fun c => inject_Z c.1 <= th_rate th /\ 0 <= c.2) chunks ->
  let '(th', now') := throttled chunks now th in
  th_done th' = (th_done th + foldr (fun c s => c.1 + s) 0 chunks)%Z /\
  inject_Z (th_done th') <= th_rate th * (now' - th_t0 th) /\ now <= now'.
Proof.
  induction chunks as [|[n dt] chunks IH]; intros now th Hr Hw HF; cbn [throttled foldr].
  - split; [lia|]. split; [done|lra].
  - apply Forall_cons in HF as [[Hn Hdt] HF]. cbn in Hn, Hdt.
    pose proof (account_spec n now th Hr Hn Hw dt Hdt) as Ha.
    pose proof (account_fields n (now + dt) th) as (F1 & F2 & F3).
    destruct (account n (now + dt) th) as [th1 pause]. cbn [fst] in F1, F2, F3.
    destruct Ha as (Hp & Hw1 & _).
    specialize (IH (now + dt + pause) th1). rewrite F1, F2, F3 in IH.
    destruct (throttled chunks (now + dt + pause) th1) as [th' now'].
    destruct IH as (H1 & H2 & H3); [done|done|done|]. cbn [fst]. split; [lia|]. split; [done|lra].
Qed.

(** Below that it does not.  The sleep is capped at a second, so when every
    read is more than a second's worth the copy runs at one read per second:
    with 4 MiB reads a throttle of 1 MB/s lets 4 MiB/s through. *)
Theorem throttle_cap k : forall n now th,
  0 < th_rate th -> th_rate th < inject_Z n -> ahead now th >= 0 ->
  let '(th', now') := throttled (replicate k (n, 0)) now th in
  now' == now + inject_Z (Z.of_nat k) /\ th_done th' = (th_done th + Z.of_nat k * n)%Z.
Proof.
  induction k as [|k IH]; intros n now th Hr Hn Ha; cbn [throttled replicate].
  - change (inject_Z (Z.of_nat 0)) with 0. split; [ring|lia].
  - pose proof (account_fields n (now + 0) th) as (F1 & F2 & F3).
    assert (Hp : (account n (now + 0) th).2 == 1).
    { unfold account. cbn [th_rate th_t0 th_done].
      rewrite (proj2 (Qle_bool_false (th_rate th) 0) Hr).
      assert (E : inject_Z (th_done th + n) / th_rate th ==
              inject_Z (th_done th) / th_rate th + inject_Z n / th_rate th)
        by (rewrite inject_Z_plus; field; lra).
      assert (Hlt : 1 < inject_Z n / th_rate th) by (apply Qlt_shift_div_l; lra).
      unfold ahead in Ha.
      rewrite (proj2 (Qle_bool_false _ 0)) by (rewrite E; lra). cbn [snd].
      apply Q.min_r. rewrite E. lra. }
    destruct (account n (now + 0) th) as [th1 pause]. cbn [fst snd] in F1, F2, F3, Hp.
    specialize (IH n (now + 0 + pause) th1). rewrite F1, F3 in IH.
    destruct (throttled (replicate k (n, 0)) (now + 0 + pause) th1) as [th' now'].
    destruct IH as (H1 & H2); [done|done| |].
    + unfold ahead in *. rewrite F1, F2, F3, inject_Z_plus.
      assert (Hlt : 1 < inject_Z n / th_rate th) by (apply Qlt_shift_div_l; lra).
      assert (E : (inject_Z (th_done th) + inject_Z n) / th_rate th ==
              inject_Z (th_done th) / th_rate th + inject_Z n / th_rate th) by (field; lra).
      rewrite E. lra.
    + split; [|lia]. rewrite H1, Hp, Nat2Z.inj_succ, <-Z.add_1_r, inject_Z_plus.
      change (inject_Z 1) with 1. ring.
Qed.

(** ** Concrete throttles *)

Lemma throttle_keeps_rate_witness :
  let '(th', now') := throttled (replicate 8 (COPY_CHUNK, 1 # 10)) 0 (Throttle_init (Some 15) 0) in
  inject_Z (th_done th') <= 15 * 1048576 * now' /\ 1 <= now'.
Proof.
  pose proof (throttle_keeps_rate (replicate 8 (COPY_CHUNK, 1 # 10)) 0 (Throttle_init (Some 15) 0)) as H.
  destruct (throttled (replicate 8 (COPY_CHUNK, 1 # 10)) 0 (Throttle_init (Some 15) 0)) as [th' now'] eqn:E.
  destruct H as (Hd & Hle & _).
  - reflexivity.
  - vm_compute. discriminate.
  - repeat constructor; vm_compute; discriminate.
  - change (th_rate (Throttle_init (Some 15) 0)) with (15 * 1048576) in Hle.
    change (th_t0 (Throttle_init (Some 15) 0)) with 0 in Hle. split; [lra|].
    change now' with (snd (th', now')). rewrite <-E. vm_compute. discriminate.
Defined.

Lemma throttle_cap_witness :
  let '(th', now') := throttled (replicate 10 (COPY_CHUNK, 0)) 0 (Throttle_init (Some 1) 0) in
  now' == 10 /\ th_done th' = (10 * 4 * 1048576)%Z.
Proof.
  pose proof (throttle_cap 10 COPY_CHUNK 0 (Throttle_init (Some 1) 0)) as H.
  destruct (throttled (replicate 10 (COPY_CHUNK, 0)) 0 (Throttle_init (Some 1) 0)) as [th' now'].
  destruct H as [H1 H2].
  - reflexivity.
  - reflexivity.
  - vm_compute. discriminate.
  - split; [exact H1|]. rewrite H2. reflexivity.
Defined.

(** No rate, no limit. *)
Lemma account_unlimited n now t0 : (account n now (Throttle_init None t0)).2 = 0.
Proof. reflexivity. Qed.
