(* ===== verification/SshScript.v ===== *)
(** * A script on another machine ([sh] and [ssh_script] of [rkcdp/rkcdp-rebuild.py])

    The commands of the rebuild run through a shell; a script for the
    hypervisor travels through two of them, as base64 text inside single
    quotes.  [base64.b64encode] is written out; what the shells and [ssh] do
    with a command line is a parameter with its documented behaviour
    ([Shells]). *)
From Stdlib Require Import Ascii.
From stdpp Require Import pretty.
From S2P Require Import Prelude PyString.

(** ** Base64 *)

Definition b64_alphabet : list ascii :=
  Eval vm_compute in chars "ABCDEFGHIJKLMNOPQRSTUVWXYZabcdefghijklmnopqrstuvwxyz0123456789+/".

Definition code (c : ascii) : Z := Z.of_N (N_of_ascii c).
Definition char_of (n : Z) : ascii := ascii_of_N (Z.to_N n).

Definition b64_digit (n : Z) : ascii := nth (Z.to_nat n) b64_alphabet "A"%char.

(** [base64.b64encode]: three bytes make four digits; the last group is filled
    up with [=]. *)
Fixpoint b64encode (l : list ascii) : list ascii :=
  match l with
  | a :: b :: c :: l' =>
      b64_digit (code a / 4) :: b64_digit (code a mod 4 * 16 + code b / 16) ::
      b64_digit (code b mod 16 * 4 + code c / 64) :: b64_digit (code c mod 64) :: b64encode l'
  | [a; b] =>
      [b64_digit (code a / 4); b64_digit (code a mod 4 * 16 + code b / 16);
       b64_digit (code b mod 16 * 4); "="%char]
  | [a] => [b64_digit (code a / 4); b64_digit (code a mod 4 * 16); "="%char; "="%char]
  | [] => []
  end.

(** Decoding as RFC 4648 defines it, for text without line breaks. *)
Definition b64_value (c : ascii) : option Z := (fun p => Z.of_nat p.1) <$> list_find (eq c) b64_alphabet.

#[global] Arguments b64_digit : simpl never.
#[global] Arguments b64_value : simpl never.

Fixpoint b64decode (l : list ascii) : option (list ascii) :=
  match l with
  | [] => Some []
  | x :: y :: z :: w :: l' =>
      p ← b64_value x; q ← b64_value y;
      if Ascii.eqb z "=" then
        if Ascii.eqb w "=" && bool_decide (l' = []) then Some [char_of (p * 4 + q / 16)] else None
      else
        r ← b64_value z;
        if Ascii.eqb w "=" then
          if bool_decide (l' = []) then Some [char_of (p * 4 + q / 16); char_of (q mod 16 * 16 + r / 4)] else None
        else
          s ← b64_value w; rest ← b64decode l';
          Some (char_of (p * 4 + q / 16) :: char_of (q mod 16 * 16 + r / 4) :: char_of (r mod 4 * 64 + s) :: rest)
  | _ => None
  end.

Definition b64_char (c : ascii) : Prop := c = "="%char \/ c ∈ b64_alphabet.

(** ** Running a command *)

Record reply : Type := mk_reply { pr_rc : Z; pr_stdout : string; pr_stderr : string }.

(** [r.stderr or r.stdout] *)
Definition complaint (r : reply) : string :=
  strip_str (if bool_decide (pr_stderr r = EmptyString) then pr_stdout r else pr_stderr r).

(** [s[-n:]] *)
Definition last_chars (n : nat) (s : string) : string :=
  of_chars (drop (length (chars s) - n) (chars s)).

(** [sh(cmd, check)], where the shell answers [answer cmd]. *)
Definition run_sh (answer : string -> res reply) (cmd : string) (check : bool) : res reply :=
  r ← answer cmd;
  if check && negb (pr_rc r =? 0) then
    match split cmd with
    | [] => Raise IndexError
    | name :: _ => Raise (RuntimeError (name +++ ": rc=" +++ pretty (pr_rc r) +++ " " +++ complaint r)%string)
    end
  else Ok r.

Definition quote : string := "'".

Definition ssh_options : string := "ssh -o StrictHostKeyChecking=no -o BatchMode=yes -o ConnectTimeout=10 ".

(** The command line of [ssh_script]: what stands before the quoted part, and
    the quoted part. *)
Definition ssh_prefix (host user : string) : string := (ssh_options +++ user +++ "@" +++ host)%string.
Definition remote_command (script : string) : string :=
  ("echo " +++ of_chars (b64encode (chars script)) +++ " | base64 -d | bash")%string.
Definition ssh_command (host user script : string) : string :=
  (ssh_prefix host user +++ " " +++ quote +++ remote_command script +++ quote)%string.

Definition ssh_script (answer : string -> res reply) (host user script : string) : res string :=
  r ← answer (ssh_command host user script);
  if pr_rc r =? 0 then Ok (pr_stdout r)
  else Raise (RuntimeError ("host script failed rc=" +++ pretty (pr_rc r) +++ ": " +++ last_chars 800 (complaint r))%string).

(** ** What the shells do *)

(** A character that no shell gives a meaning of its own. *)
Definition plain_char (c : ascii) : bool :=
  bool_decide (c ∈ b64_alphabet) || bool_decide (c ∈ chars " -=@._").
Definition plain (s : string) : Prop := Forall (fun c => plain_char c = true) (chars s).
Definition unquoted (s : string) : Prop := Forall (fun c => c <> "'"%char) (chars s).

(** [words]: the words the shell splits a command line into.  [ssh]: the
    destination and the command line of an [ssh] invocation.  [bash_input]:
    what the last command of [... | bash] reads. *)
Class Shells (words : string -> list string) (ssh : list string -> option (string * string))
    (bash_input : string -> option (list ascii)) : Prop := {
  words_quoted pre s : plain pre -> unquoted s ->
    words (pre +++ " " +++ quote +++ s +++ quote)%string = split pre ++ [s];
  ssh_plain dest cmd : ssh ["ssh"; dest; cmd]%string =
    if startswith dest "-" then None else Some (dest, cmd);
  ssh_option o args : ssh ("ssh" :: "-o" :: o :: args)%string = ssh ("ssh" :: args)%string;
  bash_base64 w : Forall b64_char w ->
    bash_input ("echo " +++ of_chars w +++ " | base64 -d | bash")%string = b64decode w;
}.

(** ** Encoding and decoding *)

Lemma digits_table :
  Forall (fun n => b64_value (b64_digit n) = Some n /\ b64_digit n <> "="%char /\ b64_digit n ∈ b64_alphabet) (seqZ 0 64).
Proof. apply (bool_decide_unpack _). vm_compute. exact I. Qed.

Lemma digit_spec n : 0 <= n < 64 ->
  b64_value (b64_digit n) = Some n /\ b64_digit n <> "="%char /\ b64_digit n ∈ b64_alphabet.
Proof. intros H. apply (proj1 (Forall_forall _ _) digits_table). apply elem_of_seqZ. lia. Qed.

Lemma code_bounds c : 0 <= code c < 256.
Proof. unfold code. pose proof (N_ascii_bounded c). lia. Qed.

Lemma char_of_code c n : n = code c -> char_of n = c.
Proof. intros ->. unfold char_of, code. by rewrite N2Z.id, ascii_N_embedding. Qed.

Lemma list_three_ind {A} (P : list A -> Prop) :
  P [] -> (forall a, P [a]) -> (forall a b, P [a; b]) ->
  (forall a b c l, P l -> P (a :: b :: c :: l)) -> forall l, P l.
Proof.
  intros H0 H1 H2 H3 l. enough (P l /\ (forall a, P (a :: l)) /\ (forall a b, P (a :: b :: l))) by tauto.
  induction l as [|x l (Ha & Hb & Hc)]; [done|]. split; [done|]. split; [done|]. intros a b. by apply H3.
Qed.

(** The byte arithmetic of a group, by the equations of division. *)
Ltac byte_group :=
  repeat match goal with c : ascii |- _ =>
    lazymatch goal with
    | _ : 0 <= code c < 256 |- _ => fail
    | |- _ => pose proof (code_bounds c)
    end
  end;
  Z.to_euclidean_division_equations; lia.

Lemma value_digit n : 0 <= n < 64 -> b64_value (b64_digit n) = Some n.
Proof. apply digit_spec. Qed.

Lemma eqb_digit n : 0 <= n < 64 -> Ascii.eqb (b64_digit n) "=" = false.
Proof. intros H. apply Ascii.eqb_neq. by apply digit_spec. Qed.

(** Decoding gives back what was encoded, whatever the length. *)
Lemma b64_roundtrip l : b64decode (b64encode l) = Some l.
Proof.
  induction l as [|a|a b|a b c l IH] using list_three_ind; [done|..]; cbn [b64encode b64decode].
  all: rewrite ?value_digit, ?eqb_digit by byte_group; cbn [mbind option_bind Ascii.eqb Bool.eqb andb].
  all: rewrite ?IH, ?bool_decide_eq_true_2 by done; cbn [mbind option_bind].
  all: repeat f_equal; apply char_of_code; byte_group.
Qed.

Lemma b64_digit_char n : 0 <= n < 64 -> b64_char (b64_digit n).
Proof. intros H. right. by apply digit_spec. Qed.

Lemma b64_chars l : Forall b64_char (b64encode l).
Proof.
  induction l as [|a|a b|a b c l IH] using list_three_ind; cbn [b64encode];
    repeat first [apply Forall_nil_2 | apply Forall_cons_2]; try done.
  all: first [by left | apply b64_digit_char; byte_group].
Qed.

Lemma b64_char_unquoted c : b64_char c -> c <> "'"%char.
Proof. intros [->|Hc]; [done|]. intros ->. revert Hc. apply (bool_decide_unpack _). vm_compute. exact I. Qed.

Lemma remote_command_unquoted script : unquoted (remote_command script).
Proof.
  unfold unquoted, remote_command. rewrite !chars_app, !Forall_app, String.list_ascii_of_string_of_list_ascii.
  split; [by repeat constructor|]. split; [|by repeat constructor].
  eapply Forall_impl; [apply b64_chars|exact b64_char_unquoted].
Qed.

Lemma startswith_dash user s : user <> EmptyString -> startswith (user +++ s)%string "-" = startswith user "-".
Proof.
  destruct user as [|c user]; [done|]. intros _.
  change (startswith (String c (user +++ s)) "-" = startswith (String c user) "-")%string.
  cbn [String.prefix]. destruct (Ascii.ascii_dec _ _); [|done]. by destruct user, s.
Qed.

(** ** A script arrives as it was written *)

Section Delivery.
Context {words ssh bash_input} {shells : Shells words ssh bash_input}.

(** A user or a host that is one word of plain characters. *)
Definition name_ok (s : string) : Prop := field s /\ plain s.

Lemma ssh_prefix_words host user :
  field user -> field host ->
  split (ssh_prefix host user) =
    ["ssh"; "-o"; "StrictHostKeyChecking=no"; "-o"; "BatchMode=yes"; "-o"; "ConnectTimeout=10"; user +++ "@" +++ host]%string.
Proof.
  intros [Hu Hu'] [_ Hh].
  change (ssh_prefix host user) with (String.concat " " ["ssh"; "-o"; "StrictHostKeyChecking=no"; "-o"; "BatchMode=yes";
    "-o"; "ConnectTimeout=10"; user +++ "@" +++ host])%string.
  apply split_concat. repeat apply Forall_cons_2; [apply (bool_decide_unpack _); vm_compute; exact I..| |done].
  split; [by destruct user|]. rewrite !chars_app, !Forall_app.
  repeat split; [done|apply (bool_decide_unpack _); vm_compute; exact I|done].
Qed.

(** C39: a script arrives as it was written.  For a user and a host of plain
    characters, the command line runs [ssh] to that host with one command, and
    the [bash] at its end reads exactly the script, whatever characters it is
    made of. *)
Theorem ssh_script_delivers host user script :
  name_ok host -> name_ok user -> startswith user "-" = false ->
  exists cmd, ssh (words (ssh_command host user script)) = Some ((user +++ "@" +++ host)%string, cmd) /\
    bash_input cmd = Some (chars script).
Proof.
  intros [Hh Hh'] [Hu Hu'] Hd. exists (remote_command script). split.
  - unfold ssh_command. rewrite words_quoted; [| |apply remote_command_unquoted].
    + rewrite ssh_prefix_words by done. cbn [app]. rewrite !ssh_option, ssh_plain.
      rewrite startswith_dash by apply Hu. by rewrite Hd.
    + unfold plain, ssh_prefix. rewrite !chars_app, !Forall_app. repeat split; try done.
      all: apply (bool_decide_unpack _); vm_compute; exact I.
  - unfold remote_command. rewrite bash_base64 by apply b64_chars. apply b64_roundtrip.
Qed.
End Delivery.

(** ** Shells that do what is documented *)

Fixpoint until_quote (l : list ascii) : list ascii :=
  match l with c :: l' => if Ascii.eqb c "'" then [] else c :: until_quote l' | [] => [] end.
Fixpoint after_quote (l : list ascii) : list ascii :=
  match l with c :: l' => if Ascii.eqb c "'" then l' else after_quote l' | [] => [] end.

Definition demo_words (s : string) : list string :=
  split (of_chars (until_quote (chars s))) ++ [of_chars (until_quote (after_quote (chars s)))].

Fixpoint demo_ssh_args (args : list string) : option (string * string) :=
  match args with
  | o :: x :: args' =>
      if String.eqb o "-o" then demo_ssh_args args'
      else if bool_decide (args' = []) && negb (startswith o "-") then Some (o, x) else None
  | _ => None
  end.
Definition demo_ssh (args : list string) : option (string * string) := demo_ssh_args (drop 1 args).

Fixpoint b64_run (l : list ascii) : list ascii :=
  match l with
  | c :: l' => if Ascii.eqb c "=" || bool_decide (c ∈ b64_alphabet) then c :: b64_run l' else []
  | [] => []
  end.
Definition demo_input (s : string) : option (list ascii) := b64decode (b64_run (drop 5 (chars s))).

Lemma quote_stop l r : Forall (fun c => c <> "'"%char) l ->
  until_quote (l ++ "'"%char :: r) = l /\ after_quote (l ++ "'"%char :: r) = r.
Proof.
  induction 1 as [|c l Hc _ [IH1 IH2]]; [done|]. cbn [app until_quote after_quote].
  by rewrite (proj2 (Ascii.eqb_neq _ _) Hc), IH1, IH2.
Qed.

Lemma split_from_blank w l : split_from w (l ++ [" "%char]) = split_from w l.
Proof.
  revert w. induction l as [|c l IH]; intros w; cbn [app split_from].
  - change (is_space " ") with true. cbn iota. by case_decide.
  - rewrite !IH. done.
Qed.

Lemma plain_char_unquoted c : plain_char c = true -> c <> "'"%char.
Proof. by intros H ->. Qed.

Lemma b64_run_stop w r : Forall b64_char w -> b64_run (w ++ " "%char :: r) = w.
Proof.
  induction 1 as [|c w Hc _ IH]; [done|]. cbn [app b64_run]. rewrite IH.
  destruct Hc as [->|Hc]; [done|]. by rewrite (bool_decide_eq_true_2 _ Hc), orb_true_r.
Qed.

#[export] Instance demo_shells : Shells demo_words demo_ssh demo_input.
Proof.
  split.
  - intros pre s Hp Hs. unfold demo_words.
    assert (chars (pre +++ " " +++ quote +++ s +++ quote)%string =
      (chars pre ++ [" "%char]) ++ "'"%char :: chars s ++ "'"%char :: []) as ->
      by (rewrite !chars_app, <-app_assoc; done).
    assert (Forall (fun c => c <> "'"%char) (chars pre ++ [" "%char])) as Hp'.
    { apply Forall_app. split; [|by repeat constructor]. eapply Forall_impl; [exact Hp|exact plain_char_unquoted]. }
    destruct (quote_stop _ (chars s ++ ["'"%char]) Hp') as [-> ->]. destruct (quote_stop (chars s) [] Hs) as [-> _].
    unfold split. rewrite !String.list_ascii_of_string_of_list_ascii, split_from_blank.
    by rewrite String.string_of_list_ascii_of_string.
  - intros dest cmd. cbn [demo_ssh drop demo_ssh_args].
    destruct (String.eqb_spec dest "-o") as [->|Hn]; [done|]. by destruct (startswith dest "-").
  - done.
  - intros w Hw. unfold demo_input. rewrite !chars_app, String.list_ascii_of_string_of_list_ascii.
    change (drop 5 (chars "echo " ++ w ++ chars " | base64 -d | bash")) with (w ++ " "%char :: chars "| base64 -d | bash").
    by rewrite b64_run_stop.
Qed.

Lemma ssh_script_delivers_witness :
  exists cmd, demo_ssh (demo_words (ssh_command "192.168.1.180" "root" "echo 'VMID='$V"))
    = Some ("root@192.168.1.180"%string, cmd) /\ demo_input cmd = Some (chars "echo 'VMID='$V").
Proof.
  apply (ssh_script_delivers "192.168.1.180" "root"); [..|done];
    (split; [apply (bool_decide_unpack _)|unfold plain; apply (bool_decide_unpack _)]; vm_compute; exact I).
Defined.

Example b64_example : of_chars (b64encode (chars "rkcdp")) = "cmtjZHA="%string.
Proof. done. Qed.
