(* ===== verification/CopyProtocol.v ===== *)
(** * Copying while writes arrive ([Daemon.copy_chunk] beside the apply loop)

    The guest writes to the disk, the driver appends a record for each write
    to the stream, the main thread applies the records in order, and one copy
    thread (base copy or bitmap recovery) copies chunks.  A step of the system
    is one atomic section of one of the three; [sys_next] is the whole
    transition function, and [run] a sequence of steps in any interleaving. *)
From S2P Require Import Prelude Dmcdp Files Seed Replica Apply.

(** Where the copy thread is in [copy_chunk]. *)
Inductive phase : Type :=
  | Idle
  | Flagged (off n : Z)
  | HasRead (off n : Z) (buf : bytes)
  | Landed (off n : Z)
  | Late (late : list item).

Record sys : Type := mk_sys {
  disk : image;
  stream : list item;              (* written to the disk, not read from the ring yet *)
  core : applier;
  ph : phase;
  covered : list (Z * Z);          (* chunks copied so far *)
}.

Inductive action : Type :=
  | Guest (it : item)              (* a write reaches the disk, its record the ring *)
  | Apply                          (* the main thread applies the next record *)
  | Flag (off n : Z)
  | Read
  | Land
  | Clear
  | LateOne                        (* the copy thread applies one late record *)
  | Return.

Section System.
Variable libc_fallocate : file -> Z -> Z -> fallocate_result.
Variable size : Z.
Variable skip_zero : option bytes.

Definition of_res {A} (m : res A) : option A :=
  match m with Ok a => Some a | _ => None end.

Definition sys_next (s : sys) (act : action) : option sys :=
  match act, ph s with
  | Guest it, p => Some (mk_sys (apply_img (disk s) it) (stream s ++ [it]) (core s) p (covered s))
  | Apply, p =>
      match stream s with
      | it :: rest => a ← of_res (apply_one libc_fallocate (core s) it);
                      Some (mk_sys (disk s) rest a p (covered s))
      | [] => None
      end
  | Flag off n, Idle =>
      Some (mk_sys (disk s) (stream s) (copy_flag (core s) off n) (Flagged off n) (covered s))
  | Read, Flagged off n =>
      Some (mk_sys (disk s) (stream s) (core s)
              (HasRead off n (dev_read (disk s) size off n)) (covered s))
  | Land, HasRead off n buf =>
      a ← of_res (copy_land (core s) off buf skip_zero);
      Some (mk_sys (disk s) (stream s) a (Landed off n) (covered s))
  | Clear, Landed off n =>
      let '(late, a) := copy_clear (core s) in
      Some (mk_sys (disk s) (stream s) a (Late late) ((off, n) :: covered s))
  | LateOne, Late (it :: late) =>
      a ← of_res (apply_one libc_fallocate (core s) it);
      Some (mk_sys (disk s) (stream s) a (Late late) (covered s))
  | Return, Late [] => Some (mk_sys (disk s) (stream s) (core s) Idle (covered s))
  | _, _ => None
  end.

(** The records set aside: those of the chunk in flight, or those the copy
    thread still has to apply. *)
Definition outstanding (s : sys) : list item :=
  match ph s with Late late => late | _ => deferred (core s) end.

(** Everything that is on the disk and not in the replica yet, oldest first. *)
Definition pend (s : sys) : list item := outstanding s ++ stream s.

Definition disjoint_items (it1 it2 : item) : Prop := forall i, ~ (touches it1 i /\ touches it2 i).

(** The inputs are well formed: records lie inside the disk, chunks too. *)
Definition action_ok (act : action) : Prop :=
  match act with
  | Guest it => item_wf it /\ item_in size it
  | Flag off n => 0 <= off /\ 0 < n /\ off + n <= size
  | _ => True
  end.

(** The order the protocol relies on: the main thread never applies a record
    while an older one that overlaps it is set aside. *)
Definition in_order (s : sys) (act : action) : Prop :=
  match act, stream s with
  | Apply, it :: _ =>
      in_flight (copying (core s)) it.1 = false -> Forall (disjoint_items it) (outstanding s)
  | _, _ => True
  end.

Inductive run (G : sys -> action -> Prop) : sys -> sys -> Prop :=
  | run_refl s : run G s s
  | run_step s act s1 s2 :
      action_ok act -> G s act -> sys_next s act = Some s1 -> run G s1 s2 -> run G s s2.

(** Executing a list of actions, for concrete runs. *)
Fixpoint exec (s : sys) (acts : list action) : option sys :=
  match acts with
  | [] => Some s
  | act :: acts' => s1 ← sys_next s act; exec s1 acts'
  end.

Definition quiescent (s : sys) : Prop := ph s = Idle /\ stream s = [].

Definition is_covered (s : sys) (i : Z) : Prop := Exists (in_extent i) (covered s).
End System.

(** ** Lemmas on images *)

Definition touched (l : list item) (i : Z) : Prop := Exists (fun it => touches it i) l.

#[export] Instance touched_dec l i : Decision (touched l i).
Proof. unfold touched. apply _. Defined.

Lemma apply_img_local X Y it i : X i = Y i -> apply_img X it i = apply_img Y it i.
Proof.
  intros E. destruct (decide (touches it i)) as [T|T]; [by apply apply_img_touched|].
  by rewrite !apply_img_untouched.
Qed.

Lemma apply_all_local X Y l i : X i = Y i -> apply_all X l i = apply_all Y l i.
Proof.
  revert X Y; induction l as [|it l IH]; intros X Y E; [done|].
  rewrite !apply_all_cons. by apply IH, apply_img_local.
Qed.

Lemma apply_all_untouched X l i : ~ touched l i -> apply_all X l i = X i.
Proof.
  revert X; induction l as [|it l IH]; intros X T; [done|].
  unfold touched in T. rewrite Exists_cons in T.
  rewrite apply_all_cons, IH by tauto. apply apply_img_untouched. tauto.
Qed.

Lemma apply_all_touched X Y l i : touched l i -> apply_all X l i = apply_all Y l i.
Proof.
  revert X Y; induction l as [|it l IH]; intros X Y T; [by apply Exists_nil in T|].
  rewrite !apply_all_cons. destruct (decide (touched l i)) as [T'|T']; [by apply IH|].
  apply Exists_cons in T as [T|]; [|done].
  by apply apply_all_local, apply_img_touched.
Qed.

(** The pending records, applied to [X], give the disk at [i]. *)
Definition agrees (X : image) (l : list item) (D : image) (i : Z) : Prop := apply_all X l i = D i.

Lemma agrees_local X Y l D i : X i = Y i -> agrees X l D i -> agrees Y l D i.
Proof. unfold agrees. intros E <-. by apply apply_all_local. Qed.

Lemma agrees_self X l D i : agrees X l D i -> agrees D l D i.
Proof.
  unfold agrees. intros E. destruct (decide (touched l i)) as [T|T].
  - by rewrite (apply_all_touched D X).
  - by apply apply_all_untouched.
Qed.

(** A guest write changes both sides. *)
Lemma agrees_guest X l D it i : agrees X l D i -> agrees X (l ++ [it]) (apply_img D it) i.
Proof. unfold agrees. intros E. rewrite apply_all_app. by apply apply_img_local. Qed.

(** Applying a record that is disjoint from the ones set aside before it. *)
Lemma agrees_apply X o it q D i :
  Forall (disjoint_items it) o -> agrees X (o ++ it :: q) D i -> agrees (apply_img X it) (o ++ q) D i.
Proof.
  intros HF. unfold agrees. rewrite !apply_all_app, apply_all_cons. intros <-.
  apply apply_all_local. destruct (decide (touches it i)) as [T|T].
  - assert (~ touched o i) as To.
    { intros (o1 & Ho & T1)%Exists_exists. apply (proj1 (Forall_forall _ _) HF o1 Ho i). done. }
    rewrite apply_all_untouched by done. by apply apply_img_touched.
  - rewrite (apply_img_untouched (apply_all X o)) by done.
    apply apply_all_local. by apply apply_img_untouched.
Qed.

(** A record that does not touch [i] can be dropped. *)
Lemma agrees_drop X o it q D i :
  ~ touches it i -> agrees X (o ++ it :: q) D i -> agrees X (o ++ q) D i.
Proof.
  intros T. unfold agrees. rewrite !apply_all_app, apply_all_cons. intros <-.
  apply apply_all_local. by rewrite apply_img_untouched.
Qed.

(** ** The invariant *)

Section Invariant.
Variable libc_fallocate : file -> Z -> Z -> fallocate_result.
Variable size : Z.
Variable skip_zero : option bytes.
Variable S0 : image.

Definition in_disk (i : Z) : Prop := 0 <= i < size.

Definition zero_buffer : Prop :=
  match skip_zero with Some z => Forall (fun x => x = x00) z | None => True end.

Definition chunk_in (off n : Z) : Prop := 0 <= off /\ 0 < n /\ off + n <= size.

(** The bytes the chunk will have once it has landed. *)
Definition landing (off n : Z) (X : image) (s : sys) : Prop :=
  forall i, off <= i < off + n -> agrees X (pend s) (disk s) i.

Definition phase_inv (s : sys) : Prop :=
  match ph s with
  | Idle | Late _ => copying (core s) = None /\ deferred (core s) = []
  | Flagged off n => copying (core s) = Some (off, off + n) /\ chunk_in off n
  | HasRead off n buf =>
      copying (core s) = Some (off, off + n) /\ chunk_in off n /\ blen buf = n /\
      landing off n (img_write zero_image off buf) s
  | Landed off n =>
      copying (core s) = Some (off, off + n) /\ chunk_in off n /\ landing off n (img_of (core s)) s
  end.

Record inv (s : sys) : Prop := {
  inv_ok : replica_ok S0 size (replica (core s));
  inv_items : Forall (fun it => item_wf it /\ item_in size it) (pend s);
  inv_self i : agrees (disk s) (pend s) (disk s) i;
  inv_covered i : is_covered s i -> agrees (img_of (core s)) (pend s) (disk s) i;
  inv_fresh i : is_Some skip_zero -> in_disk i ->
    agrees (img_of (core s)) (pend s) (disk s) i \/
    (img_of (core s) i = x00 /\ ~ touched (pend s) i);
  inv_phase : phase_inv s;
}.

Abbreviation next := (sys_next libc_fallocate size skip_zero).

Lemma landing_local off n X Y s :
  (forall i, off <= i < off + n -> X i = Y i) -> landing off n X s -> landing off n Y s.
Proof. intros E H i Hi. apply (agrees_local X); [by apply E|by apply H]. Qed.

(** Steps that only move records between the lists. *)
Lemma inv_guest s it :
  inv s -> item_wf it -> item_in size it ->
  inv (mk_sys (apply_img (disk s) it) (stream s ++ [it]) (core s) (ph s) (covered s)).
Proof.
  intros [Hok Hit Hself Hcov Hfr Hph] Hw Hin.
  assert (Hp : pend (mk_sys (apply_img (disk s) it) (stream s ++ [it]) (core s) (ph s) (covered s))
               = pend s ++ [it]) by (unfold pend, outstanding; cbn; by rewrite app_assoc).
  split; rewrite ?Hp; cbn [core disk]; try done.
  - apply Forall_app. split; [done|]. by repeat constructor.
  - intros i. apply (agrees_self (disk s)), agrees_guest, Hself.
  - intros i Hi. by apply agrees_guest, Hcov.
  - intros i Hs Hi. destruct (Hfr i Hs Hi) as [H|[H0 Ht]]; [left; by apply agrees_guest|].
    destruct (decide (touches it i)) as [T|T].
    + left. unfold agrees. rewrite apply_all_app. by apply apply_img_touched.
    + right. split; [done|]. unfold touched. rewrite Exists_app, Exists_cons, Exists_nil.
      unfold touched in Ht. tauto.
  - unfold phase_inv, landing in *. cbn [ph core]. rewrite Hp. destruct (ph s); cbn [disk] in *;
      intuition auto using agrees_guest.
Qed.

Lemma inv_apply_deferred s it rest :
  inv s -> stream s = it :: rest -> in_flight (copying (core s)) it.1 = true ->
  inv (mk_sys (disk s) rest
         (with_copying (copying (core s)) (deferred (core s) ++ [it]) (core s)) (ph s) (covered s)).
Proof.
  intros [Hok Hit Hself Hcov Hfr Hph] Es Hf.
  assert (Hnl : match ph s with Idle | Late _ => False | _ => True end).
  { unfold phase_inv in Hph. destruct (ph s); try done;
      destruct Hph as [Hc _]; rewrite Hc in Hf; cbn in Hf; done. }
  assert (Hp : pend (mk_sys (disk s) rest
     (with_copying (copying (core s)) (deferred (core s) ++ [it]) (core s)) (ph s) (covered s)) = pend s).
  { unfold pend, outstanding. cbn. rewrite Es. destruct (ph s); try done;
      by rewrite <-app_assoc. }
  split; rewrite ?Hp; try done.
  unfold phase_inv, landing in *. cbn [ph core copying with_copying disk]. rewrite Hp.
  by destruct (ph s).
Qed.

(** A record that goes straight to the replica: the main thread's next one,
    or the copy thread's next late one. *)
Lemma inv_applied s st' a' p' it o q :
  let s' := mk_sys (disk s) st' a' p' (covered s) in
  inv s -> pend s = o ++ it :: q -> pend s' = o ++ q -> Forall (disjoint_items it) o ->
  img_of a' ≡ apply_img (img_of (core s)) it -> replica_ok S0 size (replica a') ->
  copying a' = copying (core s) -> deferred a' = deferred (core s) ->
  in_flight (copying (core s)) it.1 = false ->
  p' = ph s \/ (exists l l', ph s = Late l /\ p' = Late l') ->
  inv s'.
Proof.
  intros s' [Hok Hit Hself Hcov Hfr Hph] Ep Ep' Ho Himg Hok' Hc Hd Hf Hp'.
  assert (Hw : item_wf it).
  { rewrite Ep in Hit. apply Forall_app in Hit as [_ Hit]. apply Forall_cons in Hit. apply Hit. }
  split; rewrite ?Ep'; cbn [core disk s']; try done.
  - rewrite Ep in Hit. apply Forall_app in Hit as [? Hit]. apply Forall_cons in Hit as [? ?].
    apply Forall_app. done.
  - intros i. specialize (Hself i). rewrite Ep in Hself.
    by apply (agrees_self (apply_img (disk s) it)), agrees_apply.
  - intros i Hi. apply (agrees_local (apply_img (img_of (core s)) it)); [by rewrite (Himg i)|].
    apply agrees_apply; [done|]. rewrite <-Ep. by apply Hcov.
  - intros i Hs Hi. destruct (Hfr i Hs Hi) as [H|[H0 Ht]]; rewrite Ep in *.
    + left. apply (agrees_local (apply_img (img_of (core s)) it)); [by rewrite (Himg i)|].
      by apply agrees_apply.
    + right. unfold touched in *. rewrite Exists_app, Exists_cons in Ht. rewrite Exists_app.
      split; [|tauto]. rewrite (Himg i), apply_img_untouched by tauto. done.
  - assert (Hunt : forall off n i, copying (core s) = Some (off, off + n) ->
              off <= i < off + n -> ~ touches it i).
    { intros off n i Ec Hi. rewrite Ec in Hf. by apply (in_flight_false_untouched off (off + n)). }
    assert (Hland : forall off n X Y, copying (core s) = Some (off, off + n) ->
              (forall i, off <= i < off + n -> X i = Y i) -> landing off n X s -> landing off n Y s').
    { intros off n X Y Ec E Hl i Hi. rewrite Ep'. cbn [disk s'].
      apply (agrees_local X); [by apply E|]. apply (agrees_drop _ _ it); [by apply (Hunt off n)|].
      rewrite <-Ep. by apply Hl. }
    unfold phase_inv in *. cbn [ph s' core]. rewrite Hc, Hd.
    destruct Hp' as [->|(l & l' & E1 & ->)]; [|by rewrite E1 in Hph].
    destruct (ph s) as [|off n|off n buf|off n|late]; try done.
    + destruct Hph as (? & ? & ? & ?). split_and!; try done. by apply (Hland off n (img_write zero_image off buf)).
    + destruct Hph as (? & ? & ?). split_and!; try done. apply (Hland off n (img_of (core s))); try done.
      intros i Hi. by rewrite (Himg i), apply_img_untouched by (by apply (Hunt off n)).
Qed.

(** *** The sections of [copy_chunk] *)

Lemma inv_flag s off n :
  inv s -> ph s = Idle -> chunk_in off n ->
  inv (mk_sys (disk s) (stream s) (copy_flag (core s) off n) (Flagged off n) (covered s)).
Proof.
  intros [Hok Hit Hself Hcov Hfr Hph] Ei Hch. unfold phase_inv in Hph. rewrite Ei in Hph.
  destruct Hph as [_ Hd].
  assert (Hp : pend (mk_sys (disk s) (stream s) (copy_flag (core s) off n) (Flagged off n) (covered s))
               = pend s) by (unfold pend, outstanding; cbn; by rewrite Ei, Hd).
  split; rewrite ?Hp; try done.
Qed.

(** What is read may be any content that the pending records bring to the
    disk's. *)
Lemma inv_read_from D s off n :
  inv s -> ph s = Flagged off n -> (forall i, off <= i < off + n -> agrees D (pend s) (disk s) i) ->
  inv (mk_sys (disk s) (stream s) (core s) (HasRead off n (dev_read D size off n)) (covered s)).
Proof.
  intros [Hok Hit Hself Hcov Hfr Hph] Ei HD. unfold phase_inv in Hph. rewrite Ei in Hph.
  destruct Hph as [Hc Hch].
  assert (Hp : pend (mk_sys (disk s) (stream s) (core s)
     (HasRead off n (dev_read D size off n)) (covered s)) = pend s)
    by (unfold pend, outstanding; cbn; by rewrite Ei).
  split; rewrite ?Hp; try done.
  unfold phase_inv, landing. cbn [ph core disk]. rewrite Hp. unfold dev_read, chunk_in in *.
  split_and!; try done; try lia.
  - rewrite blen_img_read. lia.
  - intros i Hi. apply (agrees_local D); [|by apply HD].
    rewrite img_write_read. by rewrite (proj2 (in_range_true _ _ _)) by lia.
Qed.

Lemma inv_read s off n :
  inv s -> ph s = Flagged off n ->
  inv (mk_sys (disk s) (stream s) (core s)
         (HasRead off n (dev_read (disk s) size off n)) (covered s)).
Proof. intros Hinv Ei. apply inv_read_from; [done|done|]. intros i _. apply Hinv. Qed.

(** A buffer equal to a prefix of the zero buffer is all zero. *)
Lemma skipped_zero z buf :
  Forall (fun x => x = x00) z -> buf = z.[0 : blen buf] -> Forall (fun x => x = x00) buf.
Proof. intros Hz ->. unfold slice. by apply Forall_take, Forall_drop. Qed.

Lemma img_write_zero_buffer off buf i :
  Forall (fun x => x = x00) buf -> img_write zero_image off buf i = x00.
Proof.
  intros HF. unfold img_write. destruct (in_range _ _ _); [|done].
  destruct (buf !! _) as [x|] eqn:E; [|done]. by apply (proj1 (Forall_lookup _ _) HF _ _ E).
Qed.

Lemma inv_land s off n buf a' :
  zero_buffer -> inv s -> ph s = HasRead off n buf ->
  copy_land (core s) off buf skip_zero = Ok a' ->
  inv (mk_sys (disk s) (stream s) a' (Landed off n) (covered s)).
Proof.
  intros Hz [Hok Hit Hself Hcov Hfr Hph] Ei E. unfold phase_inv in Hph. rewrite Ei in Hph.
  destruct Hph as (Hc & Hch & Hbl & Hland). unfold chunk_in in Hch.
  destruct (copy_land_spec S0 size (core s) off buf skip_zero Hok) as (a1 & E1 & Hok1 & Hc1 & Hd1 & Himg);
    [lia..|]. rewrite E in E1. injection E1 as <-.
  assert (Hp : pend (mk_sys (disk s) (stream s) a' (Landed off n) (covered s)) = pend s)
    by (unfold pend, outstanding; cbn; by rewrite Ei, Hd1).
  (* the bytes of the chunk agree after landing, the others did not change *)
  assert (Hin : forall i, off <= i < off + n -> agrees (img_of a') (pend s) (disk s) i).
  { intros i Hi. specialize (Hland i Hi). destruct Himg as [Himg|(-> & z & Hsk & Hbuf)].
    - apply (agrees_local (img_write zero_image off buf)); [|done].
      rewrite (Himg i). by rewrite !img_write_in by lia.
    - unfold zero_buffer in Hz. rewrite Hsk in Hz. pose proof (skipped_zero _ _ Hz Hbuf) as Hz0.
      destruct (Hfr i) as [?|[H0 _]]; [by rewrite Hsk|unfold in_disk; lia|done|].
      apply (agrees_local (img_write zero_image off buf)); [|done].
      by rewrite img_write_zero_buffer. }
  assert (Hout : forall i, ~ (off <= i < off + n) -> img_of a' i = img_of (core s) i).
  { intros i Hi. destruct Himg as [Himg|[-> _]]; [|done]. rewrite (Himg i). apply img_write_out. lia. }
  split; rewrite ?Hp; cbn [core disk]; try done.
  - intros i Hi. destruct (decide (off <= i < off + n)); [by apply Hin|].
    apply (agrees_local (img_of (core s))); [by rewrite Hout|]. by apply Hcov.
  - intros i Hs Hi. destruct (decide (off <= i < off + n)); [left; by apply Hin|].
    rewrite Hout by done. destruct (Hfr i Hs Hi) as [H|H]; [left|by right].
    apply (agrees_local (img_of (core s))); [by rewrite Hout|done].
  - unfold phase_inv, landing. cbn [ph core disk]. rewrite Hp, Hc1. done.
Qed.

Lemma inv_clear s off n :
  inv s -> ph s = Landed off n ->
  inv (mk_sys (disk s) (stream s) (copy_clear (core s)).2 (Late (copy_clear (core s)).1)
         ((off, n) :: covered s)).
Proof.
  intros [Hok Hit Hself Hcov Hfr Hph] Ei. unfold phase_inv in Hph. rewrite Ei in Hph.
  destruct Hph as (Hc & Hch & Hland).
  assert (Hp : pend (mk_sys (disk s) (stream s) (copy_clear (core s)).2
      (Late (copy_clear (core s)).1) ((off, n) :: covered s)) = pend s)
    by (unfold pend, outstanding; cbn; by rewrite Ei).
  split; rewrite ?Hp; try done.
  intros i [Hi|Hi]%Exists_cons; [by apply Hland|by apply Hcov].
Qed.

(** ** Every step in order keeps the invariant *)

Lemma step_inv s act s' :
  zero_buffer -> inv s -> action_ok size act -> in_order s act -> next s act = Some s' -> inv s'.
Proof.
  intros Hz Hinv Hok Hord. destruct act as [it| |off n| | | | |]; cbn [sys_next].
  - intros [= <-]. destruct Hok. by apply inv_guest.
  - destruct (stream s) as [|it rest] eqn:Es; [done|].
    destruct (in_flight (copying (core s)) it.1) eqn:Hf.
    + rewrite apply_one_deferred by done. cbn. intros [= <-]. by apply inv_apply_deferred.
    + assert (Hin : item_in size it).
      { pose proof (inv_items _ Hinv) as HF. unfold pend in HF. rewrite Es in HF.
        apply Forall_app in HF as [_ HF]. apply Forall_cons in HF. apply HF. }
      destruct (apply_one_direct libc_fallocate S0 size (core s) it (inv_ok _ Hinv) Hin Hf)
        as (a' & -> & Himg & Hok' & Hc & Hd & _).
      cbn. intros [= <-]. unfold in_order in Hord. rewrite Es in Hord.
      apply (inv_applied s rest a' (ph s) it (outstanding s) rest); try done.
      * unfold pend. by rewrite Es.
      * unfold pend, outstanding. cbn. by destruct (ph s); rewrite ?Hd.
      * by apply Hord.
      * by left.
  - destruct (ph s) eqn:Ei; try done. intros [= <-]. by apply inv_flag.
  - destruct (ph s) as [|off n| | |] eqn:Ei; try done. intros [= <-]. by apply inv_read.
  - destruct (ph s) as [| |off n buf| |] eqn:Ei; try done.
    destruct (copy_land _ _ _ _) as [a'| |] eqn:El; cbn; try done. intros [= <-].
    by apply (inv_land s off n buf).
  - destruct (ph s) as [| | |off n|] eqn:Ei; try done. intros [= <-]. by apply (inv_clear s off n).
  - destruct (ph s) as [| | | |[|it late]] eqn:Ei; try done.
    pose proof (inv_phase _ Hinv) as Hph. unfold phase_inv in Hph. rewrite Ei in Hph.
    destruct Hph as [Hc0 Hd0].
    assert (Hf : in_flight (copying (core s)) it.1 = false) by (by rewrite Hc0).
    assert (Ep : pend s = [] ++ it :: late ++ stream s) by (unfold pend, outstanding; by rewrite Ei).
    assert (Hin : item_in size it).
    { pose proof (inv_items _ Hinv) as HF. rewrite Ep in HF. apply Forall_cons in HF. apply HF. }
    destruct (apply_one_direct libc_fallocate S0 size (core s) it (inv_ok _ Hinv) Hin Hf)
      as (a' & -> & Himg & Hok' & Hc & Hd & _).
    cbn. intros [= <-].
    apply (inv_applied s (stream s) a' (Late late) it [] (late ++ stream s)); try done.
    right. by eexists _, _.
  - destruct (ph s) as [| | | |[|it late]] eqn:Ei; try done. intros [= <-].
    destruct Hinv as [Hok1 Hit Hself Hcov Hfr Hph].
    assert (Hp : pend (mk_sys (disk s) (stream s) (core s) Idle (covered s)) = pend s).
    { unfold phase_inv in Hph. rewrite Ei in Hph. destruct Hph as [_ Hd].
      unfold pend, outstanding. cbn. by rewrite Ei, Hd. }
    split; rewrite ?Hp; try done. unfold phase_inv in *. by rewrite Ei in Hph.
Qed.

Lemma run_inv s s' :
  zero_buffer -> inv s -> run libc_fallocate size skip_zero in_order s s' -> inv s'.
Proof. intros Hz Hinv H. induction H; [done|]. by eapply IHrun, step_inv. Qed.
End Invariant.

(** ** Convergence *)

(** A state in which nothing is under way: every byte already covered is right
    in the replica, and the replica is blank if zero chunks are skipped. *)
Record start_ok (S0 : image) (size : Z) (skip_zero : option bytes) (s : sys) : Prop := {
  start_quiescent : quiescent s;
  start_copying : copying (core s) = None /\ deferred (core s) = [];
  start_replica : replica_ok S0 size (replica (core s));
  start_covered i : is_covered s i -> img_of (core s) i = disk s i;
  start_zero_buffer : zero_buffer skip_zero;
  start_blank : is_Some skip_zero -> forall i, in_disk size i -> img_of (core s) i = x00;
}.

Lemma start_inv S0 size skip_zero s : start_ok S0 size skip_zero s -> inv size skip_zero S0 s.
Proof.
  intros [[Hi Hq] [Hc Hd] Hok Hcov Hz Hb].
  assert (Hp : pend s = []) by (unfold pend, outstanding; by rewrite Hi, Hd, Hq).
  split; rewrite ?Hp; try done.
  - intros i Hs Hin. right. split; [by apply Hb|]. by intros ?%Exists_nil.
  - unfold phase_inv. by rewrite Hi.
Qed.

Lemma inv_quiescent size skip_zero S0 s i :
  inv size skip_zero S0 s -> quiescent s -> is_covered s i -> img_of (core s) i = disk s i.
Proof.
  intros Hinv [Hi Hq] Hc. pose proof (inv_phase _ _ _ _ Hinv) as Hph. unfold phase_inv in Hph.
  rewrite Hi in Hph. destruct Hph as [_ Hd]. pose proof (inv_covered _ _ _ _ Hinv i Hc) as H.
  unfold agrees, pend, outstanding in H. by rewrite Hi, Hd, Hq in H.
Qed.

(** Base plus live writes is the disk.  Whatever the guest writes while
    chunks are copied, on every run that never applies a record ahead of an
    overlapping older one, once the stream is drained each byte covered by the
    copy is the byte on the disk. *)
Theorem copy_protocol_converges libc_fallocate S0 size skip_zero s0 s :
  start_ok S0 size skip_zero s0 ->
  run libc_fallocate size skip_zero in_order s0 s -> quiescent s ->
  forall i, is_covered s i -> img_of (core s) i = disk s i.
Proof.
  intros H0 Hrun Hq i Hc. apply (inv_quiescent size skip_zero S0); [|done..].
  apply (run_inv libc_fallocate _ _ _ s0); [apply H0|by apply start_inv|done].
Qed.

(** *** A sufficient condition on the records and the schedule *)

(** The main thread stays out while late records are applied, and a record set
    aside for a chunk does not reach beyond that chunk. *)
Definition contained (c : option (Z * Z)) (r : rec) : Prop :=
  match c with
  | Some (c0, c1) => c0 <= r_sector r * 512 /\ r_sector r * 512 + r_len r <= c1
  | None => True
  end.

Definition exclusive_aligned (s : sys) (act : action) : Prop :=
  match act, stream s with
  | Apply, it :: _ =>
      (forall late, ph s = Late late -> late = []) /\
      (in_flight (copying (core s)) it.1 = true -> contained (copying (core s)) it.1)
  | _, _ => True
  end.

Definition deferred_contained (s : sys) : Prop :=
  Forall (fun it => item_wf it /\ contained (copying (core s)) it.1) (deferred (core s)).

Lemma exclusive_aligned_in_order size skip_zero S0 s act :
  inv size skip_zero S0 s -> deferred_contained s -> exclusive_aligned s act -> in_order s act.
Proof.
  intros Hinv Hdc. unfold exclusive_aligned, in_order.
  destruct act; try done. destruct (stream s) as [|it rest] eqn:Es; [done|]. intros [Hlate _] Hf.
  assert (Hw : item_wf it).
  { pose proof (inv_items _ _ _ _ Hinv) as HF. unfold pend in HF. rewrite Es in HF.
    apply Forall_app in HF as [_ HF]. apply Forall_cons in HF. apply HF. }
  pose proof (inv_phase _ _ _ _ Hinv) as Hph. unfold phase_inv in Hph. unfold outstanding.
  assert (Hdef : Forall (disjoint_items it) (deferred (core s))).
  { destruct (copying (core s)) as [[c0 c1]|] eqn:Ec.
    - eapply Forall_impl; [exact Hdc|]. cbn. rewrite Ec. intros d [Hwd Hd] i [T1 T2].
      apply (in_flight_false_untouched c0 c1 it i); try done.
      apply item_wf_touches in T2; [|done]. cbn in Hd. lia.
    - destruct (ph s); destruct Hph as [Hc Hd]; try congruence; rewrite Hd; constructor. }
  destruct (ph s) as [| | | |late]; try done. rewrite (Hlate late eq_refl). constructor.
Qed.

Lemma step_deferred_contained fa size skip_zero S0 s act s' :
  inv size skip_zero S0 s -> deferred_contained s -> exclusive_aligned s act ->
  sys_next fa size skip_zero s act = Some s' -> deferred_contained s'.
Proof.
  intros Hinv Hdc HG. destruct act as [it| |off n| | | | |]; cbn [sys_next].
  - by intros [= <-].
  - unfold exclusive_aligned in HG. destruct (stream s) as [|it rest] eqn:Es; [done|].
    assert (Hiw : item_wf it /\ item_in size it).
    { pose proof (inv_items _ _ _ _ Hinv) as HF. unfold pend in HF. rewrite Es in HF.
      apply Forall_app in HF as [_ HF]. apply Forall_cons in HF. apply HF. }
    destruct HG as [_ HG]. destruct (in_flight (copying (core s)) it.1) eqn:Hf.
    + rewrite apply_one_deferred by done. cbn. intros [= <-]. unfold deferred_contained. cbn.
      apply Forall_app. split; [done|]. repeat constructor; [apply Hiw|by apply HG].
    + destruct (apply_one_direct fa S0 size (core s) it (inv_ok _ _ _ _ Hinv) (proj2 Hiw) Hf)
        as (a' & -> & _ & _ & Hc & Hd & _).
      cbn. intros [= <-]. unfold deferred_contained. cbn. by rewrite Hc, Hd.
  - destruct (ph s); try done. intros [= <-]. constructor.
  - destruct (ph s); try done. by intros [= <-].
  - destruct (ph s) as [| |off n buf| |] eqn:Ei; try done.
    destruct (copy_land _ _ _ _) as [a'| |] eqn:El; cbn; try done. intros [= <-].
    pose proof (inv_phase _ _ _ _ Hinv) as Hph. unfold phase_inv in Hph. rewrite Ei in Hph.
    destruct Hph as (_ & Hch & Hbl & _). unfold chunk_in in Hch.
    destruct (copy_land_spec S0 size (core s) off buf skip_zero (inv_ok _ _ _ _ Hinv))
      as (a1 & E1 & _ & Hc1 & Hd1 & _); [lia..|]. rewrite El in E1. injection E1 as <-.
    unfold deferred_contained. cbn. by rewrite Hc1, Hd1.
  - destruct (ph s); try done. intros [= <-]. constructor.
  - destruct (ph s) as [| | | |[|it late]] eqn:Ei; try done.
    pose proof (inv_phase _ _ _ _ Hinv) as Hph. unfold phase_inv in Hph. rewrite Ei in Hph.
    destruct Hph as [Hc0 Hd0].
    assert (Hin : item_in size it).
    { pose proof (inv_items _ _ _ _ Hinv) as HF. unfold pend, outstanding in HF. rewrite Ei in HF.
      apply Forall_cons in HF. apply HF. }
    destruct (apply_one_direct fa S0 size (core s) it (inv_ok _ _ _ _ Hinv) Hin)
      as (a' & -> & _ & _ & Hc & Hd & _); [by rewrite Hc0|].
    cbn. intros [= <-]. unfold deferred_contained. cbn. rewrite Hd, Hd0. constructor.
  - destruct (ph s) as [| | | |[|it late]]; try done. by intros [= <-].
Qed.

(** With chunks that no record straddles, and the main thread kept out of
    the window in which late records are applied, no ordering assumption is
    needed. *)
Theorem copy_protocol_aligned libc_fallocate S0 size skip_zero s0 s :
  start_ok S0 size skip_zero s0 ->
  run libc_fallocate size skip_zero exclusive_aligned s0 s -> quiescent s ->
  forall i, is_covered s i -> img_of (core s) i = disk s i.
Proof.
  intros H0 Hrun Hq i Hc. apply (inv_quiescent size skip_zero S0); [|done..].
  assert (deferred_contained s0) as Hdc.
  { unfold deferred_contained. rewrite (proj2 (start_copying _ _ _ _ H0)). constructor. }
  pose proof (start_inv _ _ _ _ H0) as Hinv. pose proof (start_zero_buffer _ _ _ _ H0) as Hz.
  clear H0 Hq Hc. induction Hrun as [|s act s1 s2 Hok HG Hn Hrun IH]; [done|].
  apply IH.
  - by eapply step_deferred_contained.
  - eapply (step_inv libc_fallocate); [done..| |done]. by eapply exclusive_aligned_in_order.
Qed.

(** ** What the code does not prevent *)

(** [G] holds at every step of a concrete run. *)
Fixpoint trace_ok (G : sys -> action -> Prop) fa (size : Z) (skip_zero : option bytes)
    (s : sys) (acts : list action) : Prop :=
  match acts with
  | [] => True
  | act :: acts' =>
      G s act /\
      match sys_next fa size skip_zero s act with
      | Some s1 => trace_ok G fa size skip_zero s1 acts'
      | None => True
      end
  end.

Lemma exec_run_G G fa size skip_zero s acts s' :
  Forall (action_ok size) acts -> trace_ok G fa size skip_zero s acts ->
  exec fa size skip_zero s acts = Some s' -> run fa size skip_zero G s s'.
Proof.
  intros HF. revert s; induction HF as [|act acts Hok HF IH]; intros s; cbn.
  - intros _ [= <-]. constructor.
  - intros [HG HT]. destruct (sys_next _ _ _ s act) as [s1|] eqn:E; [|done]. cbn. intros H.
    by eapply run_step; [..|apply IH].
Qed.

Lemma trace_ok_True fa size skip_zero s acts :
  trace_ok (fun _ _ => True) fa size skip_zero s acts.
Proof.
  revert s; induction acts as [|act acts IH]; intros s; cbn; [done|].
  split; [done|]. by destruct (sys_next _ _ _ s act).
Qed.

Lemma exec_run fa size skip_zero s acts s' :
  Forall (action_ok size) acts -> exec fa size skip_zero s acts = Some s' ->
  run fa size skip_zero (fun _ _ => True) s s'.
Proof. intros HF. apply exec_run_G; [done|apply trace_ok_True]. Qed.

(** A blank replica of a disk of [size] zero bytes. *)
Definition blank_sys (size : Z) (cov : list (Z * Z)) : sys :=
  mk_sys zero_image [] (mk_applier (mk_Replica (file_create size) true None) None [] None 0 0) Idle cov.

Lemma blank_start_ok size cov z :
  0 <= size -> start_ok zero_image size (Some (replicate z x00)) (blank_sys size cov) /\
  start_ok zero_image size None (blank_sys size cov).
Proof.
  intros Hs. split; split; try done. by apply Forall_replicate.
Qed.

Definition write_item (sector : Z) (b : byte) : item := (demo_rec REC_WRITE sector 2, [b; b]).

Definition race_actions : list action :=
  [Flag 0 1024; Guest (write_item 0 Byte.x41); Apply; Read; Land; Clear;
   Guest (write_item 0 Byte.x42); Apply; LateOne; Return].

(** Between clearing [copying] and applying the late records, the main
    thread may apply a newer record to the same sector; the late one then
    overwrites it.  The run ends quiescent, with the whole disk covered, and the
    replica holds the older data. *)
Theorem late_records_race fa :
  exists s, exec fa 1024 (Some (replicate 1024 x00)) (blank_sys 1024 []) race_actions = Some s /\
    run fa 1024 (Some (replicate 1024 x00)) (fun _ _ => True) (blank_sys 1024 []) s /\
    quiescent s /\ (forall i, in_disk 1024 i -> is_covered s i) /\
    disk s 0 = Byte.x42 /\ img_of (core s) 0 = Byte.x41.
Proof.
  eexists. split; [vm_compute; reflexivity|]. split.
  - apply (exec_run _ _ _ _ race_actions); [|vm_compute; reflexivity].
    repeat constructor; vm_compute; congruence.
  - split; [done|]. split; [|done]. intros i Hi. unfold is_covered. cbn. rewrite Exists_cons.
    left. unfold in_disk in Hi. unfold in_extent. cbn. lia.
Qed.

(** Recovery of the dirty chunk [0, 1024) of a two-chunk disk ([chunk_kb = 1]):
    a discard that reaches into the second chunk is set aside, a later write
    to that second chunk is not. *)
Definition straddle_actions : list action :=
  [Flag 0 1024; Guest (demo_rec REC_DISCARD 1 1024, []); Guest (write_item 2 Byte.x42);
   Apply; Apply; Read; Land; Clear; LateOne; Return].

(** The main thread applies nothing while late records are outstanding. *)
Definition exclusive (s : sys) (act : action) : Prop :=
  match act with Apply => forall late, ph s = Late late -> late = [] | _ => True end.

(** Keeping the main thread out of the late window is not enough: a record
    that straddles the chunk is applied after a newer one that does not. *)
Theorem straddling_record_race :
  let fa := fun _ _ _ => FaZero in
  let s0 := blank_sys 2048 [(1024, 1024)] in
  exists s, run fa 2048 None exclusive s0 s /\
    quiescent s /\ (forall i, in_disk 2048 i -> is_covered s i) /\
    disk s 1024 = Byte.x42 /\ img_of (core s) 1024 = x00.
Proof.
  intros fa s0. eexists. split.
  - apply (exec_run_G _ _ _ _ _ straddle_actions); [..|vm_compute; reflexivity].
    + repeat constructor; vm_compute; congruence.
    + vm_compute. split_and!; try done; intros; discriminate.
  - split; [done|]. split; [|done]. intros i Hi. unfold is_covered. cbn.
    rewrite !Exists_cons. unfold in_disk in Hi. unfold in_extent. cbn. lia.
Qed.

(** A run of one chunk with a guest write set aside while it is in flight. *)
Definition calm_actions : list action :=
  [Guest (write_item 0 Byte.x41); Flag 0 1024; Read; Apply; Land; Clear; LateOne; Return].

Lemma copy_protocol_converges_witness :
  let z := replicate 1024 x00 in
  exists s, exec (fun _ _ _ => FaZero) 1024 (Some z) (blank_sys 1024 []) calm_actions = Some s /\
    disk s 0 = Byte.x41 /\ forall i, is_covered s i -> img_of (core s) i = disk s i.
Proof.
  intros z. eexists. split; [vm_compute; reflexivity|]. split; [reflexivity|].
  apply (copy_protocol_converges (fun _ _ _ => FaZero) zero_image 1024 (Some z) (blank_sys 1024 [])).
  - apply blank_start_ok. lia.
  - apply (exec_run_G _ _ _ _ _ calm_actions); [..|vm_compute; reflexivity].
    + repeat constructor; vm_compute; congruence.
    + vm_compute. split_and!; try done; intros; discriminate.
  - done.
Defined.

Lemma copy_protocol_aligned_witness :
  let z := replicate 1024 x00 in
  exists s, exec (fun _ _ _ => FaZero) 1024 (Some z) (blank_sys 1024 []) calm_actions = Some s /\
    disk s 0 = Byte.x41 /\ forall i, is_covered s i -> img_of (core s) i = disk s i.
Proof.
  intros z. eexists. split; [vm_compute; reflexivity|]. split; [reflexivity|].
  apply (copy_protocol_aligned (fun _ _ _ => FaZero) zero_image 1024 (Some z) (blank_sys 1024 [])).
  - apply blank_start_ok. lia.
  - apply (exec_run_G _ _ _ _ _ calm_actions); [..|vm_compute; reflexivity].
    + repeat constructor; vm_compute; congruence.
    + vm_compute. split_and!; try done; intros; try discriminate; split_and!; try done;
        intros; discriminate.
  - done.
Defined.
