(* ===== verification/CopyLoop.v ===== *)
(** * The loops that ask for chunks ([Daemon.base_copy], [Daemon.recover])

    The interface between a loop and whatever runs its chunks: the class
    [CopyLoop] of loops and the laws [CopyLoopLaws] they promise, with the two
    loops of the daemon as instances -- over the whole disk, and over the
    extents of a recovery. *)
From S2P Require Import Prelude Apply.

(** ** Loops over chunks *)

(** The local variables [T] of a loop: the chunk it asks for next, and what it
    does when [copy_chunk] returned [got] bytes ([None]: it breaks). *)
Class CopyLoop (T : Type) : Type := {
  chunk_request : T -> option (Z * Z);
  chunk_done : T -> Z -> option T;
}.

(** What a loop over a disk of [size] bytes promises: its requests are chunks
    of the disk, a full chunk reduces what is left by exactly that chunk, and
    it ends when nothing is left. *)
Class CopyLoopLaws (T : Type) `{CopyLoop T} (size : Z) : Type := {
  loop_ok : T -> Prop;
  left_of : T -> Z -> Prop;
  chunks_left : T -> nat;
  loop_request t off n :
    loop_ok t -> chunk_request t = Some (off, n) -> 0 <= off /\ 0 < n /\ off + n <= size;
  loop_advance t off n :
    loop_ok t -> chunk_request t = Some (off, n) ->
    exists t', chunk_done t n = Some t' /\ loop_ok t' /\ (chunks_left t' < chunks_left t)%nat /\
      forall i, left_of t i <-> off <= i < off + n \/ left_of t' i;
  loop_end t i : loop_ok t -> chunk_request t = None -> ~ left_of t i;
}.

(** ** [while off < self.size and not stop] *)

Section Base.
Variables size chunk : Z.

Record base_pos : Type := mk_base_pos { bp_off : Z }.

#[export] Instance base_loop : CopyLoop base_pos := {
  chunk_request t :=
    if bp_off t <? size then Some (bp_off t, Z.min chunk (size - bp_off t)) else None;
  chunk_done t got := if got =? 0 then None else Some (mk_base_pos (bp_off t + got));
}.

Hypothesis Hchunk : 0 < chunk.

#[export] Instance base_loop_laws : CopyLoopLaws base_pos size.
Proof.
  refine {| loop_ok t := 0 <= bp_off t; left_of t i := bp_off t <= i < size;
            chunks_left t := Z.to_nat (size - bp_off t) |}; intros [o]; cbn.
  - intros off n Ho. destruct (Z.ltb_spec o size); [|done]. intros [= <- <-]. lia.
  - intros off n Ho. destruct (Z.ltb_spec o size); [|done]. intros [= <- <-].
    destruct (Z.eqb_spec (Z.min chunk (size - o)) 0); [lia|].
    eexists. split; [done|]. cbn. split_and!; lia.
  - intros i Ho. destruct (Z.ltb_spec o size); [done|]. lia.
Defined.
End Base.

(** ** [for sector, nsect in rec["extents"]: ... while remaining and not stop] *)

Section Recovery.
Variables size chunk : Z.

Record recover_pos : Type := mk_recover_pos {
  rp_extents : list (Z * Z);         (* still to come, in sectors *)
  rp_off : Z;
  rp_remaining : Z;
}.

(** The next round of the inner loop: extents that are done, or empty, are
    left behind. *)
Fixpoint settle (es : list (Z * Z)) (off remaining : Z) : option recover_pos :=
  if remaining =? 0 then
    match es with
    | [] => None
    | (sector, nsect) :: es' => settle es' (sector * 512) (nsect * 512)
    end
  else Some (mk_recover_pos es off remaining).

#[export] Instance recover_loop : CopyLoop recover_pos := {
  chunk_request t :=
    match settle (rp_extents t) (rp_off t) (rp_remaining t) with
    | Some u => Some (rp_off u, Z.min (rp_remaining u) chunk)
    | None => None
    end;
  chunk_done t got :=
    match settle (rp_extents t) (rp_off t) (rp_remaining t) with
    | Some u =>
        if got =? 0 then Some (mk_recover_pos (rp_extents u) (rp_off u) 0)
        else Some (mk_recover_pos (rp_extents u) (rp_off u + got) (rp_remaining u - got))
    | None => None
    end;
}.

Definition recover_begin (extents : list (Z * Z)) : recover_pos := mk_recover_pos extents 0 0.

Definition extent_in (e : Z * Z) : Prop := 0 <= e.1 /\ 0 <= e.2 /\ e.1 * 512 + e.2 * 512 <= size.

Definition recover_ok (t : recover_pos) : Prop :=
  Forall extent_in (rp_extents t) /\
  0 <= rp_off t /\ 0 <= rp_remaining t /\ (rp_remaining t = 0 \/ rp_off t + rp_remaining t <= size).

Definition in_sectors (i : Z) (e : Z * Z) : Prop := e.1 * 512 <= i < e.1 * 512 + e.2 * 512.

Definition recover_left (t : recover_pos) (i : Z) : Prop :=
  rp_off t <= i < rp_off t + rp_remaining t \/ Exists (in_sectors i) (rp_extents t).

Definition recover_bytes (t : recover_pos) : nat :=
  Z.to_nat (rp_remaining t) + foldr (fun e n => Z.to_nat (e.2 * 512) + n)%nat 0%nat (rp_extents t).

Lemma settle_spec es : forall off remaining,
  recover_ok (mk_recover_pos es off remaining) ->
  let t := mk_recover_pos es off remaining in
  match settle es off remaining with
  | None => forall i, ~ recover_left t i
  | Some u => recover_ok u /\ 0 < rp_remaining u /\ (recover_bytes u <= recover_bytes t)%nat /\
      forall i, recover_left t i <-> recover_left u i
  end.
Proof.
  unfold recover_ok, recover_left, recover_bytes.
  induction es as [|[s n] es IH]; intros off remaining (HF & Ho & Hr & Hin); cbn in *;
    destruct (Z.eqb_spec remaining 0) as [->|Hne].
  - intros i. rewrite Exists_nil. lia.
  - cbn. split_and!; try done; try lia.
  - apply Forall_cons in HF as [(H1 & H2 & H3) HF]. cbn in H1, H2, H3.
    specialize (IH (s * 512) (n * 512)). cbn in IH.
    destruct (settle es (s * 512) (n * 512)) as [u|].
    + destruct IH as (Hok & Hp & Hle & Hl); [split_and!; try done; lia|].
      split; [done|]. split; [done|]. split; [lia|].
      intros i. rewrite <-Hl, Exists_cons. unfold in_sectors at 1. cbn. intuition lia.
    + intros i. specialize (IH ltac:(split_and!; try done; lia) i). rewrite Exists_cons.
      unfold in_sectors at 1. cbn. intros [?|[?|?]]; [lia|apply IH; by left|apply IH; by right].
  - cbn. split_and!; try done; try lia.
Qed.

Hypothesis Hchunk : 0 < chunk.

#[export] Instance recover_loop_laws : CopyLoopLaws recover_pos size.
Proof.
  refine {| loop_ok := recover_ok; left_of := recover_left; chunks_left := recover_bytes |};
    intros [es o r]; cbn [chunk_request chunk_done recover_loop rp_extents rp_off rp_remaining].
  - intros off n Hok. pose proof (settle_spec es o r Hok) as H. destruct (settle es o r) as [u|]; [|done].
    intros [= <- <-]. destruct H as ((_ & ? & ? & ?) & ? & _). lia.
  - intros off n Hok. pose proof (settle_spec es o r Hok) as H. destruct (settle es o r) as [u|]; [|done].
    intros [= <- <-]. destruct H as ((HF & H1 & H2 & H3) & Hp & Hle & Hl).
    destruct (Z.eqb_spec (Z.min (rp_remaining u) chunk) 0); [lia|].
    eexists. split; [done|]. unfold recover_ok, recover_bytes, recover_left in *. cbn in *.
    split_and!; try done; try lia. intros i. rewrite Hl. unfold recover_left. cbn. intuition lia.
  - intros i Hok. pose proof (settle_spec es o r Hok) as H. by destruct (settle es o r).
Defined.
End Recovery.
