(* ===== verification/CopyRuns.v ===== *)
(** * A whole copy beside live writes ([Daemon.base_copy], [Daemon.recover])

    [CopyProtocol] lets the copy thread flag any chunk at any time.  Here the
    thread is the code's loop: it tests [stop], asks for the next chunk, runs
    the sections of [copy_chunk] one by one, and after the last chunk syncs the
    replica and records that it is done.  The two loops, over the disk and over
    the dirty extents, are instances of [CopyLoop]; the theorems are proved for
    any loop with the laws [CopyLoopLaws]. *)
From S2P Require Import Prelude Dmcdp Files Seed Replica Apply CopyProtocol CopyLoop.

(** Where the thread is. *)
Inductive pc (T : Type) : Type :=
  | AtTest (t : T)                  (* while ... and not stop *)
  | InChunk (t : T) (got : Z)       (* inside copy_chunk; [got] is len(buf) once it is read *)
  | AfterLoop                       (* if stop: return *)
  | Recording                       (* after self.replica.fsync() *)
  | Finished
  | Interrupted.
Arguments AtTest {T} t.
Arguments InChunk {T} t got.
Arguments AfterLoop {T}.
Arguments Recording {T}.
Arguments Finished {T}.
Arguments Interrupted {T}.

Record tsys (T : Type) : Type := mk_tsys {
  base : sys;                       (* disk, ring, replica, sections of copy_chunk *)
  thread : pc T;
  stopped : bool;                   (* the global stop *)
  synced : image;                   (* the replica at the last fsync of the thread *)
}.
Arguments mk_tsys {T} base thread stopped synced.
Arguments base {T} t.
Arguments thread {T} t.
Arguments stopped {T} t.
Arguments synced {T} t.

Inductive taction : Type :=
  | TGuest (it : item)
  | TApply                          (* the main thread applies a record *)
  | TSignal                         (* on_sig *)
  | TCopy.                          (* the copy thread *)

Section Threaded.
Context {T : Type} `{CopyLoop T}.
Variable libc_fallocate : file -> Z -> Z -> fallocate_result.
Variable size : Z.
Variable skip_zero : option bytes.
Abbreviation next := (sys_next libc_fallocate size skip_zero).

Definition with_base_sys (b : sys) (p : pc T) (s : tsys T) : tsys T :=
  mk_tsys b p (stopped s) (synced s).

(** One atomic step of the thread. *)
Definition thread_next (s : tsys T) : option (tsys T) :=
  match thread s with
  | AtTest t =>
      match (if stopped s then None else chunk_request t) with
      | None => Some (with_base_sys (base s) AfterLoop s)
      | Some (off, n) => b ← next (base s) (Flag off n); Some (with_base_sys b (InChunk t 0) s)
      end
  | InChunk t got =>
      match ph (base s) with
      | Idle => None
      | Flagged off n =>
          b ← next (base s) Read;
          Some (with_base_sys b (InChunk t (blen (dev_read (disk (base s)) size off n))) s)
      | HasRead _ _ _ => b ← next (base s) Land; Some (with_base_sys b (InChunk t got) s)
      | Landed _ _ => b ← next (base s) Clear; Some (with_base_sys b (InChunk t got) s)
      | Late (_ :: _) => b ← next (base s) LateOne; Some (with_base_sys b (InChunk t got) s)
      | Late [] =>
          b ← next (base s) Return;
          Some (with_base_sys b (match chunk_done t got with Some t' => AtTest t' | None => AfterLoop end) s)
      end
  | AfterLoop =>
      if stopped s then Some (with_base_sys (base s) Interrupted s)
      else Some (mk_tsys (base s) Recording (stopped s) (img_of (core (base s))))
  | Recording => Some (with_base_sys (base s) Finished s)
  | Finished | Interrupted => None
  end.

Definition tsys_next (s : tsys T) (act : taction) : option (tsys T) :=
  match act with
  | TGuest it => b ← next (base s) (Guest it); Some (with_base_sys b (thread s) s)
  | TApply => b ← next (base s) Apply; Some (with_base_sys b (thread s) s)
  | TSignal => Some (mk_tsys (base s) (thread s) true (synced s))
  | TCopy => thread_next s
  end.

Definition taction_ok (act : taction) : Prop :=
  match act with TGuest it => item_wf it /\ item_in size it | _ => True end.

(** The main thread keeps the order ([CopyProtocol.in_order]). *)
Definition t_in_order (s : tsys T) (act : taction) : Prop :=
  match act with TApply => in_order (base s) Apply | _ => True end.

Inductive trun (G : tsys T -> taction -> Prop) : tsys T -> tsys T -> Prop :=
  | trun_refl s : trun G s s
  | trun_step s act s1 s2 :
      taction_ok act -> G s act -> tsys_next s act = Some s1 -> trun G s1 s2 -> trun G s s2.

Lemma trun_trans G s1 s2 s3 : trun G s1 s2 -> trun G s2 s3 -> trun G s1 s3.
Proof. induction 1; [done|]. intros. eapply trun_step; eauto. Qed.

Lemma trun_snoc G s1 s2 act s3 :
  trun G s1 s2 -> taction_ok act -> G s2 act -> tsys_next s2 act = Some s3 -> trun G s1 s3.
Proof. intros H1 Ho HG Hn. eapply trun_trans; [done|]. eapply trun_step; [done..|constructor]. Qed.

(** Executing a list of actions, for concrete runs. *)
Fixpoint texec (s : tsys T) (acts : list taction) : option (tsys T) :=
  match acts with
  | [] => Some s
  | act :: acts' => s1 ← tsys_next s act; texec s1 acts'
  end.
End Threaded.

(** ** The loop drives the protocol *)

Section Loop.
Context {T : Type} `{CopyLoop T}.
Variable libc_fallocate : file -> Z -> Z -> fallocate_result.
Variable size : Z.
Variable skip_zero : option bytes.
Context {laws : CopyLoopLaws T size}.
Variable S0 : image.
Abbreviation next := (sys_next libc_fallocate size skip_zero).
Abbreviation tnext := (tsys_next libc_fallocate size skip_zero).
Abbreviation trun := (trun libc_fallocate size skip_zero).

(** The chunk under way is the one the loop asked for. *)
Definition phase_of (t : T) (got : Z) (s : sys) : Prop :=
  exists off n, loop_ok t /\ chunk_request t = Some (off, n) /\
    match ph s with
    | Idle => False
    | Flagged o k => (o, k) = (off, n)
    | HasRead o k buf => (o, k) = (off, n) /\ got = n /\ blen buf = n
    | Landed o k => (o, k) = (off, n) /\ got = n
    | Late _ => got = n /\ (off, n) ∈ covered s
    end.

(** Where the loop is, [goal] being what it set out to copy. *)
Definition pc_inv (goal : Z -> Prop) (s : tsys T) : Prop :=
  match thread s with
  | AtTest t => ph (base s) = Idle /\ loop_ok t /\
      forall i, goal i -> is_covered (base s) i \/ left_of t i
  | InChunk t got => phase_of t got (base s) /\
      forall i, goal i -> is_covered (base s) i \/ left_of t i
  | AfterLoop => ph (base s) = Idle /\ (stopped s = true \/ forall i, goal i -> is_covered (base s) i)
  | Recording | Finished => ph (base s) = Idle /\ forall i, goal i -> is_covered (base s) i
  | Interrupted => ph (base s) = Idle
  end.

(** Steps of the other threads leave the section of the copy thread alone. *)
Lemma next_other b act b' :
  (match act with Guest _ | Apply => True | _ => False end) -> next b act = Some b' ->
  ph b' = ph b /\ covered b' = covered b.
Proof.
  destruct act; try done; intros _; cbn [sys_next].
  - by intros [= <-].
  - destruct (stream b) as [|it rest]; [done|].
    destruct (of_res _); [|done]. by intros [= <-].
Qed.

Lemma is_covered_same b b' i : covered b' = covered b -> is_covered b' i <-> is_covered b i.
Proof. unfold is_covered. by intros ->. Qed.

Lemma pc_inv_other goal s b' act :
  (match act with Guest _ | Apply => True | _ => False end) -> next (base s) act = Some b' ->
  pc_inv goal s -> pc_inv goal (with_base_sys b' (thread s) s).
Proof.
  intros Ha Hn. destruct (next_other _ _ _ Ha Hn) as [Ep Ec].
  assert (Hc : forall i, is_covered b' i <-> is_covered (base s) i) by (intros; by apply is_covered_same).
  unfold pc_inv, phase_of. cbn. rewrite Ep, Ec. destruct (thread s); try done; setoid_rewrite Hc; done.
Qed.

(** What one step of the copy thread does to the system it drives: nothing,
    or one step of the protocol. *)
Definition drives (b b' : sys) : Prop :=
  b' = b \/ exists act, action_ok size act /\ in_order b act /\ next b act = Some b'.

Lemma drives_step b act b' :
  (match act with Guest _ | Apply => False | _ => True end) -> action_ok size act ->
  next b act = Some b' -> drives b b'.
Proof. intros Ha Hok Hn. right. exists act. split_and!; try done. by destruct act. Qed.

Lemma opt_bind_Some {A B} (m : option A) (f : A -> option B) y :
  m ≫= f = Some y -> exists x, m = Some x /\ f x = Some y.
Proof. destruct m as [x|]; [|done]. intros E. by exists x. Qed.

Lemma thread_in_chunk goal s s' t got :
  thread s = InChunk t got -> pc_inv goal s -> tnext s TCopy = Some s' ->
  drives (base s) (base s') /\ pc_inv goal s'.
Proof.
  intros Et Hpc Hn. cbn [tsys_next] in Hn. unfold thread_next in Hn. unfold pc_inv in Hpc.
  rewrite Et in Hn, Hpc. destruct Hpc as [(off & n & Hok & Hreq & Hph) Hg].
  destruct (loop_request t off n Hok Hreq) as (Ho & Hn0 & Hin).
  destruct (ph (base s)) as [|o k|o k buf|o k|[|it late]] eqn:Eph; [done|..].
  - injection Hph as -> ->. cbn in Hn. rewrite Eph in Hn. cbn in Hn. injection Hn as <-.
    split; [apply (drives_step _ Read); [done..|]; cbn; by rewrite Eph|].
    assert (Hbl : blen (dev_read (disk (base s)) size off n) = n).
    { unfold dev_read. rewrite blen_img_read. lia. }
    split; [|done]. exists off, n. cbn. by rewrite Hbl.
  - destruct Hph as ([= -> ->] & -> & Hbl). apply opt_bind_Some in Hn as (b & Hb & [= <-]).
    split; [by apply (drives_step _ Land)|]. cbn in Hb. rewrite Eph in Hb.
    destruct (of_res _) as [a|]; [|done]. injection Hb as <-. split; [|done]. by exists off, n.
  - destruct Hph as ([= -> ->] & ->). apply opt_bind_Some in Hn as (b & Hb & [= <-]).
    split; [by apply (drives_step _ Clear)|]. cbn in Hb. rewrite Eph in Hb. injection Hb as <-. split.
    + exists off, n. cbn. split_and!; try done. by left.
    + intros i Hi. destruct (Hg i Hi) as [?|?]; [left; by right|by right].
  - destruct Hph as (-> & Hcov). cbn in Hn. rewrite Eph in Hn. cbn in Hn. injection Hn as <-.
    split; [apply (drives_step _ Return); [done..|]; cbn; by rewrite Eph|].
    destruct (loop_advance t off n Hok Hreq) as (t' & Hd & Hok' & _ & Hl).
    unfold pc_inv. cbn. rewrite Hd. split_and!; try done.
    intros i Hi. destruct (Hg i Hi) as [?|[?|?]%Hl]; [by left| |by right].
    left. apply Exists_exists. by exists (off, n).
  - destruct Hph as (-> & Hcov). apply opt_bind_Some in Hn as (b & Hb & [= <-]).
    split; [by apply (drives_step _ LateOne)|]. cbn in Hb. rewrite Eph in Hb.
    destruct (of_res _) as [a|]; [|done]. injection Hb as <-. split; [|done]. by exists off, n.
Qed.

Lemma thread_step goal s s' :
  pc_inv goal s -> tnext s TCopy = Some s' -> drives (base s) (base s') /\ pc_inv goal s'.
Proof.
  intros Hpc Hn. destruct (thread s) as [t|t got| | | |] eqn:Et.
  2:{ by apply (thread_in_chunk goal s s' t got). }
  all: cbn [tsys_next] in Hn; unfold thread_next in Hn; unfold pc_inv in Hpc; rewrite Et in Hn, Hpc; try done.
  - destruct Hpc as (Hi & Hok & Hg). destruct (stopped s) eqn:Es.
    { injection Hn as <-. split; [by left|]. split; [done|]. by left. }
    destruct (chunk_request t) as [[off n]|] eqn:Ereq.
    + destruct (loop_request t off n Hok Ereq) as (Ho & Hn0 & Hin).
      cbn [sys_next] in Hn. rewrite Hi in Hn. injection Hn as <-.
      split; [apply (drives_step _ (Flag off n)); [done..|]; cbn; by rewrite Hi|].
      split; [|done]. by exists off, n.
    + injection Hn as <-. split; [by left|]. split; [done|]. right.
      intros i Hgi. destruct (Hg i Hgi) as [?|Hl]; [done|]. by destruct (loop_end t i Hok Ereq).
  - destruct (stopped s) eqn:Es; injection Hn as <-; (split; [by left|]).
    + apply Hpc.
    + destruct Hpc as [Hi [?|Hc]]; [congruence|]. by split.
  - injection Hn as <-. split; [by left|]. done.
Qed.

(** The image that is synced is the replica when the loop ended. *)
Lemma synced_step s act s' :
  tnext s act = Some s' -> thread s' = Finished \/ thread s' = Recording ->
  (thread s = AfterLoop /\ synced s' = img_of (core (base s))) \/
  ((thread s = Finished \/ thread s = Recording) /\ synced s' = synced s).
Proof.
  destruct act; cbn [tsys_next].
  1,2: intros (b & _ & [= <-])%opt_bind_Some ?; by right.
  - intros [= <-] ?. by right.
  - unfold thread_next. destruct (thread s) as [t|t got| | | |] eqn:Et; try done.
    + destruct (if stopped s then None else chunk_request t) as [[off n]|].
      * intros (b & _ & [= <-])%opt_bind_Some. by intros [?|?].
      * intros [= <-]. by intros [?|?].
    + destruct (ph (base s)) as [| | | |[|]]; try done; intros (b & _ & [= <-])%opt_bind_Some; cbn;
        try (by intros [?|?]). destruct (chunk_done t got); by intros [?|?].
    + destruct (stopped s); intros [= <-]; [by intros [?|?]|]. by left.
    + intros [= <-] _. right. split; [by right|done].
Qed.

(** ** From the start of the thread *)

(** Before the thread starts: records may wait in the ring, the bytes listed
    as covered are right once they are applied, and the replica is blank if
    zero chunks are to be skipped. *)
Record copy_start (s : sys) : Prop := {
  cs_idle : ph s = Idle /\ copying (core s) = None /\ deferred (core s) = [];
  cs_replica : replica_ok S0 size (replica (core s));
  cs_stream : Forall (fun it => item_wf it /\ item_in size it) (stream s);
  cs_disk i : agrees (disk s) (stream s) (disk s) i;
  cs_covered i : is_covered s i -> agrees (img_of (core s)) (stream s) (disk s) i;
  cs_zero_buffer : zero_buffer skip_zero;
  cs_blank : is_Some skip_zero -> forall i, in_disk size i -> img_of (core s) i = x00;
}.

Lemma copy_start_inv s : copy_start s -> inv size skip_zero S0 s.
Proof.
  intros [(Hi & Hc & Hd) Hok HF Hself Hcov Hz Hb].
  assert (Hp : pend s = stream s) by (unfold pend, outstanding; by rewrite Hi, Hd).
  split; rewrite ?Hp; try done.
  - intros i Hs Hin. destruct (decide (touched (stream s) i)) as [Ht|Ht].
    + left. unfold agrees. rewrite (apply_all_touched _ (disk s)) by done. apply Hself.
    + right. split; [by apply Hb|done].
  - unfold phase_inv. by rewrite Hi.
Qed.

Definition loop_start (t : T) (s : tsys T) : Prop :=
  thread s = AtTest t /\ loop_ok t /\ copy_start (base s).

Lemma trun_invariant goal s0 s :
  zero_buffer skip_zero -> inv size skip_zero S0 (base s0) -> pc_inv goal s0 -> trun t_in_order s0 s ->
  run libc_fallocate size skip_zero in_order (base s0) (base s) /\
  inv size skip_zero S0 (base s) /\ pc_inv goal s.
Proof.
  intros Hz Hinv Hpc Hrun.
  induction Hrun as [s|s act s1 s2 Hok HG Hn Hrun IH]; [by split_and!; [constructor|..]|].
  assert (Hd : drives (base s) (base s1) /\ pc_inv goal s1).
  { destruct act as [it| | |].
    - apply opt_bind_Some in Hn as (b & Hb & [= <-]). split; [right; by exists (Guest it)|].
      by apply (pc_inv_other goal s b (Guest it)).
    - apply opt_bind_Some in Hn as (b & Hb & [= <-]). split; [right; by exists Apply|].
      by apply (pc_inv_other goal s b Apply).
    - injection Hn as <-. split; [by left|]. unfold pc_inv in *. cbn. destruct (thread s); try done.
      split; [apply Hpc|by left].
    - by apply thread_step. }
  destruct Hd as [[Eb|(a & Ha & Ho & Ea)] Hpc1].
  - rewrite <-Eb. apply IH; [by rewrite Eb|done].
  - destruct IH as (Hr & Hi2 & Hp2); [by eapply step_inv|done|]. split_and!; try done. by eapply run_step.
Qed.

Lemma loop_start_pc t s : loop_start t s -> pc_inv (left_of t) s.
Proof. intros (Et & Hok & Hs). unfold pc_inv. rewrite Et. split_and!; [apply Hs|done|]. by right. Qed.

(** After the sync the image that was synced stays. *)
Lemma synced_stays G s s' :
  thread s = Finished \/ thread s = Recording -> trun G s s' -> synced s' = synced s.
Proof.
  intros Hs Hrun. induction Hrun as [s|s act s1 s2 Hok HG Hn Hrun IH]; [done|].
  assert (thread s1 = Finished \/ thread s1 = Recording) as Ht.
  { destruct act; cbn [tsys_next] in Hn.
    1,2: by apply opt_bind_Some in Hn as (b & _ & [= <-]).
    - by injection Hn as <-.
    - unfold thread_next in Hn. destruct Hs as [E|E]; rewrite E in Hn; [done|]. injection Hn as <-. by left. }
  rewrite IH by done. destruct (synced_step _ _ _ Hn Ht) as [[E _]|[_ E]]; [|done]. by destruct Hs as [E'|E']; rewrite E in E'.
Qed.

(** The recorded end: there was a moment, after the loop, when the image that
    was synced was the replica. *)
Lemma synced_moment G s0 s :
  trun G s0 s -> thread s = Finished \/ thread s = Recording -> ~ (thread s0 = Finished \/ thread s0 = Recording) ->
  exists s1, trun G s0 s1 /\ trun G s1 s /\ thread s1 = AfterLoop /\ stopped s1 = false /\ synced s = img_of (core (base s1)).
Proof.
  intros Hrun Hs Hn0. induction Hrun as [s|s act s1 s2 Hok HG Hn Hrun IH]; [done|].
  assert (trun G s s2) as Hall by (by eapply trun_step).
  destruct (thread s1) eqn:Et.
  5,4: assert (thread s1 = Finished \/ thread s1 = Recording) as Ht by (rewrite Et; by (left + right));
    destruct (synced_step _ _ _ Hn Ht) as [[E Ey]|[E _]]; [|done]; exists s; rewrite (synced_stays _ _ _ Ht Hrun);
    split_and!; try done; [constructor|]; destruct (stopped s) eqn:Es; [|done]; exfalso; clear -Hn E Es Et;
    destruct act; cbn [tsys_next] in Hn; unfold thread_next in Hn; rewrite ?E, ?Es in Hn;
    [apply opt_bind_Some in Hn as (b & _ & [= <-])|apply opt_bind_Some in Hn as (b & _ & [= <-])|injection Hn as <-|injection Hn as <-];
    cbn in Et; congruence.
  all: destruct IH as (s3 & H1 & H2); [done|by intros [?|?]|]; exists s3; (split; [by eapply trun_step|done]).
Qed.

(** What a copy had synced when it recorded its end: the replica at a moment
    of the run, and with the records then pending the disk. *)
Lemma copy_synced goal t s0 s :
  loop_start t s0 -> pc_inv goal s0 -> trun t_in_order s0 s -> thread s = Finished ->
  exists s1, trun t_in_order s0 s1 /\ trun t_in_order s1 s /\ synced s = img_of (core (base s1)) /\
    forall i, goal i -> agrees (synced s) (pend (base s1)) (disk (base s1)) i.
Proof.
  intros (Et & Hok & Hs) Hpc Hrun Ef.
  destruct (synced_moment _ s0 s Hrun) as (s1 & H1 & H2 & E1 & Es & Ey); [by left|rewrite Et; by intros [?|?]|].
  exists s1. split_and!; try done. intros i Hi.
  destruct (trun_invariant _ _ _ (cs_zero_buffer _ Hs) (copy_start_inv _ Hs) Hpc H1) as (_ & Hi1 & Hp1).
  unfold pc_inv in Hp1. rewrite E1 in Hp1. destruct Hp1 as [_ [?|Hc]]; [congruence|].
  rewrite Ey. by apply (inv_covered _ _ _ _ Hi1), Hc.
Qed.


(** Once the loop is done and the ring is drained the replica is the disk
    wherever the loop or an earlier copy went. *)
Lemma copy_loop_converges t s0 s i :
  loop_start t s0 -> trun t_in_order s0 s -> thread s = Finished -> stream (base s) = [] ->
  left_of t i \/ is_covered (base s0) i -> img_of (core (base s)) i = disk (base s) i.
Proof.
  intros Hst Hrun Ef Eq Hi. pose proof (loop_start_pc t s0 Hst) as Hpc. destruct Hst as (Et & Hok & Hs).
  assert (Hpc' : pc_inv (fun j => left_of t j \/ is_covered (base s0) j) s0).
  { unfold pc_inv in *. rewrite Et in *. split_and!; try apply Hpc. intros j [?|?]; [by right|by left]. }
  destruct (trun_invariant _ _ _ (cs_zero_buffer _ Hs) (copy_start_inv _ Hs) Hpc' Hrun) as (_ & Hinv & Hp).
  unfold pc_inv in Hp. rewrite Ef in Hp. destruct Hp as [Hidle Hc].
  apply (inv_quiescent size skip_zero S0); [done|by split|by apply Hc].
Qed.
End Loop.

(** ** Progress

    With the guest silent every step brings the copy and the main thread
    closer to the end, and until then one of them can move.  No assumption on
    the order of the records is needed for that. *)

Section Progress.
Context {T : Type} `{CopyLoop T}.
Variable libc_fallocate : file -> Z -> Z -> fallocate_result.
Variable size : Z.
Variable skip_zero : option bytes.
Context {laws : CopyLoopLaws T size}.
Variable S0 : image.
Abbreviation next := (sys_next libc_fallocate size skip_zero).
Abbreviation tnext := (tsys_next libc_fallocate size skip_zero).
Abbreviation texec := (texec libc_fallocate size skip_zero).

(** What keeps the calls from raising. *)
Record healthy (s : sys) : Prop := {
  h_replica : replica_ok S0 size (replica (core s));
  h_items : Forall (fun it => item_wf it /\ item_in size it) (pend s);
  h_phase :
    match ph s with
    | Idle | Late _ => copying (core s) = None /\ deferred (core s) = []
    | Flagged off n => 0 <= off /\ 0 < n /\ off + n <= size
    | HasRead off n buf => 0 <= off /\ off + blen buf <= size
    | Landed _ _ => True
    end;
}.

Lemma inv_healthy s : inv size skip_zero S0 s -> healthy s.
Proof.
  intros [Hok Hit _ _ _ Hph]. split; [done..|]. unfold phase_inv in Hph.
  destruct (ph s); try done; [apply Hph|]. destruct Hph as (_ & Hc & Hb & _). unfold chunk_in in Hc. lia.
Qed.

(** Applying a record always succeeds; it is set aside or applied. *)
Lemma healthy_apply s it rest :
  healthy s -> stream s = it :: rest ->
  exists a', next s Apply = Some (mk_sys (disk s) rest a' (ph s) (covered s)) /\
    healthy (mk_sys (disk s) rest a' (ph s) (covered s)) /\
    (length (outstanding (mk_sys (disk s) rest a' (ph s) (covered s))) <= S (length (outstanding s)))%nat.
Proof.
  intros [Hok Hit Hph] Es. cbn [sys_next]. rewrite Es.
  assert (Hi : item_wf it /\ item_in size it).
  { unfold pend in Hit. rewrite Es in Hit. apply Forall_app in Hit as [_ Hit]. by apply Forall_cons in Hit as [? _]. }
  destruct (in_flight (copying (core s)) it.1) eqn:Hf.
  - rewrite apply_one_deferred by done. eexists. split; [done|].
    assert (Hnl : match ph s with Idle | Late _ => False | _ => True end).
    { destruct (ph s); try done; destruct Hph as [Hc _]; by rewrite Hc in Hf. }
    assert (Ho : forall rest', outstanding (mk_sys (disk s) rest'
      (with_copying (copying (core s)) (deferred (core s) ++ [it]) (core s)) (ph s) (covered s)) =
      outstanding s ++ [it]) by (intros; unfold outstanding; cbn; by destruct (ph s)).
    split; [|rewrite Ho, length_app; cbn; lia].
    split; [done| |cbn; by destruct (ph s)].
    unfold pend in *. rewrite Ho, <-app_assoc. cbn [stream app]. by rewrite <-Es.
  - destruct (apply_one_direct libc_fallocate S0 size (core s) it Hok (proj2 Hi) Hf)
      as (a' & -> & _ & Hok' & Hc & Hd & _).
    exists a'. split; [done|].
    assert (Ho : outstanding (mk_sys (disk s) rest a' (ph s) (covered s)) = outstanding s)
      by (unfold outstanding; cbn; by rewrite Hd).
    split; [|rewrite Ho; lia]. split; [done| |cbn; by rewrite Hc, Hd].
    unfold pend in *. rewrite Ho. cbn [stream]. rewrite Es in Hit. apply Forall_app in Hit as [Ha Hb].
    apply Forall_cons in Hb as [_ Hb]. by apply Forall_app.
Qed.

Lemma healthy_guest s it :
  healthy s -> item_wf it /\ item_in size it ->
  healthy (mk_sys (apply_img (disk s) it) (stream s ++ [it]) (core s) (ph s) (covered s)).
Proof.
  intros [Hok Hit Hph] Hi. split; [done| |done]. unfold pend, outstanding in *. cbn.
  rewrite app_assoc. apply Forall_app. split; [done|]. by apply Forall_singleton.
Qed.

(** The sections of [copy_chunk] always succeed. *)
Lemma healthy_section s act :
  healthy s ->
  match act, ph s with
  | Flag off n, Idle => 0 <= off /\ 0 < n /\ off + n <= size
  | Read, Flagged _ _ | Land, HasRead _ _ _ | Clear, Landed _ _
  | LateOne, Late (_ :: _) | Return, Late [] => True
  | _, _ => False
  end ->
  exists s', next s act = Some s' /\ healthy s' /\ stream s' = stream s /\
    length (outstanding s') =
      (length (outstanding s) - match act with LateOne => 1 | _ => 0 end)%nat /\
    ph s' = match act, ph s with
            | Flag off n, _ => Flagged off n
            | Read, Flagged off n => HasRead off n (dev_read (disk s) size off n)
            | Land, HasRead off n _ => Landed off n
            | Clear, _ => Late (deferred (core s))
            | LateOne, Late (_ :: l) => Late l
            | _, _ => Idle
            end.
Proof.
  intros [Hok Hit Hph] Ha. unfold pend, outstanding in Hit. unfold outstanding.
  destruct act as [it| |off n| | | | |]; try done; destruct (ph s) as [|o k|o k buf|o k|[|it late]] eqn:Ep; try done;
    cbn [sys_next]; rewrite Ep.
  - destruct Hph as [Hc Hd]. eexists. split; [done|]. rewrite Hd in *. split; [|done].
    split; [done|by unfold pend|done].
  - eexists. split; [done|]. split; [|split_and!; [done| |done]; cbn; lia].
    split; [done|by unfold pend|]. cbn. unfold dev_read. rewrite blen_img_read. lia.
  - destruct (copy_land_spec S0 size (core s) o buf skip_zero Hok) as (a' & -> & Hok' & Hc & Hd & _); [lia..|].
    eexists. split; [done|]. cbn. rewrite Hd. split; [|split_and!; [done| |done]; lia].
    split; [done| |done]. unfold pend, outstanding. cbn. by rewrite Hd.
  - eexists. split; [done|]. split; [|split_and!; [done| |done]; cbn; lia].
    split; [done|by unfold pend|done].
  - destruct Hph as [Hc0 Hd0]. cbn [app] in Hit. apply Forall_cons in Hit as [Hi Hit].
    destruct (apply_one_direct libc_fallocate S0 size (core s) it Hok (proj2 Hi)) as (a' & -> & _ & Hok' & Hc & Hd & _);
      [by rewrite Hc0|].
    eexists. split; [done|]. split; [|split_and!; [done| |done]; cbn; lia].
    split; [done|by unfold pend|]. cbn. by rewrite Hc, Hd.
  - destruct Hph as [Hc Hd]. eexists. split; [done|]. cbn. rewrite Hd.
    split; [|by split_and!]. split; [done| |done]. unfold pend, outstanding. cbn. by rewrite Hd.
Qed.

Definition thealthy (s : tsys T) : Prop :=
  healthy (base s) /\ pc_inv size (fun _ => False) s /\ (thread s = Interrupted -> stopped s = true).

Definition thread_done (s : tsys T) : Prop := thread s = Finished \/ thread s = Interrupted.

#[export] Instance thread_done_dec s : Decision (thread_done s).
Proof. unfold thread_done. destruct (thread s); (by left; auto) || (right; by intros [?|?]). Defined.

(** Steps still to come, at most, once the guest is silent. *)
Definition phase_steps (p : phase) : nat :=
  match p with Idle => 0 | Late _ => 1 | Landed _ _ => 2 | HasRead _ _ _ => 3 | Flagged _ _ => 4 end.

Definition thread_steps (s : tsys T) : nat :=
  match thread s with
  | AtTest t => 6 * chunks_left t + 5
  | InChunk t _ => 6 * chunks_left t + phase_steps (ph (base s))
  | AfterLoop => 3
  | Recording => 2
  | Finished | Interrupted => 0
  end.

Definition tmeasure (s : tsys T) : nat :=
  2 * length (stream (base s)) + length (outstanding (base s)) + thread_steps s.

Lemma copy_step s :
  thealthy s -> ~ thread_done s ->
  exists s', tnext s TCopy = Some s' /\ healthy (base s') /\ (tmeasure s' < tmeasure s)%nat /\
    stream (base s') = stream (base s) /\ stopped s' = stopped s.
Proof.
  intros (Hh & Hpc & _) Hnd. unfold pc_inv in Hpc. cbn [tsys_next]. unfold thread_next, tmeasure, thread_steps.
  destruct (thread s) as [t|t got| | | |] eqn:Et; try (by destruct Hnd; unfold thread_done; auto).
  - destruct Hpc as (Hi & Hok & _). destruct (if stopped s then None else chunk_request t) as [[off n]|] eqn:Er.
    + destruct (stopped s) eqn:Es; [done|].
      destruct (healthy_section (base s) (Flag off n) Hh) as (b & -> & Hb & Hst & Ho & Hp).
      { rewrite Hi. by apply (loop_request t). }
      eexists. split; [done|]. cbn. rewrite Hst, Ho, Hp. cbn. split_and!; try done. lia.
    + eexists. split; [done|]. cbn. split_and!; try done. lia.
  - destruct Hpc as [(off & n & Hok & Hreq & Hph) _].
    destruct (loop_advance t off n Hok Hreq) as (t' & Hd & Hok' & Hlt & _).
    destruct (ph (base s)) as [|o k|o k buf|o k|[|it late]] eqn:Ep; [done|..].
    all: match goal with
         | |- exists _, (next _ ?act ≫= _) = _ /\ _ =>
           destruct (healthy_section (base s) act Hh) as (b & -> & Hb & Hst & Ho & Hp);
             [by rewrite Ep|]; rewrite ?Ep in Hp
         end.
    all: eexists; split; [reflexivity|]; cbn; rewrite Hst, Ho, ?Hp; cbn; split_and!; try done; try lia.
    + destruct Hph as [-> _]. rewrite Hd. cbn. lia.
    + unfold outstanding. rewrite Ep. cbn. lia.
  - destruct (stopped s) eqn:Es; eexists; (split; [done|]); cbn; split_and!; try done; lia.
  - eexists. split; [done|]. cbn. split_and!; try done. lia.
Qed.

Lemma apply_step s :
  thealthy s -> stream (base s) <> [] ->
  exists s', tnext s TApply = Some s' /\ healthy (base s') /\ (tmeasure s' < tmeasure s)%nat /\
    stopped s' = stopped s.
Proof.
  intros (Hh & Hpc & _) Hne. destruct (stream (base s)) as [|it rest] eqn:Es; [done|].
  destruct (healthy_apply (base s) it rest Hh Es) as (a' & E & Hb & Hlt).
  cbn [tsys_next]. rewrite E. eexists. split; [done|]. split; [done|]. split; [|done].
  unfold tmeasure. cbn [with_base_sys base stream]. rewrite Es. cbn [length].
  change (thread_steps (with_base_sys _ (thread s) s)) with (thread_steps s). lia.
Qed.

Definition quiet (act : taction) : Prop := act = TApply \/ act = TCopy.

Lemma interrupted_step s act s' :
  tnext s act = Some s' -> (thread s = Interrupted -> stopped s = true) ->
  thread s' = Interrupted -> stopped s' = true.
Proof.
  destruct act; cbn [tsys_next].
  1,2: by intros (b & _ & [= <-])%opt_bind_Some.
  - by intros [= <-].
  - unfold thread_next. destruct (thread s) as [t|t got| | | |] eqn:Et; try done.
    + destruct (if stopped s then None else chunk_request t) as [[off n]|];
        [intros (b & _ & [= <-])%opt_bind_Some|intros [= <-]]; done.
    + destruct (ph (base s)) as [| | | |[|]]; try done; intros (b & _ & [= <-])%opt_bind_Some; try done.
      cbn. by destruct (chunk_done t got).
    + destruct (stopped s) eqn:Es; by intros [= <-].
    + by intros [= <-].
Qed.

Lemma tnext_healthy s act s' :
  thealthy s -> taction_ok size act -> tnext s act = Some s' -> thealthy s'.
Proof.
  intros Hs Hok Hn. split_and!; [| |eapply interrupted_step; [done|apply Hs]].
  - destruct act as [it| | |].
    + apply opt_bind_Some in Hn as (b & [= <-] & [= <-]). apply healthy_guest; [apply Hs|done].
    + destruct (stream (base s)) as [|it rest] eqn:Es; [cbn in Hn; by rewrite Es in Hn|].
      destruct (apply_step s Hs) as (s1 & E & Hh & _); [by rewrite Es|]. rewrite E in Hn. by injection Hn as <-.
    + injection Hn as <-. apply Hs.
    + destruct (decide (thread_done s)) as [[Et|Et]|Hnd]; [by cbn in Hn; unfold thread_next in Hn; rewrite Et in Hn..|].
      destruct (copy_step s Hs Hnd) as (s1 & E & Hh & _). rewrite E in Hn. by injection Hn as <-.
  - destruct Hs as (_ & Hpc & _). destruct act as [it| | |].
    + apply opt_bind_Some in Hn as (b & Hb & [= <-]). by apply (pc_inv_other libc_fallocate size skip_zero _ s b (Guest it)).
    + apply opt_bind_Some in Hn as (b & Hb & [= <-]). by apply (pc_inv_other libc_fallocate size skip_zero _ s b Apply).
    + injection Hn as <-. unfold pc_inv in *. cbn. destruct (thread s); try done. split; [apply Hpc|by left].
    + by apply (thread_step libc_fallocate size skip_zero _ s s').
Qed.

Lemma quiet_step s act s' :
  thealthy s -> quiet act -> tnext s act = Some s' ->
  thealthy s' /\ (tmeasure s' < tmeasure s)%nat /\ stopped s' = stopped s.
Proof.
  intros Hs Hq Hn. split; [eapply tnext_healthy; [done| |done]; by destruct Hq as [-> | ->]|].
  destruct Hq as [-> | ->].
  - destruct (stream (base s)) as [|it rest] eqn:Es; [cbn in Hn; by rewrite Es in Hn|].
    destruct (apply_step s Hs) as (s1 & E & _ & ? & ?); [by rewrite Es|]. rewrite E in Hn. by injection Hn as <-.
  - destruct (decide (thread_done s)) as [[Et|Et]|Hnd]; [by cbn in Hn; unfold thread_next in Hn; rewrite Et in Hn..|].
    destruct (copy_step s Hs Hnd) as (s1 & E & _ & ? & _ & ?). rewrite E in Hn. by injection Hn as <-.
Qed.

Lemma texec_quiet acts : forall s s',
  thealthy s -> Forall quiet acts -> texec s acts = Some s' ->
  thealthy s' /\ (tmeasure s' + length acts <= tmeasure s)%nat /\ stopped s' = stopped s.
Proof.
  induction acts as [|act acts IH]; intros s s' Hs HF; cbn [length CopyRuns.texec].
  - intros [= <-]. split_and!; done || lia.
  - apply Forall_cons in HF as [Hq HF]. intros (s1 & E & E1)%opt_bind_Some.
    destruct (quiet_step s act s1 Hs Hq E) as (Hs1 & Hlt & Hst).
    destruct (IH s1 s' Hs1 HF E1) as (Hs' & Hle & Hst'). split_and!; [done|lia|congruence].
Qed.

Lemma quiet_enabled s :
  thealthy s -> (thread_done s /\ stream (base s) = []) \/ exists act s', quiet act /\ tnext s act = Some s'.
Proof.
  intros Hs. destruct (decide (thread_done s)) as [Hd|Hd].
  - destruct (decide (stream (base s) = [])) as [Eq|Hne]; [by left|right].
    destruct (apply_step s Hs Hne) as (s' & E & _). exists TApply, s'. split; [by left|done].
  - right. destruct (copy_step s Hs Hd) as (s' & E & _). exists TCopy, s'. split; [by right|done].
Qed.

Lemma trun_healthy G s0 s : thealthy s0 -> trun libc_fallocate size skip_zero G s0 s -> thealthy s.
Proof. intros Hs. induction 1 as [|s0 act s1 s2 Hok _ Hn _ IH]; [done|]. by eapply IH, tnext_healthy. Qed.

Lemma loop_start_healthy t s : loop_start size skip_zero S0 t s -> thealthy s.
Proof.
  intros (Et & Hok & Hs). split_and!; [by apply inv_healthy, copy_start_inv| |by rewrite Et].
  unfold pc_inv. rewrite Et. split_and!; [apply Hs|done|done].
Qed.

(** The copy thread alone gets to its end. *)
Lemma copy_alone_completes n : forall s,
  thealthy s -> (tmeasure s <= n)%nat ->
  exists k s', (k <= n)%nat /\ texec s (replicate k TCopy) = Some s' /\ thread_done s' /\
    stream (base s') = stream (base s).
Proof.
  induction n as [|n IH]; intros s Hs Hle.
  all: destruct (decide (thread_done s)) as [Hd|Hd]; [by exists 0%nat, s; split_and!; [lia|..]|].
  all: destruct (copy_step s Hs Hd) as (s1 & E & _ & Hlt & Hst & _).
  { lia. }
  destruct (IH s1) as (k & s' & Hk & E' & Hd' & Eq); [by apply (tnext_healthy s TCopy)|lia|].
  exists (S k), s'. cbn [replicate CopyRuns.texec]. rewrite E. split_and!; [lia|done|done|congruence].
Qed.

(** C8: the copy gets done.  From every state a copy can get into, however
    records, writes and signals were interleaved: the copy thread is at its
    end or can take a step; left to itself it takes a bounded number of steps
    to its end, which is the recorded one when no signal came; and once the
    guest is silent the copy and the main thread together take only a bounded
    number of steps, and one of them can move until the copy has ended and
    the ring is drained. *)
Theorem copy_loop_completes t s0 s :
  loop_start size skip_zero S0 t s0 -> trun libc_fallocate size skip_zero (fun _ _ => True) s0 s ->
  (thread_done s \/ exists s', tnext s TCopy = Some s') /\
  (exists k s', (k <= tmeasure s)%nat /\ texec s (replicate k TCopy) = Some s' /\ thread_done s' /\
    (stopped s = false -> thread s' = Finished)) /\
  (forall acts s', Forall quiet acts -> texec s acts = Some s' ->
    (length acts <= tmeasure s)%nat /\
    ((thread_done s' /\ stream (base s') = []) \/ exists act s'', quiet act /\ tnext s' act = Some s'')).
Proof.
  intros Hst Hrun. pose proof (trun_healthy _ _ _ (loop_start_healthy t s0 Hst) Hrun) as Hs. split_and!.
  - destruct (decide (thread_done s)) as [Hd|Hd]; [by left|right].
    destruct (copy_step s Hs Hd) as (s' & E & _). by exists s'.
  - destruct (copy_alone_completes (tmeasure s) s Hs) as (k & s' & Hk & E & Hd & _); [done|].
    destruct (texec_quiet (replicate k TCopy) s s' Hs) as (Hs' & _ & Hstop); [apply Forall_replicate; by right|done|].
    exists k, s'. split_and!; try done. intros Hns. destruct Hd as [?|Hi]; [done|]. apply Hs' in Hi. congruence.
  - intros acts s' HF E. destruct (texec_quiet acts s s' Hs HF E) as (Hs' & Hle & _).
    split; [clear -Hle; lia|by apply quiet_enabled].
Qed.
End Progress.

(** ** Concrete runs *)

Section Trace.
Context {T : Type} `{CopyLoop T}.
Variable libc_fallocate : file -> Z -> Z -> fallocate_result.
Variable size : Z.
Variable skip_zero : option bytes.

(** A test that is enough for the order: the next record is set aside, or
    nothing is. *)
Definition order_test (s : tsys T) (act : taction) : bool :=
  match act, stream (base s) with
  | TApply, it :: _ =>
      in_flight (copying (core (base s))) it.1 || (length (outstanding (base s)) =? 0)%nat
  | _, _ => true
  end.

Lemma order_test_spec s act : order_test s act = true -> t_in_order s act.
Proof.
  destruct act; try done. unfold order_test, t_in_order, in_order.
  destruct (stream (base s)) as [|it rest]; [done|]. intros [Hf|Ho]%orb_true_iff Hn; [congruence|].
  apply Nat.eqb_eq, nil_length_inv in Ho. by rewrite Ho.
Qed.

(** Executes a list of actions that pass the test. *)
Fixpoint texec_ordered (s : tsys T) (acts : list taction) : option (tsys T) :=
  match acts with
  | [] => Some s
  | act :: acts' =>
      if order_test s act then s1 ← tsys_next libc_fallocate size skip_zero s act; texec_ordered s1 acts'
      else None
  end.

Lemma texec_ordered_run acts : forall s s',
  Forall (taction_ok size) acts -> texec_ordered s acts = Some s' ->
  texec libc_fallocate size skip_zero s acts = Some s' /\ trun libc_fallocate size skip_zero t_in_order s s'.
Proof.
  induction acts as [|act acts IH]; intros s s' HF; cbn [texec texec_ordered].
  - intros [= <-]. split; [done|constructor].
  - apply Forall_cons in HF as [Ho HF]. destruct (order_test s act) eqn:Et; [|done].
    intros (s1 & E & E')%opt_bind_Some. destruct (IH s1 s' HF E') as [Hx Hr]. rewrite E. split; [done|].
    eapply trun_step; [done| |done..]. by apply order_test_spec.
Qed.
End Trace.

(** A base copy of one chunk, with a write set aside while it is in flight. *)
Definition one_chunk : tsys base_pos := mk_tsys (blank_sys 1024 []) (AtTest (mk_base_pos 0)) false zero_image.

Lemma one_chunk_start :
  loop_start (laws := base_loop_laws 1024 1024 ltac:(lia)) 1024 (Some (replicate 1024 x00)) zero_image
    (mk_base_pos 0) one_chunk.
Proof.
  split; [done|]. split; [cbn; lia|]. split; try done. by apply Forall_replicate.
Qed.

Definition one_chunk_schedule : list taction :=
  [TCopy; TGuest (write_item 0 Byte.x41); TCopy; TApply; TCopy; TCopy; TCopy; TCopy].


Lemma copy_loop_completes_witness :
  exists k s', texec (H := base_loop 1024 1024) (fun _ _ _ => FaZero) 1024 (Some (replicate 1024 x00)) one_chunk (replicate k TCopy) = Some s' /\
    thread s' = Finished.
Proof.
  destruct (copy_loop_completes (fun _ _ _ => FaZero) 1024 (Some (replicate 1024 x00)) zero_image
    (mk_base_pos 0) one_chunk one_chunk one_chunk_start (trun_refl _ _ _ _ _)) as (_ & (k & s' & _ & E & _ & Hf) & _).
  exists k, s'. exact (conj E (Hf eq_refl)).
Defined.
