(* ===== verification/Consume.v ===== *)
(** * Consuming the record stream ([Daemon.consume], [Daemon.apply_pending])

    What the main thread does with the bytes it reads from [/dev/cdpN]: every
    complete record is applied to the replica, or, while [.rebuild.lock]
    exists, parked in [pending.bin] and applied from there later.  The bytes
    of an incomplete record are carried over to the next read.  The state
    [feed] is the part of the daemon and of the node directory this touches. *)
From S2P Require Import Prelude Dmcdp Files Seed Replica Apply.

Definition READ_SZ : Z := 16 * 2 ^ 20.

Record feed : Type := mk_feed {
  fd_app : applier;
  gap_seen : option Z;
  recovery_queue : list Z;
  pending_bin : option bytes;      (* None: pending.bin does not exist *)
  rebuild_lock : bool;             (* .rebuild.lock exists *)
}.

Definition set_app (a : applier) (s : feed) : feed :=
  mk_feed a (gap_seen s) (recovery_queue s) (pending_bin s) (rebuild_lock s).
Definition set_gap (seq : Z) (s : feed) : feed :=
  mk_feed (fd_app s) (Some seq) (recovery_queue s ++ [seq]) (pending_bin s) (rebuild_lock s).
Definition set_pending (p : option bytes) (s : feed) : feed :=
  mk_feed (fd_app s) (gap_seen s) (recovery_queue s) p (rebuild_lock s).
Definition set_lock (l : bool) (s : feed) : feed :=
  mk_feed (fd_app s) (gap_seen s) (recovery_queue s) (pending_bin s) l.

(** [Daemon.paused] *)
Definition paused : SM feed bool := sm_get rebuild_lock.

Section Libc.
Variable libc_fallocate : file -> Z -> Z -> fallocate_result.

(** [self.apply_one(r, payload)] *)
Definition do_apply_one (it : item) : SM feed unit := fun s =>
  match apply_one libc_fallocate (fd_app s) it with
  | Ok a => (Ok tt, set_app a s)
  | Raise e => (Raise e, s)
  | Forever => (Forever, s)
  end.

(** [if r.flags & F_GAP_BEFORE and r.seq != self.gap_seen: ...] *)
Definition note_gap (r : rec) : SM feed unit :=
  sm_upd (fun s =>
    if negb (Z.land (r_flags r) F_GAP_BEFORE =? 0) && bool_decide (Some (r_seq r) <> gap_seen s)
    then set_gap (r_seq r) s else s).

(** The body of the loop over the records: the offset and the parked bytes. *)
Fixpoint consume_loop (buf : bytes) (park : bool) (items : list item) (off : Z)
    (parked : bytes) : SM feed (Z * bytes) :=
  match items with
  | [] => mret (off, parked)
  | (r, payload) :: items' =>
      note_gap r;;
      if park then
        consume_loop buf park items' (off + r_rec_len r)
          (parked ++ buf.[off : off + r_rec_len r])
      else
        do_apply_one (r, payload);;
        consume_loop buf park items' (off + r_rec_len r) parked
  end.

(** How the [for] statement goes on when the generator is exhausted. *)
Definition gen_result (e : gen_end) : res unit :=
  match e with GDone _ => Ok tt | GRaise x => Raise x | GForever => Forever end.

(** [open(self.pending_path, "ab").write(parked)] *)
Definition append_pending (parked : bytes) : SM feed unit :=
  sm_upd (fun s => set_pending (Some (default [] (pending_bin s) ++ parked)) s).

(** [Daemon.consume] *)
Definition consume (buf : bytes) : SM feed bytes :=
  park ← paused;
  let '(items, e) := iter_records buf in
  '(off, parked) ← consume_loop buf park items 0 [];
  sm_res (gen_result e);;
  (if bool_decide (parked <> []) then append_pending parked else mret tt);;
  mret (buf.[off : ]).

(** The records of one chunk of [pending.bin], and where they end. *)
Fixpoint apply_loop (items : list item) (off : Z) : SM feed Z :=
  match items with
  | [] => mret off
  | (r, payload) :: items' =>
      do_apply_one (r, payload);; apply_loop items' (off + r_rec_len r)
  end.

(** [while True: chunk = f.read(READ_SZ); ...] from position [pos] of the
    file; each round reads at least one byte. *)
Fixpoint apply_pending_loop (read_sz : Z) (fuel : nat) (f : bytes) (pos : Z) (tail : bytes)
    : SM feed unit :=
  match fuel with
  | O => sm_res Forever
  | S fuel' =>
      let chunk := f.[pos : Z.min (pos + read_sz) (blen f)] in
      if bool_decide (chunk = []) then mret tt
      else
        let buf := tail ++ chunk in
        let '(items, e) := iter_records buf in
        off ← apply_loop items 0;
        sm_res (gen_result e);;
        apply_pending_loop read_sz fuel' f (pos + blen chunk) (buf.[off : ])
  end.

(** [Daemon.apply_pending]; [read_sz] is [READ_SZ] in the program. *)
Definition apply_pending (read_sz : Z) : SM feed unit :=
  p ← sm_get pending_bin;
  match p with
  | None => mret tt
  | Some f =>
      apply_pending_loop read_sz (S (length f)) f 0 [];;
      sm_upd (set_pending None)
  end.

(** The main loop's calls of [consume], one per successful read: the tail of
    one call is the beginning of the next call's buffer. *)
Fixpoint consume_reads (pending : bytes) (reads : list bytes) : SM feed bytes :=
  match reads with
  | [] => mret pending
  | data :: reads' => pending' ← consume (pending ++ data); consume_reads pending' reads'
  end.
End Libc.

(** *** The lock file is never written here *)

Section Keeps.
Variable libc_fallocate : file -> Z -> Z -> fallocate_result.

Lemma do_apply_one_lock it : keeps rebuild_lock (do_apply_one libc_fallocate it).
Proof. intros s. unfold do_apply_one. by destruct (apply_one _ _ _). Qed.

Lemma note_gap_lock r : keeps rebuild_lock (note_gap r).
Proof. apply keeps_upd. intros s. by destruct (_ && _). Qed.

Lemma consume_loop_lock buf park items : forall off parked,
  keeps rebuild_lock (consume_loop libc_fallocate buf park items off parked).
Proof.
  induction items as [|[r p] items IH]; intros off parked; cbn; [apply keeps_ret|].
  apply keeps_bind; [apply note_gap_lock|]. intros _. apply keeps_if; [apply IH|].
  apply keeps_bind; [apply do_apply_one_lock|]. intros _. apply IH.
Qed.

Lemma consume_lock buf : keeps rebuild_lock (consume libc_fallocate buf).
Proof.
  unfold consume. apply keeps_bind; [apply keeps_get|]. intros park.
  destruct (iter_records buf) as [items e]. apply keeps_bind; [apply consume_loop_lock|].
  intros [off parked]. unfold append_pending. keeps_step.
Qed.
End Keeps.

#[export] Hint Resolve do_apply_one_lock note_gap_lock consume_loop_lock consume_lock : keeps.

(** ** Whole records and arbitrary reads *)

Abbreviation frames_ok := (Forall (fun '(b, r) => frame b r)).

(** The records of a list of frames, as the iterator yields them. *)
Abbreviation items_of := (fmap frame_item).

(** A prefix of a record, or of an incomplete record, is incomplete. *)
Lemma partial_record_prefix p q : partial_record (p ++ q) -> partial_record p.
Proof.
  intros H. destruct (decide (blen p < REC_SIZE)) as [|L]; [by left|right].
  pose proof (blen_nonneg q).
  destruct H as [H|(r & Hr & Hl)]; rewrite blen_app in *; [lia|].
  exists r. rewrite Rec_init_app in Hr by lia. split; [done|lia].
Qed.

Lemma partial_record_frame p q r : frame (p ++ q) r -> q <> [] -> partial_record p.
Proof.
  intros [Hi Hl _] Hq. destruct (decide (blen p < REC_SIZE)) as [|L]; [by left|right].
  exists r. rewrite Rec_init_app in Hi by lia. split; [done|].
  rewrite Hl, blen_app. destruct q; [done|]. rewrite blen_cons. pose proof (blen_nonneg q). lia.
Qed.

(** Cutting a stream anywhere leaves whole records and an incomplete one on the
    left. *)
Lemma frames_split frames tail p q :
  frames_ok frames -> partial_record tail -> p ++ q = concat frames.*1 ++ tail ->
  exists f1 f2 t, frames = f1 ++ f2 /\ p = concat f1.*1 ++ t /\ partial_record t /\
    t ++ q = concat f2.*1 ++ tail.
Proof.
  intros HF HT. revert p; induction HF as [|[b r] frames F HF IH]; intros p E; cbn in E.
  - exists [], [], p. subst tail. split_and!; try done. by eapply partial_record_prefix.
  - rewrite <-app_assoc in E.
    apply app_eq_inv in E as [(p2 & -> & Ep)|(b2 & -> & ->)].
    + destruct (IH p2) as (f1 & f2 & t & -> & -> & Ht & E2); [done|].
      exists ((b, r) :: f1), f2, t. cbn. by rewrite <-app_assoc.
    + destruct (decide (b2 = [])) as [->|Hne].
      * rewrite app_nil_r in *. destruct (IH [] eq_refl) as (f1 & f2 & t & -> & E1 & Ht & E2).
        symmetry in E1. apply app_nil in E1 as [E1 ->].
        exists ((p, r) :: f1), f2, []. cbn. rewrite E1, !app_nil_r. by split_and!.
      * exists [], ((p ++ b2, r) :: frames), p. cbn. split_and!; try done.
        { by eapply partial_record_frame. }
        by rewrite <-!app_assoc.
Qed.

(** The frames of a stream do not depend on where it is cut. *)
Lemma frames_size items_len frames :
  frames_ok frames -> items_len = foldr (fun it n => r_rec_len it.1 + n) 0 (items_of frames) ->
  items_len = blen (concat frames.*1).
Proof.
  intros HF ->. induction HF as [|[b r] frames F HF IH]; [done|].
  cbn. rewrite blen_app, <-IH. by rewrite (frame_len _ _ F).
Qed.

Definition total_len (items : list item) : Z := foldr (fun it n => r_rec_len it.1 + n) 0 items.

Lemma total_len_frames frames : frames_ok frames -> total_len (items_of frames) = blen (concat frames.*1).
Proof. intros HF. by apply frames_size. Qed.

Lemma frames_nonneg frames : frames_ok frames -> Forall (fun it => 0 <= r_rec_len it.1) (items_of frames).
Proof.
  induction 1 as [|[b r] frames F HF IH]; constructor; [|done].
  cbn. rewrite (frame_len _ _ F). apply blen_nonneg.
Qed.

Lemma total_len_nonneg items : Forall (fun it => 0 <= r_rec_len it.1) items -> 0 <= total_len items.
Proof. unfold total_len. induction 1; cbn; lia. Qed.

Lemma slice_join {A} (l : list A) a b c :
  0 <= a -> a <= b -> b <= c -> l.[a : b] ++ l.[b : c] = l.[a : c].
Proof.
  intros. unfold slice.
  replace (Z.to_nat b) with (Z.to_nat a + Z.to_nat (b - a))%nat by lia.
  rewrite <-drop_drop.
  replace (Z.to_nat (c - a)) with (Z.to_nat (b - a) + Z.to_nat (c - b))%nat by lia.
  by rewrite take_take_drop.
Qed.

Lemma records_are_wf frames : frames_ok frames -> Forall item_wf (items_of frames).
Proof.
  induction 1 as [|[b r] frames F HF IH]; constructor; [|done].
  destruct (Rec_init_range _ _ _ (frame_init _ _ F)) as (_&_&_&[? _]&[? _]&_).
  cbn. split_and!; try done. intros Ew. unfold rec_payload.
  pose proof (frame_payload _ _ F Ew) as Hp. unfold payload_len in Hp.
  rewrite (frame_len _ _ F) in Hp. change REC_SIZE with 56 in *.
  rewrite (proj2 (Z.eqb_eq _ _) Ew), blen_slice; lia.
Qed.

(** ** Gap bookkeeping *)

Definition gap_rec (it : item) : Prop := Z.land (r_flags it.1) F_GAP_BEFORE <> 0.

#[export] Instance gap_rec_dec it : Decision (gap_rec it).
Proof. unfold gap_rec. apply _. Defined.

Definition gap_seqs (items : list item) : list Z := (fun it : item => r_seq it.1) <$> filter gap_rec items.

Definition scan_gap (s : feed) (it : item) : feed :=
  if decide (gap_rec it /\ Some (r_seq it.1) <> gap_seen s) then set_gap (r_seq it.1) s else s.

Definition scan_gaps (items : list item) (s : feed) : feed := foldl scan_gap s items.

Lemma note_gap_scan it s : note_gap it.1 s = (Ok tt, scan_gap s it).
Proof.
  unfold note_gap, sm_upd, scan_gap, gap_rec. f_equal.
  destruct (Z.eqb_spec (Z.land (r_flags it.1) F_GAP_BEFORE) 0); cbn; repeat case_bool_decide;
    case_decide; tauto || naive_solver.
Qed.

Lemma scan_gap_frame it s :
  fd_app (scan_gap s it) = fd_app s /\ pending_bin (scan_gap s it) = pending_bin s /\
  rebuild_lock (scan_gap s it) = rebuild_lock s /\
  forall a, scan_gap (set_app a s) it = set_app a (scan_gap s it).
Proof. unfold scan_gap. cbn. by case_decide. Qed.

Lemma scan_gaps_frame items s :
  fd_app (scan_gaps items s) = fd_app s /\ pending_bin (scan_gaps items s) = pending_bin s /\
  rebuild_lock (scan_gaps items s) = rebuild_lock s.
Proof.
  revert s; induction items as [|it items IH]; intros s; [done|]. cbn.
  destruct (scan_gap_frame it s) as (<- & <- & <- & _). apply IH.
Qed.

Lemma scan_gaps_set_app items a s : scan_gaps items (set_app a s) = set_app a (scan_gaps items s).
Proof.
  revert s; induction items as [|it items IH]; intros s; [done|]. cbn.
  rewrite (proj2 (proj2 (proj2 (scan_gap_frame it s)))). apply IH.
Qed.

Lemma scan_gaps_set_pending items p s :
  scan_gaps items (set_pending p s) = set_pending p (scan_gaps items s).
Proof.
  revert s; induction items as [|it items IH]; intros s; [done|]. cbn.
  assert (E : scan_gap (set_pending p s) it = set_pending p (scan_gap s it)).
  { unfold scan_gap. cbn. by case_decide. }
  rewrite E. apply IH.
Qed.

Lemma scan_gaps_app items1 items2 s :
  scan_gaps (items1 ++ items2) s = scan_gaps items2 (scan_gaps items1 s).
Proof. apply foldl_app. Qed.

Lemma gap_seqs_cons it items :
  gap_seqs (it :: items) = if decide (gap_rec it) then r_seq it.1 :: gap_seqs items else gap_seqs items.
Proof. unfold gap_seqs. rewrite filter_cons. by case_decide. Qed.

(** When no sequence number comes twice, each gap is queued once, in order. *)
Lemma scan_gaps_queue items s :
  NoDup (gap_seqs items) -> (forall g, gap_seen s = Some g -> g ∉ gap_seqs items) ->
  recovery_queue (scan_gaps items s) = recovery_queue s ++ gap_seqs items.
Proof.
  revert s; induction items as [|it items IH]; intros s; [by rewrite app_nil_r|].
  rewrite gap_seqs_cons. change (scan_gaps (it :: items) s) with (scan_gaps items (scan_gap s it)).
  unfold scan_gap. destruct (decide (gap_rec it)) as [G|G]; intros Hn Hs.
  - apply NoDup_cons in Hn as [Hi Hn]. rewrite decide_True.
    2:{ split; [done|]. intros E. apply (Hs (r_seq it.1)); [done|]. by left. }
    rewrite IH; [cbn; by rewrite <-app_assoc|done|]. by intros g [= <-].
  - rewrite decide_False by tauto. by apply IH.
Qed.

(** ** What one call does *)

Section Spec.
Variable libc_fallocate : file -> Z -> Z -> fallocate_result.
Abbreviation apply_items := (apply_items libc_fallocate).
Abbreviation consume_loop := (consume_loop libc_fallocate).
Abbreviation consume := (consume libc_fallocate).
Abbreviation consume_reads := (consume_reads libc_fallocate).
Abbreviation apply_pending := (apply_pending libc_fallocate).

Lemma do_apply_one_Ok it s a :
  apply_one libc_fallocate (fd_app s) it = Ok a ->
  do_apply_one libc_fallocate it s = (Ok tt, set_app a s).
Proof. unfold do_apply_one. by intros ->. Qed.

Lemma consume_loop_unparked buf items : forall off parked s a',
  apply_items (fd_app s) items = Ok a' ->
  consume_loop buf false items off parked s =
    (Ok (off + total_len items, parked), set_app a' (scan_gaps items s)).
Proof.
  induction items as [|[r p] items IH]; intros off parked s a'; cbn [Apply.apply_items].
  - intros [= <-]. cbn. rewrite Z.add_0_r. by destruct s.
  - intros H. apply res_bind_Ok_inv in H as (a1 & E1 & E2).
    cbn [Consume.consume_loop]. rewrite (sm_bind_Ok _ _ _ _ _ (note_gap_scan (r, p) s)).
    destruct (scan_gap_frame (r, p) s) as (Ea & _ & _ & Hset).
    rewrite (sm_bind_Ok _ _ _ tt (set_app a1 (scan_gap s (r, p))))
      by (apply do_apply_one_Ok; by rewrite Ea).
    rewrite (IH _ _ _ a') by done. rewrite scan_gaps_set_app. cbn. by rewrite Z.add_assoc.
Qed.

Lemma consume_loop_parked buf items : forall off parked s,
  0 <= off -> Forall (fun it => 0 <= r_rec_len it.1) items ->
  consume_loop buf true items off parked s =
    (Ok (off + total_len items, parked ++ buf.[off : off + total_len items]),
     scan_gaps items s).
Proof.
  induction items as [|[r p] items IH]; intros off parked s Ho HF.
  - cbn. rewrite Z.add_0_r, slice_empty, app_nil_r by lia. done.
  - apply Forall_cons in HF as [Hr HF]. cbn [fst] in Hr.
    cbn [Consume.consume_loop]. rewrite (sm_bind_Ok _ _ _ _ _ (note_gap_scan (r, p) s)).
    rewrite IH by (done || lia). pose proof (total_len_nonneg _ HF) as Ht.
    rewrite <-app_assoc, slice_join by lia.
    change (total_len ((r, p) :: items)) with (r_rec_len r + total_len items).
    by rewrite Z.add_assoc.
Qed.

(** Whole records, not paused: all of them are applied. *)
Lemma consume_whole frames tail s a' :
  frames_ok frames -> partial_record tail -> rebuild_lock s = false ->
  apply_items (fd_app s) (items_of frames) = Ok a' ->
  consume (concat frames.*1 ++ tail) s = (Ok tail, set_app a' (scan_gaps (items_of frames) s)).
Proof.
  intros HF HT Hl Ha. unfold Consume.consume.
  rewrite (sm_bind_Ok _ _ _ false s) by (unfold paused, sm_get; by rewrite Hl).
  rewrite iter_records_whole by done.
  rewrite (sm_bind_Ok _ _ _ _ _ (consume_loop_unparked _ _ 0 [] s a' Ha)).
  rewrite total_len_frames, Z.add_0_l, slice_from_blen by done. done.
Qed.

(** Whole records, paused: all of them are parked. *)
Lemma consume_whole_parked frames tail s :
  frames_ok frames -> partial_record tail -> rebuild_lock s = true ->
  consume (concat frames.*1 ++ tail) s =
    (Ok tail,
     let s' := scan_gaps (items_of frames) s in
     if decide (frames = []) then s'
     else set_pending (Some (default [] (pending_bin s) ++ concat frames.*1)) s').
Proof.
  intros HF HT Hl. unfold Consume.consume.
  rewrite (sm_bind_Ok _ _ _ true s) by (unfold paused, sm_get; by rewrite Hl).
  rewrite iter_records_whole by done.
  rewrite (sm_bind_Ok _ _ _ _ _
    (consume_loop_parked _ _ 0 [] s ltac:(lia) (frames_nonneg _ HF))).
  rewrite total_len_frames, Z.add_0_l, slice_from_blen, slice_prefix by done. cbn [app].
  destruct (decide (frames = [])) as [->|Hne]; [done|].
  rewrite bool_decide_eq_true_2.
  2:{ destruct frames as [|[b r] frames]; [done|]. apply Forall_cons in HF as [F _].
      pose proof (frame_size _ _ F) as Hs. change REC_SIZE with 56 in Hs. cbn.
      intros E. apply app_nil in E as [-> _]. rewrite blen_nil in Hs. lia. }
  unfold append_pending, mbind, SM_bind, sm_res, sm_upd. cbn.
  by rewrite (proj1 (proj2 (scan_gaps_frame (items_of frames) s))).
Qed.

(** *** Reads that cut the stream anywhere *)

Lemma consume_reads_whole reads : forall pending frames tail s a',
  frames_ok frames -> partial_record tail -> partial_record pending ->
  pending ++ concat reads = concat frames.*1 ++ tail -> rebuild_lock s = false ->
  apply_items (fd_app s) (items_of frames) = Ok a' ->
  consume_reads pending reads s = (Ok tail, set_app a' (scan_gaps (items_of frames) s)).
Proof.
  induction reads as [|data reads IH]; intros pending frames tail s a' HF HT HP E Hl Ha.
  - cbn in E. rewrite app_nil_r in E. cbn. destruct frames as [|[b r] frames].
    + cbn in *. subst pending. injection Ha as <-. by destruct s.
    + apply Forall_cons in HF as [F HF]. cbn in E. rewrite <-app_assoc in E.
      exfalso. subst pending. apply partial_record_prefix in HP.
      pose proof (frame_size _ _ F). destruct HP as [HP|(r' & Hr' & HP)]; [lia|].
      rewrite (frame_init _ _ F) in Hr'. injection Hr' as <-.
      rewrite (frame_len _ _ F) in HP. lia.
  - cbn [concat] in E. rewrite app_assoc in E.
    destruct (frames_split frames tail (pending ++ data) (concat reads) HF HT E)
      as (f1 & f2 & t & -> & E1 & Ht & E2).
    apply Forall_app in HF as [HF1 HF2]. rewrite fmap_app, apply_items_app in Ha.
    apply res_bind_Ok_inv in Ha as (a1 & Ha1 & Ha2).
    cbn [Consume.consume_reads]. rewrite E1.
    rewrite (sm_bind_Ok _ _ _ _ _ (consume_whole f1 t s a1 HF1 Ht Hl Ha1)).
    rewrite (IH t f2 tail _ a' HF2 HT Ht E2);
      [|cbn; by rewrite (proj2 (proj2 (scan_gaps_frame _ _)))|done].
    rewrite scan_gaps_set_app, fmap_app, scan_gaps_app. done.
Qed.

Lemma set_pending_same s : set_pending (pending_bin s) s = s.
Proof. by destruct s. Qed.

(** While the lock is there, [pending.bin] collects exactly the whole
    records. *)
Lemma consume_reads_parked reads : forall pending frames tail s,
  frames_ok frames -> partial_record tail -> partial_record pending ->
  pending ++ concat reads = concat frames.*1 ++ tail -> rebuild_lock s = true ->
  consume_reads pending reads s =
    (Ok tail,
     set_pending (if decide (frames = []) then pending_bin s
                  else Some (default [] (pending_bin s) ++ concat frames.*1))
       (scan_gaps (items_of frames) s)).
Proof.
  induction reads as [|data reads IH]; intros pending frames tail s HF HT HP E Hl.
  - cbn in E. rewrite app_nil_r in E. cbn. destruct frames as [|[b r] frames].
    + rewrite decide_True by done. cbn in E. subst pending.
      change (scan_gaps (items_of []) s) with s. by rewrite set_pending_same.
    + apply Forall_cons in HF as [F HF]. cbn in E. rewrite <-app_assoc in E.
      exfalso. subst pending. apply partial_record_prefix in HP.
      pose proof (frame_size _ _ F). destruct HP as [HP|(r' & Hr' & HP)]; [lia|].
      rewrite (frame_init _ _ F) in Hr'. injection Hr' as <-.
      rewrite (frame_len _ _ F) in HP. lia.
  - cbn [concat] in E. rewrite app_assoc in E.
    destruct (frames_split frames tail (pending ++ data) (concat reads) HF HT E)
      as (f1 & f2 & t & -> & E1 & Ht & E2).
    apply Forall_app in HF as [HF1 HF2].
    cbn [Consume.consume_reads]. rewrite E1.
    rewrite (sm_bind_Ok _ _ _ _ _ (consume_whole_parked f1 t s HF1 Ht Hl)).
    destruct (scan_gaps_frame (items_of f1) s) as (_ & Ep & El).
    rewrite (IH t f2 tail _ HF2 HT Ht E2)
      by (cbn zeta; case_decide; cbn; rewrite El; done).
    cbn zeta. f_equal. rewrite (fmap_app frame_item), scan_gaps_app, fmap_app, concat_app.
    destruct (decide (f1 = [])) as [->|N1]; cbn [app].
    + case_decide; cbn; [|done]. done.
    + rewrite (decide_False (P := f1 ++ f2 = [])) by (by intros [-> _]%app_nil).
      rewrite scan_gaps_set_pending.
      destruct (decide (f2 = [])) as [->|N2]; cbn; rewrite ?app_nil_r; [done|].
      by rewrite app_assoc.
Qed.

(** *** [apply_pending] *)

Lemma apply_loop_Ok items : forall off s a',
  apply_items (fd_app s) items = Ok a' ->
  apply_loop libc_fallocate items off s = (Ok (off + total_len items), set_app a' s).
Proof.
  induction items as [|[r p] items IH]; intros off s a'; cbn [Apply.apply_items].
  - intros [= <-]. cbn. rewrite Z.add_0_r. by destruct s.
  - intros H. apply res_bind_Ok_inv in H as (a1 & E1 & E2). cbn [apply_loop].
    rewrite (sm_bind_Ok _ _ _ tt (set_app a1 s)) by (by apply do_apply_one_Ok).
    rewrite (IH _ _ a') by done. cbn. by rewrite Z.add_assoc.
Qed.

(** Reading the file in chunks of any size applies its whole records. *)
Lemma apply_pending_loop_Ok read_sz fuel : forall f pos tail frames rest s a',
  0 < read_sz -> 0 <= pos <= blen f -> blen f - pos < Z.of_nat fuel ->
  frames_ok frames -> partial_record rest -> partial_record tail ->
  tail ++ f.[pos : ] = concat frames.*1 ++ rest ->
  apply_items (fd_app s) (items_of frames) = Ok a' ->
  apply_pending_loop libc_fallocate read_sz fuel f pos tail s = (Ok tt, set_app a' s).
Proof.
  induction fuel as [|fuel IH]; intros f pos tail frames rest s a' Hr Hp Hfuel HF HR HT E Ha;
    [lia|].
  cbn [apply_pending_loop]. set (stop := Z.min (pos + read_sz) (blen f)).
  assert (Hc : blen (f.[pos : stop]) = stop - pos) by (apply blen_slice; lia).
  destruct (bool_decide_reflect (f.[pos : stop] = [])) as [En|Hne].
  - rewrite En, blen_nil in Hc.
    assert (blen (f.[pos : ]) = 0) as Hz by (rewrite blen_slice_from; lia).
    destruct (f.[pos : ]) as [|? ?]; [|rewrite blen_cons in Hz; pose proof (blen_nonneg l); lia].
    rewrite app_nil_r in E. destruct frames as [|[b r] frames].
    + injection Ha as <-. by destruct s.
    + apply Forall_cons in HF as [F HF]. cbn in E. rewrite <-app_assoc in E.
      exfalso. subst tail. apply partial_record_prefix in HT.
      pose proof (frame_size _ _ F). destruct HT as [HT|(r' & Hr' & HT)]; [lia|].
      rewrite (frame_init _ _ F) in Hr'. injection Hr' as <-.
      rewrite (frame_len _ _ F) in HT. lia.
  - rewrite (slice_split f pos stop), app_assoc in E by lia.
    destruct (frames_split frames rest _ _ HF HR E) as (f1 & f2 & t & -> & E1 & Ht & E2).
    apply Forall_app in HF as [HF1 HF2]. rewrite fmap_app, apply_items_app in Ha.
    apply res_bind_Ok_inv in Ha as (a1 & Ha1 & Ha2).
    rewrite E1, iter_records_whole by done.
    rewrite (sm_bind_Ok _ _ _ _ _ (apply_loop_Ok _ 0 s a1 Ha1)).
    rewrite total_len_frames, Z.add_0_l, slice_from_blen, Hc by done.
    rewrite (sm_bind_Ok _ _ _ tt (set_app a1 s)) by done.
    assert (0 < blen (f.[pos : stop])).
    { destruct (f.[pos : stop]); [done|]. rewrite blen_cons. pose proof (blen_nonneg l). lia. }
    rewrite Hc in *. replace (pos + (stop - pos)) with stop by lia.
    rewrite (IH f stop t f2 rest (set_app a1 s) a'); try done; lia.
Qed.

Lemma apply_pending_Ok read_sz frames rest s a' :
  0 < read_sz -> frames_ok frames -> partial_record rest ->
  pending_bin s = Some (concat frames.*1 ++ rest) ->
  apply_items (fd_app s) (items_of frames) = Ok a' ->
  apply_pending read_sz s = (Ok tt, set_pending None (set_app a' s)).
Proof.
  intros Hr HF HR Hp Ha. unfold Consume.apply_pending.
  rewrite (sm_bind_Ok _ _ _ (pending_bin s) s) by done. rewrite Hp.
  rewrite (sm_bind_Ok _ _ _ tt (set_app a' s)); [done|].
  apply (apply_pending_loop_Ok _ _ _ _ _ frames rest); try done.
  - pose proof (blen_nonneg (concat frames.*1 ++ rest)). lia.
  - unfold blen. lia.
  - left. reflexivity.
Qed.

(** ** Properties *)

(** A state in which the replica is sound and no copy is in flight. *)
Definition feed_ok (S0 : image) (size : Z) (s : feed) : Prop :=
  replica_ok S0 size (replica (fd_app s)) /\ copying (fd_app s) = None.

(** The records of a stream that no copy is deferring, inside the disk. *)
Definition stream_ok (size : Z) (frames : list (bytes * rec)) (tail : bytes) : Prop :=
  frames_ok frames /\ partial_record tail /\ Forall (item_in size) (items_of frames).

(** The state after the reads of a stream. *)
Lemma consume_reads_scans S0 size reads frames tail s :
  stream_ok size frames tail -> concat reads = concat frames.*1 ++ tail ->
  feed_ok S0 size s -> rebuild_lock s = false ->
  exists a', consume_reads [] reads s = (Ok tail, set_app a' (scan_gaps (items_of frames) s)) /\
    replica_ok S0 size (replica a') /\ copying a' = None /\
    img_of a' ≡ apply_all (img_of (fd_app s)) (items_of frames) /\ counted (fd_app s) a' (items_of frames).
Proof.
  intros (HF & HT & Hin) E [Hok Hc] Hl.
  destruct (apply_items_direct libc_fallocate S0 size _ (fd_app s) Hok Hin Hc)
    as (a' & Ha & Himg & Hok' & Hc' & _ & Hcount).
  exists a'. split; [|done]. apply (consume_reads_whole reads [] frames tail s a'); try done. by left.
Qed.

Lemma consume_reads_result S0 size reads frames tail s :
  stream_ok size frames tail -> concat reads = concat frames.*1 ++ tail ->
  feed_ok S0 size s -> rebuild_lock s = false ->
  NoDup (gap_seqs (items_of frames)) ->
  (forall g, gap_seen s = Some g -> g ∉ gap_seqs (items_of frames)) ->
  exists s', consume_reads [] reads s = (Ok tail, s') /\ feed_ok S0 size s' /\
    img_of (fd_app s') ≡ apply_all (img_of (fd_app s)) (items_of frames) /\
    counted (fd_app s) (fd_app s') (items_of frames) /\
    recovery_queue s' = recovery_queue s ++ gap_seqs (items_of frames) /\
    pending_bin s' = pending_bin s.
Proof.
  intros HS E HF Hl Hn Hg. destruct (consume_reads_scans S0 size reads frames tail s HS E HF Hl) as (a' & Es & Hok & Hc & Himg & Hcount).
  eexists. split; [exact Es|]. split_and!; try done.
  - cbn. by apply scan_gaps_queue.
  - cbn. apply scan_gaps_frame.
Qed.

(** C13: however the reads cut the record stream, the replica ends up with
    every complete record applied in order, the counters say so, every gap is
    queued once, and what is carried over is the incomplete last record. *)
Theorem consume_reads_applies S0 size reads frames tail s :
  stream_ok size frames tail -> concat reads = concat frames.*1 ++ tail ->
  feed_ok S0 size s -> rebuild_lock s = false ->
  NoDup (gap_seqs (items_of frames)) ->
  (forall g, gap_seen s = Some g -> g ∉ gap_seqs (items_of frames)) ->
  exists s', consume_reads [] reads s = (Ok tail, s') /\ feed_ok S0 size s' /\
    img_of (fd_app s') ≡ apply_all (img_of (fd_app s)) (items_of frames) /\
    counted (fd_app s) (fd_app s') (items_of frames) /\
    recovery_queue s' = recovery_queue s ++ gap_seqs (items_of frames) /\
    pending_bin s' = pending_bin s.
Proof. apply consume_reads_result. Qed.

(** While a rebuild holds the lock the replica does not change at all,
    and [pending.bin] grows by exactly the whole records that were read. *)
Theorem consume_reads_parks size reads frames tail s :
  stream_ok size frames tail -> concat reads = concat frames.*1 ++ tail ->
  rebuild_lock s = true ->
  exists s', consume_reads [] reads s = (Ok tail, s') /\ fd_app s' = fd_app s /\
    default [] (pending_bin s') = default [] (pending_bin s) ++ concat frames.*1 /\
    rebuild_lock s' = true.
Proof.
  intros (HF & HT & _) E Hl. eexists. split.
  { apply (consume_reads_parked reads [] frames tail s); try done. by left. }
  destruct (scan_gaps_frame (items_of frames) s) as (Ea & _ & El). split_and!.
  - by cbn.
  - cbn. case_decide as D; [|done]. subst frames. by rewrite app_nil_r.
  - cbn. congruence.
Qed.

(** C15: parking loses nothing.  Records parked while the lock is held (on top
    of records parked before), then replayed from [pending.bin] in reads of
    any size once the lock is gone, leave the replica as if they had been
    applied when they arrived; the file is gone. *)
Theorem park_then_replay S0 size read_sz old reads frames tail s :
  0 < read_sz -> stream_ok size (old ++ frames) tail ->
  concat reads = concat frames.*1 ++ tail ->
  feed_ok S0 size s -> rebuild_lock s = true ->
  pending_bin s = (if decide (old = []) then None else Some (concat old.*1)) ->
  exists s', (tail' ← consume_reads [] reads;
              sm_upd (set_lock false);;
              apply_pending read_sz;;
              mret tail') s = (Ok tail, s') /\
    feed_ok S0 size s' /\ pending_bin s' = None /\
    img_of (fd_app s') ≡ apply_all (img_of (fd_app s)) (items_of (old ++ frames)) /\
    counted (fd_app s) (fd_app s') (items_of (old ++ frames)).
Proof.
  intros Hr (HF & HT & Hin) E [Hok Hc] Hl Hp.
  destruct (apply_items_direct libc_fallocate S0 size _ (fd_app s) Hok Hin Hc)
    as (a' & Ha & Himg & Hok' & Hc' & _ & Hcount).
  pose proof HF as [_ HF2]%Forall_app.
  rewrite (sm_bind_Ok _ _ _ _ _
    (consume_reads_parked reads [] frames tail s HF2 HT (or_introl eq_refl) E Hl)).
  destruct (scan_gaps_frame (items_of frames) s) as (Ea & Ep & El).
  set (s1 := set_pending _ _). rewrite (sm_bind_Ok _ _ _ tt (set_lock false s1)) by done.
  assert (Hs1 : pending_bin s1 = if decide (old ++ frames = []) then None
                                 else Some (concat (old ++ frames).*1)).
  { cbn. rewrite Hp, fmap_app, concat_app. destruct (decide (frames = [])) as [->|N].
    - rewrite !app_nil_r. by case_decide.
    - rewrite (decide_False (P := old ++ frames = [])) by (by intros [_ ->]%app_nil).
      case_decide as D; [|done]. by subst old. }
  destruct (decide (old ++ frames = [])) as [En|Hn].
  - rewrite En in *. injection Ha as <-.
    eexists. rewrite (sm_bind_Ok _ _ _ tt (set_lock false s1)).
    2:{ unfold Consume.apply_pending. rewrite (sm_bind_Ok _ _ _ None (set_lock false s1)); [done|].
        unfold sm_get. cbn [pending_bin set_lock]. by rewrite Hs1. }
    split; [done|]. unfold feed_ok. cbn [fd_app set_lock s1 set_pending pending_bin].
    rewrite Ea. split_and!; try done.
  - rewrite (sm_bind_Ok _ _ _ tt (set_pending None (set_app a' (set_lock false s1)))).
    2:{ apply (apply_pending_Ok _ (old ++ frames) []); try done.
        - left. reflexivity.
        - cbn [pending_bin set_lock]. by rewrite app_nil_r.
        - cbn. by rewrite Ea. }
    eexists. split; [done|]. by split_and!.
Qed.
End Spec.

(** ** Concrete streams *)

Definition demo_frame (rtype flags seq sector length : Z) (payload : bytes) : bytes * rec :=
  match pack_rec rtype flags seq sector length 0 payload with
  | Ok b => (b, mk_rec REC_MAGIC ABI_VERSION rtype flags 2 seq sector length (blen b) 0 0)
  | _ => ([], mk_rec 0 0 0 0 0 0 0 0 0 0 0)
  end.

Definition demo_frames : list (bytes * rec) :=
  [demo_frame REC_WRITE 0 5 0 2 [Byte.x41; Byte.x42];
   demo_frame REC_DISCARD F_GAP_BEFORE 6 1 512 []].

Definition demo_feed (lock : bool) (pend : option bytes) : feed :=
  mk_feed (mk_applier (mk_Replica (file_create 1024) true None) None [] None 0 0) None [] pend lock.

Lemma demo_frames_ok : frames_ok demo_frames.
Proof. repeat constructor; vm_compute; congruence. Qed.

Lemma demo_items_in : Forall (item_in 1024) (items_of demo_frames).
Proof. repeat constructor; vm_compute; congruence. Qed.

Lemma demo_feed_ok lock pend : feed_ok zero_image 1024 (demo_feed lock pend).
Proof. by split. Qed.

(** The stream cut in the middle of the first header. *)
Definition demo_reads (tail : bytes) : list bytes :=
  let b := concat demo_frames.*1 ++ tail in [b.[0 : 30]; b.[30 : ]].

Lemma demo_reads_concat tail : concat (demo_reads tail) = concat demo_frames.*1 ++ tail.
Proof.
  unfold demo_reads. cbn [concat]. rewrite app_nil_r.
  rewrite <-(slice_from_0 (concat demo_frames.*1 ++ tail)) at 3.
  symmetry. apply slice_split; [lia|lia|]. rewrite blen_app. pose proof (blen_nonneg tail).
  change (blen (concat demo_frames.*1)) with 120. lia.
Qed.

Lemma demo_stream_ok : stream_ok 1024 demo_frames [Byte.x43].
Proof. split; [apply demo_frames_ok|]. split; [by left|apply demo_items_in]. Qed.

Lemma consume_reads_applies_witness :
  exists s', consume_reads (fun _ _ _ => FaZero) [] (demo_reads [Byte.x43]) (demo_feed false None) =
      (Ok [Byte.x43], s') /\
    img_of (fd_app s') ≡ apply_all zero_image (items_of demo_frames) /\
    recovery_queue s' = [6] /\ records (fd_app s') = 2 /\ nbytes (fd_app s') = 2.
Proof.
  destruct (consume_reads_applies (fun _ _ _ => FaZero) zero_image 1024 (demo_reads [Byte.x43])
    demo_frames [Byte.x43] (demo_feed false None)) as (s' & E & _ & Hi & (_ & Hr & Hb) & Hq & _).
  - apply demo_stream_ok.
  - apply demo_reads_concat.
  - apply demo_feed_ok.
  - done.
  - repeat constructor. by intros ?%elem_of_nil.
  - done.
  - exists s'. exact (conj E (conj Hi (conj Hq (conj Hr Hb)))).
Defined.

Lemma consume_reads_parks_witness :
  exists s', consume_reads (fun _ _ _ => FaZero) [] (demo_reads [Byte.x43]) (demo_feed true None) =
      (Ok [Byte.x43], s') /\
    default [] (pending_bin s') = concat demo_frames.*1.
Proof.
  destruct (consume_reads_parks (fun _ _ _ => FaZero) 1024 (demo_reads [Byte.x43])
    demo_frames [Byte.x43] (demo_feed true None)) as (s' & E & _ & Hp & _).
  - apply demo_stream_ok.
  - apply demo_reads_concat.
  - done.
  - exists s'. exact (conj E Hp).
Defined.

(** One byte at a time. *)
Lemma park_then_replay_witness :
  exists s', (tail' ← consume_reads (fun _ _ _ => FaZero) [] (demo_reads [Byte.x43]);
              sm_upd (set_lock false);;
              apply_pending (fun _ _ _ => FaZero) 1;;
              mret tail') (demo_feed true None) = (Ok [Byte.x43], s') /\
    pending_bin s' = None /\
    img_of (fd_app s') ≡ apply_all zero_image (items_of demo_frames).
Proof.
  destruct (park_then_replay (fun _ _ _ => FaZero) zero_image 1024 1 [] (demo_reads [Byte.x43])
    demo_frames [Byte.x43] (demo_feed true None)) as (s' & E & _ & Hp & Hi & _).
  - lia.
  - apply demo_stream_ok.
  - apply demo_reads_concat.
  - apply demo_feed_ok.
  - done.
  - done.
  - exists s'. exact (conj E (conj Hp Hi)).
Defined.
