(* ===== verification/Daemon.v ===== *)
(** * The daemon's state ([Daemon] of [rkcdp/rkcdpd.py])

    The attributes of the [Daemon] object and the files of its node directory,
    as one record that the copy threads ([CopyThreads]) and the main loop
    ([MainLoop]) work on.  Clock readings are integers; what the environment
    decides (the clock, the block device, the driver's answers) is an argument
    of the operations. *)
From S2P Require Import Prelude Dmcdp Files Seed Replica Apply Consume.

(** [manifest.json]: what identifies the node, and the entries that come and
    go.  [None]: the key is absent. *)
Record manifest : Type := mk_manifest {
  m_node : string;
  m_device : string;
  m_gen : Z;
  m_abi : Z;
  m_size : Z;
  m_base_end_seq : option Z;
  m_base_time : option Z;
  m_seeded : option (option string * option Z);       (* boot_id, time *)
  m_consistent : option (option Z * Z * Z);           (* seq, time, held_sec *)
}.

Definition with_base (seq : Z) (time : Z) (m : manifest) : manifest :=
  mk_manifest (m_node m) (m_device m) (m_gen m) (m_abi m) (m_size m) (Some seq) (Some time)
    (m_seeded m) (m_consistent m).
Definition with_consistent (c : option Z * Z * Z) (m : manifest) : manifest :=
  mk_manifest (m_node m) (m_device m) (m_gen m) (m_abi m) (m_size m) (m_base_end_seq m)
    (m_base_time m) (m_seeded m) (Some c).

(** [recovery.json] *)
Record recovery : Type := mk_recovery {
  rc_gap_seq : Z;
  rc_extents : list (Z * Z);
  rc_started : Z;
}.

Record daemon : Type := mk_daemon {
  d_feed : feed;                     (* replica, counters, queue, pending.bin, .rebuild.lock *)
  d_size : Z;
  d_boot_id : option string;
  d_manifest : manifest;             (* self.manifest *)
  d_manifest_json : option manifest; (* the file *)
  d_recovery_json : option recovery;
  d_seed_required : bool;
  d_base_progress : option Z;        (* None: {}, Some n: n bytes done *)
  d_base_alive : bool;
  d_recovery_alive : bool;           (* recovery_thread exists and is alive *)
  d_last_consistent : Z;
  d_frozen : bool;                   (* the root filesystem is frozen *)
  d_durable : image;                 (* replica.raw as of the last fsync *)
}.

Definition set_feed (x : feed) (d : daemon) : daemon :=
  mk_daemon x (d_size d) (d_boot_id d) (d_manifest d) (d_manifest_json d) (d_recovery_json d)
    (d_seed_required d) (d_base_progress d) (d_base_alive d) (d_recovery_alive d)
    (d_last_consistent d) (d_frozen d) (d_durable d).
Definition set_manifest (x : manifest) (d : daemon) : daemon :=
  mk_daemon (d_feed d) (d_size d) (d_boot_id d) x (d_manifest_json d) (d_recovery_json d)
    (d_seed_required d) (d_base_progress d) (d_base_alive d) (d_recovery_alive d)
    (d_last_consistent d) (d_frozen d) (d_durable d).
Definition set_manifest_json (x : option manifest) (d : daemon) : daemon :=
  mk_daemon (d_feed d) (d_size d) (d_boot_id d) (d_manifest d) x (d_recovery_json d)
    (d_seed_required d) (d_base_progress d) (d_base_alive d) (d_recovery_alive d)
    (d_last_consistent d) (d_frozen d) (d_durable d).
Definition set_recovery_json (x : option recovery) (d : daemon) : daemon :=
  mk_daemon (d_feed d) (d_size d) (d_boot_id d) (d_manifest d) (d_manifest_json d) x
    (d_seed_required d) (d_base_progress d) (d_base_alive d) (d_recovery_alive d)
    (d_last_consistent d) (d_frozen d) (d_durable d).
Definition set_seed_required (x : bool) (d : daemon) : daemon :=
  mk_daemon (d_feed d) (d_size d) (d_boot_id d) (d_manifest d) (d_manifest_json d)
    (d_recovery_json d) x (d_base_progress d) (d_base_alive d) (d_recovery_alive d)
    (d_last_consistent d) (d_frozen d) (d_durable d).
Definition set_base_progress (x : option Z) (d : daemon) : daemon :=
  mk_daemon (d_feed d) (d_size d) (d_boot_id d) (d_manifest d) (d_manifest_json d)
    (d_recovery_json d) (d_seed_required d) x (d_base_alive d) (d_recovery_alive d)
    (d_last_consistent d) (d_frozen d) (d_durable d).
Definition set_base_alive (x : bool) (d : daemon) : daemon :=
  mk_daemon (d_feed d) (d_size d) (d_boot_id d) (d_manifest d) (d_manifest_json d)
    (d_recovery_json d) (d_seed_required d) (d_base_progress d) x (d_recovery_alive d)
    (d_last_consistent d) (d_frozen d) (d_durable d).
Definition set_recovery_alive (x : bool) (d : daemon) : daemon :=
  mk_daemon (d_feed d) (d_size d) (d_boot_id d) (d_manifest d) (d_manifest_json d)
    (d_recovery_json d) (d_seed_required d) (d_base_progress d) (d_base_alive d) x
    (d_last_consistent d) (d_frozen d) (d_durable d).
Definition set_last_consistent (x : Z) (d : daemon) : daemon :=
  mk_daemon (d_feed d) (d_size d) (d_boot_id d) (d_manifest d) (d_manifest_json d)
    (d_recovery_json d) (d_seed_required d) (d_base_progress d) (d_base_alive d)
    (d_recovery_alive d) x (d_frozen d) (d_durable d).
Definition set_frozen (x : bool) (d : daemon) : daemon :=
  mk_daemon (d_feed d) (d_size d) (d_boot_id d) (d_manifest d) (d_manifest_json d)
    (d_recovery_json d) (d_seed_required d) (d_base_progress d) (d_base_alive d)
    (d_recovery_alive d) (d_last_consistent d) x (d_durable d).
Definition set_durable (x : image) (d : daemon) : daemon :=
  mk_daemon (d_feed d) (d_size d) (d_boot_id d) (d_manifest d) (d_manifest_json d)
    (d_recovery_json d) (d_seed_required d) (d_base_progress d) (d_base_alive d)
    (d_recovery_alive d) (d_last_consistent d) (d_frozen d) x.

(** Code that works on the [feed] part. *)
Definition on_feed {A} (m : SM feed A) : SM daemon A := fun d =>
  let '(o, x) := m (d_feed d) in (o, set_feed x d).

Lemma on_feed_Ok {A} (m : SM feed A) d a x :
  m (d_feed d) = (Ok a, x) -> on_feed m d = (Ok a, set_feed x d).
Proof. unfold on_feed. by intros ->. Qed.

Definition d_app (d : daemon) : applier := fd_app (d_feed d).
Definition set_d_app (a : applier) (d : daemon) : daemon := set_feed (set_app a (d_feed d)) d.

(** [write_json(self.manifest_path, self.manifest)] *)
Definition write_manifest : SM daemon unit :=
  sm_upd (fun d => set_manifest_json (Some (d_manifest d)) d).

(** [self.replica.fsync()] ([Replica.fsync]) *)
Definition replica_fsync : SM daemon unit := sm_upd (fun d => set_durable (img_of (d_app d)) d).

(** [Daemon.recovery_active] *)
Definition recovery_active : SM daemon bool := sm_get d_recovery_alive.

(** [load_json(path) or default], for a file that exists or not *)
Definition load_json {A} (f : option A) : option A := f.

(** [Daemon.__init__]: the part after the target is found.  [existing] and
    [seed_raw] are the files found in the node directory.  The reset of the
    driver's counters before the status is read is an event of the driver
    ([Ioctl] with [IocResetStats]), and the entry [dm_name] of a new manifest,
    which nothing reads, is left out. *)
Section Init.
Context {fs : SparseFS}.
Variables (node device : string) (seed_conf : bool) (boot : option string).

Definition Daemon_init (fd : cdp_fd) (manifest_file : option manifest)
    (recovery_file : option recovery) (pending : option bytes) (lock : bool)
    (existing seed_raw : option file) : res daemon :=
  st ← status fd;
  dev_sectors ← dict_get st "dev_sectors";
  let size := dev_sectors * 512 in
  let m := default (mk_manifest node device 1 ABI_VERSION size None None None None)
             (load_json manifest_file) in
  let seed_required := seed_conf && bool_decide (m_base_end_seq m = None) in
  rp ← Replica_init existing size seed_raw;
  Ok (mk_daemon (mk_feed (mk_applier rp None [] None 0 0) None [] pending lock)
        size boot m (Some m) recovery_file seed_required None false false 0 false
        (f_byte (rp_fd rp))).
End Init.
