(* ===== verification/CopyThreads.v ===== *)
(** * The copy threads ([Daemon.base_copy], [start_recovery], [recover])

    The loops that copy the whole disk, or the dirty extents after an
    overflow, into the replica, chunk by chunk through [copy_chunk].  Here
    they run undisturbed, which fixes what they copy; what concurrent writes
    do to a chunk is [CopyProtocol].  The device, its length and the signals
    are arguments: [stop i] is the flag at the [i]-th test of it. *)
From S2P Require Import Prelude Dmcdp Files Seed Replica Apply Consume Daemon.

Section Threads.
Variable libc_fallocate : file -> Z -> Z -> fallocate_result.
Variable dev : image.            (* /dev/mapper/rkcdp *)
Variable dev_size : Z.
Variable chunk : Z.              (* COPY_CHUNK *)
Variable stop : nat -> bool.

Definition do_copy_chunk (off n : Z) (skip_zero : option bytes) : SM daemon Z := fun d =>
  match copy_chunk libc_fallocate dev dev_size (d_app d) off n skip_zero with
  | Ok (a, k) => (Ok k, set_d_app a d)
  | Raise e => (Raise e, d)
  | Forever => (Forever, d)
  end.

(** [while off < self.size and not stop: ...]; [i] counts the tests of
    [stop]. *)
Fixpoint base_copy_loop (fuel i : nat) (zero : bytes) (off : Z) : SM daemon nat :=
  match fuel with
  | O => sm_res Forever
  | S fuel' =>
      size ← sm_get d_size;
      if (off <? size) && negb (stop i) then
        n ← do_copy_chunk off (Z.min chunk (size - off)) (Some zero);
        if n =? 0 then mret (S i)
        else
          sm_upd (set_base_progress (Some (off + n)));;
          base_copy_loop fuel' (S i) zero (off + n)
      else mret i
  end.

(** [Daemon.base_copy]; [fd] answers the status ioctl at its end, [now] is
    the clock then. *)
Definition base_copy (fd : cdp_fd) (now : Z) : SM daemon unit :=
  sm_upd (set_base_progress (Some 0));;
  size ← sm_get d_size;
  i ← base_copy_loop (S (Z.to_nat size)) 0 (replicate (Z.to_nat chunk) x00) 0;
  if stop i then sm_upd (set_base_progress None)
  else
    replica_fsync;;
    end_seq ← sm_res (st ← status fd; dict_get st "seq_next");
    sm_upd (fun d => set_manifest (with_base end_seq now (d_manifest d)) d);;
    write_manifest;;
    sm_upd (set_base_progress None).

(** [while remaining and not stop: ...] *)
Fixpoint recover_extent (fuel i : nat) (off remaining : Z) : SM daemon nat :=
  match fuel with
  | O => sm_res Forever
  | S fuel' =>
      if negb (remaining =? 0) && negb (stop i) then
        n ← do_copy_chunk off (Z.min remaining chunk) None;
        if n =? 0 then mret (S i)
        else recover_extent fuel' (S i) (off + n) (remaining - n)
      else mret i
  end.

Fixpoint recover_extents (i : nat) (es : list (Z * Z)) : SM daemon nat :=
  match es with
  | [] => mret i
  | (sector, nsect) :: es' =>
      i' ← recover_extent (S (Z.to_nat (nsect * 512))) i (sector * 512) (nsect * 512);
      recover_extents i' es'
  end.

(** [Daemon.recover] *)
Definition recover (rc : recovery) : SM daemon unit :=
  i ← recover_extents 0 (rc_extents rc);
  if stop i then mret tt
  else replica_fsync;; sm_upd (set_recovery_json None).
End Threads.

(** [Daemon.start_recovery]: the bitmap is read and cleared, the extents are
    written down, and a thread is started on them. *)
Definition start_recovery (fd : cdp_fd) (now gap_seq : Z) : SM daemon recovery :=
  '(bm, chunk_sectors, nbits) ← sm_res (read_bitmap fd true);
  extents ← sm_res (bitmap_extents bm chunk_sectors nbits);
  let rc := mk_recovery gap_seq extents now in
  sm_upd (set_recovery_json (Some rc));;
  sm_upd (set_recovery_alive true);;
  mret rc.

(** ** One chunk, undisturbed *)

(** The device holds only zeros there. *)
Definition zero_run (dev : image) (off n : Z) : Prop := forall i, off <= i < off + n -> dev i = x00.

Definition daemon_ok (S0 : image) (d : daemon) : Prop :=
  replica_ok S0 (d_size d) (replica (d_app d)).

Lemma img_read_zero dev off n :
  img_read dev off n = replicate (Z.to_nat n) x00 <-> zero_run dev off n.
Proof.
  unfold zero_run. split.
  - intros H i Hi. pose proof (img_read_lookup dev off n i Hi) as L. rewrite H in L.
    by apply lookup_replicate in L as [-> _].
  - intros H. unfold img_read. symmetry. apply replicate_as_elem_of. split; [rewrite length_fmap, length_seqZ; lia|].
    intros x (i & -> & Hi)%list_elem_of_fmap. apply elem_of_seqZ in Hi. by apply H.
Qed.

#[export] Instance zero_run_dec dev off n : Decision (zero_run dev off n).
Proof.
  refine (cast_if (decide (img_read dev off n = replicate (Z.to_nat n) x00)));
    by rewrite <-img_read_zero.
Defined.

Lemma img_write_read_decide img dev off n i :
  img_write img off (img_read dev off n) i = if decide (off <= i < off + n) then dev i else img i.
Proof. rewrite img_write_read. destruct (in_range_P off n i); by case_decide. Qed.

Section Chunk.
Variable libc_fallocate : file -> Z -> Z -> fallocate_result.
Variable dev : image.
Variable dev_size : Z.

(** How many bytes the device has of the chunk. *)
Definition chunk_len (off n : Z) : Z := Z.max 0 (Z.min n (dev_size - off)).

(** The chunk is skipped: zero chunks are, when a zero buffer is given. *)
Definition skipped (skip_zero : option bytes) (off n : Z) : Prop :=
  match skip_zero with
  | Some z => img_read dev off (chunk_len off n) = z.[0 : chunk_len off n]
  | None => False
  end.

#[export] Instance skipped_dec skip_zero off n : Decision (skipped skip_zero off n).
Proof. unfold skipped. destruct skip_zero; apply _. Defined.

Lemma dev_read_len off n : dev_read dev dev_size off n = img_read dev off (chunk_len off n).
Proof.
  unfold dev_read, chunk_len. destruct (Z.le_gt_cases 0 (Z.min n (dev_size - off))) as [L|L].
  - by rewrite Z.max_r.
  - rewrite Z.max_l by lia. apply nil_length_inv. pose proof (blen_img_read dev off (Z.min n (dev_size - off))).
    unfold blen in *. lia.
Qed.

Lemma do_copy_chunk_spec S0 d off n skip_zero :
  daemon_ok S0 d -> 0 <= off -> (0 < chunk_len off n -> off + chunk_len off n <= d_size d) ->
  exists a', do_copy_chunk libc_fallocate dev dev_size off n skip_zero d =
      (Ok (chunk_len off n), set_d_app a' d) /\
    replica_ok S0 (d_size d) (replica a') /\ copying a' = None /\
    last_seq a' = last_seq (d_app d) /\ records a' = records (d_app d) /\
    forall i, img_of a' i =
      if decide (off <= i < off + chunk_len off n /\ ~ skipped skip_zero off n)
      then dev i else img_of (d_app d) i.
Proof.
  intros Hok Ho Hle. unfold do_copy_chunk, copy_chunk. set (a := copy_flag (d_app d) off n).
  rewrite dev_read_len. set (k := chunk_len off n) in *.
  assert (0 <= k) by (unfold k, chunk_len; lia).
  assert (Hb : blen (img_read dev off k) = k) by (rewrite blen_img_read; lia).
  set (buf := img_read dev off k) in *.
  assert (Hland : exists a', copy_land a off buf skip_zero = Ok a' /\
    replica_ok S0 (d_size d) (replica a') /\ deferred a' = [] /\ last_seq a' = last_seq (d_app d) /\
    records a' = records (d_app d) /\
    forall i, img_of a' i = if decide (off <= i < off + k /\ ~ skipped skip_zero off n)
      then dev i else img_of (d_app d) i).
  { unfold copy_land. rewrite Hb.
    replace (match skip_zero with Some z => bool_decide (buf = z.[0 : k]) | None => false end)
      with (bool_decide (skipped skip_zero off n)) by (unfold skipped; by destruct skip_zero).
    destruct (decide (buf = [])) as [En|Hne].
    { rewrite bool_decide_eq_false_2 by tauto. exists a. split_and!; try done.
      intros i. rewrite decide_False; [done|]. rewrite En, blen_nil in Hb. lia. }
    rewrite bool_decide_eq_true_2 by done.
    destruct (decide (skipped skip_zero off n)) as [Hs|Hs].
    { rewrite bool_decide_eq_true_2 by done. exists a. split_and!; try done.
      intros i. by rewrite decide_False by tauto. }
    rewrite bool_decide_eq_false_2 by done. cbn [andb negb].
    destruct (Replica_pwrite_spec S0 (d_size d) (replica a) buf off) as (rp & -> & Hi & Hok');
      [done|lia| |].
    { assert (k <> 0) by (intros Hk0; apply Hne, nil_length_inv; unfold blen in Hb; lia). lia. }
    rewrite res_bind_Ok. eexists; split; [done|]. split_and!; try done.
    intros i. unfold img_of. cbn. rewrite (Hi i). unfold buf. rewrite img_write_read_decide.
    destruct (decide (off <= i < off + k)).
    - by rewrite decide_True by tauto.
    - by rewrite decide_False by tauto. }
  destruct Hland as (a' & -> & Hok' & Hd & Hl & Hr & Hi). rewrite res_bind_Ok.
  unfold copy_clear. rewrite Hd. cbn [apply_items]. rewrite res_bind_Ok, Hb.
  eexists; split; [done|]. split_and!; done.
Qed.
End Chunk.

(** ** The base copy *)

Section BaseCopy.
Variable libc_fallocate : file -> Z -> Z -> fallocate_result.
Variable dev : image.
Variable dev_size : Z.
Variable chunk : Z.
Variable stop : nat -> bool.
Hypothesis Hchunk : 0 < chunk.

(** The chunk of the copy an offset belongs to. *)
Definition block_of (i : Z) : Z := i / chunk * chunk.
Definition zero_block (size i : Z) : Prop :=
  zero_run dev (block_of i) (Z.min chunk (size - block_of i)).

#[export] Instance zero_block_dec size i : Decision (zero_block size i).
Proof. unfold zero_block. apply _. Defined.

Lemma skipped_zero_run off n :
  0 <= n <= chunk -> off + n <= dev_size ->
  skipped dev dev_size (Some (replicate (Z.to_nat chunk) x00)) off n <-> zero_run dev off n.
Proof.
  intros Hn Hd. unfold skipped, chunk_len. rewrite Z.min_l, Z.max_r by lia.
  rewrite <-img_read_zero. unfold slice. rewrite drop_0, take_replicate.
  replace (Z.to_nat (n - 0) `min` Z.to_nat chunk)%nat with (Z.to_nat n) by lia. done.
Qed.

Lemma block_of_spec i k : i / chunk = k <-> k * chunk <= i < k * chunk + chunk.
Proof.
  pose proof (Z.div_mod i chunk). pose proof (Z.mod_pos_bound i chunk). split; [nia|].
  intros. symmetry. apply (Z.div_unique i chunk k (i - k * chunk)); lia.
Qed.

Lemma base_copy_loop_spec S0 fuel : forall i off d,
  daemon_ok S0 d -> d_size d <= dev_size -> 0 <= off <= d_size d ->
  (off mod chunk = 0 \/ off = d_size d) -> d_size d - off < Z.of_nat fuel ->
  exists i' e a' p',
    base_copy_loop libc_fallocate dev dev_size chunk stop fuel i
      (replicate (Z.to_nat chunk) x00) off d = (Ok i', set_base_progress p' (set_d_app a' d)) /\
    replica_ok S0 (d_size d) (replica a') /\ off <= e <= d_size d /\
    (e = d_size d \/ stop i' = true) /\
    (copying (d_app d) = None -> copying a' = None) /\
    last_seq a' = last_seq (d_app d) /\ records a' = records (d_app d) /\
    forall x, img_of a' x =
      if decide (off <= x < e /\ ~ zero_block (d_size d) x) then dev x else img_of (d_app d) x.
Proof.
  induction fuel as [|fuel IH]; intros i off d Hok Hds Hoff Hal Hfuel; [lia|].
  cbn [base_copy_loop]. rewrite (sm_bind_Ok _ _ _ (d_size d) d) by done.
  destruct (Z.ltb_spec off (d_size d)) as [L|L]; cbn [andb].
  2:{ exists i, off, (d_app d), (d_base_progress d). split; [by destruct d as [[]]|].
      split_and!; try done; try lia. intros x. rewrite decide_False by lia. done. }
  destruct (stop i) eqn:Est; cbn [negb].
  { exists i, off, (d_app d), (d_base_progress d). split; [by destruct d as [[]]|].
    split_and!; try done; try lia; [by right|]. intros x. rewrite decide_False by lia. done. }
  set (n := Z.min chunk (d_size d - off)).
  assert (Hk : chunk_len dev_size off n = n) by (unfold chunk_len; lia).
  destruct (do_copy_chunk_spec libc_fallocate dev dev_size S0 d off n
    (Some (replicate (Z.to_nat chunk) x00)) Hok) as (a1 & E1 & Hok1 & Hc1 & Hl1 & Hr1 & Hi1); [lia..|].
  rewrite (sm_bind_Ok _ _ _ _ _ E1), Hk.
  destruct (Z.eqb_spec n 0) as [|Hn]; [lia|].
  set (d1 := set_base_progress (Some (off + n)) (set_d_app a1 d)).
  rewrite (sm_bind_Ok _ _ _ tt d1) by done.
  destruct (IH (S i) (off + n) d1) as (i' & e & a' & p' & E & Hok' & He & Hend & Hc & Hl & Hr & Hi);
    [done|done|cbn; lia| |cbn; lia|].
  { destruct Hal as [Hal|]; [|lia]. cbn. destruct (Z.le_gt_cases chunk (d_size d - off)).
    - left. unfold n. rewrite Z.min_l by done.
      rewrite <-Zplus_mod_idemp_l, Hal. apply Z_mod_same_full.
    - right. lia. }
  exists i', e, a', p'. split; [by rewrite E|]. cbn in Hok', He, Hend, Hc, Hl, Hr, Hi |- *. split_and!; try done; try lia.
  all: try congruence; try (by auto).
  intros x. rewrite Hi. change (img_of (d_app d1) x) with (img_of a1 x). rewrite Hi1.
  pose proof (skipped_zero_run off n ltac:(lia) ltac:(lia)) as Hsk.
  destruct Hal as [Hal|]; [|lia].
  assert (Hblk : off <= x < off + n -> (zero_block (d_size d) x <-> zero_run dev off n)).
  { intros Hx. unfold zero_block, block_of.
    rewrite (proj2 (block_of_spec x (off / chunk))); [|pose proof (Z.div_mod off chunk); lia].
    pose proof (Z.div_mod off chunk). replace (off / chunk * chunk) with off by lia. done. }
  destruct (decide (off + n <= x < e /\ _)) as [D|D].
  - rewrite decide_True; [done|]. split; [lia|apply D].
  - destruct (decide (off <= x < off + chunk_len dev_size off n /\ _)) as [D2|D2].
    + rewrite Hk in D2. destruct D2 as [Dx Dn]. specialize (Hblk Dx).
      rewrite decide_True; [done|]. split; [lia|]. intros Hz. by apply Dn, Hsk, Hblk.
    + rewrite Hk in D2. rewrite decide_False; [done|]. intros [? H0].
      destruct (decide (x < off + n)) as [Hx|Hx]; [|apply D; split; [lia|done]].
      specialize (Hblk ltac:(lia)). apply D2. split; [lia|]. intros Hz. by apply H0, Hblk, Hsk.
Qed.

(** The replica after a complete base copy over [img]. *)
Definition base_copied (size : Z) (img img' : image) : Prop :=
  forall x, img' x = if decide (0 <= x < size /\ ~ zero_block size x) then dev x else img x.

(** The driver's status answers the sequence number [seq]. *)
Definition seq_next_is (fd : cdp_fd) (seq : Z) : Prop :=
  (st ← status fd; dict_get st "seq_next") = Ok seq.

Lemma base_copy_run S0 fd now seq d :
  daemon_ok S0 d -> 0 <= d_size d <= dev_size -> seq_next_is fd seq ->
  exists d' i', base_copy libc_fallocate dev dev_size chunk stop fd now d = (Ok tt, d') /\
    daemon_ok S0 d' /\ d_base_progress d' = None /\ d_size d' = d_size d /\
    if stop i' then d_manifest d' = d_manifest d /\ d_manifest_json d' = d_manifest_json d
    else
      d_manifest d' = with_base seq now (d_manifest d) /\ d_manifest_json d' = Some (d_manifest d') /\
      d_durable d' = img_of (d_app d') /\
      base_copied (d_size d) (img_of (d_app d)) (img_of (d_app d')).
Proof.
  intros Hok Hds Hseq. unfold base_copy.
  set (d0 := set_base_progress (Some 0) d). rewrite (sm_bind_Ok _ _ _ tt d0) by done.
  rewrite (sm_bind_Ok _ _ _ (d_size d) d0) by done.
  destruct (base_copy_loop_spec S0 (S (Z.to_nat (d_size d))) 0 0 d0)
    as (i' & e & a' & p' & E & Hok' & He & Hend & _ & _ & _ & Hi);
    [done|cbn; lia|cbn; lia|by left|cbn; lia|].
  rewrite (sm_bind_Ok _ _ _ _ _ E).
  exists (set_base_progress None (if stop i' then set_d_app a' d0 else
    let d1 := set_manifest (with_base seq now (d_manifest d)) (set_durable (img_of a') (set_d_app a' d0)) in
    set_manifest_json (Some (d_manifest d1)) d1)), i'.
  destruct (stop i') eqn:Es.
  { split; [done|]. by split_and!. }
  rewrite (sm_bind_Ok _ _ _ tt (set_durable (img_of a') (set_base_progress p' (set_d_app a' d0)))) by done.
  unfold seq_next_is in Hseq. rewrite Hseq.
  rewrite (sm_bind_Ok _ _ _ seq (set_durable (img_of a') (set_base_progress p' (set_d_app a' d0)))) by done.
  split; [done|]. split_and!; try done.
  destruct Hend as [->|]; [|done]. intros x. apply Hi.
Qed.

(** A base copy that is not interrupted copies every chunk that is not
    all zero, makes the replica durable, and only then records
    [base_end_seq]; over a blank replica it yields the disk. *)
Theorem base_copy_exact S0 fd now seq d :
  daemon_ok S0 d -> 0 <= d_size d <= dev_size -> seq_next_is fd seq -> (forall i, stop i = false) ->
  exists d', base_copy libc_fallocate dev dev_size chunk stop fd now d = (Ok tt, d') /\
    m_base_end_seq (d_manifest d') = Some seq /\ d_manifest_json d' = Some (d_manifest d') /\
    d_durable d' = img_of (d_app d') /\
    base_copied (d_size d) (img_of (d_app d)) (img_of (d_app d')) /\
    ((forall i, 0 <= i < d_size d -> img_of (d_app d) i = x00) ->
     forall i, 0 <= i < d_size d -> d_durable d' i = dev i).
Proof.
  intros Hok Hds Hseq Hstop.
  destruct (base_copy_run S0 fd now seq d Hok Hds Hseq) as (d' & i' & E & _ & _ & _ & H).
  rewrite Hstop in H. destruct H as (Hm & Hj & Hdur & Hc).
  exists d'. split_and!; try done; [by rewrite Hm|].
  intros Hb i Hi. rewrite Hdur, (Hc i). destruct (decide (zero_block (d_size d) i)) as [Hz|Hz].
  - rewrite decide_False by tauto. rewrite Hb by done. symmetry. apply Hz.
    unfold block_of. pose proof (Z.div_mod i chunk). pose proof (Z.mod_pos_bound i chunk). lia.
  - by rewrite decide_True.
Qed.

(** Whenever the signal comes, [base_end_seq] is recorded only after the
    whole disk has been copied and synced; an interrupted copy leaves the
    manifest alone, so that the next run starts over. *)
Theorem base_copy_interrupted S0 fd now seq d :
  daemon_ok S0 d -> 0 <= d_size d <= dev_size -> seq_next_is fd seq ->
  exists d', base_copy libc_fallocate dev dev_size chunk stop fd now d = (Ok tt, d') /\
    daemon_ok S0 d' /\ d_base_progress d' = None /\
    (d_manifest d' <> d_manifest d \/ d_manifest_json d' <> d_manifest_json d ->
     d_durable d' = img_of (d_app d') /\
     base_copied (d_size d) (img_of (d_app d)) (img_of (d_app d'))).
Proof.
  intros Hok Hds Hseq.
  destruct (base_copy_run S0 fd now seq d Hok Hds Hseq) as (d' & i' & E & Hok' & Hp & _ & H).
  exists d'. split_and!; try done. destruct (stop i'); [tauto|]. by destruct H as (_ & _ & ? & ?).
Qed.

(** The base copy does not make an old replica current.  Where the disk
    has a zero chunk, whatever the replica held before stays there, and
    [base_end_seq] is recorded all the same. *)
Theorem base_copy_keeps_stale S0 fd now seq d i :
  daemon_ok S0 d -> 0 <= d_size d <= dev_size -> seq_next_is fd seq -> (forall i, stop i = false) ->
  0 <= i < d_size d -> zero_block (d_size d) i -> img_of (d_app d) i <> x00 ->
  exists d', base_copy libc_fallocate dev dev_size chunk stop fd now d = (Ok tt, d') /\
    m_base_end_seq (d_manifest d') = Some seq /\
    dev i = x00 /\ img_of (d_app d') i = img_of (d_app d) i.
Proof.
  intros Hok Hds Hseq Hstop Hi Hz Hne.
  destruct (base_copy_run S0 fd now seq d Hok Hds Hseq) as (d' & i' & E & _ & _ & _ & H).
  rewrite Hstop in H. destruct H as (Hm & _ & _ & Hc).
  exists d'. split_and!; try done; [by rewrite Hm| |].
  - apply Hz. unfold block_of. pose proof (Z.div_mod i chunk). pose proof (Z.mod_pos_bound i chunk). lia.
  - rewrite (Hc i). by rewrite decide_False by tauto.
Qed.
End BaseCopy.

(** ** Bitmap recovery *)

Section Recovery.
Variable libc_fallocate : file -> Z -> Z -> fallocate_result.
Variable dev : image.
Variable dev_size : Z.
Variable chunk : Z.
Variable stop : nat -> bool.
Hypothesis Hchunk : 0 < chunk.
(** The handler only ever sets the flag. *)
Hypothesis Hstop : forall i j, (i <= j)%nat -> stop i = true -> stop j = true.

(** [P] was re-read, or some of it was and [stop] is set. *)
Definition reread (P : Z -> Prop) (done : Prop) (img img' : image) : Prop :=
  forall x, (img' x = img x \/ (P x /\ img' x = dev x)) /\ (done -> P x -> img' x = dev x).

Lemma reread_trans (P Q : Z -> Prop) (D1 D2 : Prop) img1 img2 img3 :
  reread P D1 img1 img2 -> reread Q D2 img2 img3 -> (D2 -> D1) ->
  reread (fun x => P x \/ Q x) D2 img1 img3.
Proof.
  intros H1 H2 HD x. destruct (H1 x) as [A1 B1], (H2 x) as [A2 B2]. split.
  - destruct A2 as [->|[? ->]]; [|by right; auto]. destruct A1 as [->|[? ->]]; [by left|right; auto].
  - intros Hd [Hp|Hq]; [|by apply B2]. destruct A2 as [->|[? ->]]; [by apply B1; auto|done].
Qed.

Lemma reread_iff (P Q : Z -> Prop) (D : Prop) img img' :
  (forall x, P x <-> Q x) -> reread P D img img' -> reread Q D img img'.
Proof. intros E H x. rewrite <-(E x). apply H. Qed.

Definition on_dev (off n x : Z) : Prop := off <= x < off + n /\ x < dev_size.

Lemma recover_extent_spec S0 fuel : forall i off remaining d,
  daemon_ok S0 d -> dev_size <= d_size d -> 0 <= off -> 0 <= remaining < Z.of_nat fuel ->
  exists i' a', recover_extent libc_fallocate dev dev_size chunk stop fuel i off remaining d =
      (Ok i', set_d_app a' d) /\ (i <= i')%nat /\ replica_ok S0 (d_size d) (replica a') /\
    (copying (d_app d) = None -> copying a' = None) /\
    reread (on_dev off remaining) (stop i' = false) (img_of (d_app d)) (img_of a').
Proof.
  induction fuel as [|fuel IH]; intros i off remaining d Hok Hds Hoff Hrem; [lia|].
  cbn [recover_extent].
  assert (Hnone : forall P : Z -> Prop, (stop i = false -> forall x, ~ P x) ->
    reread P (stop i = false) (img_of (d_app d)) (img_of (d_app d))).
  { intros P HP x. split; [by left|]. intros Hs Hx. by destruct (HP Hs x). }
  destruct (Z.eqb_spec remaining 0) as [->|Hr]; cbn [andb negb].
  { exists i, (d_app d). split; [by destruct d as [[]]|]. split_and!; try done.
    apply Hnone. unfold on_dev. lia. }
  destruct (stop i) eqn:Est; cbn [negb].
  { exists i, (d_app d). split; [by destruct d as [[]]|]. split_and!; try done.
    rewrite Est. by apply Hnone. }
  set (n := chunk_len dev_size off (Z.min remaining chunk)).
  assert (0 <= n <= remaining /\ (0 < n -> off + n <= dev_size)) as [Hn1 Hn2] by (unfold n, chunk_len; lia).
  destruct (do_copy_chunk_spec libc_fallocate dev dev_size S0 d off (Z.min remaining chunk) None Hok Hoff)
    as (a1 & E1 & Hok1 & Hc1 & _ & _ & Hi1); [unfold n in *; lia|].
  rewrite (sm_bind_Ok _ _ _ _ _ E1). fold n in Hi1 |- *.
  assert (H1 : reread (on_dev off n) True (img_of (d_app d)) (img_of a1)).
  { intros x. rewrite (Hi1 x). unfold on_dev, skipped.
    destruct (decide (off <= x < off + n /\ ~ False)) as [D|D]; [split; [right|done]; split; [lia|done]|].
    split; [by left|]. intros _ ?. destruct D. split; [lia|tauto]. }
  destruct (Z.eqb_spec n 0) as [Hn0|Hn0].
  - exists (S i), a1. split; [done|]. split_and!; [lia|done|by intros _; apply Hc1|].
    apply (reread_iff (fun x => on_dev off n x \/ on_dev off remaining x)).
    { intros x. unfold on_dev. lia. }
    apply (reread_trans _ _ True _ _ (img_of a1)); [done| |done].
    intros x. split; [by left|]. intros _ [Hx Hd]. exfalso. unfold n, chunk_len in Hn0. lia.
  - destruct (IH (S i) (off + n) (remaining - n) (set_d_app a1 d)) as (i' & a' & E & Hi & Hok' & Hc' & H2);
      [done|done|lia|lia|].
    exists i', a'. split; [by rewrite E|]. split_and!; [lia|done|by intros _; apply Hc'|].
    apply (reread_iff (fun x => on_dev off n x \/ on_dev (off + n) (remaining - n) x)).
    { intros x. unfold on_dev. lia. }
    by apply (reread_trans _ _ True _ _ (img_of a1)).
Qed.

(** The bytes of the device that lie in some extent of sectors. *)
Definition in_extents (es : list (Z * Z)) (x : Z) : Prop :=
  Exists (in_extent (x / 512)) es /\ x < dev_size.

Lemma in_extents_cons sector nsect es x :
  in_extents ((sector, nsect) :: es) x <->
  on_dev (sector * 512) (nsect * 512) x \/ in_extents es x.
Proof.
  unfold in_extents, on_dev. rewrite Exists_cons. unfold in_extent at 1. cbn.
  pose proof (Z.div_mod x 512). pose proof (Z.mod_pos_bound x 512).
  split; intros H1; [destruct H1 as [[?|?] ?]; [left; lia|by right]|].
  destruct H1 as [H1|[? ?]]; [split; [left|]; lia|split; [by right|done]].
Qed.

Lemma recover_extents_spec S0 es : forall i d,
  daemon_ok S0 d -> dev_size <= d_size d -> Forall (fun e => 0 <= e.1 /\ 0 <= e.2) es ->
  exists i' a', recover_extents libc_fallocate dev dev_size chunk stop i es d =
      (Ok i', set_d_app a' d) /\ (i <= i')%nat /\ replica_ok S0 (d_size d) (replica a') /\
    (copying (d_app d) = None -> copying a' = None) /\
    reread (in_extents es) (stop i' = false) (img_of (d_app d)) (img_of a').
Proof.
  induction es as [|[sector nsect] es IH]; intros i d Hok Hds HF.
  - exists i, (d_app d). split; [by destruct d as [[]]|]. split_and!; try done.
    intros x. split; [by left|]. unfold in_extents. by intros _ [?%Exists_nil _].
  - apply Forall_cons in HF as [[H1 H2] HF]. cbn in H1, H2. cbn [recover_extents].
    destruct (recover_extent_spec S0 (S (Z.to_nat (nsect * 512))) i (sector * 512) (nsect * 512) d)
      as (i1 & a1 & E1 & Hi1 & Hok1 & Hc1 & R1); [done|done|lia|lia|].
    rewrite (sm_bind_Ok _ _ _ _ _ E1).
    destruct (IH i1 (set_d_app a1 d)) as (i' & a' & E & Hi & Hok' & Hc' & R2); [done..|].
    exists i', a'. split; [by rewrite E|]. split_and!; [lia|done|by intros Hc; apply Hc', Hc1|].
    eapply reread_iff; [intros x; symmetry; apply in_extents_cons|].
    apply (reread_trans _ _ (stop i1 = false) _ _ (img_of a1)); [exact R1|exact R2|].
    intros Hs. destruct (stop i1) eqn:Es; [|done]. by rewrite (Hstop i1 i') in Hs.
Qed.

Lemma recover_run S0 rc d :
  daemon_ok S0 d -> dev_size <= d_size d -> Forall (fun e => 0 <= e.1 /\ 0 <= e.2) (rc_extents rc) ->
  exists d' i', recover libc_fallocate dev dev_size chunk stop rc d = (Ok tt, d') /\ daemon_ok S0 d' /\
    d_size d' = d_size d /\ d_feed d' = set_app (d_app d') (d_feed d) /\ (copying (d_app d) = None -> copying (d_app d') = None) /\
    reread (in_extents (rc_extents rc)) (stop i' = false) (img_of (d_app d)) (img_of (d_app d')) /\
    if stop i' then d_recovery_json d' = d_recovery_json d
    else d_recovery_json d' = None /\ d_durable d' = img_of (d_app d').
Proof.
  intros Hok Hds HF. unfold recover.
  destruct (recover_extents_spec S0 (rc_extents rc) 0 d Hok Hds HF) as (i' & a' & E & _ & Hok' & Hc & R).
  rewrite (sm_bind_Ok _ _ _ _ _ E).
  exists (if stop i' then set_d_app a' d
          else set_recovery_json None (set_durable (img_of a') (set_d_app a' d))), i'.
  destruct (stop i') eqn:Es; rewrite ?Es in R; by split_and!.
Qed.

(** An interrupted recovery is not forgotten.  Whenever the signal comes,
    [recovery.json] is removed only after every byte of the extents has been
    re-read and synced; nothing outside the extents changes. *)
Theorem recover_interrupted S0 rc d :
  daemon_ok S0 d -> dev_size <= d_size d -> Forall (fun e => 0 <= e.1 /\ 0 <= e.2) (rc_extents rc) ->
  d_recovery_json d = Some rc ->
  exists d', recover libc_fallocate dev dev_size chunk stop rc d = (Ok tt, d') /\
    (forall x, ~ in_extents (rc_extents rc) x -> img_of (d_app d') x = img_of (d_app d) x) /\
    (d_recovery_json d' = Some rc \/
     (d_recovery_json d' = None /\ forall x, in_extents (rc_extents rc) x -> d_durable d' x = dev x)).
Proof.
  intros Hok Hds HF Hj.
  destruct (recover_run S0 rc d Hok Hds HF) as (d' & i' & E & _ & _ & _ & _ & R & H).
  exists d'. split_and!; [done| |].
  - intros x Hx. destruct (R x) as [[?|[? _]] _]; [done|tauto].
  - destruct (stop i'); [left; congruence|right]. destruct H as [? ->]. split; [done|].
    intros x. by apply R.
Qed.

(** A recovery that is not interrupted makes the dirty chunks equal to the
    disk and changes nothing else. *)
Lemma recovery_result S0 fd bm c nbits now gap d :
  daemon_ok S0 d -> d_size d = dev_size -> (forall i, stop i = false) ->
  read_bitmap fd true = Ok (bm, c, nbits) -> 0 < c -> 0 <= nbits <= 8 * blen bm ->
  exists d', (rc ← start_recovery fd now gap;
              recover libc_fallocate dev dev_size chunk stop rc) d = (Ok tt, d') /\
    daemon_ok S0 d' /\ d_size d' = dev_size /\ d_feed d' = set_app (d_app d') (d_feed d) /\
    (copying (d_app d) = None -> copying (d_app d') = None) /\
    d_recovery_json d' = None /\ d_durable d' = img_of (d_app d') /\
    forall x, 0 <= x < dev_size ->
      (dirty bm nbits (x / 512 / c) = false -> img_of (d_app d') x = img_of (d_app d) x) /\
      (dirty bm nbits (x / 512 / c) = true -> img_of (d_app d') x = dev x).
Proof.
  intros Hok Hds Hrun Hbm Hc Hn.
  destruct (bitmap_extents_cover bm c nbits Hc Hn) as (es & Ees & Hsep & Hcov).
  set (rc := mk_recovery gap es now).
  set (d1 := set_recovery_alive true (set_recovery_json (Some rc) d)).
  assert (E1 : start_recovery fd now gap d = (Ok rc, d1)).
  { unfold start_recovery. rewrite Hbm. rewrite (sm_bind_Ok _ _ _ (bm, c, nbits) d) by done.
    cbn beta iota. by rewrite Ees. }
  rewrite (sm_bind_Ok _ _ _ _ _ E1).
  destruct (recover_run S0 rc d1) as (d' & i' & E & Hok' & Hs & Hf & Hcp & R & H);
    [done|cbn; lia|by apply (separated_nonneg 0)|].
  rewrite Hrun in H, R. destruct H as [Hj Hdur]. exists d'. split_and!; try done; [by rewrite Hs|].
  intros x Hx. destruct (R x) as [Hor Hd]. split.
  - intros Ed. destruct Hor as [Hold|[[Hin _] _]]; [done|]. apply Hcov in Hin as [_ Ht]. by rewrite Ed in Ht.
  - intros Ed. apply Hd; [done|]. split; [|lia]. apply Hcov. split; [by eapply dirty_range|done].
Qed.

(** Recovery after an overflow.  If every byte of a clean chunk is right
    in the replica, then reading and clearing the bitmap and re-reading the
    extents makes the whole replica equal to the disk, and durable. *)
Theorem recovery_repairs S0 fd bm c nbits now gap d :
  daemon_ok S0 d -> d_size d = dev_size -> (forall i, stop i = false) ->
  read_bitmap fd true = Ok (bm, c, nbits) -> 0 < c -> 0 <= nbits <= 8 * blen bm ->
  (forall x, 0 <= x < dev_size -> dirty bm nbits (x / 512 / c) = false -> img_of (d_app d) x = dev x) ->
  exists d', (rc ← start_recovery fd now gap;
              recover libc_fallocate dev dev_size chunk stop rc) d = (Ok tt, d') /\
    d_recovery_json d' = None /\ forall x, 0 <= x < dev_size -> d_durable d' x = dev x.
Proof.
  intros Hok Hds Hrun Hbm Hc Hn Hclean.
  destruct (recovery_result S0 fd bm c nbits now gap d Hok Hds Hrun Hbm Hc Hn) as (d' & E & _ & _ & _ & _ & Hj & Hdur & R).
  exists d'. split_and!; [done|done|]. intros x Hx. rewrite Hdur. destruct (R x Hx) as [Hold Hd].
  destruct (dirty bm nbits (x / 512 / c)) eqn:Ed; [by apply Hd|]. rewrite Hold by done. by apply Hclean.
Qed.
End Recovery.

(** ** Concrete runs

    A disk of two sectors, the first zero and the second not, copied a sector
    at a time. *)
Definition demo_status : list Z := [1; 0; 2; 1; 0; 2; 8; 1; 4096; 0; 9; 3; 512; 1; 0; 0; 0; 0].

Definition demo_fd : cdp_fd :=
  mk_cdp_fd (struct_pack STATUS_FMT demo_status)
    (fun _ n => Ok (Byte.x02 :: replicate (Z.to_nat n - 1) x00)).

Definition demo_disk : image := fun i => if i <? 512 then x00 else Byte.x55.

Definition demo_replica (img : image) : Replica := mk_Replica (mk_file 1024 img (fun _ => false)) true None.

Definition demo_manifest : manifest := mk_manifest "n1" "/dev/sda" 1 1 1024 None None None None.

Definition demo_daemon (img : image) (rc : option recovery) : daemon :=
  mk_daemon (mk_feed (mk_applier (demo_replica img) None [] None 0 0) None [] None false)
    1024 (Some "b1"%string) demo_manifest (Some demo_manifest) rc false None false false 0 false img.

Lemma demo_daemon_ok img rc : daemon_ok zero_image (demo_daemon img rc).
Proof. by split. Qed.

Lemma demo_seq_next : seq_next_is demo_fd 9.
Proof. vm_compute. reflexivity. Qed.

Lemma base_copy_exact_witness :
  exists d', base_copy (fun _ _ _ => FaZero) demo_disk 1024 512 (fun _ => false) demo_fd 77
      (demo_daemon zero_image None) = (Ok tt, d') /\
    m_base_end_seq (d_manifest d') = Some 9 /\
    forall i, 0 <= i < 1024 -> d_durable d' i = demo_disk i.
Proof.
  destruct (base_copy_exact (fun _ _ _ => FaZero) demo_disk 1024 512 (fun _ => false) ltac:(lia)
    zero_image demo_fd 77 9 (demo_daemon zero_image None)) as (d' & E & Hs & _ & _ & _ & Hi).
  - apply demo_daemon_ok.
  - cbn. lia.
  - apply demo_seq_next.
  - done.
  - exists d'. split; [exact E|]. split; [exact Hs|]. by apply Hi.
Defined.

Lemma base_copy_interrupted_witness :
  exists d', base_copy (fun _ _ _ => FaZero) demo_disk 1024 512 (fun i => (1 <=? i)%nat) demo_fd 77
      (demo_daemon zero_image None) = (Ok tt, d') /\ d_base_progress d' = None.
Proof.
  destruct (base_copy_interrupted (fun _ _ _ => FaZero) demo_disk 1024 512 (fun i => (1 <=? i)%nat)
    ltac:(lia) zero_image demo_fd 77 9 (demo_daemon zero_image None)) as (d' & E & _ & Hp & _).
  - apply demo_daemon_ok.
  - cbn. lia.
  - apply demo_seq_next.
  - exists d'. exact (conj E Hp).
Defined.

(** The replica of an earlier boot holds 0x41 everywhere. *)
Lemma base_copy_keeps_stale_witness :
  exists d', base_copy (fun _ _ _ => FaZero) demo_disk 1024 512 (fun _ => false) demo_fd 77
      (demo_daemon (fun _ => Byte.x41) None) = (Ok tt, d') /\
    m_base_end_seq (d_manifest d') = Some 9 /\
    demo_disk 3 = x00 /\ img_of (d_app d') 3 = Byte.x41.
Proof.
  apply (base_copy_keeps_stale (fun _ _ _ => FaZero) demo_disk 1024 512 (fun _ => false) ltac:(lia)
    zero_image demo_fd 77 9 (demo_daemon (fun _ => Byte.x41) None) 3).
  - apply demo_daemon_ok.
  - cbn. lia.
  - apply demo_seq_next.
  - done.
  - cbn. lia.
  - intros i Hi. unfold demo_disk. change (block_of 512 3) with 0 in Hi. cbn in Hi.
    rewrite (proj2 (Z.ltb_lt i 512)); [done|lia].
  - done.
Defined.

Definition demo_recovery : recovery := mk_recovery 6 [(1, 1)] 70.

Lemma recover_interrupted_witness :
  exists d', recover (fun _ _ _ => FaZero) demo_disk 1024 512 (fun i => (2 <=? i)%nat) demo_recovery
      (demo_daemon zero_image (Some demo_recovery)) = (Ok tt, d') /\
    (d_recovery_json d' = Some demo_recovery \/
     (d_recovery_json d' = None /\
      forall x, in_extents 1024 (rc_extents demo_recovery) x -> d_durable d' x = demo_disk x)).
Proof.
  destruct (recover_interrupted (fun _ _ _ => FaZero) demo_disk 1024 512 (fun i => (2 <=? i)%nat)
    ltac:(lia)) with (S0 := zero_image) (rc := demo_recovery)
    (d := demo_daemon zero_image (Some demo_recovery)) as (d' & E & _ & H).
  - intros i j Hij Hi. apply Nat.leb_le in Hi. apply Nat.leb_le. lia.
  - apply demo_daemon_ok.
  - cbn. lia.
  - repeat constructor; cbn; lia.
  - done.
  - exists d'. exact (conj E H).
Defined.

Lemma recovery_repairs_witness :
  exists d', (rc ← start_recovery demo_fd 70 6;
              recover (fun _ _ _ => FaZero) demo_disk 1024 512 (fun _ => false) rc)
      (demo_daemon zero_image None) = (Ok tt, d') /\
    d_recovery_json d' = None /\ forall x, 0 <= x < 1024 -> d_durable d' x = demo_disk x.
Proof.
  apply (recovery_repairs (fun _ _ _ => FaZero) demo_disk 1024 512 (fun _ => false) ltac:(lia))
    with (S0 := zero_image) (bm := Byte.x02 :: replicate 7 x00) (c := 1) (nbits := 2).
  - done.
  - apply demo_daemon_ok.
  - done.
  - done.
  - vm_compute. reflexivity.
  - lia.
  - vm_compute. split; congruence.
  - intros x Hx. cbn [demo_daemon d_app]. unfold demo_disk. rewrite Z.div_1_r.
    destruct (Z.ltb_spec x 512); [done|].
    assert (x / 512 = 1) as -> by (symmetry; apply (Z.div_unique x 512 1 (x - 512)); lia).
    vm_compute. discriminate.
Defined.
