(* ===== verification/CopyAlone.v ===== *)
(** * The copy threads end to end

    The two loops of the daemon run as threads ([CopyRuns]): what a base copy
    and a recovery leave behind when the guest writes meanwhile, and that the
    sequential functions of [CopyThreads] are what the threads do when nothing
    else runs. *)
From S2P Require Import Prelude Dmcdp Files Seed Replica Apply CopyProtocol CopyLoop CopyRuns Consume Daemon CopyThreads.

(** ** A thread that runs alone *)

Section Alone.
Context {T : Type} `{CopyLoop T}.
Variable libc_fallocate : file -> Z -> Z -> fallocate_result.
Variable dev : image.
Variable size : Z.
Variable skip_zero : option bytes.
Abbreviation next := (sys_next libc_fallocate size skip_zero).
Abbreviation texec := (texec libc_fallocate size skip_zero).

(** The chunks of the loop, copied one after the other. *)
Inductive loop_runs : T -> applier -> applier -> Prop :=
  | runs_end t a : chunk_request t = None -> loop_runs t a a
  | runs_chunk t off n a a1 k t' a' :
      chunk_request t = Some (off, n) ->
      copy_chunk libc_fallocate dev size a off n skip_zero = Ok (a1, k) ->
      chunk_done t k = Some t' -> loop_runs t' a1 a' -> loop_runs t a a'
  | runs_break t off n a a1 k :
      chunk_request t = Some (off, n) ->
      copy_chunk libc_fallocate dev size a off n skip_zero = Ok (a1, k) ->
      chunk_done t k = None -> loop_runs t a a1.

(** Before the loop test, with nothing under way. *)
Definition at_test (t : T) (a : applier) (s : tsys T) : Prop :=
  thread s = AtTest t /\ stopped s = false /\ ph (base s) = Idle /\ core (base s) = a /\ disk (base s) = dev.

Lemma copy_land_deferred a off buf a' : copy_land a off buf skip_zero = Ok a' -> deferred a' = deferred a.
Proof.
  unfold copy_land. destruct (_ && _).
  - destruct (Replica_pwrite _ _ _) as [rp| |]; [|done..]. by intros [= <-].
  - by intros [= <-].
Qed.

(** The six sections of [copy_chunk] in a row. *)
Lemma chunk_sections t off n a a1 k s :
  at_test t a s -> chunk_request t = Some (off, n) ->
  copy_chunk libc_fallocate dev size a off n skip_zero = Ok (a1, k) ->
  exists s', texec s (replicate 5 TCopy) = Some s' /\
    thread s' = match chunk_done t k with Some t' => AtTest t' | None => AfterLoop end /\
    stopped s' = false /\ ph (base s') = Idle /\ core (base s') = a1 /\ disk (base s') = dev /\
    stream (base s') = stream (base s).
Proof.
  destruct s as [[D St C P Cov] th stp sy]. intros (Et & Es & Ei & Ec & Ed) Hr Hc. cbn in Et, Es, Ei, Ec, Ed.
  subst. unfold copy_chunk in Hc. apply res_bind_Ok_inv in Hc as (a2 & El & Hc).
  pose proof (copy_land_deferred _ _ _ _ El) as Hd. cbn in Hd.
  unfold copy_clear in Hc. rewrite Hd in Hc. cbn in Hc. injection Hc as <- <-.
  cbn. rewrite Hr. cbn. rewrite El. cbn. rewrite Hd. cbn.
  eexists. split; [done|]. by split_and!.
Qed.

Lemma texec_app acts1 : forall acts2 s s1,
  texec s acts1 = Some s1 -> texec s (acts1 ++ acts2) = texec s1 acts2.
Proof.
  induction acts1 as [|act acts1 IH]; intros acts2 s s1; cbn [app CopyRuns.texec].
  - by intros [= <-].
  - intros (s2 & -> & E)%opt_bind_Some. cbn. by apply IH.
Qed.

(** The loop, run by the thread alone up to the test after it. *)
Lemma loop_runs_texec t a a' :
  loop_runs t a a' -> forall s, at_test t a s ->
  exists k s', texec s (replicate k TCopy) = Some s' /\ thread s' = AfterLoop /\ stopped s' = false /\
    ph (base s') = Idle /\ core (base s') = a' /\ disk (base s') = dev /\ stream (base s') = stream (base s).
Proof.
  induction 1 as [t a Hr|t off n a a1 k t' a' Hr Hc Hd _ IH|t off n a a1 k Hr Hc Hd]; intros s Hs.
  - exists 1%nat. destruct Hs as (Et & Es & Hs). cbn. unfold thread_next. rewrite Et, Es, Hr.
    eexists. split; [done|]. by split_and!; try apply Hs.
  - destruct (chunk_sections t off n a a1 k s Hs Hr Hc) as (s1 & E1 & Et & Es & Ei & Ec & Ed & Eq).
    rewrite Hd in Et. destruct (IH s1) as (j & s' & E & H1 & H2 & H3 & H4 & H5 & H6); [by split_and!|].
    exists (5 + j)%nat, s'. rewrite replicate_add, (texec_app _ _ _ _ E1). split_and!; try done. congruence.
  - destruct (chunk_sections t off n a a1 k s Hs Hr Hc) as (s1 & E1 & Et & Es & Ei & Ec & Ed & Eq).
    rewrite Hd in Et. exists 5%nat, s1. by split_and!.
Qed.

(** And on to the end: the replica is synced as it is after the loop. *)
Lemma loop_runs_finish t a a' s :
  loop_runs t a a' -> at_test t a s ->
  exists k s', texec s (replicate k TCopy) = Some s' /\ thread s' = Finished /\
    core (base s') = a' /\ synced s' = img_of a' /\ stream (base s') = stream (base s).
Proof.
  intros Hr Hs. destruct (loop_runs_texec t a a' Hr s Hs) as (k & s1 & E & Et & Es & Ei & Ec & Ed & Eq).
  exists (k + 2)%nat. rewrite replicate_add, (texec_app _ _ _ _ E). change (CopyRuns.texec _ _ _ s1 (replicate 2 TCopy)) with
    (thread_next libc_fallocate size skip_zero s1 ≫= fun s2 => texec s2 [TCopy]).
  unfold thread_next at 1. rewrite Et, Es.
  eexists. split; [done|]. cbn. by rewrite Ec.
Qed.
End Alone.

(** ** The sequential loops are those runs *)

Section Sequential.
Variable libc_fallocate : file -> Z -> Z -> fallocate_result.
Variable dev : image.
Variables size chunk : Z.
Hypothesis Hchunk : 0 < chunk.
Abbreviation do_copy_chunk := (do_copy_chunk libc_fallocate dev size).

Lemma do_copy_chunk_Ok off n skip_zero d k d' :
  do_copy_chunk off n skip_zero d = (Ok k, d') ->
  exists a', copy_chunk libc_fallocate dev size (d_app d) off n skip_zero = Ok (a', k) /\ d' = set_d_app a' d.
Proof.
  unfold CopyThreads.do_copy_chunk. destruct (copy_chunk _ _ _ _ _ _ _) as [[a' k']| |]; [|done..].
  intros [= <- <-]. by exists a'.
Qed.

Lemma base_copy_loop_runs fuel : forall i off zero d i' d',
  d_size d = size ->
  base_copy_loop libc_fallocate dev size chunk (fun _ => false) fuel i zero off d = (Ok i', d') ->
  loop_runs (H := base_loop size chunk) libc_fallocate dev size (Some zero) (mk_base_pos off) (d_app d) (d_app d').
Proof.
  induction fuel as [|fuel IH]; intros i off zero d i' d' Hd; [done|]. cbn [base_copy_loop].
  rewrite (sm_bind_Ok _ _ _ (d_size d) d) by done. rewrite Hd.
  destruct (Z.ltb_spec off size) as [L|L]; cbn [andb negb].
  2:{ intros [= <- <-]. apply runs_end. cbn. by rewrite (proj2 (Z.ltb_ge _ _) L). }
  assert (Hr : chunk_request (CopyLoop := base_loop size chunk) (mk_base_pos off) = Some (off, Z.min chunk (size - off))).
  { cbn. by rewrite (proj2 (Z.ltb_lt _ _) L). }
  intros (n & d1 & Ec & H)%sm_bind_Ok_inv. apply do_copy_chunk_Ok in Ec as (a1 & Ec & ->).
  destruct (n =? 0) eqn:En.
  - injection H as <- <-. eapply runs_break; [done..|]. cbn. by rewrite En.
  - rewrite (sm_bind_Ok _ _ _ tt (set_base_progress (Some (off + n)) (set_d_app a1 d))) in H by done.
    apply IH in H; [|done]. eapply runs_chunk; [done..| |exact H]. cbn. by rewrite En.
Qed.

Abbreviation recover_runs := (loop_runs (H := recover_loop chunk) libc_fallocate dev size None).

Lemma settle_here es off remaining : remaining <> 0 -> settle es off remaining = Some (mk_recover_pos es off remaining).
Proof. intros Hne. destruct es; cbn; by rewrite (proj2 (Z.eqb_neq _ _) Hne). Qed.

(** What a loop does depends only on where [settle] gets to. *)
Lemma recover_runs_settle t u a a' :
  settle (rp_extents t) (rp_off t) (rp_remaining t) = settle (rp_extents u) (rp_off u) (rp_remaining u) ->
  recover_runs u a a' -> recover_runs t a a'.
Proof.
  intros E Hr. destruct Hr as [u a Hq|u off n a a1 k u' a' Hq Hc Hd Hr|u off n a a1 k Hq Hc Hd].
  - apply runs_end. cbn in *. by rewrite E.
  - eapply runs_chunk; [| done| |exact Hr]; cbn in *; by rewrite E.
  - eapply runs_break; [|done|]; cbn in *; by rewrite E.
Qed.

Lemma recover_extent_runs es a' fuel : forall i off remaining d i' d',
  recover_extent libc_fallocate dev size chunk (fun _ => false) fuel i off remaining d = (Ok i', d') ->
  (forall o, recover_runs (mk_recover_pos es o 0) (d_app d') a') ->
  recover_runs (mk_recover_pos es off remaining) (d_app d) a'.
Proof.
  induction fuel as [|fuel IH]; intros i off remaining d i' d'; [done|]. cbn [recover_extent].
  destruct (Z.eqb_spec remaining 0) as [->|Hne]; cbn [negb andb]; [intros [= <- <-] Hk; apply Hk|].
  assert (Hr : chunk_request (CopyLoop := recover_loop chunk) (mk_recover_pos es off remaining) =
               Some (off, Z.min remaining chunk)) by (cbn; by rewrite settle_here).
  intros (n & d1 & Ec & H)%sm_bind_Ok_inv Hk. apply do_copy_chunk_Ok in Ec as (a1 & Ec & ->).
  destruct (n =? 0) eqn:En.
  - injection H as <- <-. eapply runs_chunk; [done..| |apply Hk]. cbn. rewrite settle_here by done. cbn. by rewrite En.
  - pose proof (IH _ _ _ _ _ _ H Hk) as Hruns.
    eapply runs_chunk; [done..| |exact Hruns]. cbn. rewrite settle_here by done. cbn. by rewrite En.
Qed.

Lemma recover_extents_runs es : forall i o d i' d',
  recover_extents libc_fallocate dev size chunk (fun _ => false) i es d = (Ok i', d') ->
  recover_runs (mk_recover_pos es o 0) (d_app d) (d_app d').
Proof.
  induction es as [|[sector nsect] es IH]; intros i o d i' d'; cbn [recover_extents].
  - intros [= <- <-]. by apply runs_end.
  - intros (i1 & d1 & E & H)%sm_bind_Ok_inv.
    apply (recover_runs_settle _ (mk_recover_pos es (sector * 512) (nsect * 512))); [done|].
    eapply recover_extent_runs; [exact E|]. intros o'. by eapply IH.
Qed.

(** [base_copy] is what the thread does when nothing else runs: from any
    state in which it is about to start, its own steps alone lead to the end,
    with the replica and the synced image of the sequential function. *)
Theorem base_copy_alone fd now d d' s :
  base_copy libc_fallocate dev size chunk (fun _ => false) fd now d = (Ok tt, d') -> d_size d = size ->
  at_test dev (mk_base_pos 0) (d_app d) s ->
  exists k s',
    CopyRuns.texec (H := base_loop size chunk) libc_fallocate size
      (Some (replicate (Z.to_nat chunk) x00)) s (replicate k TCopy) = Some s' /\
    thread s' = Finished /\ core (base s') = d_app d' /\ synced s' = d_durable d' /\
    stream (base s') = stream (base s).
Proof.
  unfold base_copy. intros E Hd Hs.
  rewrite (sm_bind_Ok _ _ _ tt (set_base_progress (Some 0) d)) in E by done.
  rewrite (sm_bind_Ok _ _ _ size (set_base_progress (Some 0) d)) in E by (unfold sm_get; cbn; by rewrite Hd).
  apply sm_bind_Ok_inv in E as (i & d1 & El & E). apply base_copy_loop_runs in El; [|done].
  cbn [negb] in E. rewrite (sm_bind_Ok _ _ _ tt (set_durable (img_of (d_app d1)) d1)) in E by done.
  apply sm_bind_Ok_inv in E as (seq & d2 & Eq & E). unfold sm_res in Eq. injection Eq as Eq <-.
  injection E as <-.
  destruct (loop_runs_finish (H := base_loop size chunk) libc_fallocate dev size _ _ _ _ s El Hs)
    as (k & s' & Ek & Et & Ec & Ey & Est).
  by exists k, s'.
Qed.

(** And so is [recover]. *)
Theorem recover_alone rc d d' s :
  recover libc_fallocate dev size chunk (fun _ => false) rc d = (Ok tt, d') ->
  at_test dev (recover_begin (rc_extents rc)) (d_app d) s ->
  exists k s',
    CopyRuns.texec (H := recover_loop chunk) libc_fallocate size None s (replicate k TCopy) = Some s' /\
    thread s' = Finished /\ core (base s') = d_app d' /\ synced s' = d_durable d' /\
    stream (base s') = stream (base s).
Proof.
  unfold recover. intros E Hs.
  apply sm_bind_Ok_inv in E as (i & d1 & El & E).
  apply (recover_extents_runs _ _ 0) in El. cbn [negb] in E.
  rewrite (sm_bind_Ok _ _ _ tt (set_durable (img_of (d_app d1)) d1)) in E by done. injection E as <-.
  destruct (loop_runs_finish (H := recover_loop chunk) libc_fallocate dev size _ _ _ _ s El Hs)
    as (k & s' & Ek & Et & Ec & Ey & Est).
  by exists k, s'.
Qed.
End Sequential.

(** ** Beside live writes *)

Section Live.
Variable libc_fallocate : file -> Z -> Z -> fallocate_result.
Variable S0 : image.
Variables size chunk : Z.
Hypothesis Hchunk : 0 < chunk.

Definition zero_chunk : bytes := replicate (Z.to_nat chunk) x00.

(** A base copy is about to start over a blank replica; records may already be
    waiting in the ring. *)
Definition base_copy_start (s : tsys base_pos) : Prop :=
  loop_start (laws := base_loop_laws size chunk Hchunk) size (Some zero_chunk) S0 (mk_base_pos 0) s.

Definition base_copy_run (s0 s : tsys base_pos) : Prop :=
  trun (H := base_loop size chunk) libc_fallocate size (Some zero_chunk) t_in_order s0 s.

(** A recovery is about to start; what [covered] lists is right once the
    records in the ring are applied. *)
Definition recovery_start (es : list (Z * Z)) (s : tsys recover_pos) : Prop :=
  loop_start (laws := recover_loop_laws size chunk Hchunk) size None S0 (recover_begin es) s.

Definition recovery_run (s0 s : tsys recover_pos) : Prop :=
  trun (H := recover_loop chunk) libc_fallocate size None t_in_order s0 s.


(** An overflow is repaired while writes go on.  The extents of the bitmap
    are re-read by a thread; if the clean chunks were right when it started,
    the whole replica is right when it is done and the ring is drained. *)
Theorem recovery_live bm c nbits es s0 s i :
  0 < c -> 0 <= nbits <= 8 * blen bm -> bitmap_extents bm c nbits = Ok es ->
  (forall x, 0 <= x < size -> dirty bm nbits (x / 512 / c) = false -> is_covered (base s0) x) ->
  recovery_start es s0 -> recovery_run s0 s -> thread s = Finished -> stream (base s) = [] ->
  0 <= i < size -> img_of (core (base s)) i = disk (base s) i.
Proof.
  intros Hc Hn Ees Hclean Hst Hr Ef Eq Hi.
  apply (copy_loop_converges libc_fallocate size None S0 (recover_begin es) s0 s i Hst Hr Ef Eq).
  destruct (dirty bm nbits (i / 512 / c)) eqn:Ed; [left|right; by apply Hclean].
  right. destruct (bitmap_extents_cover bm c nbits Hc Hn) as (es' & E & _ & Hcov).
  rewrite Ees in E. injection E as <-.
  assert (Hx : Exists (in_extent (i / 512)) es) by (apply Hcov; split; [by eapply dirty_range|done]).
  eapply Exists_impl; [exact Hx|]. intros e He. unfold in_extent, in_sectors in *.
  pose proof (Z.div_mod i 512). pose proof (Z.mod_pos_bound i 512). lia.
Qed.
End Live.

(** ** Concrete runs *)

(** A disk of two sectors whose second one holds data, a blank replica, and a
    record in the ring from before the copy. *)
Definition demo_sys (cov : list (Z * Z)) (st : list item) : sys :=
  mk_sys demo_disk st (mk_applier (mk_Replica (file_create 1024) true None) None [] None 0 0) Idle cov.

Definition demo_tsys {T} (t : T) (cov : list (Z * Z)) : tsys T :=
  mk_tsys (demo_sys cov []) (AtTest t) false zero_image.

Lemma demo_base_start : base_copy_start zero_image 1024 512 ltac:(lia) (demo_tsys (mk_base_pos 0) []).
Proof.
  split; [done|]. split; [cbn; lia|]. split; try done.
  - by intros i ?%Exists_nil.
  - by apply Forall_replicate.
Qed.

(** A write to the first sector while its chunk is in flight, and one to it
    after. *)
Definition demo_schedule : list taction :=
  [TCopy; TCopy; TGuest (write_item 0 Byte.x41); TApply] ++ replicate 4 TCopy ++
  [TGuest (write_item 0 Byte.x42); TCopy; TApply] ++ replicate 7 TCopy.


(** The second sector is dirty, the first is right already; a write to the
    second one arrives while it is in flight. *)
Definition recovery_schedule : list taction :=
  [TCopy; TCopy; TGuest (write_item 1 Byte.x41); TApply] ++ replicate 7 TCopy.

Lemma demo_recovery_start :
  recovery_start zero_image 1024 512 ltac:(lia) [(1, 1)] (demo_tsys (recover_begin [(1, 1)]) [(0, 512)]).
Proof.
  split; [done|]. split; [split; [repeat constructor; cbn; lia|cbn; lia]|].
  split; try done. intros x [Hx|Hx]%Exists_cons; [|by apply Exists_nil in Hx].
  unfold in_extent in Hx. cbn in Hx. unfold agrees. cbn. unfold demo_disk.
  by rewrite (proj2 (Z.ltb_lt x 512)) by lia.
Qed.

Lemma recovery_live_witness :
  exists s, CopyRuns.texec (H := recover_loop 512) (fun _ _ _ => FaZero) 1024 None
      (demo_tsys (recover_begin [(1, 1)]) [(0, 512)]) recovery_schedule = Some s /\
    forall i, 0 <= i < 1024 -> img_of (core (base s)) i = disk (base s) i.
Proof.
  set (m := texec_ordered (H := recover_loop 512) (fun _ _ _ => FaZero) 1024 None
      (demo_tsys (recover_begin [(1, 1)]) [(0, 512)]) recovery_schedule).
  assert (Hf : (fun s => (thread s, stream (base s))) <$> m = Some (Finished, [])) by (vm_compute; reflexivity).
  destruct m as [s|] eqn:E; [|discriminate Hf]. injection Hf as Hf Hs.
  apply texec_ordered_run in E as [Ex Hr]; [|repeat constructor; vm_compute; congruence].
  exists s. split; [exact Ex|]. intros i Hi.
  apply (recovery_live (fun _ _ _ => FaZero) zero_image 1024 512 ltac:(lia) [Byte.x02] 1 2 [(1, 1)]
    (demo_tsys (recover_begin [(1, 1)]) [(0, 512)]) s).
  - lia.
  - vm_compute. split; congruence.
  - vm_compute. reflexivity.
  - intros x Hx. rewrite Z.div_1_r. destruct (decide (x < 512)).
    + intros _. left. unfold in_extent. cbn. lia.
    + replace (x / 512) with 1 by (apply (Z.div_unique x 512 1 (x - 512)); lia). vm_compute. discriminate.
  - exact demo_recovery_start.
  - exact Hr.
  - exact Hf.
  - exact Hs.
  - exact Hi.
Defined.

Lemma base_copy_alone_witness :
  exists d' k s', base_copy (fun _ _ _ => FaZero) demo_disk 1024 512 (fun _ => false) demo_fd 77
      (demo_daemon zero_image None) = (Ok tt, d') /\
    CopyRuns.texec (H := base_loop 1024 512) (fun _ _ _ => FaZero) 1024 (Some (replicate 512 x00))
      (mk_tsys (mk_sys demo_disk [] (d_app (demo_daemon zero_image None)) Idle []) (AtTest (mk_base_pos 0)) false zero_image)
      (replicate k TCopy) = Some s' /\ thread s' = Finished /\ core (base s') = d_app d'.
Proof.
  destruct (base_copy (fun _ _ _ => FaZero) demo_disk 1024 512 (fun _ => false) demo_fd 77
      (demo_daemon zero_image None)) as [r d'] eqn:E.
  assert (Hr : r = Ok tt).
  { change r with (r, d').1. rewrite <-E. vm_compute. reflexivity. }
  subst r. exists d'.
  destruct (base_copy_alone (fun _ _ _ => FaZero) demo_disk 1024 512 demo_fd 77 _ d'
    (mk_tsys (mk_sys demo_disk [] (d_app (demo_daemon zero_image None)) Idle []) (AtTest (mk_base_pos 0)) false zero_image)
    E eq_refl) as (k & s' & Ek & Ef & Ec & _); [by split_and!|].
  exists k, s'. split; [reflexivity|]. split; [exact Ek|]. split; [exact Ef|exact Ec].
Defined.

Lemma recover_alone_witness :
  exists d' k s', recover (fun _ _ _ => FaZero) demo_disk 1024 512 (fun _ => false) demo_recovery
      (demo_daemon zero_image (Some demo_recovery)) = (Ok tt, d') /\
    CopyRuns.texec (H := recover_loop 512) (fun _ _ _ => FaZero) 1024 None
      (mk_tsys (mk_sys demo_disk [] (d_app (demo_daemon zero_image None)) Idle [])
        (AtTest (recover_begin (rc_extents demo_recovery))) false zero_image)
      (replicate k TCopy) = Some s' /\ thread s' = Finished /\ core (base s') = d_app d'.
Proof.
  destruct (recover (fun _ _ _ => FaZero) demo_disk 1024 512 (fun _ => false) demo_recovery
      (demo_daemon zero_image (Some demo_recovery))) as [r d'] eqn:E.
  assert (Hr : r = Ok tt).
  { change r with (r, d').1. rewrite <-E. vm_compute. reflexivity. }
  subst r. exists d'.
  destruct (recover_alone (fun _ _ _ => FaZero) demo_disk 1024 512 demo_recovery _ d'
    (mk_tsys (mk_sys demo_disk [] (d_app (demo_daemon zero_image None)) Idle [])
        (AtTest (recover_begin (rc_extents demo_recovery))) false zero_image)
    E) as (k & s' & Ek & Ef & Ec & _); [by split_and!|].
  exists k, s'. split; [reflexivity|]. split; [exact Ek|]. split; [exact Ef|exact Ec].
Defined.
