(* ===== verification/MainLoop.v ===== *)
(** * The main loop ([Daemon.mark_consistent], [check_seed], [write_status], [main])

    The steps of the main thread, in the order [main] takes them, and the
    status the daemon reports.  What the environment decides during one
    iteration -- what the read returns, whether [.rebuild.lock] exists at each
    test, the clock, the outcome of [fsfreeze] -- is an argument. *)
From S2P Require Import Prelude Dmcdp Files Seed Replica Apply Consume Daemon CopyThreads.

(** ** Consistent points *)

(** What [fsfreeze -u] does; its exit status is not looked at. *)
Inductive thaw_outcome : Type :=
  | Thawed
  | ThawFailed                       (* it ends with an error *)
  | ThawRaises                       (* it cannot be run *)
  | ThawHangs.

Inductive freeze_outcome : Type :=
  | FreezeOk (thaw : thaw_outcome)   (* [fsfreeze -f] succeeds; what the thaw will do *)
  | FreezeRefused
  | FreezeTimeout (froze : bool).    (* TimeoutExpired; the filesystem may be frozen by now *)

(** What [os.read] gives. *)
Inductive read_result : Type :=
  | RData (data : bytes)
  | RBlocked
  | RError.

#[export] Instance thaw_outcome_eq_dec : EqDecision thaw_outcome.
Proof. solve_decision. Defined.
#[export] Instance freeze_outcome_eq_dec : EqDecision freeze_outcome.
Proof. solve_decision. Defined.
#[export] Instance read_result_eq_dec : EqDecision read_result.
Proof. solve_decision. Defined.

Section MainLoop.
Context {fs : SparseFS}.
Variable libc_fallocate : file -> Z -> Z -> fallocate_result.
Abbreviation consume := (consume libc_fallocate).

(** The reads made before the deadline, each with whether the lock exists when
    the data is consumed.  An empty read ends the loop. *)
Fixpoint drain (pending : bytes) (reads : list (bool * read_result)) : SM daemon bytes :=
  match reads with
  | (lock, RData (b :: data)) :: reads' =>
      on_feed (sm_upd (set_lock lock));;
      pending' ← on_feed (consume (pending ++ b :: data));
      drain pending' reads'
  | _ => mret pending
  end.

(** [subprocess.run(["fsfreeze", "-u", "/"], capture_output=True)] *)
Definition run_thaw (thaw : thaw_outcome) : SM daemon unit :=
  match thaw with
  | Thawed => sm_upd (set_frozen false)
  | ThawFailed => mret tt
  | ThawRaises => sm_res (Raise OSError)
  | ThawHangs => sm_res Forever
  end.

(** [Daemon.mark_consistent] *)
Definition mark_consistent (fz : freeze_outcome) (reads : list (bool * read_result))
    (now held : Z) : SM daemon unit :=
  p ← on_feed paused;
  ra ← recovery_active;
  bp ← sm_get d_base_progress;
  if p || ra || bool_decide (bp <> None) then mret tt
  else
    match fz with
    | FreezeTimeout froze => sm_upd (set_frozen froze);; sm_res (Raise TimeoutExpired)
    | FreezeRefused => mret tt
    | FreezeOk thaw =>
        seq ← sm_finally
          (sm_upd (set_frozen true);;
           drain [] reads;;
           replica_fsync;;
           sm_get (fun d => last_seq (d_app d)))
          (run_thaw thaw);
        queue ← on_feed (sm_get recovery_queue);
        ra ← recovery_active;
        if bool_decide (queue <> []) || ra then mret tt
        else
          sm_upd (fun d => set_manifest (with_consistent (seq, now, held) (d_manifest d)) d);;
          write_manifest;;
          sm_upd (set_last_consistent now)
    end.

(** ** Adopting a seed *)

(** [Daemon.check_seed]; [seed_raw] is the file when it exists. *)
Definition check_seed (seed_raw : option file) (now : Z) : SM daemon unit :=
  m ← sm_get (fun d => load_json (d_manifest_json d));
  match m with
  | None => mret tt
  | Some m =>
      match m_seeded m with
      | None => mret tt
      | Some (seed_boot, seed_time) =>
          sm_upd (set_manifest m);;
          sm_upd (set_seed_required false);;
          d ← sm_get id;
          let rp := replica (d_app d) in
          (match rp_seed rp, seed_raw with
           | None, Some sf =>
               l ← sm_res (SeedLayer_init sf (d_size d));
               sm_upd (set_d_app (with_replica (mk_Replica (rp_fd rp) (rp_punch_ok rp) (Some l)) (d_app d)))
           | _, _ => mret tt
           end);;
          if bool_decide (seed_boot = d_boot_id d) then
            (if d_boot_id d is Some _ then mret tt else sm_res (Raise TypeError));;   (* self.boot_id[:8] *)
            on_feed (sm_upd (fun s =>
              mk_feed (fd_app s) (gap_seen s) (recovery_queue s ++ [-1]) (pending_bin s) (rebuild_lock s)));;
            sm_upd (fun d => set_manifest (with_base 0 (default now seed_time) (d_manifest d)) d);;
            write_manifest
          else sm_upd (set_base_alive true)
      end
  end.

(** ** One iteration of the main loop *)

Record locals : Type := mk_locals {
  l_pending : bytes;
  l_last_cycle : Z;
  l_last_node : Z;
}.

Record loop_input : Type := mk_loop_input {
  in_read : read_result;
  in_lock_consume : bool;         (* .rebuild.lock exists when consume looks *)
  in_seed_raw : option file;
  in_fd : cdp_fd;
  in_lock_replay : bool;          (* ... and when the parked records are looked at *)
  in_now : Z;
  in_freeze : freeze_outcome;
  in_freeze_reads : list (bool * read_result);
  in_held : Z;
}.

Variables cycle_sec consistent_sec : Z.

(** A queued recovery starts once the base copy is done and no other runs. *)
Definition next_recovery (fd : cdp_fd) (now : Z) : SM daemon unit :=
  d ← sm_get id;
  match recovery_queue (d_feed d) with
  | gap :: queue' =>
      if negb (d_recovery_alive d) && bool_decide (d_base_progress d = None) then
        on_feed (sm_upd (fun s =>
          mk_feed (fd_app s) (gap_seen s) queue' (pending_bin s) (rebuild_lock s)));;
        start_recovery fd now gap;;
        mret tt
      else mret tt
  | [] => mret tt
  end.

(** [if not self.paused() and os.path.exists(self.pending_path): ...] *)
Definition replay_parked (read_sz : Z) : SM daemon unit :=
  p ← on_feed paused;
  pend ← on_feed (sm_get pending_bin);
  if negb p && bool_decide (pend <> None) then on_feed (apply_pending libc_fallocate read_sz)
  else mret tt.

(** [if data: pending = self.consume(pending + data)] *)
Definition read_records (inp : loop_input) (l : locals) : SM daemon bytes :=
  match in_read inp with
  | RData (b :: data) => on_feed (consume (l_pending l ++ b :: data))
  | _ => mret (l_pending l)
  end.

(** [if now - last_cycle >= self.cycle_sec: ...]; [last_time], which only the
    status shows, is left out. *)
Definition sync_cycle (now last_cycle : Z) : SM daemon Z :=
  if cycle_sec <=? now - last_cycle then replica_fsync;; mret now else mret last_cycle.

(** [self.consistent_sec > 0 and now - self.last_consistent >= ...] *)
Definition point_due (now : Z) (d : daemon) : bool :=
  (0 <? consistent_sec) && (consistent_sec <=? now - d_last_consistent d) &&
  bool_decide (m_base_end_seq (d_manifest d) <> None).

Definition take_point (inp : loop_input) : SM daemon unit :=
  d ← sm_get id;
  if point_due (in_now inp) d
  then mark_consistent (in_freeze inp) (in_freeze_reads inp) (in_now inp) (in_held inp)
  else mret tt.

(** The body of [while not stop]. *)
Definition main_iter (inp : loop_input) (l : locals) : SM daemon locals :=
  match in_read inp with
  | RError => mret l
  | _ =>
      on_feed (sm_upd (set_lock (in_lock_consume inp)));;
      pending ← read_records inp l;
      sr ← sm_get d_seed_required;
      (if sr : bool then check_seed (in_seed_raw inp) (in_now inp) else mret tt);;
      next_recovery (in_fd inp) (in_now inp);;
      on_feed (sm_upd (set_lock (in_lock_replay inp)));;
      replay_parked READ_SZ;;
      last_cycle ← sync_cycle (in_now inp) (l_last_cycle l);
      take_point inp;;
      mret (mk_locals pending last_cycle
        (if 3600 <? in_now inp - l_last_node l then in_now inp else l_last_node l))
  end.

Fixpoint main_iters (inps : list loop_input) (l : locals) : SM daemon locals :=
  match inps with
  | [] => mret l
  | inp :: inps' => l' ← main_iter inp l; main_iters inps' l'
  end.

(** What [main] starts before the loop: the recovery left over in
    [recovery.json], and the base copy if the manifest has none. *)
Definition main_start : SM daemon unit :=
  d ← sm_get id;
  (if bool_decide (load_json (d_recovery_json d) <> None)
   then sm_upd (set_recovery_alive true) else mret tt);;
  (if bool_decide (m_base_end_seq (d_manifest d) = None) && negb (d_seed_required d)
   then sm_upd (set_base_alive true) else mret tt).
End MainLoop.

(** ** What is reported *)

Inductive node_state : Type := WAITING | SYNCING | RECOVERING | PAUSED | BITMAP | CDP.

#[export] Instance node_state_eq_dec : EqDecision node_state.
Proof. solve_decision. Defined.

(** The state of [Daemon.write_status], for the driver's [flags]. *)
Definition status_state (d : daemon) (flags : Z) : node_state :=
  if d_seed_required d then WAITING
  else if bool_decide (d_base_progress d <> None) then SYNCING
  else if d_recovery_alive d || bool_decide (recovery_queue (d_feed d) <> []) then RECOVERING
  else if rebuild_lock (d_feed d) then PAUSED
  else if negb (Z.land flags S_OVERFLOWED =? 0) then BITMAP
  else CDP.

Record status_json : Type := mk_status_json {
  sj_state : node_state;
  sj_time : Z;
  sj_boot_id : option string;
  sj_last_seq : option Z;
  sj_seq_next : Z;
  sj_ring_used : Z;
  sj_ring_size : Z;
  sj_overflows : Z;
  sj_records : Z;
  sj_bytes : Z;
  sj_base_copy : option Z;
  sj_recovery_gap_seq : option Z;
  sj_consistent : option (option Z * Z * Z);
  sj_pending_bytes : Z;
}.

(** [Daemon.write_status] *)
Definition write_status (fd : cdp_fd) (now : Z) (d : daemon) : res status_json :=
  st ← status fd;
  flags ← dict_get st "flags";
  let state := status_state d flags in
  seq_next ← dict_get st "seq_next";
  ring_used ← dict_get st "ring_used";
  ring_size ← dict_get st "ring_size";
  overflows ← dict_get st "overflows";
  Ok (mk_status_json state now (d_boot_id d) (last_seq (d_app d)) seq_next ring_used ring_size
        overflows (records (d_app d)) (nbytes (d_app d)) (d_base_progress d)
        (rc_gap_seq <$> load_json (d_recovery_json d)) (m_consistent (d_manifest d))
        (match pending_bin (d_feed d) with Some p => blen p | None => 0 end)).

(** ** Consistent points *)

Lemma keeps_on_feed {A B} (f : daemon -> B) (m : SM feed A) :
  (forall d x, f (set_feed x d) = f d) -> keeps f (on_feed m).
Proof. intros H d. unfold on_feed. destruct (m (d_feed d)) as [o x]. apply H. Qed.

#[export] Hint Resolve keeps_on_feed : keeps.

(** Nothing else is moving: what [mark_consistent] asks for. *)
Definition settled (d : daemon) : Prop :=
  rebuild_lock (d_feed d) = false /\ d_recovery_alive d = false /\ d_base_progress d = None.

#[export] Instance settled_dec d : Decision (settled d).
Proof. unfold settled. apply _. Defined.

Section Consistent.
Variable libc_fallocate : file -> Z -> Z -> fallocate_result.
Abbreviation mark_consistent := (mark_consistent libc_fallocate).
Abbreviation drain := (drain libc_fallocate).

(** The guard of [mark_consistent] is [settled]. *)
Lemma mark_consistent_guard fz reads now held d :
  mark_consistent fz reads now held d =
    if decide (settled d) then
      match fz with
      | FreezeTimeout froze => (Raise TimeoutExpired, set_frozen froze d)
      | FreezeRefused => (Ok tt, d)
      | FreezeOk thaw =>
        (seq ← sm_finally
          (sm_upd (set_frozen true);;
           drain [] reads;;
           replica_fsync;;
           sm_get (fun d => last_seq (d_app d)))
          (run_thaw thaw);
        queue ← on_feed (sm_get recovery_queue);
        ra ← recovery_active;
        if bool_decide (queue <> []) || ra then mret tt
        else
          sm_upd (fun d => set_manifest (with_consistent (seq, now, held) (d_manifest d)) d);;
          write_manifest;;
          sm_upd (set_last_consistent now)) d
      end
    else (Ok tt, d).
Proof.
  unfold MainLoop.mark_consistent.
  rewrite (sm_bind_Ok _ _ _ (rebuild_lock (d_feed d)) d) by (by destruct d).
  rewrite (sm_bind_Ok _ _ _ (d_recovery_alive d) d) by done.
  rewrite (sm_bind_Ok _ _ _ (d_base_progress d) d) by done.
  assert (Hg : rebuild_lock (d_feed d) || d_recovery_alive d ||
               bool_decide (d_base_progress d <> None) = negb (bool_decide (settled d))).
  { unfold settled. repeat case_bool_decide; destruct (rebuild_lock (d_feed d)), (d_recovery_alive d);
      cbn; intuition congruence. }
  rewrite Hg. destruct (decide (settled d)) as [E|E].
  - rewrite bool_decide_eq_true_2 by done. by destruct fz.
  - by rewrite bool_decide_eq_false_2 by done.
Qed.

(** After a body that leaves the filesystem frozen only the thaw decides. *)
Lemma finally_thaws {A} (body : SM daemon A) thaw d :
  keeps d_frozen body ->
  let m := sm_finally (sm_upd (set_frozen true);; body) (run_thaw thaw) in
  (m d).1 <> Forever -> d_frozen (m d).2 = negb (bool_decide (thaw = Thawed)).
Proof.
  intros Hb m. unfold m, sm_finally. rewrite (sm_bind_Ok _ _ _ tt (set_frozen true d)) by done.
  pose proof (Hb (set_frozen true d)) as E. destruct (body (set_frozen true d)) as [[a|e|] d1]; cbn in E; [..|done];
    by destruct thaw.
Qed.

Lemma drain_frozen reads : forall pending, keeps d_frozen (drain pending reads).
Proof.
  induction reads as [|[l rd] reads IH]; intros pending; cbn [MainLoop.drain]; keeps_step.
Qed.

(** C23: the thaw is tried whatever happens while the filesystem is frozen -- an
    exception in the apply path included.  A call that returns or raises
    leaves it frozen in two cases only: the freeze times out and takes effect
    all the same, or the thaw itself does not work, which the code does not
    look at. *)
Theorem mark_consistent_thaws fz reads now held d :
  d_frozen d = false -> (mark_consistent fz reads now held d).1 <> Forever ->
  d_frozen (mark_consistent fz reads now held d).2 = true <->
    settled d /\ (fz = FreezeTimeout true \/ exists thaw, fz = FreezeOk thaw /\ thaw <> Thawed).
Proof.
  intros Hf. rewrite mark_consistent_guard. destruct (decide (settled d)) as [Hs|Hs]; [|cbn; intuition congruence].
  destruct fz as [thaw| |froze].
  2: { cbn. intros _. rewrite Hf. split; [done|]. intros (_ & [?|(? & ? & _)]); congruence. }
  2: { cbn. intros _. split; [intros ->; by split; [|left]|]. intros (_ & [[= ->]|(? & ? & _)]); congruence. }
  match goal with |- context [(?m ≫= ?k) d] => set (m0 := m); set (k0 := k) end.
  assert (Hm : (m0 d).1 <> Forever -> d_frozen (m0 d).2 = negb (bool_decide (thaw = Thawed))).
  { apply finally_thaws. unfold replica_fsync. keeps_step. apply drain_frozen. }
  assert (Hk : forall a, keeps d_frozen (k0 a)).
  { intros a. unfold k0, write_manifest, recovery_active. keeps_step. }
  assert (Hend : forall b : bool, b = negb (bool_decide (thaw = Thawed)) ->
    b = true <-> settled d /\ (FreezeOk thaw = FreezeTimeout true \/ exists t, FreezeOk thaw = FreezeOk t /\ t <> Thawed)).
  { intros b ->. case_bool_decide as E; cbn; split; try done.
    - intros (_ & [?|(t & [= <-] & ?)]); congruence.
    - intros _. split; [done|]. right. by exists thaw. }
  unfold mbind, SM_bind. destruct (m0 d) as [[a|e|] d1]; cbn in *; intros Hr; [rewrite (Hk a d1)|..];
    try done; apply Hend, Hm; done.
Qed.

(** *** What the drain reads *)

(** The reads as they come: non-empty ones, then an empty read, or the
    deadline ([end_] is empty). *)
Definition drain_end (end_ : list (bool * read_result)) : Prop :=
  match end_ with (_, RData (_ :: _)) :: _ => False | _ => True end.

Definition reads_of (lock : bool) (bufs : list bytes) (end_ : list (bool * read_result))
    : list (bool * read_result) := ((fun b => (lock, RData b)) <$> bufs) ++ end_.

Lemma drain_reads lock bufs tail : forall pending d t s',
  Forall (fun b => b <> []) bufs -> drain_end tail -> rebuild_lock (d_feed d) = lock ->
  consume_reads libc_fallocate pending bufs (d_feed d) = (Ok t, s') ->
  drain pending (reads_of lock bufs tail) d = (Ok t, set_feed s' d).
Proof.
  unfold reads_of. induction bufs as [|b bufs IH]; intros pending d t s' HF HT Hl.
  - cbn. intros [= <- <-]. destruct tail as [|[l [[|? ?]| |]] tail]; try done; by destruct d.
  - apply Forall_cons in HF as [Hb HF]. destruct b as [|x b]; [done|].
    cbn [consume_reads]. intros H.
    cbn [fmap list_fmap app MainLoop.drain].
    assert (El : set_lock lock (d_feed d) = d_feed d) by (subst lock; by destruct (d_feed d)).
    rewrite (sm_bind_Ok _ _ _ tt d).
    2:{ unfold on_feed, sm_upd. rewrite El. by destruct d. }
    pose proof (consume_lock libc_fallocate (pending ++ x :: b) (d_feed d)) as Hk.
    unfold mbind at 1, SM_bind at 1 in H.
    destruct (consume libc_fallocate (pending ++ x :: b) (d_feed d)) as [[p1|e|] s1] eqn:E; [|done..].
    rewrite (sm_bind_Ok _ _ _ p1 (set_feed s1 d)) by (by apply on_feed_Ok).
    rewrite (IH p1 (set_feed s1 d) t s'); [done|done|done| |done]. cbn in *. congruence.
Qed.

(** The thaw returns, and this is whether it worked. *)
Definition thaw_returns (thaw : thaw_outcome) (frozen : bool) : Prop :=
  (thaw = Thawed /\ frozen = false) \/ (thaw = ThawFailed /\ frozen = true).

Lemma mark_consistent_run thaw frozen bufs tail0 now held d t s' :
  settled d -> thaw_returns thaw frozen ->
  Forall (fun b => b <> []) bufs -> drain_end tail0 ->
  consume_reads libc_fallocate [] bufs (d_feed d) = (Ok t, s') ->
  mark_consistent (FreezeOk thaw) (reads_of false bufs tail0) now held d =
    (Ok tt,
     let d1 := set_frozen frozen (set_durable (img_of (fd_app s')) (set_feed s' d)) in
     if decide (recovery_queue s' = []) then
       set_last_consistent now
         (set_manifest_json (Some (with_consistent (last_seq (fd_app s'), now, held) (d_manifest d)))
           (set_manifest (with_consistent (last_seq (fd_app s'), now, held) (d_manifest d)) d1))
     else d1).
Proof.
  intros Hs Ht Hne Hend E. rewrite mark_consistent_guard, decide_True by done.
  assert (Ed : drain [] (reads_of false bufs tail0) (set_frozen true d) =
               (Ok t, set_feed s' (set_frozen true d))).
  { apply drain_reads; [done|done| |done]. apply Hs. }
  set (d1 := set_frozen frozen (set_durable (img_of (fd_app s')) (set_feed s' d))).
  rewrite (sm_bind_Ok _ _ _ (last_seq (fd_app s')) d1).
  2:{ unfold sm_finally. rewrite (sm_bind_Ok _ _ _ tt (set_frozen true d)) by done.
      rewrite (sm_bind_Ok _ _ _ _ _ Ed). rewrite (sm_bind_Ok _ _ _ tt
        (set_durable (img_of (fd_app s')) (set_feed s' (set_frozen true d)))) by done.
      by destruct Ht as [[-> ->]|[-> ->]]. }
  rewrite (sm_bind_Ok _ _ _ (recovery_queue s') d1) by done.
  rewrite (sm_bind_Ok _ _ _ (d_recovery_alive d) d1) by done.
  rewrite (proj1 (proj2 Hs)), orb_false_r.
  destruct (decide (recovery_queue s' = [])) as [En|En].
  - by rewrite bool_decide_eq_false_2 by tauto.
  - by rewrite bool_decide_eq_true_2 by done.
Qed.

(** C22: a consistent point is what it says.  When nothing else is moving, no
    rebuild takes the lock while the filesystem is frozen and no gap shows up,
    the drain applies every record the reads return before the thaw; the
    replica as it is then is made durable, and the manifest names the last
    record applied.  The point is recorded also when the thaw fails, and the
    filesystem then stays frozen. *)
Theorem consistent_point_exact S0 size thaw frozen bufs end_ frames tail now held d :
  settled d -> thaw_returns thaw frozen -> feed_ok S0 size (d_feed d) -> recovery_queue (d_feed d) = [] ->
  Forall (fun b => b <> []) bufs -> drain_end end_ ->
  stream_ok size frames tail -> concat bufs = concat frames.*1 ++ tail ->
  gap_seqs (items_of frames) = [] ->
  exists d', mark_consistent (FreezeOk thaw) (reads_of false bufs end_) now held d = (Ok tt, d') /\
    d_frozen d' = frozen /\
    d_durable d' ≡ apply_all (img_of (d_app d)) (items_of frames) /\
    m_consistent (d_manifest d') =
      Some (match last (items_of frames) with
            | Some it => Some (r_seq it.1) | None => last_seq (d_app d) end, now, held) /\
    d_manifest_json d' = Some (d_manifest d').
Proof.
  intros Hs Hf [Hok Hc] Hq Hne Hend (HF & HT & Hin) E Hg.
  destruct (apply_items_direct libc_fallocate S0 size _ _ Hok Hin Hc)
    as (a' & Ha & Himg & _ & _ & _ & (Hl & _)).
  pose proof (consume_reads_whole libc_fallocate bufs [] frames tail _ a' HF HT
    (or_introl eq_refl) E (proj1 Hs) Ha) as Er.
  eexists. split; [by apply (mark_consistent_run _ frozen _ _ _ _ _ tail)|].
  rewrite decide_True.
  2:{ cbn. rewrite scan_gaps_queue, Hg; [by rewrite Hq|rewrite Hg; constructor|].
      intros g _. rewrite Hg. by intros ?%elem_of_nil. }
  split_and!; try done. cbn. by rewrite Hl.
Qed.

(** A gap that shows up during the freeze is never papered over: the
    manifest keeps the previous point, and the gap is queued for recovery. *)
Theorem consistent_point_abandoned S0 size thaw frozen bufs end_ frames tail now held d :
  settled d -> thaw_returns thaw frozen -> feed_ok S0 size (d_feed d) ->
  Forall (fun b => b <> []) bufs -> drain_end end_ ->
  stream_ok size frames tail -> concat bufs = concat frames.*1 ++ tail ->
  NoDup (gap_seqs (items_of frames)) ->
  (forall g, gap_seen (d_feed d) = Some g -> g ∉ gap_seqs (items_of frames)) ->
  recovery_queue (d_feed d) ++ gap_seqs (items_of frames) <> [] ->
  exists d', mark_consistent (FreezeOk thaw) (reads_of false bufs end_) now held d = (Ok tt, d') /\
    d_frozen d' = frozen /\ d_manifest d' = d_manifest d /\ d_manifest_json d' = d_manifest_json d /\
    recovery_queue (d_feed d') = recovery_queue (d_feed d) ++ gap_seqs (items_of frames).
Proof.
  intros Hs Hf [Hok Hc] Hne Hend (HF & HT & Hin) E Hn Hg Hq.
  destruct (apply_items_direct libc_fallocate S0 size _ _ Hok Hin Hc)
    as (a' & Ha & _).
  pose proof (consume_reads_whole libc_fallocate bufs [] frames tail _ a' HF HT
    (or_introl eq_refl) E (proj1 Hs) Ha) as Er.
  pose proof (scan_gaps_queue (items_of frames) (d_feed d) Hn Hg) as Hsq.
  eexists. split; [by apply (mark_consistent_run _ frozen _ _ _ _ _ tail)|].
  rewrite decide_False by (cbn; by rewrite Hsq). by split_and!.
Qed.

(** A lock that appears during the freeze defeats the point.  The guard
    looks for the lock once; if it is there when the data is consumed, what
    the freeze flushed is parked, none of it reaches the replica, and the
    point is recorded all the same. *)
Theorem consistent_point_parked bufs end_ size frames tail now held d :
  settled d -> d_frozen d = false -> recovery_queue (d_feed d) = [] ->
  Forall (fun b => b <> []) bufs -> bufs <> [] -> drain_end end_ ->
  stream_ok size frames tail -> concat bufs = concat frames.*1 ++ tail ->
  gap_seqs (items_of frames) = [] ->
  exists d', mark_consistent (FreezeOk Thawed) (reads_of true bufs end_) now held d = (Ok tt, d') /\
    m_consistent (d_manifest d') = Some (last_seq (d_app d), now, held) /\
    d_durable d' = img_of (d_app d) /\
    default [] (pending_bin (d_feed d')) =
      default [] (pending_bin (d_feed d)) ++ concat frames.*1.
Proof.
  intros Hs Hf Hq Hne Hbufs Hend (HF & HT & Hin) E Hg.
  set (x := set_lock true (d_feed d)).
  pose proof (consume_reads_parked libc_fallocate bufs [] frames tail x HF HT
    (or_introl eq_refl) E eq_refl) as Er.
  match type of Er with _ = (_, ?y) => set (s' := y) in Er end.
  destruct (scan_gaps_frame (items_of frames) x) as (Ea & Ep & El).
  assert (Ed : drain [] (reads_of true bufs end_) (set_frozen true d) =
               (Ok tail, set_feed s' (set_frozen true d))).
  { pose proof (drain_reads true bufs end_ [] (set_feed x (set_frozen true d)) tail s'
      Hne Hend eq_refl Er) as Hd.
    destruct bufs as [|[|b buf] bufs]; [done|by apply Forall_cons in Hne as [? _]|].
    unfold reads_of in Hd |- *. cbn [fmap list_fmap app MainLoop.drain] in Hd |- *.
    rewrite (sm_bind_Ok _ _ _ tt (set_feed x (set_frozen true d))) in Hd by done.
    by rewrite (sm_bind_Ok _ _ _ tt (set_feed x (set_frozen true d))) by done. }
  assert (Hsq : recovery_queue s' = []).
  { cbn. rewrite scan_gaps_queue, Hg; [by cbn; rewrite Hq|rewrite Hg; constructor|].
    intros g _. rewrite Hg. by intros ?%elem_of_nil. }
  rewrite mark_consistent_guard, decide_True by done.
  set (d1 := set_durable (img_of (fd_app s')) (set_feed s' d)).
  rewrite (sm_bind_Ok _ _ _ (last_seq (fd_app s')) d1).
  2:{ unfold sm_finally. rewrite (sm_bind_Ok _ _ _ tt (set_frozen true d)) by done.
      rewrite (sm_bind_Ok _ _ _ _ _ Ed). rewrite (sm_bind_Ok _ _ _ tt
        (set_durable (img_of (fd_app s')) (set_feed s' (set_frozen true d)))) by done.
      cbn. unfold d1. destruct d; cbn in *. by subst. }
  rewrite (sm_bind_Ok _ _ _ (recovery_queue s') d1) by done.
  rewrite (sm_bind_Ok _ _ _ (d_recovery_alive d) d1) by done.
  rewrite (proj1 (proj2 Hs)), Hsq. cbn [bool_decide orb].
  rewrite bool_decide_eq_false_2 by tauto.
  eexists. split; [done|]. cbn. rewrite Ea. split_and!; try done.
  case_decide as D; [|done]. subst frames. by rewrite app_nil_r.
Qed.
End Consistent.

(** ** Seeds, threads and the reported state *)

(** The driver answers, and reports no overflow. *)
Definition no_overflow (fd : cdp_fd) : Prop :=
  exists flags, (st ← status fd; dict_get st "flags") = Ok flags /\ Z.land flags S_OVERFLOWED = 0.

Section Threads.
Context {fs : SparseFS}.
Variable libc_fallocate : file -> Z -> Z -> fallocate_result.

Lemma check_seed_adopted now m boot time d :
  d_manifest_json d = Some m -> m_seeded m = Some (boot, time) -> d_boot_id d <> None ->
  exists d', check_seed None now d = (Ok tt, d') /\
    d_seed_required d' = false /\ d_app d' = d_app d /\
    if decide (boot = d_boot_id d) then
      recovery_queue (d_feed d') = recovery_queue (d_feed d) ++ [-1] /\
      m_base_end_seq (d_manifest d') = Some 0 /\ d_manifest_json d' = Some (d_manifest d') /\
      d_base_alive d' = d_base_alive d
    else
      recovery_queue (d_feed d') = recovery_queue (d_feed d) /\ d_base_alive d' = true /\
      d_manifest d' = m /\ d_manifest_json d' = Some m.
Proof.
  intros Hj Hm Hn. unfold check_seed. rewrite (sm_bind_Ok _ _ _ (Some m) d) by (unfold sm_get, load_json; by rewrite Hj).
  rewrite Hm. set (d1 := set_seed_required false (set_manifest m d)).
  rewrite (sm_bind_Ok _ _ _ tt (set_manifest m d)) by done.
  rewrite (sm_bind_Ok _ _ _ tt d1) by done. rewrite (sm_bind_Ok _ _ _ d1 d1) by done.
  rewrite (sm_bind_Ok _ _ _ tt d1) by (by destruct (rp_seed _)).
  change (d_boot_id d1) with (d_boot_id d).
  destruct (decide (boot = d_boot_id d)) as [E|E].
  - rewrite bool_decide_eq_true_2 by done. rewrite (sm_bind_Ok _ _ _ tt d1) by (by destruct (d_boot_id d)). eexists. split; [done|]. by split_and!.
  - rewrite bool_decide_eq_false_2 by done. eexists. split; [done|]. cbn. by split_and!.
Qed.

(** Adopting a seed.  A seed taken during this boot queues one drain of
    the bitmap and counts as the base; one from another boot starts a base
    copy and records nothing. *)
Theorem check_seed_adopts now m boot time d :
  d_manifest_json d = Some m -> m_seeded m = Some (boot, time) -> d_boot_id d <> None ->
  exists d', check_seed None now d = (Ok tt, d') /\
    d_seed_required d' = false /\ d_app d' = d_app d /\
    if decide (boot = d_boot_id d) then
      recovery_queue (d_feed d') = recovery_queue (d_feed d) ++ [-1] /\
      m_base_end_seq (d_manifest d') = Some 0 /\ d_manifest_json d' = Some (d_manifest d') /\
      d_base_alive d' = d_base_alive d
    else
      recovery_queue (d_feed d') = recovery_queue (d_feed d) /\ d_base_alive d' = true /\
      d_manifest d' = m /\ d_manifest_json d' = Some m.
Proof. apply check_seed_adopted. Qed.

(** The state a daemon is in before its first iteration. *)
Definition fresh (d : daemon) : Prop :=
  d_base_progress d = None /\ d_recovery_alive d = false /\ d_base_alive d = false /\
  recovery_queue (d_feed d) = [] /\ rebuild_lock (d_feed d) = false.

(** What [main] starts.  The base copy runs exactly when the manifest has
    none and no seed is awaited, the recovery exactly when [recovery.json]
    was left behind: nothing keeps them apart. *)
Lemma main_start_threads d :
  fresh d ->
  exists d', main_start d = (Ok tt, d') /\ d_feed d' = d_feed d /\ d_base_progress d' = None /\
    (d_base_alive d' = true <-> m_base_end_seq (d_manifest d) = None /\ d_seed_required d = false) /\
    (d_recovery_alive d' = true <-> d_recovery_json d <> None).
Proof.
  intros (Hp & Hr & Hb & _). unfold main_start. rewrite (sm_bind_Ok _ _ _ d d) by done.
  set (d1 := if decide (d_recovery_json d = None) then d else set_recovery_alive true d).
  rewrite (sm_bind_Ok _ _ _ tt d1).
  2:{ unfold d1, load_json. case_decide as D; [by rewrite bool_decide_eq_false_2 by tauto|].
      by rewrite bool_decide_eq_true_2. }
  exists (if decide (m_base_end_seq (d_manifest d) = None /\ d_seed_required d = false)
          then set_base_alive true d1 else d1).
  assert (Hd1 : d_feed d1 = d_feed d /\ d_base_progress d1 = None /\ d_base_alive d1 = false /\
    (d_recovery_alive d1 = true <-> d_recovery_json d <> None)).
  { unfold d1. case_decide; cbn; intuition congruence. }
  destruct Hd1 as (Hf1 & Hp1 & Hb1 & Hr1).
  split.
  { case_decide as D.
    - destruct D as [D1 D2]. by rewrite bool_decide_eq_true_2, D2 by done.
    - destruct (decide (m_base_end_seq (d_manifest d) = None)) as [D1|D1].
      + rewrite bool_decide_eq_true_2 by done. destruct (d_seed_required d); [done|tauto].
      + by rewrite bool_decide_eq_false_2 by done. }
  case_decide as D; cbn; split_and!; try done; try congruence; tauto || (rewrite Hb1; intuition congruence).
Qed.

(** "CDP" is reported in no other case than this one. *)
Lemma status_CDP fd now d sj :
  write_status fd now d = Ok sj ->
  sj_state sj = CDP <->
    d_seed_required d = false /\ settled d /\ recovery_queue (d_feed d) = [] /\ no_overflow fd.
Proof.
  unfold write_status. intros H. apply res_bind_Ok_inv in H as (st & Est & H).
  apply res_bind_Ok_inv in H as (flags & Efl & H). res_inv. cbn.
  unfold status_state, settled. split.
  - destruct (d_seed_required d); [done|]. case_bool_decide as B1; [done|].
    destruct (d_recovery_alive d); [done|]. cbn [orb]. case_bool_decide as B2; [done|].
    destruct (rebuild_lock (d_feed d)); [done|].
    destruct (Z.eqb_spec (Z.land flags S_OVERFLOWED) 0) as [B3|B3]; [|done]. intros _.
    split_and!; try done; try (destruct (d_base_progress d); tauto); try (destruct (recovery_queue (d_feed d)); tauto).
    exists flags. split; [|done]. by rewrite Est.
  - intros (-> & (-> & -> & ->) & -> & fl' & E1 & E3).
    rewrite Est, res_bind_Ok, Efl in E1. injection E1 as <-. rewrite E3. done.
Qed.

(** A node whose base copy has been started, and has copied nothing yet,
    reports "CDP". *)
Lemma status_CDP_before_base_copy fd now d sj :
  fresh d -> d_seed_required d = false -> m_base_end_seq (d_manifest d) = None ->
  d_recovery_json d = None ->
  no_overflow fd ->
  write_status fd now (main_start d).2 = Ok sj ->
  d_base_alive (main_start d).2 = true /\ m_base_end_seq (d_manifest (main_start d).2) = None /\
  sj_state sj = CDP.
Proof.
  intros (Hp & Hr & Hb & Hq & Hl) Hs Hm Hj (flags & Efl & Ho).
  assert (Ed : main_start d = (Ok tt, set_base_alive true d)).
  { unfold main_start. rewrite (sm_bind_Ok _ _ _ d d) by done.
    rewrite (sm_bind_Ok _ _ _ tt d) by (by rewrite Hj).
    by rewrite Hm, Hs. }
  rewrite Ed. cbn. intros H. split; [done|]. split; [done|].
  apply res_bind_Ok_inv in Efl as (st & Est & Efl).
  unfold write_status in H. rewrite Est, res_bind_Ok, Efl, res_bind_Ok in H. res_inv. cbn.
  unfold status_state. cbn. rewrite Hs, Hp, Hr, Hq, Hl, Ho. done.
Qed.
End Threads.

(** ** The loop *)

Definition in_data (inp : loop_input) : bytes :=
  match in_read inp with RData data => data | _ => [] end.

(** No rebuild is under way at any test of this iteration. *)
Definition unlocked (inp : loop_input) : Prop :=
  in_lock_consume inp = false /\ in_lock_replay inp = false.

Section Loop.
Context {fs : SparseFS}.
Variable libc_fallocate : file -> Z -> Z -> fallocate_result.
Variables cycle_sec consistent_sec : Z.
Abbreviation main_iter := (main_iter libc_fallocate cycle_sec consistent_sec).
Abbreviation main_iters := (main_iters libc_fallocate cycle_sec consistent_sec).
Abbreviation read_records := (read_records libc_fallocate).
Abbreviation replay_parked := (replay_parked libc_fallocate READ_SZ).
Abbreviation take_point := (take_point libc_fallocate consistent_sec).
Abbreviation point_due := (point_due consistent_sec).

Lemma read_records_eq inp l :
  read_records inp l =
    if decide (in_data inp = []) then mret (l_pending l)
    else on_feed (consume libc_fallocate (l_pending l ++ in_data inp)).
Proof. unfold MainLoop.read_records, in_data. by destruct (in_read inp) as [[|b data]| |]. Qed.

(** The first half of an iteration, with no seed awaited and no gap: the
    records read, then the records parked. *)
Lemma main_iter_phases inp l d p s1 s2 :
  in_read inp <> RError -> d_seed_required d = false ->
  read_records inp l (set_feed (set_lock (in_lock_consume inp) (d_feed d)) d) = (Ok p, set_feed s1 d) ->
  recovery_queue s1 = [] ->
  replay_parked (set_feed (set_lock (in_lock_replay inp) s1) d) = (Ok tt, set_feed s2 d) ->
  main_iter inp l d =
    (last_cycle ← sync_cycle cycle_sec (in_now inp) (l_last_cycle l);
     take_point inp;;
     mret (mk_locals p last_cycle
       (if 3600 <? in_now inp - l_last_node l then in_now inp else l_last_node l))) (set_feed s2 d).
Proof.
  intros Hne Hs Hread Hq Hrep. unfold MainLoop.main_iter.
  destruct (in_read inp) as [data| |]; [| |done].
  all: rewrite (sm_bind_Ok _ _ _ tt (set_feed (set_lock (in_lock_consume inp) (d_feed d)) d)) by done.
  all: rewrite (sm_bind_Ok _ _ _ _ _ Hread).
  all: rewrite (sm_bind_Ok _ _ _ false (set_feed s1 d)) by (unfold sm_get; cbn; by rewrite Hs).
  all: rewrite (sm_bind_Ok _ _ _ tt (set_feed s1 d)) by done.
  all: rewrite (sm_bind_Ok _ _ _ tt (set_feed s1 d)) by (unfold next_recovery; rewrite (sm_bind_Ok _ _ _ (set_feed s1 d) (set_feed s1 d)) by done;
    cbn; by rewrite Hq).
  all: rewrite (sm_bind_Ok _ _ _ tt (set_feed (set_lock (in_lock_replay inp) s1) d)) by done.
  all: by rewrite (sm_bind_Ok _ _ _ _ _ Hrep).
Qed.

(** With nothing parked and no lock there is nothing to replay. *)
Lemma replay_parked_none d :
  rebuild_lock (d_feed d) = false -> pending_bin (d_feed d) = None -> replay_parked d = (Ok tt, d).
Proof.
  intros Hlk Hp. unfold MainLoop.replay_parked.
  rewrite (sm_bind_Ok _ _ _ false d) by (rewrite <-Hlk; by destruct d).
  rewrite (sm_bind_Ok _ _ _ None d) by (rewrite <-Hp; by destruct d). done.
Qed.

Lemma set_lock_same lock s : rebuild_lock s = lock -> set_lock lock s = s.
Proof. intros <-. by destruct s. Qed.

Lemma set_feed_same d : set_feed (d_feed d) d = d.
Proof. by destruct d. Qed.

(** With no lock, what is parked is applied and removed. *)
Lemma replay_parked_some d old a' :
  rebuild_lock (d_feed d) = false -> pending_bin (d_feed d) = Some (concat old.*1) -> frames_ok old ->
  apply_items libc_fallocate (d_app d) (items_of old) = Ok a' ->
  replay_parked d = (Ok tt, set_feed (set_pending None (set_app a' (d_feed d))) d).
Proof.
  intros Hlk Hp HF Ha. unfold MainLoop.replay_parked.
  rewrite (sm_bind_Ok _ _ _ false d) by (rewrite <-Hlk; by destruct d).
  rewrite (sm_bind_Ok _ _ _ (Some (concat old.*1)) d) by (rewrite <-Hp; by destruct d).
  apply on_feed_Ok. rewrite (apply_pending_Ok libc_fallocate READ_SZ old [] (d_feed d) a'); try done.
  - by left.
  - by rewrite app_nil_r.
Qed.

(** The end of an iteration in which no consistent point is due. *)
Lemma take_point_not_due inp d : point_due (in_now inp) d = false -> take_point inp d = (Ok tt, d).
Proof. intros H. unfold MainLoop.take_point. rewrite (sm_bind_Ok _ _ _ d d) by done. by rewrite H. Qed.

Lemma sync_cycle_run now last d :
  exists last' img, sync_cycle cycle_sec now last d = (Ok last', set_durable img d) /\
    (cycle_sec <= now - last -> img = img_of (d_app d) /\ last' = now).
Proof.
  unfold sync_cycle. destruct (Z.leb_spec cycle_sec (now - last)) as [L|L].
  - by exists now, (img_of (d_app d)).
  - exists last, (d_durable d). split; [by destruct d|lia].
Qed.

(** Nothing but the stream to attend to. *)
Definition idle (d : daemon) : Prop :=
  rebuild_lock (d_feed d) = false /\ recovery_queue (d_feed d) = [] /\
  pending_bin (d_feed d) = None /\ d_seed_required d = false.

(** What an iteration of an idle daemon does up to the consistent point. *)
Lemma main_iter_idle inp l d p' s' :
  unlocked inp -> idle d -> in_read inp <> RError ->
  (if decide (in_data inp = []) then p' = l_pending l /\ s' = d_feed d
   else consume libc_fallocate (l_pending l ++ in_data inp) (d_feed d) = (Ok p', s')) ->
  idle (set_feed s' d) ->
  exists lc ln img, main_iter inp l d =
    (take_point inp;; mret (mk_locals p' lc ln)) (set_durable img (set_feed s' d)) /\
    (cycle_sec <= in_now inp - l_last_cycle l -> img = img_of (fd_app s') /\ lc = in_now inp).
Proof.
  intros [Hl1 Hl2] (Hlk & Hq & Hp & Hs) Hne Hc (Hlk' & Hq' & Hp' & _).
  destruct (sync_cycle_run (in_now inp) (l_last_cycle l) (set_feed s' d)) as (lc & img & Ec & Hi).
  exists lc, (if 3600 <? in_now inp - l_last_node l then in_now inp else l_last_node l), img.
  split; [|done]. rewrite (main_iter_phases inp l d p' s' s'); try done.
  - by rewrite (sm_bind_Ok _ _ _ _ _ Ec).
  - rewrite Hl1, set_lock_same, set_feed_same, read_records_eq by done.
    case_decide; [destruct Hc as [-> ->]; by rewrite set_feed_same|by apply on_feed_Ok].
  - rewrite Hl2, set_lock_same by done. by apply replay_parked_none.
Qed.

Lemma gap_seqs_app_nil items1 items2 :
  gap_seqs (items1 ++ items2) = [] -> gap_seqs items1 = [] /\ gap_seqs items2 = [].
Proof. unfold gap_seqs. rewrite filter_app, fmap_app. apply app_nil. Qed.

(** An incomplete record holds no whole one. *)
Lemma partial_frames p frames tail :
  frames_ok frames -> partial_record p -> p = concat frames.*1 ++ tail -> frames = [] /\ p = tail.
Proof.
  intros HF HP E. destruct frames as [|[b r] frames]; [done|]. exfalso.
  apply Forall_cons in HF as [F _]. cbn in E. rewrite <-app_assoc in E.
  rewrite E in HP. apply partial_record_prefix in HP.
  pose proof (frame_size _ _ F). destruct HP as [HP|(r' & Hr' & HP)]; [lia|].
  rewrite (frame_init _ _ F) in Hr'. injection Hr' as <-.
  rewrite (frame_len _ _ F) in HP. lia.
Qed.

Lemma idle_scan a items d :
  idle d -> gap_seqs items = [] -> idle (set_feed (set_app a (scan_gaps items (d_feed d))) d).
Proof.
  intros (Hlk & Hq & Hp & Hs) Hg. destruct (scan_gaps_frame items (d_feed d)) as (_ & Ep & El).
  unfold idle. cbn. split_and!; try congruence.
  rewrite scan_gaps_queue, Hg; [by rewrite Hq|rewrite Hg; constructor|].
  intros g _. rewrite Hg. by intros ?%elem_of_nil.
Qed.

Lemma frames_nil frames : frames_ok frames -> concat frames.*1 = [] -> frames = [].
Proof.
  intros HF E. refine (proj1 (partial_frames [] frames [] HF _ _)); [by left|]. by rewrite app_nil_r.
Qed.

(** *** Between consistent points *)

Lemma main_iter_not_due inp l d p' s' :
  unlocked inp -> idle d -> in_read inp <> RError -> point_due (in_now inp) d = false ->
  (if decide (in_data inp = []) then p' = l_pending l /\ s' = d_feed d
   else consume libc_fallocate (l_pending l ++ in_data inp) (d_feed d) = (Ok p', s')) ->
  idle (set_feed s' d) ->
  exists l' img, main_iter inp l d = (Ok l', set_durable img (set_feed s' d)) /\ l_pending l' = p'.
Proof.
  intros Hu Hidle Hne Hd Hc Hi.
  destruct (main_iter_idle inp l d p' s' Hu Hidle Hne Hc Hi) as (lc & ln & img & -> & _).
  exists (mk_locals p' lc ln), img. split; [|done].
  by rewrite (sm_bind_Ok _ _ _ _ _ (take_point_not_due inp (set_durable img (set_feed s' d)) Hd)).
Qed.

Lemma main_iter_error inp l d : in_read inp = RError -> main_iter inp l d = (Ok l, d).
Proof. intros H. unfold MainLoop.main_iter. by rewrite H. Qed.

Lemma main_iters_whole inps : forall l frames tail d a',
  Forall unlocked inps -> Forall (fun inp => point_due (in_now inp) d = false) inps ->
  idle d -> frames_ok frames -> partial_record tail ->
  partial_record (l_pending l) -> gap_seqs (items_of frames) = [] ->
  l_pending l ++ concat (in_data <$> inps) = concat frames.*1 ++ tail ->
  apply_items libc_fallocate (d_app d) (items_of frames) = Ok a' ->
  exists l' d', main_iters inps l d = (Ok l', d') /\ l_pending l' = tail /\ d_app d' = a' /\ idle d'.
Proof.
  induction inps as [|inp inps IH]; intros l frames tail d a' HU HN Hidle HF HT HP Hg E Ha.
  - cbn in E. rewrite app_nil_r in E.
    destruct (partial_frames (l_pending l) frames tail HF HP E) as [-> <-].
    injection Ha as <-. by exists l, d.
  - apply Forall_cons in HU as [Hu HU]. apply Forall_cons in HN as [Hn HN].
    cbn [fmap list_fmap concat] in E. cbn [MainLoop.main_iters].
    destruct (decide (in_read inp = RError)) as [Er|Hne].
    { rewrite (sm_bind_Ok _ _ _ _ _ (main_iter_error inp l d Er)).
      assert (En : in_data inp = []) by (unfold in_data; by rewrite Er). rewrite En in E. by apply IH with (frames := frames). }
    rewrite app_assoc in E.
    destruct (frames_split frames tail _ _ HF HT E) as (f1 & f2 & t & -> & E1 & Ht & E2).
    apply Forall_app in HF as [HF1 HF2]. rewrite fmap_app in Ha, Hg. rewrite apply_items_app in Ha.
    apply res_bind_Ok_inv in Ha as (a1 & Ha1 & Ha2). apply gap_seqs_app_nil in Hg as [Hg1 Hg2].
    set (s1 := set_app a1 (scan_gaps (items_of f1) (d_feed d))).
    pose proof (idle_scan a1 _ d Hidle Hg1) as Hi1. fold s1 in Hi1.
    destruct (main_iter_not_due inp l d t s1 Hu Hidle Hne Hn) as (l1 & img & Ei & Ep).
    + case_decide as En; [|rewrite E1; by apply consume_whole; [..|apply Hidle|]].
      rewrite En, app_nil_r in E1.
      destruct (partial_frames (l_pending l) f1 t HF1 HP E1) as [-> <-]. split; [done|].
      injection Ha1 as <-. unfold s1, d_app. by destruct (d_feed d).
    + done.
    + rewrite (sm_bind_Ok _ _ _ _ _ Ei). apply IH with (frames := f2); try done; by rewrite Ep.
Qed.

(** The main loop.  Over any number of iterations in which no rebuild
    holds the lock, the driver reports no gap and no consistent point is due,
    however the reads cut the stream and whichever of them fail, the replica
    receives exactly the complete records, in order; the incomplete one is
    carried over. *)
Theorem main_loop_tracks S0 size inps l frames tail d :
  Forall unlocked inps -> Forall (fun inp => point_due (in_now inp) d = false) inps ->
  idle d -> feed_ok S0 size (d_feed d) -> l_pending l = [] ->
  stream_ok size frames tail -> gap_seqs (items_of frames) = [] ->
  concat (in_data <$> inps) = concat frames.*1 ++ tail ->
  exists l' d', main_iters inps l d = (Ok l', d') /\ l_pending l' = tail /\
    img_of (d_app d') ≡ apply_all (img_of (d_app d)) (items_of frames) /\
    counted (d_app d) (d_app d') (items_of frames) /\ idle d'.
Proof.
  intros HU HN Hidle [Hok Hc] Hl (HF & HT & Hin) Hg E.
  destruct (apply_items_direct libc_fallocate S0 size _ _ Hok Hin Hc)
    as (a' & Ha & Himg & _ & _ & _ & Hcount).
  destruct (main_iters_whole inps l frames tail d a') as (l' & d' & Em & Ep & Ea & Hi); try done.
  { rewrite Hl. by left. }
  { by rewrite Hl. }
  exists l', d'. rewrite Ea. by split_and!.
Qed.

(** *** With consistent points *)

(** What a drain takes: the reads up to the first empty one. *)
Fixpoint drain_bufs (reads : list (bool * read_result)) : list bytes :=
  match reads with
  | (_, RData (b :: data)) :: reads' => (b :: data) :: drain_bufs reads'
  | _ => []
  end.

Definition freezes (fz : freeze_outcome) : bool := match fz with FreezeOk _ => true | _ => false end.

(** The iteration freezes the filesystem and drains. *)
Definition takes_point (inp : loop_input) (d : daemon) : bool :=
  bool_decide (in_read inp <> RError) && point_due (in_now inp) d && freezes (in_freeze inp).

(** Everything the iterations read, in order: each one's own read, and what it
    drains if it takes a consistent point. *)
Fixpoint loop_data (inps : list loop_input) (d : daemon) : list bytes :=
  match inps with
  | [] => []
  | inp :: inps' =>
      if takes_point inp d
      then in_data inp :: drain_bufs (in_freeze_reads inp) ++
             loop_data inps' (set_last_consistent (in_now inp) d)
      else in_data inp :: loop_data inps' d
  end.

(** No rebuild takes the lock, and the freeze, where one is tried, is refused
    or works and is undone again. *)
Definition calm (inp : loop_input) : Prop :=
  unlocked inp /\ (in_freeze inp = FreezeRefused \/ in_freeze inp = FreezeOk Thawed) /\
  Forall (fun rd => rd.1 = false) (in_freeze_reads inp).

Lemma drain_bufs_spec reads :
  Forall (fun rd => rd.1 = false) reads ->
  exists end_, reads = reads_of false (drain_bufs reads) end_ /\ drain_end end_ /\
    Forall (fun b => b <> []) (drain_bufs reads).
Proof.
  unfold reads_of. induction 1 as [|[k rd] reads Hk HF IH]; [by exists []|].
  cbn in Hk. subst k. destruct rd as [[|b data]| |]; try (by eexists; split_and!).
  destruct IH as (end_ & E & He & Hb). exists end_. cbn. rewrite <-E. split_and!; try done.
  by constructor.
Qed.

Lemma loop_data_ext inps : forall d d',
  d_last_consistent d = d_last_consistent d' ->
  (m_base_end_seq (d_manifest d) = None <-> m_base_end_seq (d_manifest d') = None) ->
  loop_data inps d = loop_data inps d'.
Proof.
  induction inps as [|inp inps IH]; intros d d' Hl Hb; [done|]. cbn [loop_data].
  assert (takes_point inp d = takes_point inp d') as ->.
  { unfold takes_point, MainLoop.point_due. rewrite Hl. do 2 f_equal. f_equal.
    apply bool_decide_ext. by rewrite Hb. }
  rewrite (IH d d') by done.
  by rewrite (IH (set_last_consistent (in_now inp) d) (set_last_consistent (in_now inp) d')).
Qed.

(** What the loop keeps of the files beside the replica. *)
Record same_node (d d' : daemon) : Prop := {
  sn_base : m_base_end_seq (d_manifest d') = m_base_end_seq (d_manifest d);
  sn_recovery : d_recovery_json d' = d_recovery_json d;
  sn_manifest : d_manifest_json d = Some (d_manifest d) -> d_manifest_json d' = Some (d_manifest d');
}.

(** A daemon that may take a consistent point at any time. *)
Definition ready (d : daemon) : Prop := idle d /\ settled d /\ d_frozen d = false.

Lemma take_point_skips inp d :
  calm inp -> settled d -> point_due (in_now inp) d && freezes (in_freeze inp) = false ->
  take_point inp d = (Ok tt, d).
Proof.
  intros (_ & Hnt & _) Hs Hn. unfold MainLoop.take_point. rewrite (sm_bind_Ok _ _ _ d d) by done.
  destruct (point_due (in_now inp) d); [|done]. cbn [andb] in Hn.
  rewrite mark_consistent_guard, decide_True by done.
  by destruct Hnt as [E|E]; rewrite E in Hn |- *.
Qed.

Lemma take_point_run inp d t s' :
  calm inp -> ready d -> point_due (in_now inp) d && freezes (in_freeze inp) = true ->
  consume_reads libc_fallocate [] (drain_bufs (in_freeze_reads inp)) (d_feed d) = (Ok t, s') ->
  idle (set_feed s' d) ->
  exists d', take_point inp d = (Ok tt, d') /\ d_feed d' = s' /\ ready d' /\
    d_last_consistent d' = in_now inp /\ same_node d d'.
Proof.
  intros (_ & Hfz & Hr) (_ & Hs & Hf) [Hdue Hf1]%andb_true_iff Ec Hi.
  destruct Hfz as [Hfz|Hfz]; rewrite Hfz in Hf1; [done|].
  destruct (drain_bufs_spec _ Hr) as (end_ & Er & He & Hb).
  eexists. split.
  - unfold MainLoop.take_point. rewrite (sm_bind_Ok _ _ _ d d) by done. rewrite Hdue, Hfz, Er.
    by rewrite (mark_consistent_run libc_fallocate Thawed false _ _ _ _ _ t s' Hs (or_introl (conj eq_refl eq_refl)) Hb He Ec), decide_True by apply Hi.
  - destruct Hi as (H1 & H2 & H3 & H4), Hs as (Hs1 & Hs2 & Hs3). by split_and!.
Qed.

(** One iteration: the frames [fr] it reads and the frames [frs] it drains. *)
Lemma main_iter_round inp l d fr frs a' :
  calm inp -> ready d -> l_pending l = [] -> in_data inp = concat fr.*1 ->
  (if takes_point inp d then drain_bufs (in_freeze_reads inp) = (fun fr => concat fr.*1) <$> frs
   else frs = []) ->
  frames_ok (fr ++ concat frs) -> gap_seqs (items_of (fr ++ concat frs)) = [] ->
  apply_items libc_fallocate (d_app d) (items_of (fr ++ concat frs)) = Ok a' ->
  exists l' d', main_iter inp l d = (Ok l', d') /\ l_pending l' = [] /\ d_app d' = a' /\ ready d' /\
    d_last_consistent d' = (if takes_point inp d then in_now inp else d_last_consistent d) /\
    same_node d d'.
Proof.
  intros Hcalm (Hidle & Hs & Hf) Hl Ed Et [HF1 HF2]%Forall_app Hg Ha.
  rewrite fmap_app in Hg, Ha. apply gap_seqs_app_nil in Hg as [Hg1 Hg2].
  rewrite apply_items_app in Ha. apply res_bind_Ok_inv in Ha as (a1 & Ha1 & Ha2).
  assert (Hnil : in_data inp = [] -> fr = []).
  { intros En. rewrite En in Ed. by apply frames_nil. }
  destruct (decide (in_read inp = RError)) as [Er|Hne].
  { assert (Et0 : takes_point inp d = false) by (unfold takes_point; by rewrite bool_decide_eq_false_2 by tauto).
    rewrite Et0 in *. subst frs. rewrite Hnil in Ha1 by (unfold in_data; by rewrite Er).
    injection Ha1 as <-. injection Ha2 as <-. exists l, d.
    split; [by apply main_iter_error|]. by split_and!. }
  set (s1 := set_app a1 (scan_gaps (items_of fr) (d_feed d))).
  pose proof (idle_scan a1 _ d Hidle Hg1) as Hi1. fold s1 in Hi1.
  destruct (main_iter_idle inp l d [] s1 (proj1 Hcalm) Hidle Hne) as (lc & ln & img & -> & _); [|done|].
  { rewrite Hl. case_decide as En.
    - split; [done|]. rewrite (Hnil En) in Ha1. injection Ha1 as <-.
      unfold s1, d_app. rewrite (Hnil En). by destruct (d_feed d).
    - cbn [app]. rewrite Ed, <-(app_nil_r (concat _)). apply consume_whole; [done|by left|apply Hidle|done]. }
  set (d1 := set_durable img (set_feed s1 d)).
  assert (Hr1 : ready d1) by (destruct Hidle as (? & ? & ? & ?), Hs as (? & ? & ?), Hi1 as (? & ? & ? & ?); by split_and!).
  destruct (takes_point inp d) eqn:Eb; unfold takes_point in Eb; rewrite (bool_decide_eq_true_2 _ Hne) in Eb;
    cbn [andb] in Eb.
  - destruct (take_point_run inp d1 [] (set_app a' (scan_gaps (items_of (concat frs)) s1)) Hcalm Hr1 Eb)
      as (d' & E' & Hfd & Hr' & Hlc & Hb).
    + apply consume_reads_whole with (frames := concat frs); [done|by left|by left| |apply Hr1|done].
      rewrite Et, app_nil_r. cbn. clear. induction frs as [|fr frs IH]; [done|].
      cbn. rewrite IH, fmap_app, concat_app. done.
    + by apply (idle_scan a' (items_of (concat frs)) d1).
    + exists (mk_locals [] lc ln), d'. rewrite (sm_bind_Ok _ _ _ _ _ E').
      split; [done|]. unfold d_app. rewrite Hfd. destruct Hb. by split_and!.
  - subst frs. injection Ha2 as <-. exists (mk_locals [] lc ln), d1.
    rewrite (sm_bind_Ok _ _ _ _ _ (take_point_skips inp d1 Hcalm (proj1 (proj2 Hr1)) Eb)).
    split; [done|]. by split_and!.
Qed.

(** The bytes of a read that returns whole records. *)
Definition frames_bytes (fr : list (bytes * rec)) : bytes := concat fr.*1.

Lemma loop_data_split inp inps d frs :
  loop_data (inp :: inps) d = frames_bytes <$> frs ->
  exists fr frs1 frs2, frs = fr :: frs1 ++ frs2 /\ in_data inp = frames_bytes fr /\
    (if takes_point inp d then drain_bufs (in_freeze_reads inp) = frames_bytes <$> frs1 else frs1 = []) /\
    loop_data inps (if takes_point inp d then set_last_consistent (in_now inp) d else d) = frames_bytes <$> frs2.
Proof.
  cbn [loop_data]. destruct (takes_point inp d); intros E; symmetry in E.
  - apply fmap_cons_inv in E as (fr & frs' & Ei & E & ->). symmetry in E.
    apply fmap_app_inv in E as (frs1 & frs2 & E1 & E2 & ->). by exists fr, frs1, frs2.
  - apply fmap_cons_inv in E as (fr & frs' & Ei & E & ->). by exists fr, [], frs'.
Qed.

Lemma same_node_trans d1 d2 d3 : same_node d1 d2 -> same_node d2 d3 -> same_node d1 d3.
Proof. intros [B1 R1 M1] [B2 R2 M2]. split; [congruence|congruence|by intros ?%M1%M2]. Qed.

Lemma main_iters_rounds inps : forall l frs d a',
  Forall calm inps -> ready d -> l_pending l = [] -> loop_data inps d = frames_bytes <$> frs ->
  frames_ok (concat frs) -> gap_seqs (items_of (concat frs)) = [] ->
  apply_items libc_fallocate (d_app d) (items_of (concat frs)) = Ok a' ->
  exists l' d', main_iters inps l d = (Ok l', d') /\ l_pending l' = [] /\ d_app d' = a' /\ ready d' /\ same_node d d'.
Proof.
  induction inps as [|inp inps IH]; intros l frs d a' HC Hr Hl E HF Hg Ha.
  - destruct frs; [|done]. injection Ha as <-. by exists l, d.
  - apply Forall_cons in HC as [Hc HC].
    destruct (loop_data_split _ _ _ _ E) as (fr & frs1 & frs2 & -> & E1 & E2 & E3).
    assert (Ec : concat (fr :: frs1 ++ frs2) = (fr ++ concat frs1) ++ concat frs2)
      by (cbn; by rewrite concat_app, app_assoc).
    rewrite Ec in HF, Hg, Ha. apply Forall_app in HF as [HF1 HF2].
    rewrite fmap_app in Hg, Ha. apply gap_seqs_app_nil in Hg as [Hg1 Hg2].
    rewrite apply_items_app in Ha. apply res_bind_Ok_inv in Ha as (a1 & Ha1 & Ha2).
    destruct (main_iter_round inp l d fr frs1 a1) as (l1 & d1 & Em & Hl1 & Ea & Hr1 & Hlc & Hb); try done.
    cbn [MainLoop.main_iters]. rewrite (sm_bind_Ok _ _ _ _ _ Em).
    destruct (IH l1 frs2 d1 a') as (l' & d' & E' & Hl' & Ea' & Hr' & Hn'); try done; [|by rewrite Ea|].
    + rewrite <-E3. apply loop_data_ext; [rewrite Hlc|rewrite (sn_base _ _ Hb)]; by destruct (takes_point inp d).
    + exists l', d'. split_and!; try done. by apply (same_node_trans _ d1).
Qed.

(** C14: the main loop with its consistent points.  The driver returns whole
    records in each read, none of them announcing a gap; no rebuild holds the
    lock, and each freeze that is due is refused or works and its thaw
    succeeds.  Then, whichever reads fail and whenever a consistent point
    comes due, the replica receives exactly the records read in the loop and
    in the drains, in order, and the filesystem is left thawed. *)
Theorem main_loop_points S0 size inps l frs d :
  Forall calm inps -> ready d -> feed_ok S0 size (d_feed d) -> l_pending l = [] ->
  loop_data inps d = frames_bytes <$> frs -> stream_ok size (concat frs) [] ->
  gap_seqs (items_of (concat frs)) = [] ->
  exists l' d', main_iters inps l d = (Ok l', d') /\ l_pending l' = [] /\
    img_of (d_app d') ≡ apply_all (img_of (d_app d)) (items_of (concat frs)) /\
    counted (d_app d) (d_app d') (items_of (concat frs)) /\ ready d'.
Proof.
  intros HC Hr [Hok Hcp] Hl E (HF & _ & Hin) Hg.
  destruct (apply_items_direct libc_fallocate S0 size _ _ Hok Hin Hcp)
    as (a' & Ha & Himg & _ & _ & _ & Hcount).
  destruct (main_iters_rounds inps l frs d a' HC Hr Hl E HF Hg Ha) as (l' & d' & Em & Ep & Ea & Hi & _).
  exists l', d'. rewrite Ea. by split_and!.
Qed.
End Loop.

(** ** What goes wrong around the lock and the threads *)

Section Hazards.
Context {fs : SparseFS}.
Variable libc_fallocate : file -> Z -> Z -> fallocate_result.
Variables cycle_sec consistent_sec : Z.

(** The iteration that first finds the lock gone.  It consumes what it
    reads before it replays what was parked, so the older records are applied
    on top of the newer ones. *)
Theorem parked_replayed_last S0 size inp l old new tail d :
  unlocked inp -> rebuild_lock (d_feed d) = true -> recovery_queue (d_feed d) = [] ->
  d_seed_required d = false -> feed_ok S0 size (d_feed d) -> l_pending l = [] ->
  pending_bin (d_feed d) = Some (concat old.*1) ->
  frames_ok old -> Forall (item_in size) (items_of old) ->
  stream_ok size new tail -> gap_seqs (items_of new) = [] -> new <> [] ->
  in_read inp = RData (concat new.*1 ++ tail) -> point_due consistent_sec (in_now inp) d = false ->
  exists l' d', main_iter libc_fallocate cycle_sec consistent_sec inp l d = (Ok l', d') /\
    pending_bin (d_feed d') = None /\
    img_of (d_app d') ≡ apply_all (img_of (d_app d)) (items_of new ++ items_of old).
Proof.
  intros [Hl1 Hl2] Hlk Hq Hs [Hok Hc] Hl Hp HFo Hino (HF & HT & Hin) Hg Hne Hr Hdue.
  destruct (apply_items_direct libc_fallocate S0 size (items_of new ++ items_of old) (d_app d) Hok)
    as (a' & Ha & Himg & _); [by apply Forall_app|done|].
  rewrite apply_items_app in Ha. apply res_bind_Ok_inv in Ha as (a1 & Ha1 & Ha2).
  set (x := set_lock false (d_feed d)).
  set (s1 := set_app a1 (scan_gaps (items_of new) x)).
  set (s2 := set_pending None (set_app a' s1)).
  destruct (scan_gaps_frame (items_of new) x) as (_ & Ep & El).
  destruct (sync_cycle_run cycle_sec (in_now inp) (l_last_cycle l) (set_feed s2 d)) as (lc & img & Ec & _).
  eexists _, (set_durable img (set_feed s2 d)). split; [|by split].
  rewrite (main_iter_phases libc_fallocate cycle_sec consistent_sec inp l d tail s1 s2); try done.
  - rewrite (sm_bind_Ok _ _ _ _ _ Ec).
    by rewrite (sm_bind_Ok _ _ _ _ _ (take_point_not_due libc_fallocate consistent_sec inp
      (set_durable img (set_feed s2 d)) Hdue)).
  - by rewrite Hr.
  - rewrite Hl1, read_records_eq. unfold in_data. rewrite Hr, Hl. fold x.
    rewrite decide_False by (by intros [?%(frames_nil new HF) _]%app_nil). cbn [app].
    apply (on_feed_Ok _ (set_feed x d)). by apply consume_whole.
  - cbn. rewrite scan_gaps_queue, Hg; [by cbn; rewrite Hq|rewrite Hg; constructor|].
    intros g _. rewrite Hg. by intros ?%elem_of_nil.
  - rewrite Hl2, set_lock_same by (cbn; by rewrite El).
    by apply (replay_parked_some libc_fallocate (set_feed s1 d) old a'); cbn; rewrite ?El, ?Ep.
Qed.
End Hazards.

(** *** Concrete iterations *)

#[local] Existing Instance byte_fs.

Definition demo_input (rd : read_result) (lock1 lock2 : bool) : loop_input :=
  mk_loop_input rd lock1 None demo_fd lock2 10 FreezeRefused [] 0.

Definition demo_locals : locals := mk_locals [] 0 0.

Definition parked_frames : list (bytes * rec) := [demo_frame REC_WRITE 0 1 0 2 [Byte.x41; Byte.x41]].
Definition newer_frames : list (bytes * rec) := [demo_frame REC_WRITE 0 2 0 2 [Byte.x42; Byte.x42]].

Definition gap_frames : list (bytes * rec) :=
  [demo_frame REC_WRITE F_GAP_BEFORE 6 0 2 [Byte.x41; Byte.x41]].

(** The base copy and a recovery do run at the same time.  A daemon with no
    base copy yet starts one; a gap in the first read, before the thread has
    set its progress, starts a recovery beside it. *)
Theorem recovery_beside_base_copy fa :
  exists d l' d', fresh d /\
    (main_start;;
     main_iter fa 1 3600 (demo_input (RData (concat gap_frames.*1)) false false) demo_locals) d = (Ok l', d') /\
    d_base_alive d' = true /\ m_base_end_seq (d_manifest d') = None /\
    d_recovery_alive d' = true /\ d_recovery_json d' = Some (mk_recovery 6 [(1, 1)] 10).
Proof.
  exists (demo_daemon zero_image None). eexists _, _. split; [by split_and!|].
  split; [vm_compute; reflexivity|]. by split_and!.
Qed.

Lemma parked_replayed_last_witness :
  exists l' d',
    main_iter (fun _ _ _ => FaZero) 1 3600 (demo_input (RData (concat newer_frames.*1)) false false)
      demo_locals (set_feed (demo_feed true (Some (concat parked_frames.*1))) (demo_daemon zero_image None))
      = (Ok l', d') /\
    img_of (d_app d') 0 = Byte.x41 /\
    apply_all zero_image (items_of (parked_frames ++ newer_frames)) 0 = Byte.x42.
Proof.
  destruct (parked_replayed_last (fun _ _ _ => FaZero) 1 3600 zero_image 1024
    (demo_input (RData (concat newer_frames.*1)) false false) demo_locals parked_frames newer_frames []
    (set_feed (demo_feed true (Some (concat parked_frames.*1))) (demo_daemon zero_image None)))
    as (l' & d' & E & _ & Hi).
  - by split.
  - done.
  - done.
  - done.
  - apply demo_feed_ok.
  - done.
  - done.
  - repeat constructor; vm_compute; congruence.
  - repeat constructor; vm_compute; congruence.
  - split; [repeat constructor; vm_compute; congruence|].
    split; [by left|repeat constructor; vm_compute; congruence].
  - reflexivity.
  - done.
  - cbn [in_read demo_input]. by rewrite app_nil_r.
  - reflexivity.
  - exists l', d'. split; [exact E|]. split; [|reflexivity].
    rewrite (Hi 0). reflexivity.
Defined.

(** Sixty bytes that are no record: the apply path raises while frozen. *)
Lemma mark_consistent_thaws_witness :
  d_frozen (mark_consistent (fun _ _ _ => FaZero) (FreezeOk Thawed) [(false, RData (replicate 60 x00))] 9 1
    (demo_daemon zero_image None)).2 <> true.
Proof.
  intros H. apply (mark_consistent_thaws (fun _ _ _ => FaZero) (FreezeOk Thawed)
    [(false, RData (replicate 60 x00))] 9 1 (demo_daemon zero_image None) eq_refl) in H;
    [|vm_compute; discriminate].
  destruct H as [_ [H|(thaw & H & Hn)]]; [discriminate H|]. injection H as <-. by destruct Hn.
Defined.

Definition calm_frames : list (bytes * rec) := [demo_frame REC_WRITE 0 5 0 2 [Byte.x41; Byte.x42]].

Lemma calm_stream_ok : stream_ok 1024 calm_frames [].
Proof.
  split; [repeat constructor; vm_compute; congruence|].
  split; [by left|repeat constructor; vm_compute; congruence].
Qed.

Lemma consistent_point_exact_witness :
  exists d', mark_consistent (fun _ _ _ => FaZero) (FreezeOk Thawed)
      (reads_of false [concat calm_frames.*1] [(false, RBlocked)]) 9 1 (demo_daemon zero_image None) = (Ok tt, d') /\
    d_frozen d' = false /\ m_consistent (d_manifest d') = Some (Some 5, 9, 1).
Proof.
  destruct (consistent_point_exact (fun _ _ _ => FaZero) zero_image 1024 Thawed false [concat calm_frames.*1]
    [(false, RBlocked)] calm_frames [] 9 1 (demo_daemon zero_image None)) as (d' & E & Hf & _ & Hm & _).
  - by split_and!.
  - by left.
  - by split.
  - done.
  - by repeat constructor.
  - done.
  - apply calm_stream_ok.
  - done.
  - reflexivity.
  - exists d'. split; [exact E|]. split; [exact Hf|]. exact Hm.
Defined.

Lemma consistent_point_abandoned_witness :
  exists d', mark_consistent (fun _ _ _ => FaZero) (FreezeOk Thawed)
      (reads_of false [concat gap_frames.*1] []) 9 1 (demo_daemon zero_image None) = (Ok tt, d') /\
    d_frozen d' = false /\ m_consistent (d_manifest d') = None /\ recovery_queue (d_feed d') = [6].
Proof.
  destruct (consistent_point_abandoned (fun _ _ _ => FaZero) zero_image 1024 Thawed false [concat gap_frames.*1]
    [] gap_frames [] 9 1 (demo_daemon zero_image None)) as (d' & E & Hf & Hm & _ & Hq).
  - by split_and!.
  - by left.
  - by split.
  - by repeat constructor.
  - done.
  - split; [repeat constructor; vm_compute; congruence|].
    split; [by left|repeat constructor; vm_compute; congruence].
  - done.
  - repeat constructor. by intros ?%elem_of_nil.
  - done.
  - done.
  - exists d'. split; [exact E|]. split; [exact Hf|]. split; [by rewrite Hm|exact Hq].
Defined.

Lemma consistent_point_parked_witness :
  exists d', mark_consistent (fun _ _ _ => FaZero) (FreezeOk Thawed)
      (reads_of true [concat calm_frames.*1] []) 9 1 (demo_daemon zero_image None) = (Ok tt, d') /\
    m_consistent (d_manifest d') = Some (None, 9, 1) /\ d_durable d' 0 = x00 /\
    apply_all zero_image (items_of calm_frames) 0 = Byte.x41.
Proof.
  destruct (consistent_point_parked (fun _ _ _ => FaZero) [concat calm_frames.*1] [] 1024
    calm_frames [] 9 1 (demo_daemon zero_image None)) as (d' & E & Hm & Hd & _).
  - by split_and!.
  - done.
  - done.
  - by repeat constructor.
  - done.
  - done.
  - apply calm_stream_ok.
  - done.
  - reflexivity.
  - exists d'. split; [exact E|]. split; [exact Hm|]. split; [by rewrite Hd|reflexivity].
Defined.

Definition seeded_manifest : manifest :=
  mk_manifest "n1" "/dev/sda" 1 1 1024 None None (Some (Some "b1"%string, Some 40)) None.

Definition seeded_daemon : daemon := set_manifest_json (Some seeded_manifest) (demo_daemon zero_image None).

Lemma check_seed_adopts_witness :
  exists d', check_seed None 50 seeded_daemon = (Ok tt, d') /\
    recovery_queue (d_feed d') = [-1] /\ m_base_end_seq (d_manifest d') = Some 0.
Proof.
  destruct (check_seed_adopts 50 seeded_manifest (Some "b1"%string) (Some 40) seeded_daemon)
    as (d' & E & _ & _ & H); [done|done|done|].
  rewrite decide_True in H by done. destruct H as (Hq & Hm & _).
  exists d'. split; [exact E|]. split; [exact Hq|exact Hm].
Defined.

Lemma main_loop_tracks_witness :
  let inps := [demo_input (RData ((concat calm_frames.*1).[0 : 30])) false false; demo_input RError false false;
               demo_input (RData ((concat calm_frames.*1).[30 : ])) false false] in
  exists l' d', main_iters (fun _ _ _ => FaZero) 1 3600 inps demo_locals (demo_daemon zero_image None) = (Ok l', d') /\
    l_pending l' = [] /\ img_of (d_app d') 1 = Byte.x42.
Proof.
  intros inps.
  destruct (main_loop_tracks (fun _ _ _ => FaZero) 1 3600 zero_image 1024 inps demo_locals
    calm_frames [] (demo_daemon zero_image None)) as (l' & d' & E & Hl & Hi & _).
  - by repeat constructor.
  - by repeat constructor.
  - by split_and!.
  - by split.
  - done.
  - apply calm_stream_ok.
  - reflexivity.
  - vm_compute. reflexivity.
  - exists l', d'. split; [exact E|]. split; [exact Hl|]. rewrite (Hi 1). reflexivity.
Defined.

(** A record is read, a second one comes out of the freeze; the next point is
    not due, the last one is. *)
Definition drained_frames : list (bytes * rec) := [demo_frame REC_WRITE 0 6 0 2 [Byte.x43; Byte.x44]].

Definition point_input (rd : read_result) (now : Z) : loop_input :=
  mk_loop_input rd false None demo_fd false now (FreezeOk Thawed)
    [(false, RData (concat drained_frames.*1)); (false, RBlocked)] 1.

Definition based_daemon : daemon := set_manifest (with_base 9 77 demo_manifest) (demo_daemon zero_image None).

Lemma main_loop_points_witness :
  let inps := [point_input (RData (concat calm_frames.*1)) 4000; point_input RBlocked 4100; point_input RBlocked 8000] in
  exists l' d', main_iters (fun _ _ _ => FaZero) 1 3600 inps demo_locals based_daemon = (Ok l', d') /\
    img_of (d_app d') 1 = Byte.x44 /\ records (d_app d') = 3 /\ d_frozen d' = false.
Proof.
  intros inps.
  destruct (main_loop_points (fun _ _ _ => FaZero) 1 3600 zero_image 1024 inps demo_locals
    [calm_frames; drained_frames; []; []; drained_frames] based_daemon) as (l' & d' & E & _ & Hi & Hc & Hr).
  - repeat constructor; by intros.
  - by split_and!.
  - by split.
  - done.
  - vm_compute. reflexivity.
  - split; [repeat constructor; vm_compute; congruence|].
    split; [by left|repeat constructor; vm_compute; congruence].
  - reflexivity.
  - exists l', d'. split; [exact E|]. split; [rewrite (Hi 1); reflexivity|].
    split; [exact (proj1 (proj2 Hc))|exact (proj2 (proj2 Hr))].
Defined.
