(* ===== verification/Lifecycle.v ===== *)
(** * The daemon's life ([node_json], [status_loop], the end of [Daemon.main])

    The description of the node in [node.json], the thread that writes
    [status.json], the shutdown after the main loop, and what a restart finds. *)
From Stdlib Require Import Ascii.
From S2P Require Import Prelude PyString Target Dmcdp Files Seed Replica Apply Consume Daemon CopyThreads MainLoop.

(** ** The node ([Daemon.node_json]) *)

Record node_info : Type := mk_node_info {
  nj_hostname : string;
  nj_device : string;
  nj_disk_bytes : Z;
  nj_cpus : Z;
  nj_mem_mb : Z;
  nj_macs : gmap string string;
  nj_ips : list string;
  nj_firmware : string;
  nj_time : Z;
}.

(** The last [MemTotal:] line of [/proc/meminfo], in kilobytes. *)
Fixpoint mem_total (mem_kb : Z) (lines : list string) : res Z :=
  match lines with
  | [] => Ok mem_kb
  | line :: lines' =>
      if startswith line "MemTotal:" then
        match split line !! 1%nat with
        | None => Raise IndexError
        | Some w => match py_int w with Some n => mem_total n lines' | None => Raise (ValueError 0) end
        end
      else mem_total mem_kb lines'
  end.

(** The addresses of the interfaces other than [lo]; one that cannot be read is
    left out. *)
Definition macs_of (ifs : list (string * option string)) : gmap string string :=
  foldl (fun macs (i : string * option string) =>
    if bool_decide (i.1 = "lo"%string) then macs
    else match i.2 with Some a => <[i.1 := strip_str a]> macs | None => macs end) ∅ ifs.

Definition Daemon_node_json (hostname device : string) (cpus now : Z) (efi : bool)
    (ifs : list (string * option string)) (meminfo : list string) (hostname_I : string) (d : daemon) : res node_info :=
  mem_kb ← mem_total 0 meminfo;
  Ok (mk_node_info hostname device (d_size d) cpus (mem_kb / 1024) (macs_of ifs) (split hostname_I)
        (if efi then "efi" else "bios") now).

(** ** The status thread *)

(** One round for each reading of the driver, the clock and the daemon;
    [status.json] is what the last successful round wrote. *)
Fixpoint status_loop (rounds : list (cdp_fd * Z * daemon)) (file : option status_json) : option status_json :=
  match rounds with
  | [] => file
  | (fd, now, d) :: rounds' =>
      status_loop rounds' (match write_status fd now d with Ok sj => Some sj | _ => file end)
  end.

(** [status.json] is never older than the last round the driver answered
    in: a round that fails leaves the file, and the thread goes on. *)
Theorem status_loop_last rounds file fd now d sj later :
  write_status fd now d = Ok sj ->
  Forall (fun r : cdp_fd * Z * daemon => forall sj', write_status r.1.1 r.1.2 r.2 <> Ok sj') later ->
  status_loop (rounds ++ (fd, now, d) :: later) file = Some sj.
Proof.
  intros E HF. revert file. induction rounds as [|[[fd' now'] d'] rounds IH]; intros file; [|apply IH].
  cbn [app status_loop]. rewrite E. induction HF as [|[[fd' now'] d'] later Hn _ IH]; [done|].
  cbn [status_loop]. cbn in Hn. destruct (write_status fd' now' d') as [sj'|e|]; [by destruct (Hn sj')|exact IH..].
Qed.

(** ** Shutdown *)

(** [t.join(30)] for each thread that is alive: what it still does before the
    join is over. *)
Fixpoint join_threads (joins : list (SM daemon unit)) : SM daemon unit :=
  match joins with
  | [] => mret tt
  | j :: joins' => j;; join_threads joins'
  end.

Definition shutdown (joins : list (SM daemon unit)) (fd : cdp_fd) (now : Z) : SM daemon status_json :=
  join_threads joins;;
  replica_fsync;;
  d ← sm_get id;
  sm_res (write_status fd now d).

Section Life.
Context {fs : SparseFS}.
Variable libc_fallocate : file -> Z -> Z -> fallocate_result.
Variables cycle_sec consistent_sec : Z.

(** [Daemon.main], from the loop to the end *)
Definition main_to_end (inps : list loop_input) (l : locals) (joins : list (SM daemon unit)) (fd : cdp_fd) (now : Z)
    : SM daemon status_json :=
  main_iters libc_fallocate cycle_sec consistent_sec inps l;;
  shutdown joins fd now.

Lemma shutdown_durable joins fd now d d1 :
  join_threads joins d = (Ok tt, d1) ->
  shutdown joins fd now d = (write_status fd now (set_durable (img_of (d_app d1)) d1), set_durable (img_of (d_app d1)) d1).
Proof.
  intros E. unfold shutdown. rewrite (sm_bind_Ok _ _ _ _ _ E).
  unfold mbind, SM_bind, replica_fsync, sm_upd, sm_get, sm_res, id. done.
Qed.

(** A clean stop.  When the signal comes after any number of iterations
    that received whole records, without a lock, a gap or a consistent point
    that is due, the replica on the share holds every one of them, synced, and
    the last status names the last of them. *)
Theorem clean_stop_durable S0 size inps l frames d fd now r d' :
  Forall unlocked inps -> Forall (fun inp => point_due consistent_sec (in_now inp) d = false) inps ->
  idle d -> feed_ok S0 size (d_feed d) -> l_pending l = [] ->
  stream_ok size frames [] -> gap_seqs (items_of frames) = [] ->
  concat (in_data <$> inps) = concat frames.*1 ->
  main_to_end inps l [] fd now d = (r, d') ->
  d_durable d' = img_of (d_app d') /\ d_durable d' ≡ apply_all (img_of (d_app d)) (items_of frames) /\
  counted (d_app d) (d_app d') (items_of frames) /\
  forall sj, r = Ok sj -> sj_last_seq sj = last_seq (d_app d') /\ sj_records sj = records (d_app d').
Proof.
  intros HU HN Hidle [Hok Hc] Hl (HF & HT & Hin) Hg E Hrun.
  destruct (apply_items_direct libc_fallocate S0 size _ _ Hok Hin Hc) as (a' & Ha & Himg & _ & _ & _ & Hcount).
  destruct (main_iters_whole libc_fallocate cycle_sec consistent_sec inps l frames [] d a')
    as (l1 & d1 & Em & _ & Ea & Hi); try done.
  { rewrite Hl. by left. }
  { by rewrite Hl, app_nil_r. }
  unfold main_to_end in Hrun. rewrite (sm_bind_Ok _ _ _ _ _ Em) in Hrun.
  rewrite (shutdown_durable [] fd now d1 d1 eq_refl) in Hrun. injection Hrun as <- <-.
  change (d_app (set_durable ?x d1)) with (d_app d1). rewrite Ea. cbn [d_durable set_durable].
  split_and!; try done. intros sj Hsj. unfold write_status in Hsj. by res_inv.
Qed.

(** ** Restart *)

(** The daemon that starts on what the last one left. *)
Definition restart (node device : string) (seed_conf : bool) (boot : option string) (fd : cdp_fd) (d : daemon) : res daemon :=
  Daemon_init node device seed_conf boot fd (d_manifest_json d) (d_recovery_json d) (pending_bin (d_feed d))
    (rebuild_lock (d_feed d)) (Some (rp_fd (replica (d_app d)))) (sl_fd <$> rp_seed (replica (d_app d))).

(** Gaps do not survive a restart.  Whatever gaps were waiting for their
    recovery, the daemon that starts again has none queued and reads the
    bitmap for none: after the recovery that [recovery.json] names, if there is
    one, it asks for no other, while the driver goes on reporting the overflow
    ([BITMAP]). *)
Theorem restart_forgets_gaps node device seed_conf boot fd d d1 :
  restart node device seed_conf boot fd d = Ok d1 ->
  recovery_queue (d_feed d1) = [] /\ gap_seen (d_feed d1) = None /\ d_recovery_json d1 = d_recovery_json d /\
  img_of (d_app d1) = img_of (d_app d) /\
  (forall fd2 now2 d2, recovery_queue (d_feed d2) = recovery_queue (d_feed d1) -> next_recovery fd2 now2 d2 = (Ok tt, d2)) /\
  (forall flags, d_seed_required d1 = false -> rebuild_lock (d_feed d) = false -> Z.land flags S_OVERFLOWED <> 0 ->
     status_state d1 flags = BITMAP).
Proof.
  unfold restart, Daemon_init. intros H. res_inv.
  match goal with H : Replica_init _ _ _ = Ok ?rp |- _ => rename H into Hrp; assert (Hfd : rp_fd rp = rp_fd (replica (d_app d))) end.
  { unfold Replica_init in Hrp. destruct (sl_fd <$> _) as [sf|]; by res_inv. }
  cbn. split_and!; try done.
  - unfold img_of, d_app. cbn. by rewrite Hfd.
  - intros fd2 now2 d2 E. unfold next_recovery, mbind, SM_bind, sm_get, id. by rewrite E.
  - intros flags -> Hl Hf. unfold status_state. cbn. rewrite Hl. apply Z.eqb_neq in Hf. by rewrite Hf.
Qed.
End Life.

(** ** Concrete cases *)

Lemma status_loop_last_witness :
  let bad := mk_cdp_fd (Raise OSError) (fun _ _ => Raise OSError) in
  let d := demo_daemon zero_image None in
  exists sj, status_loop [(demo_fd, 70, d); (bad, 71, d)] None = Some sj /\ sj_time sj = 70.
Proof.
  intros bad d. set (r := write_status demo_fd 70 d).
  assert (Hok : match r with Ok sj => sj_time sj = 70 | _ => False end) by (vm_compute; reflexivity).
  destruct r as [sj| |] eqn:E; try contradiction. exists sj. split; [|exact Hok].
  apply (status_loop_last [] None demo_fd 70 d sj [(bad, 71, d)] E). repeat constructor. intros sj'. vm_compute. discriminate.
Defined.

Lemma clean_stop_durable_witness :
  let inps := [demo_input (RData ((concat calm_frames.*1).[0 : 30])) false false; demo_input RError false false;
               demo_input (RData ((concat calm_frames.*1).[30 : ])) false false] in
  exists r d', main_to_end (fs := byte_fs) (fun _ _ _ => FaZero) 1 3600 inps demo_locals [] demo_fd 100 (demo_daemon zero_image None) = (r, d') /\
    d_durable d' 1 = Byte.x42.
Proof.
  intros inps.
  destruct (main_to_end (fs := byte_fs) (fun _ _ _ => FaZero) 1 3600 inps demo_locals [] demo_fd 100 (demo_daemon zero_image None))
    as [r d'] eqn:E.
  exists r, d'. split; [reflexivity|].
  destruct (clean_stop_durable (fs := byte_fs) (fun _ _ _ => FaZero) 1 3600 zero_image 1024 inps demo_locals calm_frames
    (demo_daemon zero_image None) demo_fd 100 r d') as (_ & Hi & _).
  - by repeat constructor.
  - by repeat constructor.
  - clear E. by split_and!.
  - clear E. by split.
  - clear E. done.
  - apply calm_stream_ok.
  - reflexivity.
  - vm_compute. reflexivity.
  - exact E.
  - rewrite (Hi 1). reflexivity.
Defined.

(** A daemon with a gap waiting, stopped and started again. *)
Definition gap_daemon : daemon :=
  set_feed (mk_feed (d_app (demo_daemon zero_image None)) (Some 6) [6] None false)
    (set_manifest_json (Some (with_base 9 77 demo_manifest)) (demo_daemon zero_image None)).

Lemma restart_forgets_gaps_witness :
  exists d1, restart (fs := byte_fs) "n1" "/dev/sda" true (Some "b1"%string) demo_fd gap_daemon = Ok d1 /\
    recovery_queue (d_feed gap_daemon) = [6] /\ recovery_queue (d_feed d1) = [] /\ status_state d1 S_OVERFLOWED = BITMAP.
Proof.
  set (r := restart (fs := byte_fs) "n1" "/dev/sda" true (Some "b1"%string) demo_fd gap_daemon).
  assert (Hok : match r with Ok d1 => d_seed_required d1 = false | _ => False end) by (vm_compute; reflexivity).
  destruct r as [d1| |] eqn:E; try contradiction. exists d1. split; [reflexivity|]. split; [reflexivity|].
  destruct (restart_forgets_gaps (fs := byte_fs) "n1" "/dev/sda" true (Some "b1"%string) demo_fd gap_daemon d1 E)
    as (Hq & _ & _ & _ & _ & Hs).
  split; [exact Hq|]. apply Hs; [exact Hok|reflexivity|vm_compute; discriminate].
Defined.

Example node_json_example :
  (fun n => (nj_mem_mb n, nj_ips n, nj_firmware n, map_to_list (nj_macs n))) <$>
    match Daemon_node_json "km1" "/dev/sda" 4 10 true [("lo", Some "00"); ("eth0", Some " bc:24 "); ("eth1", None)]
            ["MemTotal:       16303428 kB"; "MemFree: 1 kB"] "10.0.0.1 10.0.0.2 " (demo_daemon zero_image None) with
    | Ok n => Some n | _ => None end
  = Some (15921, ["10.0.0.1"; "10.0.0.2"], "efi", [("eth0", "bc:24")])%string.
Proof. vm_compute. reflexivity. Qed.
