(* ===== verification/Rebuild.v ===== *)
(** * Rebuilding a node ([rkcdp/rkcdp-rebuild.py])

    A surviving manager copies the replica of a dead node, optionally lays the
    seed-time chunks back over the copy, and boots a VM from it.  The program
    is the composition [rb_main] of its steps; the other machines, the clock
    and the processes it runs are the environment [rb_env].  State that
    survives an exception (the lock file, the progress file, the copy) is the
    state of the steps. *)
From S2P Require Import Prelude Dmcdp Files Seed Replica Apply Consume Daemon CopyThreads MainLoop.

(** ** Names

    The module-level names of the program.  A name that is neither local nor
    one of these (nor a builtin) raises [NameError] when it is used. *)
Definition rebuild_names : list string :=
  ["argparse"; "base64"; "json"; "os"; "subprocess"; "sys"; "time"; "TOTAL"; "Progress"; "sh";
   "ssh_script"; "load_json"; "overlay_seed"; "mark_standby"; "_copy_with_progress"; "main"]%string.

Definition use_name {S} (n : string) : SM S unit :=
  if bool_decide (n ∈ rebuild_names) then mret tt else sm_res (Raise (NameError n)).

(** ** The seed overlay *)

Section Overlay.
Context {fs : SparseFS}.

(** [while pos < h: ...]; [step] is [4 << 20]. *)
Fixpoint overlay_region (step : Z) (fuel : nat) (sf : file) (pos h : Z) : SM file unit :=
  match fuel with
  | O => sm_res Forever
  | S fuel' =>
      if pos <? h then
        let buf := pread sf (Z.min step (h - pos)) pos in
        if bool_decide (buf = []) then mret tt
        else
          sm_upd (fun cf => pwrite cf buf pos);;
          overlay_region step fuel' sf (pos + blen buf) h
      else mret tt
  end.

Fixpoint overlay_loop (step : Z) (fuel : nat) (sf : file) (size off : Z) : SM file unit :=
  match fuel with
  | O => sm_res Forever
  | S fuel' =>
      if off <? size then
        match lseek_data sf off with
        | None => mret tt
        | Some d =>
            if size <=? d then mret tt
            else
              let h := lseek_hole sf d in
              overlay_region step (S (Z.to_nat (h - d))) sf d h;;
              overlay_loop step fuel' sf size h
        end
      else mret tt
  end.

(** [overlay_seed]: the state is the copy; its last statement logs. *)
Definition overlay_seed (step : Z) (sf : file) : SM file unit :=
  overlay_loop step (S (Z.to_nat (f_size sf))) sf (f_size sf) 0;;
  use_name "log".
End Overlay.

#[global] Arguments overlay_seed : simpl never.

(** ** Progress *)

Inductive progress_state : Type := PRunning | PDone | PFailed.

Record copy_progress : Type := mk_copy_progress {
  cp_done : Z;
  cp_total : option Z;
  cp_percent : option Z;
}.

Record progress : Type := mk_progress {
  pg_step_no : Z;
  pg_steps : list Z;
  pg_state : progress_state;
  pg_error : option exn;
  pg_copy : option copy_progress;
}.

Definition Progress_init : progress := mk_progress 0 [] PRunning None None.

Definition Progress_step (n : Z) (p : progress) : progress :=
  mk_progress n (pg_steps p ++ [n]) (pg_state p) (pg_error p) (pg_copy p).
Definition Progress_done (p : progress) : progress :=
  mk_progress (pg_step_no p) (pg_steps p) PDone (pg_error p) (pg_copy p).
Definition Progress_fail (e : exn) (p : progress) : progress :=
  mk_progress (pg_step_no p) (pg_steps p) PFailed (Some e) (pg_copy p).

(** [if total else None]: a total of 0 counts as unknown. *)
Definition truthy (n : option Z) : option Z :=
  match n with Some z => if z =? 0 then None else Some z | None => None end.

Definition Progress_copy (done : Z) (total : option Z) (p : progress) : progress :=
  mk_progress (pg_step_no p) (pg_steps p) (pg_state p) (pg_error p)
    (Some (mk_copy_progress done total ((fun t => done * 100 / t) <$> truthy total))).

(** ** The program *)

Inductive source : Type := FromReplica | FromSeed.

#[export] Instance source_eq_dec : EqDecision source.
Proof. solve_decision. Defined.

Record rb_args : Type := mk_rb_args {
  a_node : string;
  a_force : bool;
  a_keep_copy : bool;
  a_source : source;
}.

(** [node.json], as far as it is used *)
Record node_json : Type := mk_node_json {
  n_mem_mb : option Z;
  n_cpus : option Z;
  n_ips : list string;
}.

Record rb_env : Type := mk_rb_env {
  e_manifest : option manifest;               (* manifest.json *)
  e_status : option (node_state * Z);         (* status.json: state and time *)
  e_now : Z;
  e_node : option node_json;
  e_replica : option file;                    (* replica.raw *)
  e_seed : option file;                       (* seed.raw *)
  e_polls : list (option (node_state * Z) * Z);  (* status.json and the clock at each poll *)
  e_src_blocks : option Z;                    (* allocated bytes of replica.raw *)
  e_samples : list (option Z);                (* allocated bytes of the copy at each poll of cp *)
  e_cp : file -> file;                        (* cp --sparse=always *)
  e_cp_rc : Z;
  e_lock_lost : bool;                         (* someone else removed the lock meanwhile *)
  e_script : res (list string);               (* ssh_script: the lines it prints *)
  e_pings : list bool;
}.

Record rb_state : Type := mk_rb_state {
  rb_lock_file : bool;            (* .rebuild.lock exists *)
  rb_lock_var : bool;             (* the local [lock] is not None *)
  rb_pg : progress;
  rb_copy : option file;          (* rebuild/<node>-<ts>.raw *)
  rb_vm : option string;          (* pg.d["vmid"] *)
}.

Definition set_pg (f : progress -> progress) : SM rb_state unit :=
  sm_upd (fun s => mk_rb_state (rb_lock_file s) (rb_lock_var s) (f (rb_pg s)) (rb_copy s) (rb_vm s)).
Definition put_lock (file var : bool) : SM rb_state unit :=
  sm_upd (fun s => mk_rb_state file var (rb_pg s) (rb_copy s) (rb_vm s)).
Definition put_copy (c : option file) : SM rb_state unit :=
  sm_upd (fun s => mk_rb_state (rb_lock_file s) (rb_lock_var s) (rb_pg s) c (rb_vm s)).
Definition put_vm (v : string) : SM rb_state unit :=
  sm_upd (fun s => mk_rb_state (rb_lock_file s) (rb_lock_var s) (rb_pg s) (rb_copy s) (Some v)).

(** [raise RuntimeError(msg)] when the condition holds *)
Definition fail_if (b : bool) (msg : string) : SM rb_state unit :=
  if b then sm_res (Raise (RuntimeError msg)) else mret tt.

(** [_copy_with_progress] *)
Definition copy_with_progress (e : rb_env) (src : file) : SM rb_state unit :=
  set_pg (fun p => foldl (fun p sample =>
    match sample with Some done => Progress_copy done (e_src_blocks e) p | None => p end) p (e_samples e));;
  put_copy (Some (e_cp e src));;
  fail_if (negb (e_cp_rc e =? 0)) "cp failed";;
  set_pg (Progress_copy
    (default (default 0 (last (omap id (e_samples e)))) (truthy (e_src_blocks e))) (e_src_blocks e)).

(** [next((ln[5:] for ln in out.splitlines() if ln.startswith("VMID=")), "?")] *)
Fixpoint find_vmid (lines : list string) : string :=
  match lines with
  | [] => "?"
  | ln :: lines' => if String.prefix "VMID=" ln then String.substring 5 (String.length ln) ln else find_vmid lines'
  end.

(** Step 1: [status], [node] and the files of the node directory. *)
Definition rb_check (a : rb_args) (e : rb_env) : SM rb_state file :=
  set_pg (Progress_step 1);;
  m ← sm_res (match e_manifest e with Some m => Ok m | None => Raise OSError end);
  replica ← sm_res (match e_replica e with Some f => Ok f | None => Raise (RuntimeError "no replica.raw") end);
  fail_if (bool_decide (a_source a = FromSeed) && match e_seed e with Some _ => false | None => true end) "no seed.raw";;
  fail_if (bool_decide (m_base_end_seq m = None)) "base copy never completed";;
  match e_status e with
  | Some (_, t) => fail_if ((e_now e - t <? 60) && negb (a_force a)) "reported alive"
  | None => mret tt
  end;;
  mret replica.

(** The wait of step 2: at most 30 polls, until the daemon is paused or has
    gone silent.  Whether it ended early is not looked at afterwards. *)
Definition quiesced (polls : list (option (node_state * Z) * Z)) : bool :=
  existsb (fun '(st, now) =>
    match st with
    | Some (s, t) => bool_decide (s = PAUSED) || (30 <? now - t)
    | None => 30 <? now
    end) (take 30 polls).

Section Main.
Context {fs : SparseFS}.
Variable step : Z.

(** Steps 2 and 3: the lock is held while the replica is copied. *)
Definition rb_copy_step (a : rb_args) (e : rb_env) (replica : file) : SM rb_state unit :=
  set_pg (Progress_step 2);;
  put_lock true true;;
  set_pg (Progress_step 3);;
  copy_with_progress e replica;;
  (match a_source a, e_seed e with
   | FromSeed, Some sf => fun s =>
       let '(o, cf) := overlay_seed step sf (default replica (rb_copy s)) in
       (o, mk_rb_state (rb_lock_file s) (rb_lock_var s) (rb_pg s) (Some cf) (rb_vm s))
   | _, _ => mret tt
   end);;
  (* os.remove(lock); lock = None *)
  (if e_lock_lost e then put_lock false true;; sm_res (Raise OSError) else put_lock false false).

(** Steps 4 to 6. *)
Definition rb_boot_step (a : rb_args) (e : rb_env) : SM rb_state unit :=
  set_pg (Progress_step 4);;
  set_pg (Progress_step 5);;
  out ← sm_res (e_script e);
  put_vm (find_vmid out);;
  set_pg (Progress_step 6);;
  let ips := match e_node e with Some n => n_ips n | None => [] end in
  fail_if (bool_decide (ips <> []) && negb (existsb id (take 150 (e_pings e)))) "not reachable";;
  (if a_keep_copy a then mret tt else put_copy None);;
  set_pg Progress_done.

Definition rb_body (a : rb_args) (e : rb_env) : SM rb_state Z :=
  replica ← rb_check a e;
  rb_copy_step a e replica;;
  rb_boot_step a e;;
  mret 0.

(** [finally: if lock and os.path.exists(lock): os.remove(lock)] *)
Definition rb_release : SM rb_state unit :=
  sm_upd (fun s =>
    if rb_lock_var s && rb_lock_file s
    then mk_rb_state false (rb_lock_var s) (rb_pg s) (rb_copy s) (rb_vm s) else s).

(** [main]: the exit code, from the state of the node directory in which
    [.rebuild.lock] exists or not. *)
Definition rb_main (a : rb_args) (e : rb_env) (lock_exists : bool) : res Z * rb_state :=
  sm_finally (sm_except (rb_body a e) (fun x => set_pg (Progress_fail x);; mret 1)) rb_release
    (mk_rb_state lock_exists true Progress_init None None).
End Main.

(** ** Choosing the root partition of the copy ([mark_standby]) *)

(** [lsblk]'s lines [(name, fstype)] and the size of each partition: the
    largest ext4 or xfs one that is not the loop device itself. *)
Fixpoint pick_root (loop : string) (parts : list (string * string * Z)) (root : option string) (best : Z)
    : option string :=
  match parts with
  | [] => root
  | (name, fstype, sz) :: parts' =>
      if (bool_decide (fstype = "ext4"%string) || bool_decide (fstype = "xfs"%string)) &&
         bool_decide (name <> loop) && (best <? sz)
      then pick_root loop parts' (Some name) sz
      else pick_root loop parts' root best
  end.

Definition mark_standby_root (loop : string) (parts : list (string * string * Z)) : res string :=
  match pick_root loop parts None (-1) with
  | Some root => Ok root
  | None => Raise (RuntimeError "no ext4/xfs partition")
  end.

(** ** The overlay *)

Section OverlaySpec.
Context {fs : SparseFS} {B : Z} {laws : SparseFSLaws fs B}.
Variable step : Z.
Hypothesis Hstep : 0 < step.

Lemma overlay_region_spec sf fuel : forall pos h cf,
  0 <= pos -> pos <= h <= f_size sf -> h - pos < Z.of_nat fuel ->
  exists cf', overlay_region step fuel sf pos h cf = (Ok tt, cf') /\
    forall i, f_byte cf' i = if decide (pos <= i < h) then f_byte sf i else f_byte cf i.
Proof using Hstep.
  induction fuel as [|fuel IH]; intros pos h cf Hp Hh Hf; cbn [overlay_region].
  { lia. }
  destruct (Z.ltb_spec pos h) as [L|L].
  2:{ exists cf. split; [done|]. intros i. by rewrite decide_False by lia. }
  set (n := Z.min step (h - pos)).
  assert (Hr : pread sf n pos = img_read (f_byte sf) pos n).
  { unfold pread. f_equal. lia. }
  assert (Hb : blen (pread sf n pos) = n) by (rewrite Hr, blen_img_read; lia).
  rewrite bool_decide_eq_false_2 by (intros En; rewrite En, blen_nil in Hb; lia).
  rewrite (sm_bind_Ok _ _ _ tt (pwrite cf (pread sf n pos) pos)) by done. rewrite Hb.
  destruct (IH (pos + n) h (pwrite cf (pread sf n pos) pos)) as (cf' & E & Hi); [lia..|].
  exists cf'. split; [done|]. intros i. rewrite Hi, (pwrite_byte _ _ _ i), Hr, img_write_read_decide.
  repeat case_decide; done || lia.
Qed.

Lemma overlay_loop_spec sf fuel : forall off cf,
  0 <= off -> (Z.to_nat (f_size sf - off) < fuel)%nat ->
  exists cf', overlay_loop step fuel sf (f_size sf) off cf = (Ok tt, cf') /\
    forall i, (off <= i < f_size sf /\ data_block B sf i -> f_byte cf' i = f_byte sf i) /\
              (~ (off <= i < f_size sf /\ data_block B sf i) -> f_byte cf' i = f_byte cf i).
Proof using Hstep laws.
  induction fuel as [|fuel IH]; intros off cf H0 Hf; [lia|]. cbn [overlay_loop].
  destruct (Z.ltb_spec off (f_size sf)) as [L|L].
  2:{ exists cf. split; [done|]. intros i. split; [lia|done]. }
  destruct (lseek_data sf off) as [d|] eqn:Ed.
  2:{ exists cf. split; [done|]. intros i. split; [|done]. intros [Hi Hd].
      by destruct (seek_data_None sf off H0 Ed i Hi). }
  destruct (seek_data_Some sf off d H0 Ed) as (Hd & Hdb & Hgap).
  destruct (seek_hole_data sf d ltac:(lia) Hdb) as (Hh & Hrun & _).
  rewrite (proj2 (Z.leb_gt _ _)) by lia. set (h := lseek_hole sf d) in *.
  destruct (overlay_region_spec sf (S (Z.to_nat (h - d))) d h cf) as (cf1 & E1 & H1); [lia..|].
  rewrite (sm_bind_Ok _ _ _ _ _ E1).
  destruct (IH h cf1) as (cf' & E & Hi); [lia..|]. exists cf'. split; [done|].
  intros i. destruct (Hi i) as [Hin Hout]. split.
  - intros [Hr Hdi]. destruct (decide (h <= i)); [by apply Hin; split; [lia|]|].
    rewrite Hout, H1 by lia. rewrite decide_True; [done|].
    destruct (decide (i < d)); [|lia]. by destruct (Hgap i); [lia|].
  - intros Hn. rewrite Hout, H1.
    2:{ intros [? ?]. apply Hn. split; [lia|done]. }
    rewrite decide_False; [done|]. intros Hr. apply Hn. split; [lia|]. apply Hrun. lia.
Qed.

(** [overlay_seed] lays exactly the data of [seed.raw] over the copy --
    and then always raises, because [log] is not defined in this program. *)
Lemma overlay_seed_run sf cf :
  exists cf', overlay_seed step sf cf = (Raise (NameError "log"), cf') /\
    forall i, (0 <= i < f_size sf /\ data_block B sf i -> f_byte cf' i = f_byte sf i) /\
              (~ (0 <= i < f_size sf /\ data_block B sf i) -> f_byte cf' i = f_byte cf i).
Proof using Hstep laws.
  destruct (overlay_loop_spec sf (S (Z.to_nat (f_size sf))) 0 cf) as (cf' & E & Hi); [lia..|].
  exists cf'. split; [|done]. unfold overlay_seed. by rewrite (sm_bind_Ok _ _ _ _ _ E).
Qed.

Hypothesis Hdiv : (B | SEED_CHUNK).

(** C28: what the overlay restores.  Over a copy of the replica, with the
    seed layer the daemon kept, every byte gets its seed-time content, except
    in the chunks that were all zero at the seed point and have changed
    since: [seed.raw] has a hole there, and the copy keeps the new data. *)
Theorem overlay_restores S0 R l cf :
  seed_inv S0 R l -> (forall i, f_byte cf i = R i) ->
  exists o cf', overlay_seed step (sl_fd l) cf = (o, cf') /\
    forall i, 0 <= i < sl_size l ->
      let c := i / SEED_CHUNK in
      (saved_bit (sl_saved l) c = false \/ chunk_nonzero S0 (sl_size l) c -> f_byte cf' i = S0 i) /\
      (saved_bit (sl_saved l) c = true -> ~ chunk_nonzero S0 (sl_size l) c -> f_byte cf' i = R i).
Proof using Hstep laws Hdiv.
  intros [Hwf Hb] Hcf. destruct (overlay_seed_run (sl_fd l) cf) as (cf' & E & Hi).
  eexists _, cf'. split; [exact E|]. intros i Hr. cbn zeta.
  specialize (Hi i) as [Hin Hout]. rewrite (wf_file _ Hwf) in Hin, Hout.
  assert (Hblk : data_block B (sl_fd l) i -> exists j, 0 <= j < sl_size l /\
            j / SEED_CHUNK = i / SEED_CHUNK /\ f_data (sl_fd l) j = true).
  { intros (j & Hj & Hd). exists j. split_and!; [by apply (wf_data _ Hwf)..| |done].
    by apply (block_chunk Hdiv). }
  pose proof (Hb i Hr) as Hbi. unfold seed_byte in Hbi.
  destruct (saved_bit (sl_saved l) (i / SEED_CHUNK)) eqn:Es.
  - destruct Hbi as [Hnz Hz]. split.
    + intros [?|Hc]; [done|]. destruct (Hnz Hc) as [H1 H2]. rewrite Hin; [done|].
      split; [done|]. by exists i.
    + intros _ Hc. rewrite Hout; [apply Hcf|]. intros [_ (j & Hjr & Hj & Hd)%Hblk].
      pose proof (Hb j Hjr) as Hbj. unfold seed_byte in Hbj. rewrite Hj, Es in Hbj.
      rewrite (proj2 Hbj Hc) in Hd. done.
  - split; [|done]. intros _. destruct Hbi as [<- _]. rewrite Hout; [apply Hcf|].
    intros [_ (j & Hjr & Hj & Hd)%Hblk].
    pose proof (Hb j Hjr) as Hbj. unfold seed_byte in Hbj. rewrite Hj, Es in Hbj.
    rewrite (proj2 Hbj) in Hd. done.
Qed.
End OverlaySpec.

(** ** The program *)

(** What step 1 lets through. *)
Record check_ok (a : rb_args) (e : rb_env) (replica : file) : Prop := {
  ok_manifest : exists m, e_manifest e = Some m /\ m_base_end_seq m <> None;
  ok_replica : e_replica e = Some replica;
  ok_seed : a_source a = FromSeed -> e_seed e <> None;
  ok_dead st t : e_status e = Some (st, t) -> 60 <= e_now e - t \/ a_force a = true;
}.

Definition pg_upd (f : progress -> progress) (s : rb_state) : rb_state :=
  mk_rb_state (rb_lock_file s) (rb_lock_var s) (f (rb_pg s)) (rb_copy s) (rb_vm s).

Lemma fail_if_false b msg s : b = false -> fail_if b msg s = (Ok tt, s).
Proof. by intros ->. Qed.

Lemma fail_if_true b msg s : b = true -> fail_if b msg s = (Raise (RuntimeError msg), s).
Proof. by intros ->. Qed.

Lemma sm_bind_Raise {S A C} (m : SM S A) (f : A -> SM S C) s x s' :
  m s = (Raise x, s') -> (m ≫= f) s = (Raise x, s').
Proof. unfold mbind, SM_bind. by intros ->. Qed.

(** An [Exception]: what the program's [except] clause catches. *)
Definition catchable (x : exn) : Prop := forall msg, x <> SystemExit msg.

Lemma rb_check_cases a e s :
  (exists f, check_ok a e f /\ rb_check a e s = (Ok f, pg_upd (Progress_step 1) s)) \/
  ((forall f, ~ check_ok a e f) /\
   exists x, catchable x /\ rb_check a e s = (Raise x, pg_upd (Progress_step 1) s)).
Proof.
  unfold rb_check. set (s1 := pg_upd (Progress_step 1) s).
  rewrite (sm_bind_Ok _ _ _ tt s1) by done.
  destruct (e_manifest e) as [m|] eqn:Em.
  2:{ right. split; [|by exists OSError]. intros f [(? & ? & _) _ _ _]. congruence. }
  rewrite (sm_bind_Ok _ _ _ m s1) by done.
  destruct (e_replica e) as [f|] eqn:Er.
  2:{ right. split; [|by eexists; split; [|done]]. intros f [_ ? _ _]. congruence. }
  rewrite (sm_bind_Ok _ _ _ f s1) by done.
  destruct (bool_decide (a_source a = FromSeed) && match e_seed e with Some _ => false | None => true end) eqn:Es.
  { right. rewrite (sm_bind_Raise _ _ _ _ _ (fail_if_true _ _ _ eq_refl)).
    split; [|by eexists; split; [|done]]. apply andb_true_iff in Es as [Es1%bool_decide_eq_true Es2].
    intros f' [_ _ H _]. specialize (H Es1). by destruct (e_seed e). }
  rewrite (sm_bind_Ok _ _ _ _ _ (fail_if_false _ _ _ eq_refl)).
  destruct (decide (m_base_end_seq m = None)) as [Eb|Eb].
  { right. rewrite (sm_bind_Raise _ _ _ _ _ (fail_if_true _ _ _ (bool_decide_eq_true_2 _ Eb))).
    split; [|by eexists; split; [|done]]. intros f' [(m' & ? & ?) _ _ _]. congruence. }
  rewrite (sm_bind_Ok _ _ _ _ _ (fail_if_false _ _ _ (bool_decide_eq_false_2 _ Eb))).
  assert (Hseed : a_source a = FromSeed -> e_seed e <> None).
  { intros Ha. rewrite bool_decide_eq_true_2 in Es by done. by destruct (e_seed e). }
  destruct (e_status e) as [[st t]|] eqn:Est.
  2:{ left. exists f. split; [|done]. split; try done; [by exists m|congruence]. }
  destruct ((e_now e - t <? 60) && negb (a_force a)) eqn:El.
  - right. rewrite (sm_bind_Raise _ _ _ _ _ (fail_if_true _ _ _ eq_refl)).
    split; [|by eexists; split; [|done]]. intros f' [_ _ _ H]. destruct (H st t Est) as [?|Hf]; [lia|].
    rewrite Hf, andb_false_r in El. done.
  - left. exists f. rewrite (sm_bind_Ok _ _ _ _ _ (fail_if_false _ _ _ eq_refl)). split; [|done].
    split; try done; [by exists m|]. intros st' t'. rewrite Est. intros [= <- <-].
    destruct (Z.ltb_spec (e_now e - t) 60); [right|by left]. by destruct (a_force a).
Qed.

Section MainSpec.
Context {fs : SparseFS} {B : Z} {laws : SparseFSLaws fs B}.
Variable step : Z.
Hypothesis Hstep : 0 < step.

Definition lock_inv (s : rb_state) : Prop := rb_lock_var s = false -> rb_lock_file s = false.

Lemma set_pg_lock f : preserves lock_inv (set_pg f).
Proof. apply preserves_upd. intros s. by unfold lock_inv. Qed.

Lemma fail_if_lock b msg : preserves lock_inv (fail_if b msg).
Proof. destruct b; by intros s ?. Qed.

Lemma sm_res_lock {A} (r : res A) : preserves lock_inv (sm_res r).
Proof. by intros s ?. Qed.

Lemma put_copy_lock c : preserves lock_inv (put_copy c).
Proof. apply preserves_upd. intros s. by unfold lock_inv. Qed.

Lemma put_lock_lock fl v : (v = false -> fl = false) -> preserves lock_inv (put_lock fl v).
Proof. intros H. apply preserves_upd. intros s _. by unfold lock_inv. Qed.

Lemma mret_lock {A} (x : A) : preserves lock_inv (mret x).
Proof. by intros s ?. Qed.

Lemma rb_body_lock a e : preserves lock_inv (rb_body step a e).
Proof.
  unfold rb_body. apply preserves_bind.
  { intros s Hs. destruct (rb_check_cases a e s) as [(f & _ & ->)|(_ & x & _ & ->)]; exact Hs. }
  intros replica. apply preserves_bind; [|intros _; apply preserves_bind; [|intros _; apply mret_lock]].
  - unfold rb_copy_step, copy_with_progress.
    repeat first [ apply set_pg_lock | apply fail_if_lock | apply put_copy_lock
                 | (apply put_lock_lock; done) | apply sm_res_lock | apply mret_lock
                 | (apply preserves_bind; [|intros _]) ].
    + destruct (a_source a), (e_seed e); try apply mret_lock.
      intros s Hs. destruct (overlay_seed _ _ _). exact Hs.
    + destruct (e_lock_lost e); [|by apply put_lock_lock].
      apply preserves_bind; [by apply put_lock_lock|intros _; apply sm_res_lock].
  - unfold rb_boot_step, put_vm.
    repeat first [ apply set_pg_lock | apply fail_if_lock | apply put_copy_lock | apply sm_res_lock
                 | apply mret_lock | (apply preserves_bind; [|intros ?])
                 | (apply preserves_upd; intros s; by unfold lock_inv) | case_match ].
Qed.

(** However a rebuild ends -- success, a refused check, a failed copy, an
    overlay or a host script that raises -- the node directory is unlocked
    afterwards; a live daemon never stays paused. *)
Theorem rebuild_unlocks a e lock_exists :
  (rb_main step a e lock_exists).1 <> Forever -> rb_lock_file (rb_main step a e lock_exists).2 = false.
Proof using.
  unfold rb_main, sm_finally.
  set (s0 := mk_rb_state lock_exists true Progress_init None None).
  set (m := sm_except (rb_body step a e) (fun x => set_pg (Progress_fail x);; mret 1)).
  assert (H : lock_inv (m s0).2).
  { apply preserves_except; [apply rb_body_lock| |by unfold lock_inv].
    intros x. apply preserves_bind; [apply set_pg_lock|intros _; apply mret_lock]. }
  destruct (m s0) as [[n|x|] s1]; cbn in *; try done.
  all: intros _; destruct (rb_lock_var s1) eqn:Ev, (rb_lock_file s1) eqn:Ef; cbn; try done;
    by apply H in Ev; congruence.
Qed.

(** A rebuild that is refused at step 1 removes a lock it never took: if
    another rebuild of the node is copying at that moment, the daemon is no
    longer kept out of the replica. *)
Theorem refused_rebuild_removes_lock a e :
  (forall f, ~ check_ok a e f) ->
  (rb_main step a e true).1 = Ok 1 /\ rb_lock_file (rb_main step a e true).2 = false /\
  pg_steps (rb_pg (rb_main step a e true).2) = [1] /\ rb_copy (rb_main step a e true).2 = None.
Proof using.
  intros Hno. unfold rb_main, sm_finally, sm_except, rb_body.
  set (s0 := mk_rb_state true true Progress_init None None).
  destruct (rb_check_cases a e s0) as [(f & Hf & _)|(_ & x & Hx & E)]; [by destruct (Hno f)|].
  rewrite (sm_bind_Raise _ _ _ _ _ E).
  destruct x; try done. by destruct (Hx msg).
Qed.

(** *** Success *)

Lemma copy_with_progress_cases e f s :
  exists p, pg_steps p = pg_steps (rb_pg s) /\
    copy_with_progress e f s =
      (if decide (e_cp_rc e = 0) then Ok tt else Raise (RuntimeError "cp failed"),
       mk_rb_state (rb_lock_file s) (rb_lock_var s) p (Some (e_cp e f)) (rb_vm s)).
Proof using.
  unfold copy_with_progress.
  set (g := fun p => foldl _ p (e_samples e)).
  assert (Hg : forall p, pg_steps (g p) = pg_steps p).
  { unfold g. induction (e_samples e) as [|[d|] l IH]; intros p; cbn; [done| |done]. by rewrite IH. }
  rewrite (sm_bind_Ok _ _ _ tt (pg_upd g s)) by done.
  set (s1 := mk_rb_state (rb_lock_file s) (rb_lock_var s) (g (rb_pg s)) (Some (e_cp e f)) (rb_vm s)).
  rewrite (sm_bind_Ok _ _ _ tt s1) by done.
  destruct (decide (e_cp_rc e = 0)) as [E|E].
  - rewrite (sm_bind_Ok _ _ _ tt s1) by (apply fail_if_false; lia).
    eexists. split; [|done]. cbn. apply Hg.
  - assert (Eb : negb (e_cp_rc e =? 0) = true) by lia.
    rewrite (sm_bind_Raise _ _ _ _ _ (fail_if_true _ _ s1 Eb)).
    eexists. split; [|done]. apply Hg.
Qed.

(** What the host, its network and the copy have to do for a rebuild to
    succeed. *)
Record boot_ok (e : rb_env) (out : list string) : Prop := {
  boot_cp : e_cp_rc e = 0;
  boot_lock : e_lock_lost e = false;
  boot_script : e_script e = Ok out;
  boot_ping : match e_node e with Some n => n_ips n | None => [] end = [] \/
              existsb id (take 150 (e_pings e)) = true;
}.

Lemma rb_copy_step_seed a e f s :
  a_source a = FromSeed -> e_seed e <> None ->
  exists x s', catchable x /\ rb_copy_step step a e f s = (Raise x, s') /\ rb_vm s' = rb_vm s.
Proof using Hstep laws.
  intros Ha He. unfold rb_copy_step.
  set (s1 := mk_rb_state true true (Progress_step 3 (Progress_step 2 (rb_pg s))) (rb_copy s) (rb_vm s)).
  rewrite (sm_bind_Ok _ _ _ tt (pg_upd (Progress_step 2) s)) by done.
  rewrite (sm_bind_Ok _ _ _ tt (mk_rb_state true true (Progress_step 2 (rb_pg s)) (rb_copy s) (rb_vm s))) by done.
  rewrite (sm_bind_Ok _ _ _ tt s1) by done.
  destruct (copy_with_progress_cases e f s1) as (p & _ & Ec).
  destruct (decide (e_cp_rc e = 0)) as [E0|E0].
  2:{ rewrite (sm_bind_Raise _ _ _ _ _ Ec). eexists _, _. by split; [|split; done]. }
  rewrite (sm_bind_Ok _ _ _ _ _ Ec), Ha. destruct (e_seed e) as [sf|]; [|done].
  destruct (overlay_seed_run step Hstep sf (e_cp e f)) as (cf' & Eo & _).
  erewrite sm_bind_Raise; [|cbn; by rewrite Eo]. eexists _, _. by split; [|split; done].
Qed.

Lemma rb_copy_step_replica a e f s :
  a_source a = FromReplica ->
  (exists s', e_cp_rc e = 0 /\ e_lock_lost e = false /\ rb_copy_step step a e f s = (Ok tt, s') /\
     pg_steps (rb_pg s') = pg_steps (rb_pg s) ++ [2; 3] /\ rb_copy s' = Some (e_cp e f) /\
     rb_lock_file s' = false /\ rb_lock_var s' = false) \/
  (exists x s', (e_cp_rc e <> 0 \/ e_lock_lost e = true) /\ catchable x /\
     rb_copy_step step a e f s = (Raise x, s')).
Proof using.
  intros Ha. unfold rb_copy_step.
  set (s1 := mk_rb_state true true (Progress_step 3 (Progress_step 2 (rb_pg s))) (rb_copy s) (rb_vm s)).
  rewrite (sm_bind_Ok _ _ _ tt (pg_upd (Progress_step 2) s)) by done.
  rewrite (sm_bind_Ok _ _ _ tt (mk_rb_state true true (Progress_step 2 (rb_pg s)) (rb_copy s) (rb_vm s))) by done.
  rewrite (sm_bind_Ok _ _ _ tt s1) by done.
  destruct (copy_with_progress_cases e f s1) as (p & Hp & Ec).
  destruct (decide (e_cp_rc e = 0)) as [E0|E0].
  2:{ right. rewrite (sm_bind_Raise _ _ _ _ _ Ec). eexists _, _. split; [by left|]. by split; [|done]. }
  rewrite (sm_bind_Ok _ _ _ _ _ Ec), Ha.
  set (s2 := mk_rb_state _ _ p _ _). rewrite (sm_bind_Ok _ _ _ tt s2) by done.
  destruct (e_lock_lost e) eqn:El.
  - right. eexists _, _. split; [by right|]. by split; [|done].
  - left. eexists. split_and!; try done. cbn. rewrite Hp. cbn. by rewrite <-!app_assoc.
Qed.

Lemma rb_boot_step_cases a e s :
  (exists out s', e_script e = Ok out /\
     (match e_node e with Some n => n_ips n | None => [] end = [] \/
      existsb id (take 150 (e_pings e)) = true) /\
     rb_boot_step a e s = (Ok tt, s') /\
     pg_steps (rb_pg s') = pg_steps (rb_pg s) ++ [4; 5; 6] /\ pg_state (rb_pg s') = PDone /\
     rb_vm s' = Some (find_vmid out) /\
     rb_copy s' = (if a_keep_copy a then rb_copy s else None) /\
     rb_lock_file s' = rb_lock_file s /\ rb_lock_var s' = rb_lock_var s) \/
  (exists o s', (forall out, e_script e = Ok out ->
       match e_node e with Some n => n_ips n | None => [] end <> [] /\
       existsb id (take 150 (e_pings e)) = false) /\
     (forall u, o <> Ok u) /\ rb_boot_step a e s = (o, s')).
Proof using.
  unfold rb_boot_step.
  set (s1 := pg_upd (Progress_step 5) (pg_upd (Progress_step 4) s)).
  rewrite (sm_bind_Ok _ _ _ tt (pg_upd (Progress_step 4) s)) by done.
  rewrite (sm_bind_Ok _ _ _ tt s1) by done.
  destruct (e_script e) as [out|x|] eqn:Es.
  2:{ right. by exists (Raise x), s1. }
  2:{ right. by exists Forever, s1. }
  rewrite (sm_bind_Ok _ _ _ out s1) by done.
  set (s2 := mk_rb_state (rb_lock_file s1) (rb_lock_var s1) (rb_pg s1) (rb_copy s1) (Some (find_vmid out))).
  rewrite (sm_bind_Ok _ _ _ tt s2) by done.
  rewrite (sm_bind_Ok _ _ _ tt (pg_upd (Progress_step 6) s2)) by done.
  set (ips := match e_node e with Some n => n_ips n | None => [] end).
  destruct (bool_decide (ips <> []) && negb (existsb id (take 150 (e_pings e)))) eqn:Ep.
  - right. rewrite (sm_bind_Raise _ _ _ _ _ (fail_if_true _ _ _ eq_refl)).
    apply andb_true_iff in Ep as [Ep1%bool_decide_eq_true Ep2%negb_true_iff].
    exists (Raise (RuntimeError "not reachable")), (pg_upd (Progress_step 6) s2).
    split; [|by split]. intros ? _. by split.
  - left. rewrite (sm_bind_Ok _ _ _ _ _ (fail_if_false _ _ _ eq_refl)).
    exists out, (mk_rb_state (rb_lock_file s) (rb_lock_var s)
      (Progress_done (Progress_step 6 (rb_pg s1))) (if a_keep_copy a then rb_copy s else None)
      (Some (find_vmid out))).
    split_and!; try done.
    + apply andb_false_iff in Ep as [Ep%bool_decide_eq_false|Ep%negb_false_iff]; [left|by right].
      destruct ips; [done|]. by destruct Ep.
    + by destruct (a_keep_copy a).
    + cbn. by rewrite <-!app_assoc.
Qed.

(** When a rebuild reports success.  The exit code is 0 exactly when step
    1 let the node through, the source is the replica, and the copy, the host
    script and the boot succeeded; then all six steps were reported in order,
    the progress file says done, and the node directory is unlocked. *)
Theorem rebuild_success a e lock_exists :
  (rb_main step a e lock_exists).1 = Ok 0 <->
    a_source a = FromReplica /\ exists f out, check_ok a e f /\ boot_ok e out /\
      let s := (rb_main step a e lock_exists).2 in
      pg_steps (rb_pg s) = [1; 2; 3; 4; 5; 6] /\ pg_state (rb_pg s) = PDone /\
      rb_vm s = Some (find_vmid out) /\
      rb_copy s = (if a_keep_copy a then Some (e_cp e f) else None) /\ rb_lock_file s = false.
Proof using Hstep laws.
  unfold rb_main. set (s0 := mk_rb_state lock_exists true Progress_init None None).
  unfold sm_finally, sm_except, rb_body.
  destruct (rb_check_cases a e s0) as [(f & Hf & Ec)|(Hno & x & Hx & Ec)].
  2:{ rewrite (sm_bind_Raise _ _ _ _ _ Ec). destruct x; try (by destruct (Hx msg));
        (split; [done|]); intros (_ & f & out & Hf & _); by destruct (Hno f). }
  rewrite (sm_bind_Ok _ _ _ _ _ Ec). destruct (a_source a) eqn:Ea.
  2:{ destruct (rb_copy_step_seed a e f (pg_upd (Progress_step 1) s0) Ea (ok_seed _ _ _ Hf Ea))
        as (x & s' & Hx & E & _).
      rewrite (sm_bind_Raise _ _ _ _ _ E). destruct x; try (by destruct (Hx msg));
        (split; [done|]); by intros [? _]. }
  destruct (rb_copy_step_replica a e f (pg_upd (Progress_step 1) s0) Ea)
    as [(s1 & H1 & H2 & E & Hp1 & Hc1 & Hlf & Hlv)|(x & s1 & Hbad & Hx & E)].
  2:{ rewrite (sm_bind_Raise _ _ _ _ _ E). destruct x; try (by destruct (Hx msg));
        (split; [done|]); intros (_ & f' & out & _ & [? ? ? ?] & _); destruct Hbad; congruence. }
  rewrite (sm_bind_Ok _ _ _ _ _ E).
  destruct (rb_boot_step_cases a e s1)
    as [(out & s2 & Hs & Hp & Eb & Hp2 & Hst & Hvm & Hc2 & Hlf2 & Hlv2)|(o & s2 & Hbad & Ho & Eb)].
  - rewrite (sm_bind_Ok _ _ _ _ _ Eb). split; [|done]. intros _. split; [done|].
    exists f, out. split; [done|]. split; [done|]. cbn. rewrite Hlv2, Hlv. cbn.
    rewrite Hp2, Hp1, Hc2, Hc1. split_and!; try done. congruence.
  - assert (Hno : forall out, boot_ok e out -> False).
    { intros out [_ _ Hs Hp]. destruct (Hbad out Hs) as [H3 H4]. destruct Hp; congruence. }
    unfold mbind, SM_bind. rewrite Eb. destruct o as [u|x|]; [by destruct (Ho u)| |].
    all: split; [by destruct x || done|]; intros (_ & f' & out & _ & Hbo & _); by destruct (Hno out).
Qed.

Lemma rb_handler x s :
  (set_pg (Progress_fail x);; mret 1) s = (Ok 1, pg_upd (Progress_fail x) s).
Proof using. done. Qed.

(** A seed rebuild never succeeds.  Whatever the node, the host and the
    processes do, with [--from seed] the program exits with 1 and no VM is
    ever created. *)
Theorem seed_rebuild_fails a e lock_exists :
  a_source a = FromSeed ->
  (rb_main step a e lock_exists).1 = Ok 1 /\ rb_vm (rb_main step a e lock_exists).2 = None.
Proof using Hstep laws.
  intros Ea. unfold rb_main. set (s0 := mk_rb_state lock_exists true Progress_init None None).
  unfold sm_finally, sm_except, rb_body.
  destruct (rb_check_cases a e s0) as [(f & Hf & Ec)|(Hno & x & Hx & Ec)].
  - rewrite (sm_bind_Ok _ _ _ _ _ Ec).
    destruct (rb_copy_step_seed a e f (pg_upd (Progress_step 1) s0) Ea (ok_seed _ _ _ Hf Ea))
        as (x & s' & Hx & E & Hvm).
    rewrite (sm_bind_Raise _ _ _ _ _ E). destruct x; try (by destruct (Hx msg));
      rewrite rb_handler; cbn; (split; [done|]); destruct (rb_lock_var s' && rb_lock_file s'); exact Hvm.
  - rewrite (sm_bind_Raise _ _ _ _ _ Ec). destruct x; try (by destruct (Hx msg));
      rewrite rb_handler; cbn; (split; [done|]); by destruct lock_exists.
Qed.
End MainSpec.

(** ** Concrete rebuilds *)

#[local] Existing Instance byte_fs.
#[local] Existing Instance byte_fs_laws.

(** A replica with zeros at the seed point; nothing is saved yet. *)
Lemma overlay_restores_witness :
  exists l o cf', SeedLayer_init (file_create 1024) 1024 = Ok l /\
    overlay_seed 4 (sl_fd l) (file_create 1024) = (o, cf') /\
    forall i, 0 <= i < 1024 -> saved_bit (sl_saved l) (i / SEED_CHUNK) = false -> f_byte cf' i = x00.
Proof.
  destruct (SeedLayer_init_fresh zero_image 1024 ltac:(lia)) as (l & E & Hs & Hinv).
  destruct (overlay_restores 4 ltac:(lia) (Z.divide_1_l _) zero_image zero_image l (file_create 1024)
    Hinv (fun _ => eq_refl)) as (o & cf' & Eo & Hi).
  exists l, o, cf'. split; [exact E|]. split; [exact Eo|].
  rewrite Hs in Hi. intros i Hr Hb. destruct (Hi i Hr) as [H _]. apply H. by left.
Defined.

Definition demo_args (force : bool) (src : source) : rb_args := mk_rb_args "km1" force true src.

Definition demo_env (st : option (node_state * Z)) (seed : option file) : rb_env :=
  mk_rb_env (Some (with_base 9 77 demo_manifest)) st 1000
    (Some (mk_node_json (Some 4096) (Some 2) ["10.0.0.9"]%string))
    (Some (mk_file 1024 demo_disk (fun i => 512 <=? i))) seed [(Some (PAUSED, 1000), 1000)]
    (Some 512) [Some 256; None; Some 512] id 0 false (Ok ["import"; "VMID=9107"]%string) [false; true].

Lemma rebuild_unlocks_witness :
  rb_lock_file (rb_main 4 (demo_args false FromReplica) (demo_env None None) false).2 = false.
Proof. apply rebuild_unlocks. vm_compute. discriminate. Defined.

(** The node was alive a moment ago. *)
Lemma refused_rebuild_removes_lock_witness :
  let r := rb_main 4 (demo_args false FromReplica) (demo_env (Some (PAUSED, 990)) None) true in
  r.1 = Ok 1 /\ rb_lock_file r.2 = false.
Proof.
  intros r.
  destruct (refused_rebuild_removes_lock 4 (demo_args false FromReplica) (demo_env (Some (PAUSED, 990)) None))
    as (H1 & H2 & _).
  - intros f [_ _ _ H]. destruct (H PAUSED 990 eq_refl) as [H1|H1]; [cbn in H1; lia|discriminate H1].
  - exact (conj H1 H2).
Defined.

Lemma rebuild_success_witness :
  let r := rb_main 4 (demo_args false FromReplica) (demo_env None None) false in
  r.1 = Ok 0 /\ pg_steps (rb_pg r.2) = [1; 2; 3; 4; 5; 6] /\ rb_vm r.2 = Some "9107"%string.
Proof.
  intros r. assert (H : r.1 = Ok 0) by (vm_compute; reflexivity).
  split; [exact H|].
  apply (rebuild_success 4 ltac:(lia)) in H as (_ & f & out & _ & [_ _ Hs _] & Hp & _ & Hv & _).
  split; [exact Hp|]. injection Hs as <-. exact Hv.
Defined.

Lemma seed_rebuild_fails_witness :
  let r := rb_main 4 (demo_args true FromSeed) (demo_env None (Some (file_create 1024))) false in
  r.1 = Ok 1 /\ rb_vm r.2 = None.
Proof. apply (seed_rebuild_fails 4 ltac:(lia)). reflexivity. Defined.

(** ** The partition that gets the standby marker *)

Definition eligible (loop : string) (part : string * string * Z) : Prop :=
  let '(name, fstype, sz) := part in
  (fstype = "ext4"%string \/ fstype = "xfs"%string) /\ name <> loop.

Lemma pick_root_spec loop parts : forall root best,
  match pick_root loop parts root best with
  | Some r =>
      (root = Some r /\ Forall (fun p => eligible loop p -> p.2 <= best) parts) \/
      exists fstype sz, (r, fstype, sz) ∈ parts /\ eligible loop (r, fstype, sz) /\ best < sz /\
        Forall (fun p => eligible loop p -> p.2 <= sz) parts
  | None => root = None /\ Forall (fun p => eligible loop p -> p.2 <= best) parts
  end.
Proof.
  induction parts as [|[[name fstype] sz] parts IH]; intros root best.
  { cbn. destruct root; [by left|done]. }
  cbn [pick_root].
  assert (Hel : (bool_decide (fstype = "ext4"%string) || bool_decide (fstype = "xfs"%string)) &&
                bool_decide (name <> loop) = true <-> eligible loop (name, fstype, sz)).
  { unfold eligible. rewrite andb_true_iff, orb_true_iff, !bool_decide_eq_true. tauto. }
  destruct ((bool_decide (fstype = "ext4"%string) || bool_decide (fstype = "xfs"%string)) &&
            bool_decide (name <> loop)) eqn:Ee; cbn [andb].
  - destruct (Z.ltb_spec best sz) as [L|L].
    + specialize (IH (Some name) sz). destruct (pick_root loop parts (Some name) sz) as [r|]; [|by destruct IH].
      right. destruct IH as [[[= <-] HF]|(ft & s2 & Hin & He & Hlt & HF)].
      * exists fstype, sz. split_and!; [by left|by apply Hel|done|]. by constructor.
      * exists ft, s2. split_and!; [by right|done|lia|]. constructor; [cbn; lia|done].
    + specialize (IH root best). destruct (pick_root loop parts root best) as [r|].
      * destruct IH as [[? HF]|(ft & s2 & Hin & He & Hlt & HF)].
        -- left. split; [done|]. by constructor.
        -- right. exists ft, s2. split_and!; [by right|done|done|]. constructor; [cbn; lia|done].
      * destruct IH. split; [done|]. by constructor.
  - assert (Hne : eligible loop (name, fstype, sz) -> False) by (intros H%Hel; congruence).
    specialize (IH root best). destruct (pick_root loop parts root best) as [r|].
    + destruct IH as [[? HF]|(ft & s2 & Hin & He & Hlt & HF)].
      * left. split; [done|]. constructor; [tauto|done].
      * right. exists ft, s2. split_and!; [by right|done|done|]. constructor; [tauto|done].
    + destruct IH. split; [done|]. constructor; [tauto|done].
Qed.

(** [mark_standby] mounts a largest ext4 or xfs partition of the copy, never
    the loop device itself, and fails exactly when there is none. *)
Lemma mark_standby_largest loop parts :
  Forall (fun p => 0 <= p.2) parts ->
  match mark_standby_root loop parts with
  | Ok r => exists fstype sz, (r, fstype, sz) ∈ parts /\ eligible loop (r, fstype, sz) /\
              Forall (fun p => eligible loop p -> p.2 <= sz) parts
  | _ => Forall (fun p => ~ eligible loop p) parts
  end.
Proof.
  intros HF. unfold mark_standby_root. pose proof (pick_root_spec loop parts None (-1)) as H.
  destruct (pick_root loop parts None (-1)) as [r|].
  - destruct H as [[? _]|(ft & sz & Hin & He & _ & HF')]; [done|]. by exists ft, sz.
  - destruct H as [_ H]. rewrite Forall_forall in *. intros p Hp He.
    specialize (H p Hp He). specialize (HF p Hp). cbn in *. lia.
Qed.
