(* ===== verification/HostScript.v ===== *)
(** * Building the VM on the hypervisor (step 5 of [rkcdp/rkcdp-rebuild.py])

    The parameters of the VM, from [node.json] and the arguments, and the shell
    script sent to the Proxmox host: its text [host_script], and what [bash]
    does with it ([host_build]).  When the values that are put into the text
    have no character that means something to the shell, that is its commands
    one by one ([plain_build]); for any other text [bash] is a parameter, and
    may do anything.  [qm] is a parameter on the state of the host, with what
    its manual says as the class [Qm]. *)
From Stdlib Require Import Ascii.
From stdpp Require Import pretty.
From S2P Require Import Prelude PyString Target SshScript Files Seed Rebuild.

(** ** The parameters of the VM *)

(** The fields of [node.json] that describe the machine; the addresses in the
    order of the file. *)
Record hardware : Type := mk_hardware {
  hw_mem_mb : option Z;
  hw_cpus : option Z;
  hw_macs : list string;
  hw_firmware : option string;
}.

Record vm_args : Type := mk_vm_args {
  va_node : string;
  va_vmid : option Z;
  va_storage : string;
  va_bridge : string;
}.

(** [os.path.join(host_journal, "rebuild", os.path.basename(copy_path))] *)
Definition host_copy (host_journal copy_path : string) : string :=
  os_join (os_join host_journal "rebuild") (basename copy_path).

Definition vm_mem (hw : hardware) : Z := default 4096 (truthy (hw_mem_mb hw)).
Definition vm_cpus (hw : hardware) : Z := default 2 (truthy (hw_cpus hw)).

(** [next(iter(macs.values()), None)]; an empty address counts as none. *)
Definition vm_mac (hw : hardware) : option string :=
  match hw_macs hw with
  | mac :: _ => if bool_decide (mac = EmptyString) then None else Some mac
  | [] => None
  end.

Definition vm_net (hw : hardware) (a : vm_args) : string :=
  match vm_mac hw with
  | Some mac => "virtio=" +++ mac +++ ",bridge=" +++ va_bridge a
  | None => "virtio,bridge=" +++ va_bridge a
  end%string.

Definition vm_efi (hw : hardware) : bool := bool_decide (default "efi"%string (hw_firmware hw) = "efi"%string).

Definition vm_bios (hw : hardware) (a : vm_args) : string :=
  if vm_efi hw then ("--bios ovmf --efidisk0 " +++ va_storage a +++ ":1,efitype=4m,pre-enrolled-keys=0")%string
  else EmptyString.

(** ** The text of the script *)

Definition nl : string := String "010" EmptyString.
Definition dq : string := String "034" EmptyString.

Definition vmid_expr (a : vm_args) : string :=
  match truthy (va_vmid a) with
  | Some n => pretty n
  | None => "$(for n in $(seq 9100 9199); do qm status $n >/dev/null 2>&1 || { echo $n; break; }; done)"
  end%string.

(** The two lines of [qm create], with [v] for [$V]. *)
Definition create_line1 (v : string) (hw : hardware) (a : vm_args) : string :=
  ("qm create " +++ v +++ " --name " +++ va_node a +++ " --memory " +++ pretty (vm_mem hw) +++
   " --cores " +++ pretty (vm_cpus hw) +++ " --cpu host --ostype l26 ")%string.
Definition create_line2 (hw : hardware) (a : vm_args) : string :=
  ("  --scsihw virtio-scsi-single --net0 " +++ vm_net hw a +++ " --agent enabled=1 " +++ vm_bios hw a)%string.
Definition import_line (v copy : string) (a : vm_args) : string :=
  ("qm importdisk " +++ v +++ " " +++ copy +++ " " +++ va_storage a)%string.
Definition set_line (v disk : string) : string :=
  ("qm set " +++ v +++ " --scsi0 " +++ disk +++ ",discard=on,iothread=1 --boot order=scsi0")%string.

Definition host_script (hw : hardware) (a : vm_args) (copy : string) : string :=
  ("set -e" +++ nl +++
   "test -f " +++ copy +++ " || { echo " +++ dq +++ "host cannot see " +++ copy +++ " (NFS not mounted?)" +++ dq +++ " >&2; exit 2; }" +++ nl +++
   "V=" +++ vmid_expr a +++ nl +++
   "test -n " +++ dq +++ "$V" +++ dq +++ " || { echo " +++ dq +++ "no free vmid" +++ dq +++ " >&2; exit 3; }" +++ nl +++
   create_line1 "$V" hw a +++ "\" +++ nl +++ create_line2 hw a +++ nl +++
   import_line "$V" copy a +++ " >/dev/null" +++ nl +++
   "DISK=$(qm config $V | grep -oE '^unused0: .+' | cut -d' ' -f2)" +++ nl +++
   set_line "$V" "$DISK" +++ " >/dev/null" +++ nl +++
   "qm start $V" +++ nl +++
   "echo VMID=$V" +++ nl)%string.

(** ** What the host does with it *)

(** The state of the host: the configuration of each VM, those that run, the
    volumes of its storages, and the files it sees.  [pv_rest] is everything
    else its tools depend on. *)
Record pve (X : Type) : Type := mk_pve {
  pv_vms : gmap Z (gmap string string);
  pv_running : gset Z;
  pv_volumes : gmap string file;
  pv_files : gmap string file;
  pv_rest : X;
}.
Arguments mk_pve {X}.
Arguments pv_vms {X}.
Arguments pv_running {X}.
Arguments pv_volumes {X}.
Arguments pv_files {X}.
Arguments pv_rest {X}.

(** A command or a part of a script: it ends the script with an exit status
    ([inl]), or goes on. *)
Definition script (X A : Type) : Type := pve X -> (Z + A) * pve X.

#[export] Instance script_ret X : MRet (script X) := fun A a h => (inr a, h).
#[export] Instance script_bind X : MBind (script X) := fun A B f m h =>
  match m h with (inr a, h') => f a h' | (inl rc, h') => (inl rc, h') end.

Definition exit {X A} (rc : Z) : script X A := fun h => (inl rc, h).

(** What [cut -d' ' -f2] prints of a line with a blank. *)
Fixpoint until_blank (l : list ascii) : list ascii :=
  match l with c :: l' => if Ascii.eqb c " " then [] else c :: until_blank l' | [] => [] end.
Fixpoint after_blank (l : list ascii) : list ascii :=
  match l with c :: l' => if Ascii.eqb c " " then l' else after_blank l' | [] => [] end.
Definition cut_f2 (line : string) : string := of_chars (until_blank (after_blank (chars line))).

(** [grep -oE '^unused0: .+'] *)
Definition unused_line (line : string) : bool :=
  startswith line "unused0: " && (9 <? String.length line)%nat.

(** Characters that [bash] takes as they are, in any place of a word. *)
Definition safe_char (c : ascii) : bool :=
  let n := nat_of_ascii c in
  ((48 <=? n) && (n <=? 57))%nat || ((65 <=? n) && (n <=? 90))%nat || ((97 <=? n) && (n <=? 122))%nat ||
  bool_decide (c ∈ chars "-_./:,+@%=").

Definition shell_safe (s : string) : bool := forallb safe_char (chars s).

(** The values in the text. *)
Definition plain_values (hw : hardware) (a : vm_args) (copy : string) : bool :=
  shell_safe (va_node a) && shell_safe (va_storage a) && shell_safe (va_bridge a) && shell_safe (default EmptyString (vm_mac hw)) &&
  shell_safe copy && negb (bool_decide (copy = EmptyString)).

Section Build.
Context {X : Type}.
(** [qm] with its arguments: the exit status and the lines it prints. *)
Variable qm : list string -> pve X -> (Z * list string) * pve X.
(** [bash] on a text in which a value has other characters: a quote, a [;] or
    a [$] makes other commands of it. *)
Variable bash : string -> script X (list string).
(** The words [bash] makes of a text after an expansion when there are other
    characters in it: file names that match a pattern. *)
Variable expand : string -> list string.

(** A command under [set -e]. *)
Definition command (args : list string) : script X (list string) := fun h =>
  let '((rc, out), h') := qm args h in (if rc =? 0 then inr out else inl rc, h').

(** A command whose status is not looked at. *)
Definition run_any (args : list string) : script X (Z * list string) := fun h =>
  let '(r, h') := qm args h in (inr r, h').

(** [for n in ...; do qm status $n || { echo $n; break; }; done] *)
Fixpoint free_vmid (ns : list Z) : script X (option Z) :=
  match ns with
  | [] => mret None
  | n :: ns' =>
      r ← run_any ["status"; pretty n]%string;
      if fst r =? 0 then free_vmid ns' else mret (Some n)
  end.

Definition find_free (a : vm_args) : script X (option Z) :=
  match truthy (va_vmid a) with Some n => mret (Some n) | None => free_vmid (seqZ 9100 100) end.

(** The words of a line after [qm], all of whose characters are safe. *)
Definition qm_words (line : string) : list string := drop 1 (split line).

(** The words of [qm set]: [$DISK] is split and expanded, but not read again. *)
Definition set_args (v disk : string) : list string :=
  if shell_safe disk then qm_words (set_line v disk)
  else ["set"; v; "--scsi0"]%string ++ expand (disk +++ ",discard=on,iothread=1")%string ++ ["--boot"; "order=scsi0"]%string.

(** The lines from [qm create] on. *)
Definition build_vm (n : Z) (hw : hardware) (a : vm_args) (copy : string) : script X (list string) :=
  let v := pretty n in
  out1 ← command (qm_words (create_line1 v hw a +++ create_line2 hw a)%string);
  command (qm_words (import_line v copy a));;
  r ← run_any ["config"; v]%string;
  let disk := String.concat nl (cut_f2 <$> List.filter unused_line r.2) in
  command (set_args v disk);;
  out2 ← command ["start"; v]%string;
  mret (out1 ++ out2 ++ [("VMID=" +++ v)%string]).

Definition plain_build (hw : hardware) (a : vm_args) (copy : string) : script X (list string) :=
  (fun h => match pv_files h !! copy with Some _ => (inr tt, h) | None => exit 2 h end);;
  n ← find_free a;
  match n with
  | None => exit 3
  | Some n => build_vm n hw a copy
  end.

(** The script that is sent. *)
Definition host_build (hw : hardware) (a : vm_args) (copy : string) : script X (list string) :=
  if plain_values hw a copy then plain_build hw a copy else bash (host_script hw a copy).

(** What the rebuild gets from [ssh_script]. *)
Definition script_result (r : (Z + list string) * pve X) : res (list string) :=
  match r.1 with
  | inr out => Ok out
  | inl rc => Raise (RuntimeError ("host script failed rc=" +++ pretty rc)%string)
  end.
End Build.

(** ** What the tools promise *)

(** The value of an option among [--key value] pairs. *)
Fixpoint opt_val (key : string) (opts : list string) : option string :=
  match opts with
  | o :: v :: opts' => if String.eqb o ("--" +++ key)%string then Some v else opt_val key opts'
  | _ => None
  end.

(** Options that are kept as they are given; an [efidisk0] or a card without
    an address is completed by the tool. *)
Definition kept_option (key value : string) : bool :=
  bool_decide (key ∈ ["name"; "memory"; "cores"; "cpu"; "ostype"; "scsihw"; "agent"; "bios"]%string) ||
  (String.eqb key "net0" && startswith value "virtio=").

(** What the script asks of [qm]. *)
Definition qm_used : list string := ["status"; "create"; "importdisk"; "config"; "set"; "start"]%string.

Class Qm {X} (qm : list string -> pve X -> (Z * list string) * pve X) : Prop := {
  qm_frame sub n opts h m :
    sub ∈ qm_used -> m <> n -> pv_vms (qm (sub :: pretty (n : Z) :: opts) h).2 !! m = pv_vms h !! m;
  qm_files args h : pv_files (qm args h).2 = pv_files h;
  qm_status n h :
    let r := qm ["status"; pretty (n : Z)]%string h in
    (r.1.1 = 0 <-> is_Some (pv_vms h !! n)) /\ pv_vms r.2 = pv_vms h;
  qm_create n opts h :
    let r := qm ("create"%string :: pretty (n : Z) :: opts) h in
    (is_Some (pv_vms h !! n) -> r.1.1 <> 0 /\ pv_vms r.2 !! n = pv_vms h !! n) /\
    (r.1.1 = 0 -> (n ∉ pv_running r.2) /\
      (exists c, pv_vms r.2 !! n = Some c /\ c !! "unused0"%string = None /\
       (forall key v, opt_val key opts = Some v -> kept_option key v = true -> c !! key = Some v)));
  qm_importdisk n path storage h c :
    let r := qm ["importdisk"; pretty (n : Z); path; storage]%string h in
    pv_vms h !! n = Some c -> c !! "unused0"%string = None -> r.1.1 = 0 ->
    pv_running r.2 = pv_running h /\
    exists f vol, pv_files h !! path = Some f /\ (shell_safe vol = true /\ vol <> EmptyString) /\ pv_volumes r.2 !! vol = Some f /\
      pv_vms r.2 !! n = Some (<["unused0"%string := vol]> c);
  qm_config n h c vol :
    let r := qm ["config"; pretty (n : Z)]%string h in
    pv_vms h !! n = Some c -> c !! "unused0"%string = Some vol -> field vol ->
    List.filter unused_line r.1.2 = ["unused0: " +++ vol]%string /\
    pv_vms r.2 = pv_vms h /\ pv_volumes r.2 = pv_volumes h /\ pv_running r.2 = pv_running h;
  qm_set n vol boot h c :
    let disk := (vol +++ ",discard=on,iothread=1")%string in
    let r := qm ["set"; pretty (n : Z); "--scsi0"; disk; "--boot"; boot]%string h in
    pv_vms h !! n = Some c -> c !! "unused0"%string = Some vol -> r.1.1 = 0 ->
    pv_volumes r.2 = pv_volumes h /\ pv_running r.2 = pv_running h /\
    pv_vms r.2 !! n = Some (<["boot"%string := boot]> (<["scsi0"%string := disk]> (delete "unused0"%string c)));
  qm_start n h c :
    let r := qm ["start"; pretty (n : Z)]%string h in
    pv_vms h !! n = Some c -> r.1.1 = 0 -> pv_vms r.2 !! n = Some c /\ n ∈ pv_running r.2;
}.

(** ** The lines as words *)

Definition no_space (s : string) : Prop := Forall (fun c => is_space c = false) (chars s).

Lemma field_app s t : field s -> no_space t -> field (s +++ t)%string.
Proof.
  intros [Hne Hs] Ht. split; [by destruct s|]. rewrite chars_app. apply Forall_app. by split.
Qed.

Lemma field_app_r s t : no_space s -> field t -> field (s +++ t)%string.
Proof.
  intros Hs [Hne Ht]. split; [by destruct s|]. rewrite chars_app. apply Forall_app. by split.
Qed.

Lemma pretty_N_char_no_space d : (d < 10)%N -> is_space (pretty_N_char d) = false.
Proof. intros H. by destruct d as [|[[[[]|[]|]|[[]|[]|]|]|[[[]|[]|]|[[]|[]|]|]|]]; try lia. Qed.

Lemma pretty_go_no_space x : forall s, no_space s -> no_space (pretty_N_go x s).
Proof.
  induction (N.lt_wf_0 x) as [x _ IH]. intros s Hs. destruct (decide (0 < x)%N) as [Hx|Hx].
  - rewrite pretty_N_go_step by done. apply IH; [by apply N.div_lt|].
    constructor; [|done]. apply pretty_N_char_no_space. by apply N.mod_lt.
  - replace x with 0%N by lia. by rewrite pretty_N_go_0.
Qed.

Lemma pretty_go_nonempty x s : s <> EmptyString -> pretty_N_go x s <> EmptyString.
Proof.
  revert s. induction (N.lt_wf_0 x) as [x _ IH]. intros s Hs. destruct (decide (0 < x)%N) as [Hx|Hx].
  - rewrite pretty_N_go_step by done. apply IH; [by apply N.div_lt|done].
  - replace x with 0%N by lia. by rewrite pretty_N_go_0.
Qed.

Lemma field_pretty_N (x : N) : field (pretty x).
Proof.
  unfold pretty, pretty_N. case_decide as Hx; [by apply (bool_decide_unpack _)|]. split.
  - rewrite pretty_N_go_step by lia. by apply pretty_go_nonempty.
  - apply pretty_go_no_space. by constructor.
Qed.

(** A number is one word. *)
Lemma field_pretty (n : Z) : field (pretty n).
Proof.
  destruct n as [|p|p]; [by apply (bool_decide_unpack _)|apply (field_pretty_N (Npos p))|].
  change (pretty (Zneg p)) with ("-" +++ pretty (Npos p))%string. apply field_app_r; [by repeat constructor|].
  apply field_pretty_N.
Qed.

Lemma split_blank s : split (String " " s) = split s.
Proof. done. Qed.

(** A line written word by word, before a rest. *)
Fixpoint line_of (ws : list string) (rest : string) : string :=
  match ws with w :: ws' => (w +++ String " " (line_of ws' rest))%string | [] => rest end.

Lemma split_line ws rest : Forall field ws -> split (line_of ws rest) = ws ++ split rest.
Proof. induction 1 as [|w ws Hw _ IH]; [done|]. cbn [line_of app]. by rewrite split_field, IH. Qed.

Lemma plain_no_space s : shell_safe s = true -> no_space s.
Proof.
  unfold shell_safe, no_space. rewrite forallb_forall, Forall_forall. intros H c Hc. apply list_elem_of_In in Hc. apply H in Hc.
  revert Hc. clear. destruct c as [[] [] [] [] [] [] [] []]; vm_compute; congruence.
Qed.

Lemma plain_field s : shell_safe s = true -> s <> EmptyString -> field s.
Proof. intros Hp Hs. split; [done|]. by apply plain_no_space. Qed.

(** Every word is a field: the literal ones by evaluation. *)
Ltac fields := repeat apply Forall_cons_2;
  try (by auto with words); try apply Forall_nil_2; apply (bool_decide_unpack _); vm_compute; exact I.

Create HintDb words.
#[export] Hint Resolve field_pretty field_app : words.

(** A word that is neither empty nor an option. *)
Definition word (s : string) : Prop := shell_safe s = true /\ s <> EmptyString /\ startswith s "-" = false.

(** What the arguments and [node.json] have to be for the script to be read as
    it is meant: words without any character special to the shell. *)
Record words_ok (hw : hardware) (a : vm_args) (copy : string) : Prop := {
  wo_node : word (va_node a);
  wo_storage : word (va_storage a);
  wo_bridge : shell_safe (va_bridge a) = true;
  wo_mac : shell_safe (default EmptyString (vm_mac hw)) = true;
  wo_copy : word copy;
}.

Lemma word_field s : word s -> field s.
Proof. intros (? & ? & _). by apply plain_field. Qed.

Lemma words_ok_fields hw a copy : words_ok hw a copy -> field (va_node a) /\ field (va_storage a) /\ field copy.
Proof. intros []. split_and!; by apply word_field. Qed.

Lemma words_ok_plain hw a copy : words_ok hw a copy -> plain_values hw a copy = true.
Proof.
  intros [(H1 & _) (H2 & _) H3 H4 (H5 & Hne & _)]. unfold plain_values.
  by rewrite H1, H2, H3, H4, H5, bool_decide_eq_false_2.
Qed.

Lemma vm_net_field hw a copy : words_ok hw a copy -> field (vm_net hw a).
Proof.
  intros [_ _ Hb%plain_no_space Hm%plain_no_space _]. unfold vm_net. destruct (vm_mac hw) as [mac|]; cbn [default] in Hm.
  - apply field_app; [apply (bool_decide_unpack _); vm_compute; exact I|].
    unfold no_space in *. rewrite chars_app, Forall_app. split; [done|].
    rewrite chars_app, Forall_app. split; [by repeat constructor|done].
  - apply field_app; [apply (bool_decide_unpack _); vm_compute; exact I|done].
Qed.

Definition bios_opts (hw : hardware) (a : vm_args) : list string :=
  if vm_efi hw then ["--bios"; "ovmf"; "--efidisk0"; va_storage a +++ ":1,efitype=4m,pre-enrolled-keys=0"]%string else [].

Definition create_opts (hw : hardware) (a : vm_args) : list string :=
  (["--name"; va_node a; "--memory"; pretty (vm_mem hw); "--cores"; pretty (vm_cpus hw); "--cpu"; "host";
    "--ostype"; "l26"; "--scsihw"; "virtio-scsi-single"; "--net0"; vm_net hw a; "--agent"; "enabled=1"]%string
    ++ bios_opts hw a).

Lemma create_words hw a copy v : words_ok hw a copy -> field v ->
  qm_words (create_line1 v hw a +++ create_line2 hw a)%string = "create"%string :: v :: create_opts hw a.
Proof.
  intros Hw Hv. pose proof (vm_net_field hw a copy Hw) as Hn. destruct (words_ok_fields _ _ _ Hw) as (Hnode & Hst & _).
  unfold qm_words, create_line1, create_line2, create_opts. rewrite !append_assoc.
  set (ws1 := ["qm"; "create"; v; "--name"; va_node a; "--memory"; pretty (vm_mem hw);
    "--cores"; pretty (vm_cpus hw); "--cpu"; "host"; "--ostype"; "l26"]%string).
  set (ws2 := ["--scsihw"; "virtio-scsi-single"; "--net0"; vm_net hw a; "--agent"; "enabled=1"]%string).
  transitivity (drop 1 (split (line_of ws1 (String " " (String " " (line_of ws2 (vm_bios hw a))))))); [done|].
  rewrite split_line by (unfold ws1; fields).
  rewrite !split_blank, split_line by (unfold ws2; fields). cbn [app ws1 ws2 drop]. unfold vm_bios, bios_opts.
  destruct (vm_efi hw); [|done].
  assert (forall s, split ("--bios ovmf --efidisk0 " +++ s) = "--bios" :: "ovmf" :: ["--efidisk0"] ++ split s)%string as Hb.
  { intros s. exact (split_line ["--bios"; "ovmf"; "--efidisk0"]%string s ltac:(fields)). }
  rewrite Hb, split_last; [done|]. apply field_app; [done|].
  apply (bool_decide_unpack _). vm_compute. exact I.
Qed.

Lemma import_words v copy a : field v -> field copy -> field (va_storage a) ->
  qm_words (import_line v copy a) = ["importdisk"; v; copy; va_storage a]%string.
Proof.
  intros. unfold qm_words, import_line.
  transitivity (drop 1 (split (line_of ["qm"; "importdisk"; v; copy] (va_storage a)))%string); [done|].
  rewrite split_line by fields. by rewrite split_last.
Qed.

Lemma set_words v vol : field v -> field vol ->
  qm_words (set_line v vol) = ["set"; v; "--scsi0"; vol +++ ",discard=on,iothread=1"; "--boot"; "order=scsi0"]%string.
Proof.
  intros. unfold qm_words, set_line.
  transitivity (drop 1 (split (line_of ["qm"; "set"; v; "--scsi0"; vol +++ ",discard=on,iothread=1"; "--boot"] "order=scsi0"))%string).
  - cbn [line_of]. by rewrite append_assoc.
  - rewrite split_line; [done|]. assert (field (vol +++ ",discard=on,iothread=1")%string); [|fields].
    apply field_app; [done|]. apply (bool_decide_unpack _). vm_compute. exact I.
Qed.

Lemma cut_unused vol : field vol -> cut_f2 ("unused0: " +++ vol)%string = vol.
Proof.
  intros [_ Hv]. unfold cut_f2. change (after_blank (chars ("unused0: " +++ vol))%string) with (chars vol).
  assert (until_blank (chars vol) = chars vol) as ->.
  { induction Hv as [|c l Hc _ IH]; [done|]. cbn [until_blank]. destruct (Ascii.eqb_spec c " ") as [->|_]; [done|]. by rewrite IH. }
  apply String.string_of_list_ascii_of_string.
Qed.

(** ** The script does what it is for *)

Section Host.
Context {X : Type} {qm : list string -> pve X -> (Z * list string) * pve X} {promises : Qm qm}.
Context {bash : string -> script X (list string)} {expand : string -> list string}.

Lemma free_vmid_spec ns h :
  exists o h', free_vmid qm ns h = (inr o, h') /\ pv_vms h' = pv_vms h /\ pv_files h' = pv_files h /\
    match o with
    | Some n => exists l1 l2, ns = l1 ++ n :: l2 /\ pv_vms h !! n = None /\ Forall (fun m => is_Some (pv_vms h !! m)) l1
    | None => Forall (fun m => is_Some (pv_vms h !! m)) ns
    end.
Proof using promises.
  revert h. induction ns as [|n ns IH]; intros h; [by eexists None, h|].
  cbn [free_vmid]. unfold mbind, script_bind, run_any. pose proof (qm_status n h) as [Hrc Hv].
  pose proof (qm_files ["status"; pretty n]%string h) as Hf.
  destruct (qm ["status"; pretty n]%string h) as [[rc out] h1]. cbn [fst snd] in *.
  destruct (Z.eqb_spec rc 0) as [E|E].
  - apply Hrc in E. destruct (IH h1) as (o & h' & -> & Hv' & Hf' & Ho). rewrite Hv in Ho, Hv'. exists o, h'.
    split_and!; [done|done|congruence|]. destruct o as [m|]; [|by constructor].
    destruct Ho as (l1 & l2 & -> & Hm & Hl). exists (n :: l1), l2. split_and!; [done|done|by constructor].
  - exists (Some n), h1. split_and!; try done. exists [], ns. split_and!; [done| |done].
    destruct (pv_vms h !! n) eqn:En; [|done]. destruct E. by apply Hrc.
Qed.

(** The number the VM gets: the one that was asked for, or the first free one
    from 9100 to 9199. *)
Definition vmid_for (a : vm_args) (h : pve X) (n : Z) : Prop :=
  match truthy (va_vmid a) with
  | Some m => n = m
  | None => 9100 <= n < 9200 /\ pv_vms h !! n = None /\ forall m, 9100 <= m < n -> is_Some (pv_vms h !! m)
  end.

Lemma find_free_spec a h :
  exists o h', find_free qm a h = (inr o, h') /\ pv_vms h' = pv_vms h /\ pv_files h' = pv_files h /\
    match o with
    | Some n => vmid_for a h n
    | None => truthy (va_vmid a) = None /\ forall m, 9100 <= m < 9200 -> is_Some (pv_vms h !! m)
    end.
Proof using promises.
  unfold find_free, vmid_for. destruct (truthy (va_vmid a)) as [n|]; [by exists (Some n), h|].
  destruct (free_vmid_spec (seqZ 9100 100) h) as (o & h' & -> & Hv & Hf & Ho). exists o, h'. split_and!; try done.
  destruct o as [n|].
  - destruct Ho as (l1 & l2 & E & Hn & Hl).
    assert (Hlen : (length l1 < 100)%nat) by (apply (f_equal length) in E; rewrite length_seqZ, length_app in E; cbn in E; lia).
    assert (Hat : forall i x, l1 !! i = Some x -> x = 9100 + Z.of_nat i).
    { intros i x Hi. assert ((seqZ 9100 100) !! i = Some x) as Hx by (rewrite E; by apply lookup_app_l_Some).
      apply lookup_seqZ in Hx. lia. }
    assert ((seqZ 9100 100) !! length l1 = Some n) as Hx by (rewrite E; by apply list_lookup_middle).
    apply lookup_seqZ in Hx as [-> _]. split_and!; [lia|lia|done|]. intros m Hm.
    assert (is_Some (l1 !! Z.to_nat (m - 9100))) as [x Hi] by (apply lookup_lt_is_Some; lia).
    apply (Forall_lookup_1 _ _ _ _ Hl) in Hi as Hs. rewrite (Hat _ _ Hi) in Hs.
    by replace (9100 + Z.of_nat (Z.to_nat (m - 9100))) with m in Hs by lia.
  - split; [done|]. intros m Hm. apply (proj1 (Forall_forall _ _) Ho). apply elem_of_seqZ. lia.
Qed.

Lemma script_bind_inr {A B} (m : script X A) (f : A -> script X B) h b h' :
  (m ≫= f) h = (inr b, h') -> exists a h1, m h = (inr a, h1) /\ f a h1 = (inr b, h').
Proof using. unfold mbind, script_bind. destruct (m h) as [[rc|a] h1]; [done|]. intros E. by exists a, h1. Qed.

Lemma command_inr args h out h' : command qm args h = (inr out, h') -> qm args h = ((0, out), h').
Proof using.
  unfold command. destruct (qm args h) as [[rc o] h1]. destruct (Z.eqb_spec rc 0) as [->|_]; by intros [= <- <-].
Qed.

(** A line of a command about VM [n] leaves the other VMs alone, whether it
    succeeds or not. *)
Lemma command_frame sub n opts h m :
  sub ∈ qm_used -> m <> n -> pv_vms (command qm (sub :: pretty n :: opts) h).2 !! m = pv_vms h !! m.
Proof using promises.
  intros Hs Hm. rewrite <-(qm_frame sub n opts h m Hs Hm). unfold command. by destruct (qm _ h) as [[rc o] h1].
Qed.

Lemma run_any_frame sub n opts h m :
  sub ∈ qm_used -> m <> n -> pv_vms (run_any qm (sub :: pretty n :: opts) h).2 !! m = pv_vms h !! m.
Proof using promises.
  intros Hs Hm. rewrite <-(qm_frame sub n opts h m Hs Hm). unfold run_any. by destruct (qm _ h) as [[rc o] h1].
Qed.

(** What holds of the VM [m] is kept by a sequence whose parts keep it. *)
Lemma script_bind_keeps {A B} (P : pve X -> Prop) (m : script X A) (f : A -> script X B) h :
  P (m h).2 -> (forall a h1, m h = (inr a, h1) -> P h1 -> P (f a h1).2) -> P ((m ≫= f) h).2.
Proof using.
  unfold mbind, script_bind. destruct (m h) as [[rc|a] h1]; cbn; [done|]. intros Hm Hf. by apply Hf.
Qed.

Lemma set_words_any v disk : field v ->
  exists opts, set_args expand v disk = "set"%string :: v :: opts.
Proof using.
  intros Hv. unfold set_args. destruct (shell_safe disk); [|by eexists].
  exists ("--scsi0"%string :: split (disk +++ ",discard=on,iothread=1 --boot order=scsi0")%string).
  unfold qm_words, set_line.
  transitivity (drop 1 (split (line_of ["qm"; "set"; v; "--scsi0"] (disk +++ ",discard=on,iothread=1 --boot order=scsi0")))%string).
  - done.
  - by rewrite split_line by fields.
Qed.

(** [qm create] on a number that is taken fails and leaves that VM. *)
Lemma create_taken n opts h c :
  pv_vms h !! n = Some c ->
  (exists rc, (command qm ("create"%string :: pretty n :: opts) h).1 = inl rc) /\
  pv_vms (command qm ("create"%string :: pretty n :: opts) h).2 !! n = Some c.
Proof using promises.
  intros Hn. destruct (qm_create n opts h) as [Hno _]. destruct Hno as [Hrc Hv]; [by exists c|]. unfold command.
  destruct (qm _ h) as [[rc o] h1]. cbn in *. destruct (Z.eqb_spec rc 0); [done|]. split; [by exists rc|congruence].
Qed.

Lemma build_vm_keeps n hw a copy h m c :
  words_ok hw a copy -> pv_vms h !! m = Some c -> pv_vms (build_vm qm expand n hw a copy h).2 !! m = Some c.
Proof using promises.
  intros Hw Hm. set (P := fun h : pve X => pv_vms h !! m = Some c). change (P (build_vm qm expand n hw a copy h).2).
  unfold build_vm. destruct (words_ok_fields _ _ _ Hw) as (_ & Hst & Hcp).
  rewrite (create_words hw a copy), import_words by (done || apply field_pretty).
  apply script_bind_keeps.
  { destruct (decide (m = n)) as [->|Hn]; [by apply create_taken|]. unfold P. rewrite command_frame by (done || in_list). done. }
  intros out1 h3 E3 H3. assert (m <> n) as Hn.
  { intros ->. destruct (create_taken n (create_opts hw a) h c Hm) as [[rc Hrc] _]. by rewrite E3 in Hrc. }
  assert (Hframe : forall sub opts h, sub ∈ qm_used -> P h -> P (command qm (sub :: pretty n :: opts) h).2)
    by (intros sub opts h' Hs Hh; unfold P; by rewrite command_frame).
  apply script_bind_keeps; [apply Hframe; [in_list|done]|]. intros ? h4 _ H4. apply script_bind_keeps.
  { unfold P. rewrite run_any_frame by (done || in_list). done. }
  intros r h5 _ H5. apply script_bind_keeps.
  { destruct (set_words_any (pretty n) (String.concat nl (cut_f2 <$> List.filter unused_line r.2)) (field_pretty n)) as [opts ->].
    apply Hframe; [in_list|done]. }
  intros ? h6 _ H6. apply script_bind_keeps; [apply Hframe; [in_list|done]|]. done.
Qed.

(** C37: With values that have no character special to the shell, the script
    never changes the configuration of a VM that the host has, whatever the
    number it was given and wherever it ends. *)
Theorem host_build_keeps_vms hw a copy h m c :
  words_ok hw a copy -> pv_vms h !! m = Some c ->
  pv_vms (host_build qm bash expand hw a copy h).2 !! m = Some c.
Proof using promises.
  intros Hw Hm. set (P := fun h : pve X => pv_vms h !! m = Some c). change (P (host_build qm bash expand hw a copy h).2).
  unfold host_build. rewrite words_ok_plain by done. unfold plain_build. apply script_bind_keeps; [by destruct (pv_files h !! copy)|].
  intros ? h1 _ H1. apply script_bind_keeps.
  { destruct (find_free_spec a h1) as (o & h' & -> & Hv & _). unfold P in *. cbn. by rewrite Hv. }
  intros [n|] h2 _ H2; [|done]. by apply build_vm_keeps.
Qed.

(** A rebuild that was broken off cannot be repeated under the number it was
    given: the VM it left takes the number. *)
Theorem host_build_taken hw a copy h n c :
  words_ok hw a copy -> truthy (va_vmid a) = Some n -> pv_vms h !! n = Some c ->
  exists rc, (host_build qm bash expand hw a copy h).1 = inl rc.
Proof using promises.
  intros Hw Hn Hc. unfold host_build. rewrite words_ok_plain by done. unfold plain_build, find_free. rewrite Hn. unfold mbind at 1, script_bind at 1.
  destruct (pv_files h !! copy); [|by exists 2]. cbn beta iota.
  unfold mbind at 1, script_bind at 1, mret, script_ret. unfold build_vm.
  rewrite (create_words hw a copy) by (done || apply field_pretty).
  destruct (create_taken n (create_opts hw a) h c Hc) as [[rc Hrc] _]. exists rc.
  unfold mbind at 1, script_bind at 1. destruct (command qm _ h) as [[rc'|out] h1]; [done|discriminate Hrc].
Qed.
(** The configuration of the VM that is built: the machine of [node.json], and
    the imported volume as its first disk, to boot from. *)
Record vm_is (hw : hardware) (a : vm_args) (vol : string) (c : gmap string string) : Prop := {
  vi_name : c !! "name"%string = Some (va_node a);
  vi_memory : c !! "memory"%string = Some (pretty (vm_mem hw));
  vi_cores : c !! "cores"%string = Some (pretty (vm_cpus hw));
  vi_bios : vm_efi hw = true -> c !! "bios"%string = Some "ovmf"%string;
  vi_net : forall mac, vm_mac hw = Some mac ->
    c !! "net0"%string = Some ("virtio=" +++ mac +++ ",bridge=" +++ va_bridge a)%string;
  vi_disk : c !! "scsi0"%string = Some (vol +++ ",discard=on,iothread=1")%string;
  vi_boot : c !! "boot"%string = Some "order=scsi0"%string;
}.

(** The options [qm create] was given are still there after the disk. *)
Lemma vm_is_built hw a vol c unused :
  (forall key v, opt_val key (create_opts hw a) = Some v -> kept_option key v = true -> c !! key = Some v) ->
  vm_is hw a vol (<["boot" := "order=scsi0"]> (<["scsi0" := vol +++ ",discard=on,iothread=1"]>
    (delete "unused0" (<["unused0" := unused]> c))))%string.
Proof using.
  intros Hc.
  assert (forall key, key <> "boot" -> key <> "scsi0" -> key <> "unused0" ->
    (<["boot" := "order=scsi0"]> (<["scsi0" := vol +++ ",discard=on,iothread=1"]>
      (delete "unused0" (<["unused0" := unused]> c)))) !! key = c !! key)%string as Hk.
  { intros key H1 H2 H3. by rewrite !lookup_insert_ne, lookup_delete_ne, lookup_insert_ne by done. }
  split.
  - rewrite Hk by done. by apply Hc.
  - rewrite Hk by done. by apply Hc.
  - rewrite Hk by done. by apply Hc.
  - intros He. rewrite Hk by done. apply Hc; [|done]. unfold create_opts, bios_opts. by rewrite He.
  - intros mac Hm. rewrite Hk by done.
    apply Hc; [cbn; unfold vm_net; by rewrite Hm|]. unfold kept_option. by rewrite startswith_append, orb_true_r.
  - by rewrite lookup_insert_ne, lookup_insert_eq by done.
  - apply lookup_insert_eq.
Qed.
(** What [build_vm] leaves, and how the VM was when it was started. *)
Definition built (n : Z) (hw : hardware) (a : vm_args) (f : file) (h' : pve X) : Prop :=
  exists vol c h1, pv_vms h1 !! n = Some c /\ (n ∉ pv_running h1) /\ pv_volumes h1 !! vol = Some f /\
    vm_is hw a vol c /\ (qm ["start"; pretty n]%string h1).2 = h' /\ pv_vms h' !! n = Some c /\ n ∈ pv_running h'.

(** From the VM with its imported disk to the end. *)
Lemma boot_disk n hw a copy f h c vol out1 out :
  words_ok hw a copy -> shell_safe vol = true /\ vol <> EmptyString ->
  (forall key v, opt_val key (create_opts hw a) = Some v -> kept_option key v = true -> c !! key = Some v) ->
  pv_vms h !! n = Some (<["unused0"%string := vol]> c) -> pv_volumes h !! vol = Some f -> (n ∉ pv_running h) ->
  forall h', (r ← run_any qm ["config"; pretty n]%string;
    command qm (set_args expand (pretty n) (String.concat nl (cut_f2 <$> List.filter unused_line r.2)));;
    out2 ← command qm ["start"; pretty n]%string;
    mret (out1 ++ out2 ++ [("VMID=" +++ pretty n)%string])) h = (inr out, h') ->
  built n hw a f h' /\ last out = Some ("VMID=" +++ pretty n)%string.
Proof using promises.
  intros Hw [Hpl Hne] Hopts Hc Hf Hr h' E. pose proof (plain_field vol Hpl Hne) as Hvol. apply script_bind_inr in E as (r & h4 & E4 & E). unfold run_any in E4.
  pose proof (qm_config n h _ vol Hc (lookup_insert_eq _ _ _) Hvol) as Hcf.
  destruct (qm ["config"; pretty n]%string h) as [r4 h4']. injection E4 as <- <-.
  destruct Hcf as (Hl & Hv4 & Hvol4 & Hr4). cbn [fst snd] in Hl, Hv4, Hvol4, Hr4. cbn [snd] in E. rewrite Hl in E.
  cbn [fmap list_fmap String.concat] in E. unfold set_args in E. rewrite cut_unused, Hpl, set_words in E by (done || apply field_pretty).
  apply script_bind_inr in E as (outs & h5 & E5 & E). apply command_inr in E5.
  rewrite <-Hv4 in Hc. pose proof (qm_set n vol "order=scsi0" h4' _ Hc (lookup_insert_eq _ _ _)) as Hs.
  cbn zeta in Hs. rewrite E5 in Hs. destruct Hs as (Hvol5 & Hr5 & Hc5); [done|]. cbn [fst snd] in Hvol5, Hr5, Hc5.
  apply script_bind_inr in E as (out2 & h6 & E6 & E). apply command_inr in E6.
  pose proof (qm_start n h5 _ Hc5) as Hst. rewrite E6 in Hst. destruct Hst as [Hc6 Hr6]; [done|]. injection E as <- <-.
  split; [|by rewrite app_assoc, last_snoc]. eexists vol, _, h5. split; [exact Hc5|]. split; [congruence|]. split; [congruence|].
  split; [by apply vm_is_built|]. by rewrite E6.
Qed.
Lemma build_vm_boots n hw a copy f h out h' :
  words_ok hw a copy -> pv_files h !! copy = Some f -> build_vm qm expand n hw a copy h = (inr out, h') ->
  pv_vms h !! n = None /\ built n hw a f h' /\ last out = Some ("VMID=" +++ pretty n)%string.
Proof using promises.
  intros Hw Hf E. unfold build_vm in E. destruct (words_ok_fields _ _ _ Hw) as (_ & Hst & Hcp).
  rewrite (create_words hw a copy), import_words in E by (done || apply field_pretty).
  apply script_bind_inr in E as (out1 & h2 & E2 & E). apply command_inr in E2.
  pose proof (qm_create n (create_opts hw a) h) as [Hno Hc].
  pose proof (qm_files ("create"%string :: pretty n :: create_opts hw a) h) as Hf2.
  rewrite E2 in Hno, Hc, Hf2. cbn [fst snd] in Hno, Hc, Hf2. destruct Hc as (Hr2 & c & Hc2 & Hu & Hopts); [done|].
  split. { destruct (pv_vms h !! n) eqn:En; [|done]. destruct Hno as [Hx _]; [by eexists|done]. }
  apply script_bind_inr in E as (outi & h3 & E3 & E). apply command_inr in E3.
  pose proof (qm_importdisk n copy (va_storage a) h2 c Hc2 Hu) as Hi. rewrite E3 in Hi. cbn [fst snd] in Hi.
  destruct Hi as (Hr3 & f' & vol & Hf' & Hvol & Hv3 & Hc3); [done|]. rewrite Hf2, Hf in Hf'. injection Hf' as <-.
  apply (boot_disk n hw a copy f h3 c vol out1); try done. by rewrite Hr3.
Qed.

(** When the script runs to its end, the VM it built boots the copy: on a
    number that was free, with the memory, the cores, the firmware and the
    network address of the node, and a first disk that is the copy when the VM
    is started.  The last line it prints names the VM. *)
Lemma host_build_spec hw a copy h out h' :
  words_ok hw a copy -> host_build qm bash expand hw a copy h = (inr out, h') ->
  exists n f, vmid_for a h n /\ pv_vms h !! n = None /\ pv_files h !! copy = Some f /\
    built n hw a f h' /\ last out = Some ("VMID=" +++ pretty n)%string.
Proof using promises.
  intros Hw E. unfold host_build in E. rewrite words_ok_plain in E by done. unfold plain_build in E.
  apply script_bind_inr in E as (? & h0 & E0 & E). destruct (pv_files h !! copy) as [f|] eqn:Hf; [|done].
  injection E0 as _ <-. apply script_bind_inr in E as (o & h1 & E1 & E).
  destruct (find_free_spec a h) as (o' & h1' & E1' & Hv1 & Hf1 & Ho). rewrite E1 in E1'. injection E1' as <- <-.
  destruct o as [n|]; [|done]. apply (build_vm_boots n hw a copy f) in E as (Hn & Hb & Hl); [|done|congruence].
  exists n, f. by rewrite <-Hv1 at 1.
Qed.
End Host.

(** ** The number the rebuild reports *)

Lemma substring_all s : forall n, (String.length s <= n)%nat -> String.substring 0 n s = s.
Proof.
  induction s as [|c s IH]; intros [|n] Hn; cbn [String.length] in Hn; [done|done|lia|].
  cbn [String.substring]. by rewrite IH by lia.
Qed.

(** The line the script prints last names the VM, as long as no tool prints
    such a line before. *)
Lemma find_vmid_printed out v :
  last out = Some ("VMID=" +++ v)%string ->
  Forall (fun l => startswith l "VMID=" = false) (removelast out) -> find_vmid out = v.
Proof.
  induction out as [|l out IH]; [done|]. intros Hl Hf. destruct out as [|l' out].
  - injection Hl as ->. cbn [find_vmid]. rewrite startswith_append.
    change (String.substring 0 (S (S (S (S (S (String.length v)))))) v = v). apply substring_all. lia.
  - inversion Hf as [|? ? Hno Hf']; subst. cbn [find_vmid]. rewrite Hno. by apply IH.
Qed.

(** ** The rebuild and the host together *)

Section Rebuilt.
Context {fs : SparseFS} {B : Z} {laws : SparseFSLaws fs B}.
Context {X : Type} {qm : list string -> pve X -> (Z * list string) * pve X} {promises : Qm qm}.
Context {bash : string -> script X (list string)} {expand : string -> list string}.
Variable step : Z.
Hypothesis Hstep : 0 < step.

(** C27: A rebuild that reports success on a host that sees the copy, of a node,
    a storage, a bridge, a network address and a file name without any
    character special to the shell, has started a VM with the hardware of the
    node whose first disk was the copy of its replica, on the number asked for
    or the first free one, which was free, and it reports that number when no
    tool prints a line that begins with [VMID=]. *)
Theorem rebuild_runs_node a e lock_exists hw va copy h :
  words_ok hw va copy ->
  e_script e = script_result (host_build qm bash expand hw va copy h) ->
  (forall f, e_replica e = Some f -> pv_files h !! copy = Some (e_cp e f)) ->
  (rb_main step a e lock_exists).1 = Ok 0 ->
  exists f n h' out, e_replica e = Some f /\ host_build qm bash expand hw va copy h = (inr out, h') /\
    vmid_for va h n /\ pv_vms h !! n = None /\ built (qm := qm) n hw va (e_cp e f) h' /\
    (Forall (fun l => startswith l "VMID=" = false) (removelast out) ->
     rb_vm (rb_main step a e lock_exists).2 = Some (pretty n)).
Proof using Hstep laws promises.
  intros Hw He Hc Hmain. apply (rebuild_success step Hstep) in Hmain as (_ & f & out & Hf & Hb & _ & _ & Hvm & _).
  pose proof (ok_replica _ _ _ Hf) as Hr. pose proof (boot_script _ _ Hb) as Hs. rewrite He in Hs.
  destruct (host_build qm bash expand hw va copy h) as [[rc|out'] h'] eqn:E; [discriminate Hs|]. injection Hs as ->.
  destruct (host_build_spec hw va copy h out h' Hw E) as (n & f' & Hn & Hnone & Hf' & Hbuilt & Hl).
  rewrite (Hc f Hr) in Hf'. injection Hf' as <-. exists f, n, h', out. split_and!; try done.
  intros Hno. by rewrite Hvm, (find_vmid_printed out (pretty n)).
Qed.
End Rebuilt.

(** ** Tools that do what is documented *)

(** The number in a line of digits, with a sign. *)
Definition digits_value (l : list ascii) : Z := fold_left (fun n c => n * 10 + Z.of_N (N_of_ascii c) - 48) l 0.
Definition number_of (s : string) : Z :=
  match s with String "-" s' => - digits_value (chars s') | _ => digits_value (chars s) end.

Definition config_keys : list string :=
  ["name"; "memory"; "cores"; "cpu"; "ostype"; "scsihw"; "agent"; "bios"; "net0"]%string.

Definition config_of (opts : list string) (keys : list string) : gmap string string :=
  foldr (fun key c => match opt_val key opts with Some v => <[key := v]> c | None => c end) ∅ keys.

#[global] Arguments config_of : simpl never.

Definition demo_vm (sub v : string) (opts : list string) (h : pve unit) (c : gmap string string)
    : option (list string * gmap string string * gset Z * gmap string file) :=
  if String.eqb sub "status" then Some ([], c, pv_running h, pv_volumes h)
  else if String.eqb sub "config" then
    Some (match c !! "unused0"%string with Some vol => [("unused0: " +++ vol)%string] | None => [] end,
      c, pv_running h, pv_volumes h)
  else if String.eqb sub "importdisk" then
    match opts with
    | path :: _ =>
        f ← pv_files h !! path; let vol := ("vm-" +++ v +++ "-disk-0")%string in
        Some ([], <["unused0"%string := vol]> c, pv_running h, <[vol := f]> (pv_volumes h))
    | _ => None
    end
  else if String.eqb sub "set" then
    match opts with
    | [_; d; _; b] => Some ([], <["boot"%string := b]> (<["scsi0"%string := d]> (delete "unused0"%string c)), pv_running h, pv_volumes h)
    | _ => None
    end
  else if String.eqb sub "start" then Some ([], c, {[number_of v]} ∪ pv_running h, pv_volumes h)
  else None.

Definition demo_qm (args : list string) (h : pve unit) : (Z * list string) * pve unit :=
  match args with
  | sub :: v :: opts =>
      let n := number_of v in
      match pv_vms h !! n with
      | None =>
          if String.eqb sub "create" then
            ((0, []), mk_pve (<[n := config_of opts config_keys]> (pv_vms h)) (pv_running h ∖ {[n]}) (pv_volumes h) (pv_files h) tt)
          else ((1, []), h)
      | Some c =>
          match demo_vm sub v opts h c with
          | Some (out, c', running, volumes) => ((0, out), mk_pve (<[n := c']> (pv_vms h)) running volumes (pv_files h) tt)
          | None => ((1, []), h)
          end
      end
  | _ => ((1, []), h)
  end.

Lemma digits_value_go x : forall s, (0 < x)%N ->
  digits_value (chars (pretty_N_go x s)) = fold_left (fun n c => n * 10 + Z.of_N (N_of_ascii c) - 48) (chars s) (Z.of_N x).
Proof.
  induction (N.lt_wf_0 x) as [x _ IH]. intros s Hx. rewrite pretty_N_go_step by done.
  pose proof (N.div_mod x 10 ltac:(done)) as E. assert (Hd : (x mod 10 < 10)%N) by (apply N.mod_lt; done).
  assert (Hc : forall d, (d < 10)%N -> Z.of_N (N_of_ascii (pretty_N_char d)) = 48 + Z.of_N d).
  { intros d H. assert (d = 0 \/ d = 1 \/ d = 2 \/ d = 3 \/ d = 4 \/ d = 5 \/ d = 6 \/ d = 7 \/ d = 8 \/ d = 9)%N as Hd' by lia.
    by repeat destruct Hd' as [->|Hd']; [..|subst]. }
  destruct (decide (x / 10 = 0)%N) as [H0|H0].
  - rewrite H0, pretty_N_go_0. change (chars (String ?c s)) with (c :: chars s). unfold digits_value. cbn [fold_left].
    f_equal. rewrite Hc by done. lia.
  - rewrite IH by (try apply N.div_lt; lia). change (chars (String ?c s)) with (c :: chars s). cbn [fold_left].
    f_equal. rewrite Hc by done. lia.
Qed.

Lemma digits_value_pretty (x : N) : digits_value (chars (pretty x)) = Z.of_N x.
Proof. unfold pretty, pretty_N. case_decide as Hx; [by subst|]. rewrite digits_value_go by lia. done. Qed.

Lemma number_of_pretty (n : Z) : number_of (pretty n) = n.
Proof.
  destruct n as [|p|p]; [done| |].
  - change (pretty (Zpos p)) with (pretty (Npos p)). transitivity (digits_value (chars (pretty (Npos p)))); [|apply digits_value_pretty].
    unfold number_of. destruct (pretty (Npos p)) as [|c s] eqn:E; [done|].
    assert (c <> "-"%char) as Hc.
    { intros ->. by apply (pretty_N_go_ne_dash (Npos p) EmptyString s). }
    destruct c as [[] [] [] [] [] [] [] []]; done.
  - change (pretty (Zneg p)) with (String "-" (pretty (Npos p))). unfold number_of. by rewrite digits_value_pretty.
Qed.

Lemma config_of_spec opts keys key :
  config_of opts keys !! key = if bool_decide (key ∈ keys) then opt_val key opts else None.
Proof.
  induction keys as [|k keys IH]; [done|].
  change (config_of opts (k :: keys)) with
    (match opt_val k opts with Some v => <[k := v]> (config_of opts keys) | None => config_of opts keys end).
  destruct (decide (key = k)) as [->|Hne].
  - rewrite bool_decide_eq_true_2 by (apply elem_of_cons; by left). destruct (opt_val k opts) as [v|] eqn:E; [apply lookup_insert_eq|].
    rewrite IH. by case_bool_decide.
  - rewrite (bool_decide_ext _ (key ∈ keys)) by (rewrite elem_of_cons; tauto). rewrite <-IH.
    destruct (opt_val k opts); [by rewrite lookup_insert_ne|done].
Qed.

Lemma plain_app s t : shell_safe (s +++ t)%string = shell_safe s && shell_safe t.
Proof. unfold shell_safe. by rewrite chars_app, forallb_app. Qed.

Lemma plain_pretty_go x : forall s, shell_safe s = true -> shell_safe (pretty_N_go x s) = true.
Proof.
  induction (N.lt_wf_0 x) as [x _ IH]. intros s Hs. destruct (decide (0 < x)%N) as [Hx|Hx].
  - rewrite pretty_N_go_step by done. apply IH; [by apply N.div_lt|].
    change (safe_char (pretty_N_char (x mod 10)) && shell_safe s = true). rewrite Hs, andb_true_r.
    pose proof (N.mod_lt x 10 ltac:(done)) as H. by destruct (x mod 10)%N as [|[[[[]|[]|]|[[]|[]|]|]|[[[]|[]|]|[[]|[]|]|]|]]; try lia.
  - replace x with 0%N by lia. by rewrite pretty_N_go_0.
Qed.

Lemma plain_pretty (n : Z) : shell_safe (pretty n) = true.
Proof.
  assert (HN : forall x : N, shell_safe (pretty x) = true).
  { intros x. unfold pretty, pretty_N. case_decide; [done|]. by apply plain_pretty_go. }
  destruct n as [|p|p]; [done|apply (HN (Npos p))|]. change (pretty (Zneg p)) with ("-" +++ pretty (Npos p))%string.
  by rewrite plain_app, HN.
Qed.

Lemma kept_option_key key v : kept_option key v = true -> key ∈ config_keys.
Proof.
  unfold kept_option. intros [Hk%bool_decide_eq_true|[Hk%String.eqb_eq _]%andb_prop]%orb_prop; [|subst; in_list].
  change config_keys with (take 8 config_keys ++ ["net0"%string]). apply elem_of_app. by left.
Qed.

#[export] Instance demo_qm_promises : Qm demo_qm.
Proof.
  split.
  - intros sub n opts h m _ Hm. unfold demo_qm. rewrite number_of_pretty. destruct (pv_vms h !! n) as [c|].
    + destruct (demo_vm sub (pretty n) opts h c) as [[[[out c'] r] vs]|]; [cbn; by rewrite lookup_insert_ne|done].
    + destruct (String.eqb sub "create"); [cbn; by rewrite lookup_insert_ne|done].
  - intros args h. destruct args as [|sub [|v opts]]; [done..|]. unfold demo_qm. destruct (pv_vms h !! _) as [c|].
    + by destruct (demo_vm sub v opts h c) as [[[[out c'] r] vs]|].
    + by destruct (String.eqb sub "create").
  - intros n h. unfold demo_qm. rewrite number_of_pretty. destruct (pv_vms h !! n) as [c|] eqn:E; cbn.
    + rewrite insert_id by done. split; [|done]. by split.
    + split; [|done]. by split; [|intros [? ?]].
  - intros n opts h. unfold demo_qm. rewrite number_of_pretty. destruct (pv_vms h !! n) as [c|] eqn:E; cbn.
    + by split.
    + split; [by intros [? ?]|]. intros _. split; [apply not_elem_of_difference; right; by apply elem_of_singleton|].
      eexists. split; [apply lookup_insert_eq|].
      split; [by rewrite config_of_spec|]. intros key v Hv Hk. rewrite config_of_spec, Hv.
      by rewrite bool_decide_eq_true_2 by (by eapply kept_option_key).
  - intros n path storage h c. unfold demo_qm. rewrite number_of_pretty. intros E Hu. cbn zeta. rewrite E. unfold demo_vm.
    cbn [String.eqb Ascii.eqb Bool.eqb]. destruct (pv_files h !! path) as [f|]; cbn; [|done]. intros _. split; [done|].
    eexists f, _. split; [done|]. split; [|split; apply lookup_insert_eq].
    split; [|done]. by rewrite !plain_app, plain_pretty.
  - intros n h c vol. unfold demo_qm. rewrite number_of_pretty. intros E Hu [Hne _]. cbn zeta. rewrite E. unfold demo_vm.
    cbn [String.eqb Ascii.eqb Bool.eqb]. rewrite Hu. cbn [fst snd]. rewrite insert_id by done. split; [|done].
    cbn [List.filter]. unfold unused_line. rewrite startswith_append. by destruct vol.
  - intros n vol boot h c. unfold demo_qm. rewrite number_of_pretty. intros E Hu. cbn zeta. rewrite E. cbn. intros _.
    split; [done|]. split; [done|]. apply lookup_insert_eq.
  - intros n h c. unfold demo_qm. rewrite number_of_pretty. intros E. cbn zeta. rewrite E. cbn. intros _.
    rewrite number_of_pretty. split; [apply lookup_insert_eq|set_solver].
Qed.

(** ** On a host *)

#[local] Existing Instance byte_fs.
#[local] Existing Instance byte_fs_laws.

Definition demo_hw : hardware := mk_hardware (Some 8192) None ["bc:24:11:00:00:01"]%string None.
Definition demo_va : vm_args := mk_vm_args "km1" None "local-lvm" "vmbr0".
Definition demo_copy : string := host_copy "/mnt/rkcdp" "/replication/_kvmdr/rkcdp/rebuild/km1-20250918.raw".
Definition demo_replica : file := mk_file 1024 (fun i => if i <? 512 then x00 else Init.Byte.x41) (fun i => 512 <=? i).
Definition demo_vms : gmap Z (gmap string string) := {[9100 := {["name"%string := "km1-old"%string]}]}.
Definition demo_host : pve unit := mk_pve demo_vms {[9100]} ∅ {[demo_copy := demo_replica]} tt.

(** A shell that runs nothing it is not sure of. *)
Definition demo_bash (text : string) : script unit (list string) := exit 1.

Definition demo_built : rb_env :=
  mk_rb_env (e_manifest (demo_env None None)) None 1000 None
    (Some demo_replica) None [] (Some 512) [] id 0 false
    (script_result (host_build demo_qm demo_bash split demo_hw demo_va demo_copy demo_host)) [].

Lemma demo_words_ok : words_ok demo_hw demo_va demo_copy.
Proof.
  split; repeat split; try reflexivity; vm_compute; discriminate.
Defined.

Lemma rebuild_runs_node_witness :
  demo_copy = "/mnt/rkcdp/rebuild/km1-20250918.raw"%string /\
  rb_vm (rb_main 4 (demo_args false FromReplica) demo_built false).2 = Some "9101"%string /\
  exists n h', vmid_for demo_va demo_host n /\ built (qm := demo_qm) n demo_hw demo_va demo_replica h'.
Proof.
  split; [vm_compute; reflexivity|]. split; [vm_compute; reflexivity|].
  destruct (rebuild_runs_node (qm := demo_qm) (bash := demo_bash) (expand := split) 4 ltac:(lia) (demo_args false FromReplica) demo_built false demo_hw demo_va
    demo_copy demo_host demo_words_ok) as (f & n & h' & out & Hf & _ & Hn & _ & Hb & _).
  - reflexivity.
  - intros f [= <-]. reflexivity.
  - vm_compute. reflexivity.
  - injection Hf as <-. exists n, h'. exact (conj Hn Hb).
Defined.

(** The old VM of the node is still there, and nothing is built under its
    number. *)
Lemma host_build_keeps_vms_witness :
  let va := mk_vm_args "km1" (Some 9100) "local-lvm" "vmbr0" in
  let r := host_build demo_qm demo_bash split demo_hw va demo_copy demo_host in
  r.1 = inl 1 /\ pv_vms r.2 !! 9100 = Some {["name"%string := "km1-old"%string]}.
Proof.
  intros va r. split; [vm_compute; reflexivity|].
  apply host_build_keeps_vms; [|vm_compute; reflexivity].
  destruct demo_words_ok as [H1 H2 H3 H4 H5]. split; assumption.
Defined.
