(* ===== verification/Standby.v ===== *)
(** * The standby marker ([mark_standby] of [rkcdp/rkcdp-rebuild.py])

    The copy of a disk is attached to a loop device, its root is mounted and a
    file is written into it; two nested [finally] blocks take the mount and the
    device away again.  The program keeps the function but does not call it.
    The state is the list of what was done; what the commands answer may depend
    on all of it. *)
From Stdlib Require Import Ascii.
From stdpp Require Import pretty.
From S2P Require Import Prelude PyString Target SshScript Files Seed Rebuild.

(** What the function does to the system. *)
Inductive sys_action : Type :=
  | Shell (cmd : string)
  | Makedirs (path : string)
  | WriteFile (path : string)
  | Rmdir (path : string).

(** [s.split("\n")] *)
Fixpoint lines_from (line : list ascii) (s : list ascii) : list string :=
  match s with
  | [] => [of_chars (reverse line)]
  | c :: s' => if Ascii.eqb c "010" then of_chars (reverse line) :: lines_from [] s' else lines_from (c :: line) s'
  end.
Definition split_lines (s : string) : list string := lines_from [] (chars s).

Section Standby.
(** The answer to a command and the outcome of a system call, after what was
    done before. *)
Variable answer : list sys_action -> string -> res reply.
Variable system : list sys_action -> sys_action -> res unit.

Definition shell (cmd : string) (check : bool) : SM (list sys_action) reply := fun t =>
  (run_sh (answer t) cmd check, t ++ [Shell cmd]).
Definition call (x : sys_action) : SM (list sys_action) unit := fun t => (system t x, t ++ [x]).

Definition eligible_row (loop : string) (f : list string) : option string :=
  match f with
  | name :: fstype :: _ =>
      if (bool_decide (fstype = "ext4"%string) || bool_decide (fstype = "xfs"%string)) && bool_decide (name <> loop)
      then Some name else None
  | _ => None
  end.

(** The loop over the lines of [lsblk]. *)
Fixpoint choose_root (loop : string) (rows : list string) (root : option string) (best : Z)
    : SM (list sys_action) (option string) :=
  match rows with
  | [] => mret root
  | ln :: rows' =>
      match eligible_row loop (split ln) with
      | None => choose_root loop rows' root best
      | Some name =>
          r ← shell ("blockdev --getsize64 /dev/" +++ name)%string true;
          sz ← sm_res (match py_int (strip_str (pr_stdout r)) with Some z => Ok z | None => Raise (ValueError 0) end);
          if best <? sz then choose_root loop rows' (Some name) sz else choose_root loop rows' root best
      end
  end.

Definition mount_point (pid : Z) : string := ("/run/rkcdp-mnt-" +++ pretty pid)%string.
Definition marker_dir (mnt : string) : string := os_join mnt "etc/kvmdr".
Definition marker (mnt : string) : string := os_join mnt "etc/kvmdr/rkcdp-rebuilt-standby".

Definition mount_cmd (name mnt : string) : string := ("mount /dev/" +++ name +++ " " +++ mnt)%string.
Definition umount_cmd (mnt : string) : string := ("umount " +++ mnt)%string.
Definition attach_cmd (copy : string) : string := ("losetup -Pf --show " +++ copy)%string.
Definition detach_cmd (loop : string) : string := ("losetup -d " +++ loop)%string.

(** The part under the outer [try]. *)
Definition mark_loop (pid : Z) (copy loop : string) : SM (list sys_action) unit :=
  r ← shell ("lsblk -rno NAME,FSTYPE,SIZE " +++ loop)%string true;
  root ← choose_root (basename loop) (split_lines (pr_stdout r)) None (-1);
  match root with
  | None => sm_res (Raise (RuntimeError ("no ext4/xfs partition in " +++ copy)%string))
  | Some name =>
      let mnt := mount_point pid in
      call (Makedirs mnt);;
      shell (mount_cmd name mnt) true;;
      sm_finally
        (call (Makedirs (marker_dir mnt));; call (WriteFile (marker mnt)))
        (shell (umount_cmd mnt) true;; call (Rmdir mnt))
  end.

Definition mark_standby (pid : Z) (copy : string) : SM (list sys_action) unit :=
  r ← shell (attach_cmd copy) true;
  let loop := strip_str (pr_stdout r) in
  sm_finally (mark_loop pid copy loop) (shell (detach_cmd loop) false;; mret tt).

(** ** What is attached is detached *)

(** An sys_action that neither mounts nor unmounts. *)
Definition quiet (x : sys_action) : Prop := forall name mnt, x <> Shell (mount_cmd name mnt) /\ x <> Shell (umount_cmd mnt).

(** A step that only adds such actions. *)
Definition quietly {A} (m : SM (list sys_action) A) : Prop :=
  forall t, exists mid, (m t).2 = t ++ mid /\ Forall quiet mid.

Lemma quietly_same {A} (m : SM (list sys_action) A) : (forall t, (m t).2 = t) -> quietly m.
Proof using. intros H t. exists []. by rewrite H, app_nil_r. Qed.

Lemma quietly_one {A} (m : SM (list sys_action) A) x : (forall t, (m t).2 = t ++ [x]) -> quiet x -> quietly m.
Proof using. intros H Hx t. exists [x]. split; [apply H|by apply Forall_singleton]. Qed.

Lemma quietly_bind {A C} (m : SM (list sys_action) A) (k : A -> SM (list sys_action) C) :
  quietly m -> (forall a, quietly (k a)) -> quietly (m ≫= k).
Proof using.
  intros Hm Hk t. unfold mbind, SM_bind. destruct (Hm t) as (mid & E & HF). destruct (m t) as [[a|e|] t1]; [|by exists mid..].
  cbn in E. subst t1. destruct (Hk a (t ++ mid)) as (mid' & -> & HF'). exists (mid ++ mid'). split; [by rewrite app_assoc|].
  by apply Forall_app.
Qed.

Lemma quiet_call x : (forall cmd, x <> Shell cmd) -> quiet x.
Proof using. intros H name mnt. by split. Qed.

Lemma choose_root_quiet loop rows : forall root best, quietly (choose_root loop rows root best).
Proof using.
  induction rows as [|ln rows IH]; intros root best; cbn [choose_root]; [by apply quietly_same|].
  destruct (eligible_row loop (split ln)) as [name|]; [|apply IH].
  apply quietly_bind; [apply (quietly_one _ (Shell ("blockdev --getsize64 /dev/" +++ name)%string)); [done|]|].
  { intros x y. by split. }
  intros r. apply quietly_bind; [by apply quietly_same|]. intros sz. destruct (best <? sz); apply IH.
Qed.

(** What [mark_loop] did: nothing was mounted; or the mount failed, and that
    was the end; or the mount was taken away again by the last command, before
    the directory if it succeeded. *)
Definition unmounted (pid : Z) (t mid : list sys_action) : Prop :=
  Forall quiet mid \/
  exists pre name, Forall quiet pre /\
    (mid = pre ++ [Shell (mount_cmd name (mount_point pid))] /\
       (forall r, run_sh (answer (t ++ pre)) (mount_cmd name (mount_point pid)) true <> Ok r) \/
     exists writes rest, Forall quiet writes /\ Forall quiet rest /\
       mid = pre ++ [Shell (mount_cmd name (mount_point pid))] ++ writes ++ [Shell (umount_cmd (mount_point pid))] ++ rest).

Hypothesis answers : forall t cmd, answer t cmd <> Forever.
Hypothesis systems : forall t x, system t x <> Forever.

Lemma sh_answers t cmd check : run_sh (answer t) cmd check <> Forever.
Proof using answers.
  unfold run_sh. pose proof (answers t cmd) as Ha. destruct (answer t cmd) as [r|e|]; [|done|done]. cbn.
  destruct (check && negb (pr_rc r =? 0)); [|done]. by destruct (split cmd).
Qed.

Lemma finally_state {A} (m : SM (list sys_action) A) fin t :
  (m t).1 <> Forever -> (sm_finally m fin t).2 = (fin (m t).2).2.
Proof using. unfold sm_finally. destruct (m t) as [[a|e|] t1]; cbn; by destruct (fin t1) as [[]]. Qed.

Lemma shell_returns cmd check : returns (shell cmd check).
Proof using answers. intros t. apply sh_answers. Qed.
Lemma call_returns x : returns (call x).
Proof using systems. intros t. apply systems. Qed.

Lemma finally_returns {A} (m : SM (list sys_action) A) fin : returns m -> returns fin -> returns (sm_finally m fin).
Proof using.
  intros Hm Hf t. unfold sm_finally. specialize (Hm t). destruct (m t) as [[a|e|] t1]; cbn in *; try done.
  all: specialize (Hf t1); by destruct (fin t1) as [[]].
Qed.

Lemma choose_root_returns loop rows : forall root best, returns (choose_root loop rows root best).
Proof using answers.
  induction rows as [|ln rows IH]; intros root best; cbn [choose_root]; [done|].
  destruct (eligible_row loop (split ln)) as [name|]; [|apply IH].
  apply returns_bind; [apply shell_returns|]. intros r. apply returns_bind; [apply returns_res; by case_match|].
  intros sz. destruct (best <? sz); apply IH.
Qed.

Lemma writes_return pid : returns (call (Makedirs (marker_dir (mount_point pid)));; call (WriteFile (marker (mount_point pid)))).
Proof using systems. apply returns_bind; intros; apply call_returns. Qed.

Lemma unmount_returns pid : returns (shell (umount_cmd (mount_point pid)) true;; call (Rmdir (mount_point pid))).
Proof using answers systems. apply returns_bind; [apply shell_returns|intros; apply call_returns]. Qed.

(** The inner [try]: the unmount comes, whatever the writes did. *)
Lemma marker_written pid t : exists writes rest, Forall quiet writes /\ Forall quiet rest /\
  (sm_finally (call (Makedirs (marker_dir (mount_point pid)));; call (WriteFile (marker (mount_point pid))))
     (shell (umount_cmd (mount_point pid)) true;; call (Rmdir (mount_point pid))) t).2 =
  t ++ writes ++ [Shell (umount_cmd (mount_point pid))] ++ rest.
Proof using answers systems.
  rewrite finally_state.
  2: apply writes_return.
  assert (quietly (call (Makedirs (marker_dir (mount_point pid)));; call (WriteFile (marker (mount_point pid))))) as Hq.
  { apply quietly_bind; [|intros _]; eapply quietly_one; (intros; reflexivity) || by apply quiet_call. }
  destruct (Hq t) as (writes & -> & Hw).
  assert (forall r : reply, quietly (call (Rmdir (mount_point pid)))) as Hr
    by (intros _; eapply quietly_one; [by intros|by apply quiet_call]).
  unfold mbind, SM_bind, shell. destruct (run_sh _ _ true) as [r|e|].
  - destruct (Hr r ((t ++ writes) ++ [Shell (umount_cmd (mount_point pid))])) as (rest & -> & HF).
    exists writes, rest. split_and!; [done|done|]. by rewrite <-!app_assoc.
  - exists writes, []. split_and!; [done..|]. by rewrite <-app_assoc.
  - exists writes, []. split_and!; [done..|]. by rewrite <-app_assoc.
Qed.

Lemma mark_loop_unmounts pid copy loop t :
  exists mid, (mark_loop pid copy loop t).2 = t ++ mid /\ unmounted pid t mid.
Proof using answers systems.
  unfold mark_loop. set (lsblk := ("lsblk -rno NAME,FSTYPE,SIZE " +++ loop)%string).
  set (find := r ← shell lsblk true; choose_root (basename loop) (split_lines (pr_stdout r)) None (-1)).
  assert (quietly find) as Hq.
  { apply quietly_bind; [apply (quietly_one _ (Shell lsblk)); [done|]|intros r; apply choose_root_quiet]. by split. }
  rewrite <-(sm_bind_assoc (shell lsblk true)
    (fun r => choose_root (basename loop) (split_lines (pr_stdout r)) None (-1))).
  fold find. destruct (Hq t) as (pre & E & Hp). revert E. unfold mbind at 1, SM_bind at 1.
  destruct (find t) as [[[name|]|e|] t1]; cbn [snd sm_res]; intros ->; try by (exists pre; split; [done|by left]).
  set (mnt := mount_point pid). set (mk := call (Makedirs mnt)). unfold mbind at 1, SM_bind at 1.
  assert (quiet (Makedirs mnt)) as Hm by by apply quiet_call.
  assert (Forall quiet (pre ++ [Makedirs mnt])) as Hpm by (apply Forall_app; by repeat constructor).
  unfold mk, call at 1. destruct (system (t ++ pre) (Makedirs mnt)) as [[]|e|];
    [|by (exists (pre ++ [Makedirs mnt]); split; [by rewrite app_assoc|by left])..].
  rewrite <-app_assoc. set (t1 := t ++ pre ++ [Makedirs mnt]). unfold mbind at 1, SM_bind at 1, shell at 1.
  destruct (run_sh (answer t1) (mount_cmd name mnt) true) as [r|e|] eqn:Es.
  - destruct (marker_written pid (t1 ++ [Shell (mount_cmd name mnt)])) as (writes & rest & Hw & Hr & E).
    fold mnt in E. rewrite E. eexists. split; [unfold t1; rewrite <-!app_assoc, (app_assoc pre); reflexivity|].
    right. exists (pre ++ [Makedirs mnt]), name. split; [done|]. right. by exists writes, rest.
  - eexists. split; [unfold t1; cbn; rewrite <-app_assoc; reflexivity|].
    right. exists (pre ++ [Makedirs mnt]), name. split; [done|]. left. split; [done|]. intros r. fold mnt t1. by rewrite Es.
  - by destruct (sh_answers t1 (mount_cmd name mnt) true).
Qed.

Lemma mark_loop_returns pid copy loop t : (mark_loop pid copy loop t).1 <> Forever.
Proof using answers systems.
  revert t. change (returns (mark_loop pid copy loop)). unfold mark_loop.
  apply returns_bind; [apply shell_returns|]. intros r. apply returns_bind; [apply choose_root_returns|].
  intros [name|]; [|done]. apply returns_bind; [apply call_returns|]. intros _.
  apply returns_bind; [apply shell_returns|]. intros _. apply finally_returns; [apply writes_return|apply unmount_returns].
Qed.

(** However [mark_standby] ends: unless the copy could not be attached, the
    last thing it does is to detach the loop device, and what it mounted it
    has unmounted before. *)
Theorem mark_standby_cleans pid copy t :
  let attach := Shell (attach_cmd copy) in
  (mark_standby pid copy t).1 <> Forever /\
  match run_sh (answer t) (attach_cmd copy) true with
  | Ok r => exists mid, unmounted pid (t ++ [attach]) mid /\
      (mark_standby pid copy t).2 = t ++ [attach] ++ mid ++ [Shell (detach_cmd (strip_str (pr_stdout r)))]
  | _ => (mark_standby pid copy t).2 = t ++ [attach]
  end.
Proof using answers systems.
  intros attach.
  assert (mark_standby pid copy t = match run_sh (answer t) (attach_cmd copy) true with
    | Ok r => sm_finally (mark_loop pid copy (strip_str (pr_stdout r)))
                (shell (detach_cmd (strip_str (pr_stdout r))) false;; mret tt) (t ++ [attach])
    | Raise e => (Raise e, t ++ [attach])
    | Forever => (Forever, t ++ [attach])
    end) as -> by done.
  destruct (run_sh (answer t) (attach_cmd copy) true) as [r|e|] eqn:Es; [|by split|by destruct (sh_answers t (attach_cmd copy) true)].
  set (loop := strip_str (pr_stdout r)). split.
  - apply finally_returns; [intros t'; apply mark_loop_returns|]. apply returns_bind; [apply shell_returns|done].
  - rewrite finally_state by apply mark_loop_returns.
    destruct (mark_loop_unmounts pid copy loop (t ++ [attach])) as (mid & -> & Hm). exists mid. split; [done|].
    unfold mbind, SM_bind, shell. destruct (run_sh _ (detach_cmd loop) false); cbn; by rewrite <-!app_assoc.
Qed.
(** ** The partition that is marked *)

Section Sizes.
Variable size : string -> Z.
Hypothesis sizes : forall t name, exists r,
  answer t ("blockdev --getsize64 /dev/" +++ name)%string = Ok r /\ pr_rc r = 0 /\
  py_int (strip_str (pr_stdout r)) = Some (size name).

(** A line of [lsblk] with the size of its device. *)
Definition partition_of (ln : string) : option (string * string * Z) :=
  match split ln with name :: fstype :: _ => Some (name, fstype, size name) | _ => None end.

(** With a [blockdev] that answers, the loop is [pick_root] on the lines that
    name a device and a file system. *)
Lemma choose_root_picks loop rows : forall root best t,
  (choose_root loop rows root best t).1 = Ok (pick_root loop (omap partition_of rows) root best).
Proof using sizes.
  induction rows as [|ln rows IH]; intros root best t; cbn [choose_root]; [done|].
  change (omap partition_of (ln :: rows)) with
    (match partition_of ln with Some p => p :: omap partition_of rows | None => omap partition_of rows end).
  unfold partition_of at 1, eligible_row. destruct (split ln) as [|name [|fstype f]]; [apply IH..|]. cbn [pick_root].
  destruct ((bool_decide (fstype = "ext4"%string) || bool_decide (fstype = "xfs"%string)) && bool_decide (name <> loop));
    [|apply IH]. cbn [andb]. unfold mbind, SM_bind, shell, sm_res. destruct (sizes t name) as (r & Ea & Hrc & Hsz).
  unfold run_sh. rewrite Ea. cbn [mbind res_bind]. rewrite Hrc. cbn [Z.eqb negb andb]. rewrite Hsz.
  destruct (best <? size name); apply IH.
Qed.
End Sizes.
End Standby.

(** ** A run *)

Definition mark_answer (t : list sys_action) (cmd : string) : res reply :=
  Ok (if startswith cmd "losetup -Pf" then mk_reply 0 "/dev/loop0
" EmptyString
      else if startswith cmd "lsblk" then mk_reply 0 "loop0
loop0p1 vfat 512M
loop0p2 ext4 8G
" EmptyString
      else if startswith cmd "blockdev" then mk_reply 0 "8589934592" EmptyString else mk_reply 0 EmptyString EmptyString).

(** The disk is full: the marker cannot be written. *)
Definition mark_system (t : list sys_action) (x : sys_action) : res unit :=
  match x with WriteFile _ => Raise OSError | _ => Ok tt end.

Lemma mark_standby_cleans_witness :
  (mark_standby mark_answer mark_system 77 "/copy.raw" []).1 = (Raise OSError : res unit) /\
  exists mid, unmounted mark_answer 77 [Shell "losetup -Pf --show /copy.raw"] mid /\
  (mark_standby mark_answer mark_system 77 "/copy.raw" []).2 =
      [Shell "losetup -Pf --show /copy.raw"] ++ mid ++ [Shell "losetup -d /dev/loop0"].
Proof.
  split; [vm_compute; reflexivity|].
  destruct (mark_standby_cleans mark_answer mark_system) with (pid := 77) (copy := "/copy.raw"%string) (t := @nil sys_action)
    as [_ (mid & Hu & E)].
  - intros t cmd. discriminate.
  - intros t x. destruct x; discriminate.
  - exists mid. exact (conj Hu E).
Defined.

Example mark_standby_run :
  (mark_standby mark_answer (fun _ _ => Ok tt) 77 "/copy.raw" []) =
    (Ok tt, [Shell "losetup -Pf --show /copy.raw"; Shell "lsblk -rno NAME,FSTYPE,SIZE /dev/loop0";
             Shell "blockdev --getsize64 /dev/loop0p2"; Makedirs "/run/rkcdp-mnt-77";
             Shell "mount /dev/loop0p2 /run/rkcdp-mnt-77"; Makedirs "/run/rkcdp-mnt-77/etc/kvmdr";
             WriteFile "/run/rkcdp-mnt-77/etc/kvmdr/rkcdp-rebuilt-standby";
             Shell "umount /run/rkcdp-mnt-77"; Rmdir "/run/rkcdp-mnt-77"; Shell "losetup -d /dev/loop0"]%string).
Proof. vm_compute. reflexivity. Qed.
