(* ===== verification/SeedTool.v ===== *)
(** * Seeding the replica ([rkcdp/rkcdp-seed.py])

    The program that has the hypervisor copy the node's virtual disk into
    [replica.raw], chunk by chunk and resumable, and then tells the daemon.
    What the hosts answer is the environment [seed_env]; [seed.json], the
    manifest and the two images are the state of the steps. *)
From S2P Require Import Prelude Dmcdp Files Seed Replica Apply Consume Daemon CopyThreads MainLoop.

(** ** The hosts that are asked *)

(** A host of [hypervisors.json]. *)
Record hypervisor : Type := mk_hypervisor {
  hv_ip : option string;
  hv_hostname : option string;
}.

(** [h.get("ip") or h.get("hostname")]: an empty string counts as missing. *)
Definition truthy_str (s : option string) : option string :=
  match s with Some EmptyString => None | x => x end.

Definition hv_addr (h : hypervisor) : option string :=
  match truthy_str (hv_ip h) with Some a => Some a | None => truthy_str (hv_hostname h) end.

(** [disk_size]: 0 when the answer cannot be parsed. *)
Definition disk_size (answer : option Z) : Z := default 0 answer.

(** ** Progress and the resume point *)

Inductive seed_phase : Type := Locate | CopyPhase | Drain | DonePhase | FailedPhase.

Record resume_point : Type := mk_resume {
  rs_host : string;
  rs_vmid : Z;
  rs_total : Z;
  rs_chunk : Z;
}.

Record seed_state : Type := mk_seed_state {
  ss_phase : seed_phase;                  (* seed.json *)
  ss_resume : option resume_point;        (* its "resume" entry *)
  ss_replica : option file;               (* replica.raw *)
  ss_seed_raw : option file;              (* seed.raw *)
  ss_manifest : option manifest;          (* manifest.json *)
}.

(** [progress(phase, ...)]: with a chunk the resume point moves, "done" clears
    it. *)
Definition progress_json (ph : seed_phase) (point : option resume_point) : SM seed_state unit :=
  sm_upd (fun s =>
    let r := match point with Some p => Some p | None => ss_resume s end in
    mk_seed_state ph (match ph with DonePhase => None | _ => r end)
      (ss_replica s) (ss_seed_raw s) (ss_manifest s)).

Definition put_replica (f : file) : SM seed_state unit :=
  sm_upd (fun s => mk_seed_state (ss_phase s) (ss_resume s) (Some f) (ss_seed_raw s) (ss_manifest s)).
Definition put_seed_raw (f : file) : SM seed_state unit :=
  sm_upd (fun s => mk_seed_state (ss_phase s) (ss_resume s) (ss_replica s) (Some f) (ss_manifest s)).
Definition put_manifest (m : manifest) : SM seed_state unit :=
  sm_upd (fun s => mk_seed_state (ss_phase s) (ss_resume s) (ss_replica s) (ss_seed_raw s) (Some m)).

(** ** The environment *)

Record seed_env : Type := mk_seed_env {
  se_vm : option (string * Z);            (* the host and the VM, if found *)
  se_vm_disk : res string;                (* vm_disk: the volume, or SystemExit *)
  se_disk : Z -> image;                   (* the disk of the running VM, when chunk i is read *)
  se_size_answer : option Z;              (* what disk_size parses *)
  se_share : bool;                        (* the host sees the journal *)
  se_done : nat;                          (* chunks the host finishes before it stops *)
  se_torn : nat;                          (* bytes it has written of the next one then *)
  se_rc : Z;                              (* how the copy ends *)
  se_report : Z -> bool;                  (* whether chunk i is written to seed.json *)
  se_boot : string;
  se_now : Z;
  se_polls : list (option (node_state * Z) * Z);  (* status.json and the clock, at each poll *)
}.

(** ** The copy *)

Section Copy.
Variable CH : Z.                        (* 64 << 20 *)

(** [dd bs=CH skip=i seek=i count=1 conv=notrunc,sparse]: an all-zero block is
    seeked over, the last block may be short. *)
Definition dd_chunk (disk : image) (total : Z) (f : file) (i : Z) : file :=
  let buf := img_read disk (i * CH) (Z.min CH (total - i * CH)) in
  if py_any buf then pwrite f buf (i * CH) else f.

(** A [dd] that is broken off has written the first bytes of its block. *)
Definition dd_torn (disk : image) (total : Z) (f : file) (i : Z) (n : nat) : file :=
  let buf := img_read disk (i * CH) (Z.min CH (total - i * CH)) in
  if py_any buf then pwrite f (take n buf) (i * CH) else f.

(** [resume.get("host") == host and ...] *)
Definition start_chunk (rs : option resume_point) (host : string) (vmid total : Z) : Z :=
  match rs with
  | Some r =>
      if bool_decide (rs_host r = host) && (rs_vmid r =? vmid) && (rs_total r =? total)
      then rs_chunk r + 1 else 0
  | None => 0
  end.

(** The chunks the host finishes, each written to the replica and reported. *)
Fixpoint copy_loop (e : seed_env) (host : string) (vmid total : Z) (is_ : list Z) (f : file)
    : SM seed_state file :=
  match is_ with
  | [] => mret f
  | i :: is_' =>
      let f' := dd_chunk (se_disk e i) total f i in
      put_replica f';;
      (if se_report e i then progress_json CopyPhase (Some (mk_resume host vmid total i)) else mret tt);;
      copy_loop e host vmid total is_' f'
  end.

(** The indices of [seq start (nchunks - 1)] that are finished. *)
Definition chunk_list (start nchunks : Z) (finished : nat) : list Z :=
  take finished (seqZ start (nchunks - start)).

Definition raise_if (b : bool) (msg : string) : SM seed_state unit :=
  if b then sm_res (Raise (RuntimeError msg)) else mret tt.

(** *** [main] *)

(** Steps 1 and 2: the disk is found and copied. *)
Definition seed_copy (e : seed_env) : SM seed_state Z :=
  progress_json Locate None;;
  hv ← sm_res (match se_vm e with Some hv => Ok hv | None => Raise (RuntimeError "no VM") end);
  let '(host, vmid) := hv in
  vol ← sm_res (se_vm_disk e);
  let total := disk_size (se_size_answer e) in
  raise_if (negb (se_share e)) "share not mounted";;
  progress_json Locate None;;
  existing ← sm_get ss_replica;
  let f := match existing with Some f => f | None => file_create total end in
  put_replica f;;
  let nchunks := (total + CH - 1) / CH in
  rs ← sm_get ss_resume;
  let start := start_chunk rs host vmid total in
  f' ← copy_loop e host vmid total (chunk_list start nchunks (se_done e)) f;
  (let i := start + Z.of_nat (se_done e) in
   if se_rc e =? 0 then mret tt else put_replica (dd_torn (se_disk e i) total f' i (se_torn e)));;
  raise_if (negb (se_rc e =? 0)) "copy failed";;
  progress_json CopyPhase None;;
  mret total.

(** Steps 3 and 4: the seed point.  A manifest that did not exist gets only
    the new entries; the absent ones are empty here. *)
Definition seed_point (e : seed_env) (total : Z) : SM seed_state unit :=
  sr ← sm_get ss_seed_raw;
  (match sr with Some _ => mret tt | None => put_seed_raw (file_create total) end);;
  m ← sm_get ss_manifest;
  let m := default (mk_manifest "" "" 0 0 total None None None None) m in
  put_manifest (mk_manifest (m_node m) (m_device m) (m_gen m) (m_abi m) total (m_base_end_seq m)
    (m_base_time m) (Some (Some (se_boot e), Some (se_now e))) (m_consistent m));;
  progress_json Drain None.

(** Step 5: the polls of [status.json], as many as there are. *)
Fixpoint wait_cdp (polls : list (option (node_state * Z) * Z)) : SM seed_state Z :=
  match polls with
  | [] => sm_res Forever
  | (st, now) :: polls' =>
      match st with
      | Some (CDP, _) => progress_json DonePhase None;; mret 0
      | Some (s, t) =>
          raise_if (300 <? now - t) "daemon stopped";;
          (match s with
           | WAITING | RECOVERING => mret tt
           | _ => progress_json Drain None
           end);;
          wait_cdp polls'
      | None => wait_cdp polls'
      end
  end.

Definition seed_main (e : seed_env) : SM seed_state Z :=
  sm_except
    (total ← seed_copy e; seed_point e total;; wait_cdp (se_polls e))
    (fun _ => progress_json FailedPhase None;; mret 1).
End Copy.

(** ** The image after the copy *)

Section CopySpec.
Variable CH : Z.
Hypothesis HCH : 0 < CH.

Lemma py_any_zero_run disk off n : py_any (img_read disk off n) = false <-> zero_run disk off n.
Proof.
  rewrite <-not_true_iff_false, py_any_true, Exists_exists. unfold img_read. split.
  - intros H i Hi. apply dec_stable. intros Hne. apply H. exists (disk i). split; [|done].
    apply list_elem_of_fmap. exists i. split; [done|]. by apply elem_of_seqZ.
  - intros H (x & (i & -> & Hi)%list_elem_of_fmap & Hne). apply elem_of_seqZ in Hi. by apply Hne, H.
Qed.

(** One block: copied where the disk has it, unless the whole block is zero. *)
Lemma dd_chunk_spec disk total f i x :
  0 <= i -> i * CH < total ->
  f_byte (dd_chunk CH disk total f i) x =
    if decide (x / CH = i /\ x < total /\ ~ zero_block disk CH total x) then disk x else f_byte f x.
Proof.
  intros Hi Ht. unfold dd_chunk. set (n := Z.min CH (total - i * CH)).
  assert (Hx : x / CH = i /\ x < total <-> i * CH <= x < i * CH + n).
  { rewrite (block_of_spec CH HCH). lia. }
  assert (Hz : x / CH = i -> zero_block disk CH total x <-> zero_run disk (i * CH) n).
  { unfold zero_block, block_of. by intros ->. }
  destruct (py_any (img_read disk (i * CH) n)) eqn:Ea.
  - assert (Hnz : ~ zero_run disk (i * CH) n) by (rewrite <-py_any_zero_run; congruence).
    rewrite (pwrite_byte _ _ _ x), img_write_read_decide.
    destruct (decide (i * CH <= x < i * CH + n)) as [D|D].
    + apply Hx in D as [D1 D2]. rewrite decide_True; [done|]. split_and!; [done|done|]. by rewrite Hz.
    + rewrite decide_False; [done|]. intros (D1 & D2 & _). by apply D, Hx.
  - apply py_any_zero_run in Ea. rewrite decide_False; [done|]. intros (D1 & _ & D3). by apply D3, Hz.
Qed.

(** The chunk of a byte is all zero when it is read. *)
Definition reads_zero (disk : Z -> image) (total x : Z) : Prop := zero_block (disk (x / CH)) CH total x.

(** The image [img'] is [img] with the chunks [P] copied over, each as the disk
    was when it was read. *)
Definition chunks_copied (disk : Z -> image) (total : Z) (P : Z -> Prop) (img img' : image) : Prop :=
  forall x, ((P (x / CH) /\ x < total /\ ~ reads_zero disk total x) -> img' x = disk (x / CH) x) /\
            (~ (P (x / CH) /\ x < total /\ ~ reads_zero disk total x) -> img' x = img x).

Lemma dd_torn_spec disk total f i n x :
  f_byte (dd_torn CH disk total f i n) x = f_byte f x \/ (x / CH = i /\ f_byte (dd_torn CH disk total f i n) x = disk x).
Proof.
  unfold dd_torn. set (buf := img_read _ _ _). destruct (py_any buf); [|by left]. rewrite (pwrite_byte _ _ _ x).
  destruct (decide (i * CH <= x < i * CH + blen (take n buf))) as [D|D]; [|left; by apply img_write_out].
  right. rewrite img_write_in by done. assert (Hlen : (Z.to_nat (x - i * CH) < length (take n buf))%nat) by (unfold blen in D; lia).
  rewrite length_take in Hlen. rewrite lookup_take_lt by lia. unfold buf, img_read in *. rewrite list_lookup_fmap.
  rewrite length_fmap, length_seqZ in Hlen. rewrite (proj2 (lookup_seqZ _ _ (Z.to_nat (x - i * CH)) x)) by lia.
  split; [apply (block_of_spec CH HCH); lia|done].
Qed.

Lemma copy_loop_spec e host vmid total is_ : forall f s,
  Forall (fun i => 0 <= i /\ i * CH < total) is_ -> ss_replica s = Some f ->
  exists f' s', copy_loop CH e host vmid total is_ f s = (Ok f', s') /\
    ss_replica s' = Some f' /\ ss_seed_raw s' = ss_seed_raw s /\ ss_manifest s' = ss_manifest s /\
    (ss_resume s' = ss_resume s \/
     exists i, i ∈ is_ /\ ss_resume s' = Some (mk_resume host vmid total i)) /\
    chunks_copied (se_disk e) total (fun i => i ∈ is_) (f_byte f) (f_byte f').
Proof.
  induction is_ as [|i is_ IH]; intros f s HF Hs.
  - exists f, s. split; [done|]. split_and!; try done; [by left|].
    intros x. split; [|done]. by intros [?%elem_of_nil _].
  - apply Forall_cons in HF as [[Hi Ht] HF]. cbn [copy_loop].
    set (f1 := dd_chunk CH (se_disk e i) total f i).
    set (s1 := mk_seed_state (ss_phase s) (ss_resume s) (Some f1) (ss_seed_raw s) (ss_manifest s)).
    rewrite (sm_bind_Ok _ _ _ tt s1) by done.
    set (s2 := if se_report e i
               then mk_seed_state CopyPhase (Some (mk_resume host vmid total i)) (Some f1)
                      (ss_seed_raw s) (ss_manifest s) else s1).
    rewrite (sm_bind_Ok _ _ _ tt s2) by (unfold s2; by destruct (se_report e i)).
    destruct (IH f1 s2 HF) as (f' & s' & E & H1 & H2 & H3 & H4 & H5).
    { unfold s2. by destruct (se_report e i). }
    exists f', s'. split; [done|]. split; [done|].
    assert (Hs2 : ss_seed_raw s2 = ss_seed_raw s /\ ss_manifest s2 = ss_manifest s /\
      (ss_resume s2 = ss_resume s \/ ss_resume s2 = Some (mk_resume host vmid total i))).
    { unfold s2. destruct (se_report e i); split_and!; try done; [by right|by left]. }
    destruct Hs2 as (Hr & Hm & Hres). split_and!; [congruence|congruence| |].
    + destruct H4 as [->|(j & Hj & ->)].
      * destruct Hres as [->| ->]; [by left|right]. exists i. split; [by left|done].
      * right. exists j. split; [by right|done].
    + intros x. destruct (H5 x) as [Hin Hout]. pose proof (dd_chunk_spec (se_disk e i) total f i x Hi Ht) as Hd.
      fold f1 in Hd.
      destruct (decide (x / CH ∈ is_ /\ x < total /\ ~ reads_zero (se_disk e) total x)) as [D|D].
      * rewrite Hin by done. split; [done|]. intros Hn. exfalso. apply Hn.
        destruct D as (? & ? & ?). split_and!; [by right|done|done].
      * rewrite Hout, Hd by done.
        destruct (decide (x / CH = i /\ x < total /\ ~ zero_block (se_disk e i) CH total x)) as [D2|D2].
        -- destruct D2 as (D2 & ? & ?). split; [by rewrite D2|]. intros Hn. exfalso. apply Hn. unfold reads_zero. rewrite D2.
           split_and!; [by left|done|done].
        -- split; [|done]. intros ([Hx|?]%elem_of_cons & ? & Hz); [|by destruct D]. unfold reads_zero in Hz. rewrite Hx in Hz. by destruct D2.
Qed.

(** *** A whole run *)

(** The environment lets the copy start, from a disk of [total] bytes. *)
Record can_copy (e : seed_env) (host : string) (vmid total : Z) : Prop := {
  cc_vm : se_vm e = Some (host, vmid);
  cc_disk : exists vol, se_vm_disk e = Ok vol;
  cc_share : se_share e = true;
  cc_total : disk_size (se_size_answer e) = total;
  cc_pos : 0 <= total;
}.

Definition nchunks (total : Z) : Z := (total + CH - 1) / CH.

Lemma chunk_lt i total : 0 <= i < nchunks total -> i * CH < total.
Proof. unfold nchunks. intros H. pose proof (div_ceil_spec total CH HCH). nia. Qed.

Lemma nchunks_gt x total : 0 <= x < total -> 0 <= x / CH < nchunks total.
Proof.
  intros Hx. unfold nchunks. pose proof (div_ceil_spec total CH HCH).
  split; [apply Z.div_pos; lia|]. apply Z.div_lt_upper_bound; lia.
Qed.

Lemma chunk_list_spec start n finished i :
  i ∈ chunk_list start n finished <-> start <= i < n /\ i < start + Z.of_nat finished.
Proof.
  unfold chunk_list. rewrite elem_of_take. split.
  - intros (k & Hk & Hlt). apply lookup_seqZ in Hk as [-> ?]. lia.
  - intros [H1 H2]. exists (Z.to_nat (i - start)). split; [|lia].
    apply lookup_seqZ. lia.
Qed.

Lemma seed_copy_run e s host vmid total :
  can_copy e host vmid total -> (forall r, ss_resume s = Some r -> 0 <= rs_chunk r + 1) ->
  let start := start_chunk (ss_resume s) host vmid total in
  let f0 := match ss_replica s with Some f => f | None => file_create total end in
  exists f' s', seed_copy CH e s =
      (if decide (se_rc e = 0) then Ok total else Raise (RuntimeError "copy failed"), s') /\
    ss_replica s' = Some f' /\ ss_seed_raw s' = ss_seed_raw s /\ ss_manifest s' = ss_manifest s /\
    (ss_resume s' = ss_resume s \/ exists i, 0 <= i < start + Z.of_nat (se_done e) /\
       ss_resume s' = Some (mk_resume host vmid total i)) /\
    exists fc, chunks_copied (se_disk e) total
      (fun i => start <= i < nchunks total /\ i < start + Z.of_nat (se_done e)) (f_byte f0) (f_byte fc) /\
      (se_rc e = 0 -> f' = fc) /\
      forall x, f_byte f' x = f_byte fc x \/
        (x / CH = start + Z.of_nat (se_done e) /\ f_byte f' x = se_disk e (x / CH) x).
Proof.
  intros [Hv [vol Hd] Hsh Ht Hp] Hres start f0.
  assert (Hst : 0 <= start).
  { unfold start, start_chunk. destruct (ss_resume s) as [r|]; [|done].
    specialize (Hres r eq_refl). destruct (_ && _); lia. }
  unfold seed_copy. set (s1 := mk_seed_state Locate (ss_resume s) (ss_replica s) (ss_seed_raw s) (ss_manifest s)).
  rewrite (sm_bind_Ok _ _ _ tt s1) by done. rewrite Hv, (sm_bind_Ok _ _ _ (host, vmid) s1) by done.
  cbn beta iota. rewrite Hd, (sm_bind_Ok _ _ _ vol s1) by done. rewrite Ht, Hsh.
  rewrite (sm_bind_Ok _ _ _ tt s1) by done. rewrite (sm_bind_Ok _ _ _ tt s1) by done.
  rewrite (sm_bind_Ok _ _ _ (ss_replica s) s1) by done. cbv zeta. fold f0.
  set (s2 := mk_seed_state Locate (ss_resume s) (Some f0) (ss_seed_raw s) (ss_manifest s)).
  rewrite (sm_bind_Ok _ _ _ tt s2) by done. rewrite (sm_bind_Ok _ _ _ (ss_resume s) s2) by done.
  fold start. fold (nchunks total).
  set (l := chunk_list start (nchunks total) (se_done e)).
  destruct (copy_loop_spec e host vmid total l f0 s2) as (fc & s3 & E & H1 & H2 & H3 & H4 & H5); [|done|].
  { apply Forall_forall. intros i Hi%chunk_list_spec. split; [lia|]. apply chunk_lt. lia. }
  rewrite (sm_bind_Ok _ _ _ _ _ E). cbv zeta. set (j := start + Z.of_nat (se_done e)).
  assert (Hl : forall i, i ∈ l <-> start <= i < nchunks total /\ i < j) by (intros i; apply chunk_list_spec).
  assert (Hres' : ss_resume s3 = ss_resume s \/ exists i, 0 <= i < j /\ ss_resume s3 = Some (mk_resume host vmid total i)).
  { destruct H4 as [H4|(i & Hi%Hl & H4)]; [by left|right; exists i; split; [lia|done]]. }
  assert (Hcp : chunks_copied (se_disk e) total (fun i => start <= i < nchunks total /\ i < j) (f_byte f0) (f_byte fc)).
  { intros x. destruct (H5 x) as [Hin Hout]. rewrite Hl in Hin, Hout. by split. }
  destruct (decide (se_rc e = 0)) as [E0|E0].
  - rewrite (sm_bind_Ok _ _ _ tt s3) by (by rewrite E0). rewrite (sm_bind_Ok _ _ _ tt s3) by (by rewrite E0).
    exists fc, (mk_seed_state CopyPhase (ss_resume s3) (ss_replica s3) (ss_seed_raw s3) (ss_manifest s3)).
    split; [done|]. split_and!; try done. exists fc. split_and!; [done|done|]. intros x. by left.
  - set (ft := dd_torn CH (se_disk e j) total fc j (se_torn e)).
    set (s4 := mk_seed_state (ss_phase s3) (ss_resume s3) (Some ft) (ss_seed_raw s3) (ss_manifest s3)).
    rewrite (sm_bind_Ok _ _ _ tt s4) by (by rewrite (proj2 (Z.eqb_neq _ _) E0)).
    exists ft, s4. split. { unfold raise_if. by rewrite (proj2 (Z.eqb_neq _ _) E0). }
    split_and!; try done. exists fc. split_and!; [done|done|]. intros x.
    destruct (dd_torn_spec (se_disk e j) total fc j (se_torn e) x) as [Hx|[Hx1 Hx2]]; [by left|right]. by rewrite Hx1.
Qed.
(** The polls of [status.json]: the daemon stays alive and gets to CDP. *)
Definition reaches_cdp (polls : list (option (node_state * Z) * Z)) : Prop :=
  exists pre t now post, polls = pre ++ (Some (CDP, t), now) :: post /\
    Forall (fun p : option (node_state * Z) * Z =>
      match p.1 with Some (_, t) => p.2 - t <= 300 | None => True end) pre.

Lemma wait_cdp_run polls s :
  reaches_cdp polls ->
  wait_cdp polls s = (Ok 0, mk_seed_state DonePhase None (ss_replica s) (ss_seed_raw s) (ss_manifest s)).
Proof.
  intros (pre & t & now & post & -> & HF). revert s.
  induction HF as [|[st n] pre Hn HF IH]; intros s; [done|].
  destruct st as [[st t']|]; cbn [app wait_cdp]; [|apply IH]. cbn in Hn.
  assert (Hr : raise_if (300 <? n - t') "daemon stopped" s = (Ok tt, s)).
  { unfold raise_if. by rewrite (proj2 (Z.ltb_ge _ _) Hn). }
  destruct st; try done; rewrite (sm_bind_Ok _ _ _ _ _ Hr); cbn match;
    match goal with |- (?m ≫= _) _ = _ =>
      rewrite (sm_bind_Ok m _ s tt (m s).2) by reflexivity; rewrite IH; reflexivity end.
Qed.

(** What a run that reports success has left behind. *)
Record seeded_by (e : seed_env) (total : Z) (s s' : seed_state) : Prop := {
  sb_phase : ss_phase s' = DonePhase;
  sb_resume : ss_resume s' = None;
  sb_manifest : exists m, ss_manifest s' = Some m /\ m_size m = total /\
    m_seeded m = Some (Some (se_boot e), Some (se_now e)) /\
    m_base_end_seq m = match ss_manifest s with Some m0 => m_base_end_seq m0 | None => None end;
  sb_seed_raw : ss_seed_raw s' = Some (default (file_create total) (ss_seed_raw s));
}.

Lemma seed_point_run e total s :
  seed_point e total s =
    (Ok tt,
     let m := default (mk_manifest "" "" 0 0 total None None None None) (ss_manifest s) in
     mk_seed_state Drain (ss_resume s) (ss_replica s) (Some (default (file_create total) (ss_seed_raw s)))
       (Some (mk_manifest (m_node m) (m_device m) (m_gen m) (m_abi m) total (m_base_end_seq m)
         (m_base_time m) (Some (Some (se_boot e), Some (se_now e))) (m_consistent m)))).
Proof. by destruct s as [? ? ? [sf|] ?]. Qed.

Lemma seed_main_success e s host vmid total :
  can_copy e host vmid total -> (forall r, ss_resume s = Some r -> 0 <= rs_chunk r + 1) ->
  se_rc e = 0 -> reaches_cdp (se_polls e) ->
  exists f' s', seed_main CH e s = (Ok 0, s') /\ seeded_by e total s s' /\ ss_replica s' = Some f' /\
    chunks_copied (se_disk e) total
      (fun i => start_chunk (ss_resume s) host vmid total <= i < nchunks total /\
                i < start_chunk (ss_resume s) host vmid total + Z.of_nat (se_done e))
      (f_byte (match ss_replica s with Some f => f | None => file_create total end)) (f_byte f').
Proof.
  intros Hc Hres Hrc Hp.
  destruct (seed_copy_run e s host vmid total Hc Hres) as (f' & s1 & E & Hf & Hsr & Hm & _ & fc & Hi & Hfc & _).
  rewrite decide_True in E by done. specialize (Hfc Hrc) as <-.
  set (m0 := default (mk_manifest "" "" 0 0 total None None None None) (ss_manifest s1)).
  set (m := mk_manifest (m_node m0) (m_device m0) (m_gen m0) (m_abi m0) total (m_base_end_seq m0)
              (m_base_time m0) (Some (Some (se_boot e), Some (se_now e))) (m_consistent m0)).
  set (s2 := mk_seed_state Drain (ss_resume s1) (ss_replica s1)
               (Some (default (file_create total) (ss_seed_raw s1))) (Some m)).
  pose proof (seed_point_run e total s1 : seed_point e total s1 = (Ok tt, s2)) as E2.
  exists f', (mk_seed_state DonePhase None (ss_replica s2) (ss_seed_raw s2) (ss_manifest s2)).
  split; [|split; [|by split]].
  - unfold seed_main, sm_except. rewrite (sm_bind_Ok _ _ _ _ _ E), (sm_bind_Ok _ _ _ _ _ E2).
    by rewrite wait_cdp_run.
  - split; try done.
    + exists m. split_and!; try done. cbn. unfold m0. rewrite Hm. by destruct (ss_manifest s).
    + cbn. by rewrite Hsr.
Qed.

Lemma start_chunk_match host vmid total i :
  start_chunk (Some (mk_resume host vmid total i)) host vmid total = i + 1.
Proof. unfold start_chunk. cbn. rewrite bool_decide_eq_true_2, !Z.eqb_refl by done. done. Qed.

Lemma zero_block_in disk total x : zero_block disk CH total x -> 0 <= x < total -> disk x = x00.
Proof.
  intros Hz Hx. apply Hz. unfold block_of. pose proof (Z.div_mod x CH). pose proof (Z.mod_pos_bound x CH). lia.
Qed.



(** The resume point does not know the boot.  When host, VM and size match,
    the chunks up to the recorded one are not copied again -- whatever
    [replica.raw] holds there, and however long ago -- and the manifest says
    the seed is of this boot. *)
Theorem seed_resume_keeps_old e s host vmid total c :
  can_copy e host vmid total -> ss_resume s = Some (mk_resume host vmid total c) -> 0 <= c ->
  se_rc e = 0 -> reaches_cdp (se_polls e) ->
  exists f' s', seed_main CH e s = (Ok 0, s') /\ seeded_by e total s s' /\ ss_replica s' = Some f' /\
    forall x, x / CH <= c ->
      f_byte f' x = f_byte (match ss_replica s with Some f => f | None => file_create total end) x.
Proof.
  intros Hc Hres Hc0 Hrc Hp.
  destruct (seed_main_success e s host vmid total Hc) as (f' & s' & E & Hs & Hf & Hi); [|done|done|].
  { rewrite Hres. intros r [= <-]. cbn. lia. }
  exists f', s'. split_and!; try done. intros x Hx. destruct (Hi x) as [_ Hout].
  rewrite Hres, start_chunk_match in Hout. apply Hout. lia.
Qed.

(** A disk whose size cannot be read is seeded all the same: nothing is
    copied, and the manifest says the node is seeded. *)
Theorem seed_of_unknown_size e s host vmid :
  se_vm e = Some (host, vmid) -> (exists vol, se_vm_disk e = Ok vol) -> se_share e = true ->
  se_size_answer e = None -> se_rc e = 0 -> ss_resume s = None -> reaches_cdp (se_polls e) ->
  exists f' s', seed_main CH e s = (Ok 0, s') /\ seeded_by e 0 s s' /\ ss_replica s' = Some f' /\
    forall x, f_byte f' x = f_byte (match ss_replica s with Some f => f | None => file_create 0 end) x.
Proof.
  intros Hv Hd Hsh Hsz Hrc Hres Hp.
  assert (Hc : can_copy e host vmid 0) by (split; try done; by rewrite Hsz).
  destruct (seed_main_success e s host vmid 0 Hc) as (f' & s' & E & Hs & Hf & Hi);
    [by rewrite Hres|done|done|].
  exists f', s'. split_and!; try done. intros x. destruct (Hi x) as [_ Hout]. rewrite Hres in Hout.
  apply Hout. cbn. intros [[[H1 H2] _] _].
  assert (nchunks 0 = 0) as E0 by (unfold nchunks; apply Z.div_small; lia). lia.
Qed.
End CopySpec.

(** ** Concrete runs *)

Definition demo_seed_env (finished : nat) (rc : Z) (size : option Z) : seed_env :=
  mk_seed_env (Some ("10.0.0.1"%string, 101)) (Ok "local:vm-101-disk-0"%string) (fun _ => demo_disk) size true
    finished 100 rc (fun _ => true) "b1" 50
    [(None, 51); (Some (WAITING, 52), 53); (Some (RECOVERING, 54), 55); (Some (CDP, 57), 57)].

Definition no_seed : seed_state := mk_seed_state Locate None None None None.

Lemma demo_can_copy finished rc : can_copy (demo_seed_env finished rc (Some 1024)) "10.0.0.1" 101 1024.
Proof. split; try done. by eexists. Qed.

Lemma demo_reaches finished rc size : reaches_cdp (se_polls (demo_seed_env finished rc size)).
Proof.
  exists [(None, 51); (Some (WAITING, 52), 53); (Some (RECOVERING, 54), 55)], 57, 57, [].
  split; [done|]. repeat constructor; cbn; lia.
Qed.



(** The guest clears a chunk between the two runs, the first of which had
    copied it and not reported it: [conv=sparse] leaves what was there. *)
Example seed_resume_stale :
  let env disk finished rc := mk_seed_env (Some ("h"%string, 101)) (Ok "vol"%string) (fun _ => disk) (Some 512) true
    finished 0 rc (fun _ => false) "b1" 50 [(Some (CDP, 57), 57)] in
  let s1 := (seed_main 256 (env (fun _ => Byte.x41) 1%nat 255) no_seed).2 in
  let r := seed_main 256 (env (fun _ => x00) 2%nat 0) s1 in
  r.1 = Ok 0 /\ (fun f => f_byte f 3) <$> ss_replica r.2 = Some Byte.x41.
Proof. split; vm_compute; reflexivity. Qed.

(** The first half of the disk was copied in another boot. *)
Lemma seed_resume_keeps_old_witness :
  let old := mk_seed_state FailedPhase (Some (mk_resume "10.0.0.1" 101 1024 1))
               (Some (mk_file 1024 (fun _ => Byte.x41) (fun _ => true))) None None in
  exists f' s', seed_main 256 (demo_seed_env 4 0 (Some 1024)) old = (Ok 0, s') /\
    ss_replica s' = Some f' /\ f_byte f' 3 = Byte.x41 /\ demo_disk 3 = x00.
Proof.
  intros old.
  destruct (seed_resume_keeps_old 256 ltac:(lia) (demo_seed_env 4 0 (Some 1024)) old "10.0.0.1" 101 1024 1)
    as (f' & s' & E & _ & Hf & Hi).
  - apply demo_can_copy.
  - done.
  - lia.
  - done.
  - apply demo_reaches.
  - exists f', s'. split; [exact E|]. split; [exact Hf|]. split; [|reflexivity].
    rewrite Hi; [reflexivity|]. vm_compute. discriminate.
Defined.

Lemma seed_of_unknown_size_witness :
  exists f' s', seed_main 256 (demo_seed_env 4 0 None) no_seed = (Ok 0, s') /\
    ss_replica s' = Some f' /\ forall x, f_byte f' x = x00.
Proof.
  destruct (seed_of_unknown_size 256 ltac:(lia) (demo_seed_env 4 0 None) no_seed "10.0.0.1" 101)
    as (f' & s' & E & _ & Hf & Hi).
  - done.
  - by eexists.
  - done.
  - done.
  - done.
  - done.
  - apply demo_reaches.
  - exists f', s'. exact (conj E (conj Hf Hi)).
Defined.
