(* ===== verification/Locate.v ===== *)
(** * Locating the virtual machine ([rkcdp-seed.py])

    How the seeding program finds the node's directory and the VM it runs in:
    [my_macs], the answers of [grep], [qm] and [blockdev] that [find_vm],
    [vm_disk] and [disk_size] parse, and the start of [main].  What a host
    answers over ssh is an argument. *)
From Stdlib Require Import Ascii.
From stdpp Require Import pretty.
From S2P Require Import Prelude PyString Target Dmcdp Files Seed Replica Apply Consume Daemon CopyThreads MainLoop SeedTool.

(** ** The node's own addresses ([my_macs]) *)

(** The interfaces under [/sys/class/net]; an address that cannot be read is
    [None]. *)
Fixpoint my_macs (ifs : list (string * option string)) : list string :=
  match ifs with
  | [] => []
  | (n, addr) :: ifs' =>
      let macs := my_macs ifs' in
      if bool_decide (n = "lo"%string) then macs
      else match addr with
           | Some a =>
               let m := lower (strip_str a) in
               if bool_decide (m ∈ macs) then macs else m :: macs
           | None => macs
           end
  end.

(** ** Parsing the answers *)

(** Decimal digits at the start of a text, and what follows. *)
Fixpoint read_digits (acc : Z) (s : list ascii) : Z * list ascii :=
  match s with
  | c :: s' => match digit_Z c with Some d => read_digits (10 * acc + d) s' | None => (acc, s) end
  | [] => (acc, [])
  end.

(** [(\d+)\.conf] at the start of a text *)
Definition vmid_at (s : list ascii) : option Z :=
  match s with
  | c :: _ =>
      match digit_Z c with
      | Some _ =>
          let '(n, rest) := read_digits 0 s in
          if startswith (of_chars rest) ".conf" then Some n else None
      | None => None
      end
  | [] => None
  end.

(** [re.search(r"/(\d+)\.conf", out)] *)
Fixpoint search_vmid (s : list ascii) : option Z :=
  match s with
  | [] => None
  | c :: s' =>
      if is_slash c then match vmid_at s' with Some n => Some n | None => search_vmid s' end
      else search_vmid s'
  end.

(** ** Finding the virtual machine ([find_vm]) *)

(** [re.escape] of Python 3.7 and later *)
Definition re_special (c : ascii) : bool :=
  bool_decide (c ∈ chars "()[]{}?*+-|^$\.&~# ") || ((9 <=? nat_of_ascii c) && (nat_of_ascii c <=? 13))%nat.

Definition re_escape (s : string) : string :=
  of_chars (concat ((fun c => if re_special c then ["\"%char; c] else [c]) <$> chars s)).

Definition mac_pattern (macs : list string) : string := String.concat "|" (re_escape <$> macs).

Definition find_script (macs : list string) : string :=
  "grep -liE '" +++ mac_pattern macs +++ "' /etc/pve/qemu-server/*.conf 2>/dev/null; true".

Section FindVm.
(** The output of [ssh(ip, script)]; nothing for a host that does not
    answer. *)
Variable ssh_out : string -> string -> string.

Fixpoint find_vm (hosts : list hypervisor) (macs : list string) : option (string * Z) :=
  match hosts with
  | [] => None
  | h :: hosts' =>
      match hv_addr h with
      | None => find_vm hosts' macs
      | Some ip =>
          match search_vmid (chars (ssh_out ip (find_script macs))) with
          | Some v => Some (ip, v)
          | None => find_vm hosts' macs
          end
      end
  end.
End FindVm.

(** [[^,\s]+] at the start of a text *)
Fixpoint volume_at (s : list ascii) : list ascii :=
  match s with
  | c :: s' => if Ascii.eqb c "," || is_space c then [] else c :: volume_at s'
  | [] => []
  end.

(** [re.search(r":\s*([^,\s]+)", out)] *)
Fixpoint search_volume (s : list ascii) : option string :=
  match s with
  | [] => None
  | c :: s' =>
      if Ascii.eqb c ":" then
        match volume_at (lstrip s') with [] => search_volume s' | v => Some (of_chars v) end
      else search_volume s'
  end.

(** The result of [ssh]. *)
Record answer : Type := mk_answer { an_rc : Z; an_out : string; an_err : string }.

Section Hosts.
Variable ssh : string -> string -> answer.

Definition vm_disk (host : string) (vmid : Z) : res (string * string) :=
  let r := ssh host ("qm config " +++ pretty vmid +++ " | grep -E '^(scsi|virtio|sata)0:' | head -1") in
  match search_volume (chars (an_out r)) with
  | None =>
      let out := strip_str (an_out r) in
      Raise (SystemExit ("cannot find boot disk of VM " +++ pretty vmid +++ " on " +++ host +++ ": " +++
        (if bool_decide (out = ""%string) then strip_str (an_err r) else out)))
  | Some vol =>
      let r := ssh host ("pvesm path " +++ vol) in
      let path := strip_str (an_out r) in
      if negb (an_rc r =? 0) || bool_decide (path = ""%string)
      then Raise (SystemExit ("pvesm path " +++ vol +++ " failed on " +++ host +++ ": " +++ strip_str (an_err r)))
      else Ok (vol, path)
  end.

(** [int(r.stdout.split()[0])], 0 where that raises *)
Definition size_answer (out : string) : option Z :=
  match split out with w :: _ => py_int w | [] => None end.

Definition disk_size_of (host path : string) : Z :=
  default 0 (size_answer (an_out (ssh host
    ("blockdev --getsize64 " +++ path +++ " 2>/dev/null || stat -c %s " +++ path)))).
End Hosts.

(** ** The start of [main] *)

Record seed_args : Type := mk_seed_args {
  sa_journal : option string;
  sa_host : option string;
  sa_vmid : option Z;
}.

(** [load_json(CONF, {}) or {}] over the two built-in values *)
Definition seed_conf (hostname : string) (f : conf_file) : conf :=
  match f with Object c => c | NoFile | NotJson => ∅ end ∪
  list_to_map [("journal", JStr "/replication/_kvmdr/rkcdp"); ("node", JStr hostname)]%string.

Definition truthy_jstr (v : jval) : option string :=
  match v with JStr s => truthy_str (Some s) | _ => None end.

(** The node directory [nd]; settings that are no strings raise. *)
Definition seed_dir (a : seed_args) (hostname : string) (f : conf_file) : res string :=
  let c := seed_conf hostname f in
  journal ← match truthy_str (sa_journal a) with Some j => Ok j | None => conf_str c "journal" end;
  node ← (if jtruthy (conf_get c "node") then conf_str c "node" else Ok hostname);
  Ok (os_join journal node).

(** The host and the VM: both arguments, or a search; VM 0 is none. *)
Definition seed_target (a : seed_args) (ssh_out : string -> string -> string) (macs : list string) (hosts : list hypervisor)
    : option (string * Z) :=
  let found := fun hs => match find_vm ssh_out hs macs with Some (h, v) => if v =? 0 then None else Some (h, v) | None => None end in
  match truthy_str (sa_host a), sa_vmid a with
  | Some h, Some v => if v =? 0 then found [mk_hypervisor (Some h) None] else Some (h, v)
  | Some h, None => found [mk_hypervisor (Some h) None]
  | None, _ => found hosts
  end.

(** ** Numbers in answers *)

Lemma digit_pretty d : (d < 10)%N -> digit_Z (pretty_N_char d) = Some (Z.of_N d).
Proof.
  intros H. assert (d = 0 \/ d = 1 \/ d = 2 \/ d = 3 \/ d = 4 \/ d = 5 \/ d = 6 \/ d = 7 \/ d = 8 \/ d = 9)%N as Hd by lia.
  by repeat destruct Hd as [->|Hd]; [..|subst].
Qed.

Lemma read_digits_go x : forall s r, (0 < x)%N ->
  read_digits 0 (chars (pretty_N_go x s) ++ r) = read_digits (Z.of_N x) (chars s ++ r).
Proof.
  induction (N.lt_wf_0 x) as [x _ IH]. intros s r Hx. rewrite pretty_N_go_step by done.
  assert (Hd : (x mod 10 < 10)%N) by (apply N.mod_lt; done).
  pose proof (N.div_mod x 10 ltac:(done)) as E.
  destruct (decide (x / 10 = 0)%N) as [H0|H0].
  - rewrite H0, pretty_N_go_0. change (chars (String ?c s)) with (c :: chars s). cbn [app read_digits].
    rewrite digit_pretty by done. f_equal. lia.
  - rewrite IH by (try apply N.div_lt; lia). change (chars (String ?c s)) with (c :: chars s). cbn [app read_digits].
    rewrite digit_pretty by done. f_equal. lia.
Qed.

(** A number that is printed, and read again. *)
Lemma read_digits_pretty n r : 0 < n -> read_digits 0 (chars (pretty n) ++ r) = read_digits n r.
Proof.
  destruct n as [|p|p]; [lia| |lia]. intros _. change (pretty (Zpos p)) with (pretty (Npos p)).
  unfold pretty, pretty_N. rewrite decide_False by done. by rewrite read_digits_go.
Qed.

Lemma pretty_first n : 0 < n -> exists c s d, chars (pretty n) = c :: s /\ digit_Z c = Some d.
Proof.
  intros Hn. pose proof (read_digits_pretty n [] Hn) as H. rewrite app_nil_r in H.
  destruct (chars (pretty n)) as [|c s]; cbn in H; [injection H; lia|].
  destruct (digit_Z c) as [d|] eqn:E; [by exists c, s, d|]. injection H. lia.
Qed.

(** The name of a configuration file, in the answer of [grep]. *)
Definition conf_line (v : Z) : string :=
  ("/etc/pve/qemu-server/" +++ pretty v +++ ".conf" +++ String "010" "")%string.

Lemma search_vmid_line v rest : 0 < v -> search_vmid (chars (conf_line v) ++ rest) = Some v.
Proof.
  intros Hv. unfold conf_line. rewrite !chars_app, <-!app_assoc.
  set (tl := chars ".conf" ++ chars (String "010" "") ++ rest).
  assert (Hat : vmid_at (chars (pretty v) ++ tl) = Some v).
  { destruct (pretty_first v Hv) as (c & s & d & E & Ed). unfold vmid_at. rewrite E at 1. cbn [app]. rewrite Ed.
    rewrite read_digits_pretty by done. assert (read_digits v tl = (v, tl)) as -> by done.
    unfold tl. rewrite of_chars_app, (String.string_of_list_ascii_of_string ".conf"). by rewrite startswith_append. }
  set (x := chars (pretty v) ++ tl) in *. clearbody x. cbn. by rewrite Hat.
Qed.

(** ** Properties *)

(** What the manual of [grep] says of the patterns that are used here: in an
    extended expression a backslash before a special character stands for
    the character, a character that is not special stands for itself, [|]
    joins alternatives, and the empty expression matches the empty string.
    [ere_literals] gives the alternatives, when all of them are texts. *)
Definition ere_special (c : ascii) : bool := bool_decide (c ∈ chars ".[\()*+?{|^$").

Fixpoint ere_literals (word : list ascii) (s : list ascii) : option (list string) :=
  match s with
  | [] => Some [of_chars (reverse word)]
  | c :: s' =>
      if Ascii.eqb c "\" then
        match s' with
        | d :: s'' => if ere_special d then ere_literals (d :: word) s'' else None
        | [] => None
        end
      else if Ascii.eqb c "|" then cons (of_chars (reverse word)) <$> ere_literals [] s'
      else if ere_special c then None else ere_literals (c :: word) s'
  end.

Definition occurs (m line : string) : bool := bool_decide (String.index 0 m line <> None).

(** A file, line by line, has a line with one of the texts; [-i] ignores
    case. *)
Definition has_line (ignore_case : bool) (texts : list string) (lines : list string) : bool :=
  let f := if ignore_case then lower else fun s => s in
  existsb (fun l => existsb (fun m => occurs (f m) (f l)) texts) lines.

(** What can stand between quotes, and in an address: no quote and no line
    feed, and nothing that Python escapes and [grep] does not. *)
Definition quotable (c : ascii) : bool := negb (Ascii.eqb c "'") && negb (Ascii.eqb c "010").
Definition address_char (c : ascii) : bool := quotable c && (negb (re_special c) || ere_special c).

Definition address (m : string) : Prop := m <> ""%string /\ Forall (fun c => address_char c = true) (chars m).

Lemma ere_special_re c : ere_special c = true -> re_special c = true.
Proof. destruct c as [[] [] [] [] [] [] [] []]; vm_compute; congruence. Qed.

Lemma ere_escaped m word rest : Forall (fun c => address_char c = true) (chars m) ->
  ere_literals word (chars (re_escape m) ++ rest) = ere_literals (reverse (chars m) ++ word) rest.
Proof.
  unfold re_escape. rewrite String.list_ascii_of_string_of_list_ascii. generalize (chars m). intros l Hl. revert word.
  induction Hl as [|c l Hc _ IH]; intros word; [done|].
  cbn [fmap list_fmap concat]. rewrite reverse_cons, <-!app_assoc. cbn [app]. rewrite <-IH.
  unfold address_char in Hc. apply andb_true_iff in Hc as [_ Hc].
  destruct (re_special c) eqn:R; cbn [app ere_literals].
  - change (Ascii.eqb "\" "\") with true. cbn iota. cbn in Hc. by rewrite Hc.
  - assert (ere_special c = false) as S by (destruct (ere_special c) eqn:S; [apply ere_special_re in S; congruence|done]).
    assert (Ascii.eqb c "\" = false) as -> by (apply Ascii.eqb_neq; intros ->; discriminate).
    assert (Ascii.eqb c "|" = false) as -> by (apply Ascii.eqb_neq; intros ->; discriminate).
    by rewrite S.
Qed.

(** The pattern stands for the addresses. *)
Lemma mac_pattern_literals macs :
  macs <> [] -> Forall (fun m => Forall (fun c => address_char c = true) (chars m)) macs ->
  ere_literals [] (chars (mac_pattern macs)) = Some macs.
Proof.
  intros Hne Hm. unfold mac_pattern. induction Hm as [|m macs Hm Hms IH]; [done|]. clear Hne.
  assert (E : of_chars (reverse (reverse (chars m) ++ [])) = m)
    by (rewrite app_nil_r, reverse_involutive; apply String.string_of_list_ascii_of_string).
  destruct macs as [|m' macs].
  - cbn [fmap list_fmap String.concat]. rewrite <-(app_nil_r (chars (re_escape m))), ere_escaped by done. cbn [ere_literals]. by rewrite E.
  - cbn [fmap list_fmap String.concat] in *. rewrite !chars_app, ere_escaped by done.
    change (chars "|") with ["|"%char]. cbn [app]. cbn [ere_literals]. change (Ascii.eqb "|" "\") with false. change (Ascii.eqb "|" "|") with true.
    cbn iota. rewrite E, IH by done. done.
Qed.

Lemma quotable_escape m : Forall (fun c => address_char c = true) (chars m) -> Forall (fun c => quotable c = true) (chars (re_escape m)).
Proof.
  unfold re_escape. rewrite String.list_ascii_of_string_of_list_ascii. induction 1 as [|c l Hc _ IH]; [done|].
  cbn [fmap list_fmap concat]. apply Forall_app. split; [|done]. apply andb_true_iff in Hc as [Hc _].
  destruct (re_special c); repeat constructor; done.
Qed.

Lemma quotable_pattern macs :
  Forall (fun m => Forall (fun c => address_char c = true) (chars m)) macs -> Forall (fun c => quotable c = true) (chars (mac_pattern macs)).
Proof.
  unfold mac_pattern. induction 1 as [|m macs Hm Hms IH]; [done|]. apply quotable_escape in Hm.
  destruct macs as [|m' macs]; [done|]. cbn [fmap list_fmap String.concat] in *. rewrite !chars_app.
  apply Forall_app. split; [done|]. apply Forall_app. split; [by repeat constructor|done].
Qed.

Section Search.
(** The VM configurations of a host, in the order of their names, and what
    a command prints there. *)
Variable configs : string -> list (Z * list string).
Variable ssh_out : string -> string -> string.

(** The files with such a line. *)
Definition listed (ignore_case : bool) (texts : list string) (ip : string) : list Z :=
  fst <$> filter (fun c => has_line ignore_case texts c.2 = true) (configs ip).

(** The VMs whose configuration has one of the addresses in it, in
    whatever case. *)
Definition candidates (macs : list string) (ip : string) : list Z := listed true macs ip.

(** [grep -l] prints the names of the files with a line that matches. *)
Hypothesis grep_documented : forall ip (ignore_case : bool) pat texts,
  Forall (fun c => quotable c = true) (chars pat) -> ere_literals [] (chars pat) = Some texts ->
  chars (ssh_out ip ("grep -l" +++ (if ignore_case then "i" else "") +++ "E '" +++ pat +++
      "' /etc/pve/qemu-server/*.conf 2>/dev/null; true")) =
    concat ((fun v => chars (conf_line v)) <$> listed ignore_case texts ip).
Hypothesis vmids : forall ip, Forall (fun c => 0 < c.1) (configs ip).

Lemma search_vmid_first texts ip : search_vmid (concat ((fun v => chars (conf_line v)) <$> listed true texts ip)) = head (listed true texts ip).
Proof.
  pose proof (vmids ip) as Hv. unfold listed.
  induction Hv as [|[v content] cs Hp _ IH]; [done|]. rewrite filter_cons. case_decide; [|exact IH].
  cbn [fmap list_fmap fst concat head]. by apply search_vmid_line.
Qed.

Lemma find_vm_texts macs texts hosts :
  Forall (fun c => quotable c = true) (chars (mac_pattern macs)) -> ere_literals [] (chars (mac_pattern macs)) = Some texts ->
  find_vm ssh_out hosts macs = head (h ← hosts; match hv_addr h with Some ip => pair ip <$> listed true texts ip | None => [] end).
Proof.
  intros Hq He. induction hosts as [|h hosts IH]; [done|]. cbn [find_vm mbind list_bind]. rewrite IH.
  destruct (hv_addr h) as [ip|]; [|done].
  pose proof (grep_documented ip true (mac_pattern macs) texts Hq He) as G.
  change (chars (ssh_out ip (find_script macs)) = concat ((fun v => chars (conf_line v)) <$> listed true texts ip)) in G.
  rewrite G, search_vmid_first.
  destruct (listed true texts ip) as [|v vs]; done.
Qed.

(** C16: the VM that is found.  For addresses that are not empty, and at
    least one of them, it is the first one, host by host in the order of the
    list and by name on each, whose configuration has one of the addresses in
    it, in upper or lower case; none is found exactly when there is none. *)
Theorem find_vm_located macs hosts :
  macs <> [] -> Forall address macs ->
  find_vm ssh_out hosts macs =
    head (h ← hosts; match hv_addr h with Some ip => pair ip <$> candidates macs ip | None => [] end).
Proof.
  intros Hne Ha. assert (Forall (fun m => Forall (fun c => address_char c = true) (chars m)) macs) as Hc
    by (eapply Forall_impl; [exact Ha|]; by intros m [_ ?]).
  apply find_vm_texts; [by apply quotable_pattern|by apply mac_pattern_literals].
Qed.

(** Without an address the pattern is empty, and the first VM with a
    configuration that is not empty is found, whichever it is. *)
Theorem find_vm_no_address hosts :
  find_vm ssh_out hosts [] =
    head (h ← hosts; match hv_addr h with
                     | Some ip => pair ip <$> (fst <$> filter (fun c => bool_decide (c.2 <> []) = true) (configs ip))
                     | None => [] end).
Proof.
  rewrite (find_vm_texts [] [""%string]) by (vm_compute; done || constructor). f_equal.
  apply list_bind_ext; [|done]. intros h. destruct (hv_addr h) as [ip|]; [|done]. f_equal. unfold listed. f_equal.
  apply list_filter_iff. intros [v [|l ls]]; cbn; [done|]. by destruct l.
Qed.
End Search.

(** The volume of a disk line of [qm config]. *)
Lemma volume_at_spec v r : Forall (fun c => Ascii.eqb c "," || is_space c = false) v ->
  (match r with c :: _ => Ascii.eqb c "," || is_space c = true | [] => True end) -> volume_at (v ++ r) = v.
Proof.
  intros Hv Hr. induction Hv as [|c v Hc _ IH]; cbn.
  - destruct r as [|c r]; [done|]. cbn. by rewrite Hr.
  - by rewrite Hc, IH.
Qed.

(** The disk of a VM.  From the line [qm config] prints for it, bus and
    number, the volume and its options, [vm_disk] takes the volume, and the
    path [pvesm] gives for it; without a line, or when [pvesm] fails, the
    program exits. *)
Theorem vm_disk_outcome ssh host vmid :
  let config := ssh host ("qm config " +++ pretty vmid +++ " | grep -E '^(scsi|virtio|sata)0:' | head -1")%string in
  (forall bus vol opts, an_out config = (bus +++ ": " +++ vol +++ "," +++ opts)%string ->
     Forall (fun c => c <> ":"%char) (chars bus) -> vol <> ""%string ->
     Forall (fun c => Ascii.eqb c "," || is_space c = false) (chars vol) ->
     let r := ssh host ("pvesm path " +++ vol)%string in
     (an_rc r = 0 /\ strip_str (an_out r) <> ""%string -> vm_disk ssh host vmid = Ok (vol, strip_str (an_out r))) /\
     (an_rc r <> 0 -> exists msg, vm_disk ssh host vmid = Raise (SystemExit msg))) /\
  (an_out config = ""%string -> exists msg, vm_disk ssh host vmid = Raise (SystemExit msg)).
Proof.
  intros config. split.
  - intros bus vol opts E Hb Hne Hvol r.
    assert (Hs : search_volume (chars (an_out config)) = Some vol).
    { rewrite E, !chars_app. clear E. induction Hb as [|c b Hc _ IH].
      - cbn [app chars]. change (chars ": ") with [":"; " "]%char. cbn [app search_volume]. change (Ascii.eqb ":" ":") with true.
        cbn iota. change (lstrip (" "%char :: ?s)) with (lstrip s).
        assert (Hl : forall x, lstrip (chars vol ++ x) = chars vol ++ x).
        { intros x. apply lstrip_id. destruct vol as [|c v]; [done|]. cbn in Hvol |- *.
          apply Forall_cons in Hvol as [H _]. by apply orb_false_iff in H as [_ ?]. }
        rewrite Hl, volume_at_spec by done. destruct (chars vol) as [|c v] eqn:Ev.
        + destruct vol; done.
        + rewrite <-Ev. by rewrite String.string_of_list_ascii_of_string.
      - cbn [app search_volume]. by rewrite (proj2 (Ascii.eqb_neq c ":") Hc). }
    unfold vm_disk. fold config. rewrite Hs. fold r. split.
    + intros [-> Hp]. cbn [Z.eqb negb orb]. by rewrite bool_decide_eq_false_2.
    + intros Hrc. rewrite (proj2 (Z.eqb_neq _ _) Hrc). by eexists.
  - intros E. unfold vm_disk. fold config. rewrite E. by eexists.
Qed.

(** The daemon and the seeding program work in the same directory, when
    they read the same configuration, the node has a name and no other journal
    is given on the command line. *)
Theorem same_node_dir float_str hostname f c st a node :
  load_conf hostname f = Ok c -> Daemon_settings float_str c = Ok st ->
  conf_str c "node" = Ok node -> node <> ""%string -> truthy_str (sa_journal a) = None ->
  seed_dir a hostname f = Ok (se_root st).
Proof.
  intros Hc Hst Hn Hne Ha. unfold seed_dir. rewrite Ha.
  assert (Hj : conf_str (seed_conf hostname f) "journal" = conf_str c "journal" /\
               conf_str (seed_conf hostname f) "node" = conf_str c "node").
  { unfold conf_str, seed_conf. destruct f as [| |o]; [|done|]; injection Hc as <-; rewrite !lookup_union; done. }
  destruct Hj as [-> Ej]. unfold Daemon_settings in Hst. rewrite Hn in *. res_inv. cbn [se_root].
  match goal with H : conf_str c "journal" = Ok _ |- _ => rewrite H end.
  assert (jtruthy (conf_get (seed_conf hostname f) "node") = true) as ->.
  { unfold conf_get. unfold conf_str in Ej. destruct (seed_conf hostname f !! "node"%string) as [[]|]; try discriminate Ej.
    injection Ej as ->. cbn. by rewrite bool_decide_eq_false_2. }
  rewrite Ej. done.
Qed.

(** ** Concrete cases *)

(** [grep] over given configurations. *)
Fixpoint until_quote (s : list ascii) : list ascii :=
  match s with c :: s' => if Ascii.eqb c "'" then [] else c :: until_quote s' | [] => [] end.

Definition demo_grep (configs : string -> list (Z * list string)) (ip script : string) : string :=
  match drop 7 (chars script) with
  | c :: s =>
      let i := Ascii.eqb c "i" in
      match ere_literals [] (until_quote (drop (if i then 3 else 2) s)) with
      | Some texts => of_chars (concat ((fun v => chars (conf_line v)) <$> listed configs i texts ip))
      | None => ""
      end
  | [] => ""
  end.

Lemma until_quote_app l rest : Forall (fun c => quotable c = true) l -> until_quote (l ++ "'"%char :: rest) = l.
Proof. induction 1 as [|c l Hc _ IH]; [done|]. cbn. unfold quotable in Hc. destruct (Ascii.eqb c "'"); [done|]. by rewrite IH. Qed.

Lemma demo_grep_documented configs ip (ignore_case : bool) pat texts :
  Forall (fun c => quotable c = true) (chars pat) -> ere_literals [] (chars pat) = Some texts ->
  chars (demo_grep configs ip ("grep -l" +++ (if ignore_case then "i" else "") +++ "E '" +++ pat +++
      "' /etc/pve/qemu-server/*.conf 2>/dev/null; true")) =
    concat ((fun v => chars (conf_line v)) <$> listed configs ignore_case texts ip).
Proof.
  intros Hq He. unfold demo_grep. rewrite !chars_app. set (tl := chars "' /etc/pve/qemu-server/*.conf 2>/dev/null; true").
  assert (until_quote (chars pat ++ tl) = chars pat) as U by by apply until_quote_app.
  clearbody tl. revert U He. generalize (chars pat). intros p U He.
  destruct ignore_case; cbn -[ere_literals listed until_quote]; rewrite drop_0, U, He; by rewrite String.list_ascii_of_string_of_list_ascii.
Qed.

Definition demo_configs (ip : string) : list (Z * list string) :=
  if bool_decide (ip = "10.0.0.2"%string)
  then [(100, ["cores: 2"; "net0: virtio=AA:00:00:00:00:01"]); (9107, ["cores: 4"; "net0: virtio=BC:24:11:00:00:07"])]%string else [].

Definition demo_hosts : list hypervisor :=
  [mk_hypervisor None None; mk_hypervisor (Some "10.0.0.1") None; mk_hypervisor (Some ""%string) (Some "10.0.0.2")]%string.

Lemma find_vm_located_witness :
  find_vm (demo_grep demo_configs) demo_hosts (my_macs [("lo", Some "00"); ("eth0", Some " BC:24:11:00:00:07 "); ("eth1", Some "02:00:00:00:00:09")])
    = Some ("10.0.0.2", 9107)%string.
Proof.
  rewrite (find_vm_located demo_configs (demo_grep demo_configs)).
  - vm_compute. reflexivity.
  - apply demo_grep_documented.
  - intros ip. unfold demo_configs. case_bool_decide; repeat constructor; done.
  - vm_compute. discriminate.
  - vm_compute. repeat constructor; discriminate.
Defined.

(** Without an address, and with an interface whose address is empty, as that
    of a tunnel is, the first VM of the first host is taken for this node. *)
Example find_vm_without_macs :
  find_vm (demo_grep demo_configs) demo_hosts (my_macs [("lo", Some "00"); ("eth0", None)]) = Some ("10.0.0.2", 100)%string.
Proof. vm_compute. reflexivity. Qed.

Example find_vm_tunnel :
  find_vm (demo_grep demo_configs) demo_hosts (my_macs [("eth0", Some "BC:24:11:00:00:07"); ("tun0", Some (String "010" ""))])
    = Some ("10.0.0.2", 100)%string.
Proof. vm_compute. reflexivity. Qed.

(** [--vmid] without [--host] is not looked at. *)
Example seed_vmid_alone :
  seed_target (mk_seed_args None None (Some 9107)) (demo_grep demo_configs) [] demo_hosts = Some ("10.0.0.2", 100)%string.
Proof. vm_compute. reflexivity. Qed.

Definition demo_ssh (host cmd : string) : answer :=
  if startswith cmd "qm config" then mk_answer 0 "scsi0: local-lvm:vm-9107-disk-0,size=32G" ""
  else mk_answer 0 "/dev/pve/vm-9107-disk-0" "".

Lemma vm_disk_outcome_witness :
  vm_disk demo_ssh "10.0.0.2" 9107 = Ok ("local-lvm:vm-9107-disk-0", "/dev/pve/vm-9107-disk-0")%string.
Proof.
  destruct (vm_disk_outcome demo_ssh "10.0.0.2" 9107) as [H _].
  destruct (H "scsi0" "local-lvm:vm-9107-disk-0" "size=32G")%string as [H1 _].
  - reflexivity.
  - repeat constructor; discriminate.
  - discriminate.
  - repeat constructor.
  - rewrite H1; [reflexivity|]. split; [reflexivity|vm_compute; discriminate].
Defined.

Lemma same_node_dir_witness :
  let f := Object (<["node"%string := JStr "km1"]> ∅) in
  seed_dir (mk_seed_args None None None) "host" f = Ok "/replication/_kvmdr/rkcdp/km1"%string.
Proof.
  intros f. set (c := <["node"%string := JStr "km1"]> ∅ ∪ default_conf "host").
  assert (exists st, Daemon_settings (fun _ => Raise OSError) c = Ok st) as [st E] by (eexists; vm_compute; reflexivity).
  rewrite (same_node_dir (fun _ => Raise OSError) "host" f c st (mk_seed_args None None None) "km1" eq_refl E);
    [|vm_compute; reflexivity|discriminate|reflexivity].
  vm_compute in E. injection E as <-. reflexivity.
Defined.

(** A disk size that is printed is the size that is read. *)
Example size_answer_example : (size_answer "34359738368
", size_answer "stat: cannot", size_answer "") = (Some 34359738368, None, None).
Proof. vm_compute. reflexivity. Qed.
