(* ===== verification/Api.v ===== *)
(** * The manager's view ([rkcdp/api_rkcdp.py])

    How the manager classifies the nodes from the files the daemon and the
    seeding program leave in the node directories ([_nodes]), and the request
    that starts a rebuild ([rkcdp_rebuild]): what it refuses, and the command
    line it builds. *)
From Stdlib Require Import Ascii.
From S2P Require Import Prelude PyString Dmcdp Files Seed Replica Apply Consume Daemon CopyThreads MainLoop SeedTool.

(** ** Node states *)

Inductive api_state : Type :=
  ASeeding | AWaiting | ASyncing | AUnprotected | AStale | ABitmap | APaused | ACdp.

#[export] Instance api_state_eq_dec : EqDecision api_state.
Proof. solve_decision. Defined.

Definition STALE_SEC : Z := 60.

(** [seed.get("phase") in ("locate", "copy", "seed", "replica", "drain")] *)
Definition seed_running (seed : option seed_phase) : bool :=
  match seed with Some Locate | Some CopyPhase | Some Drain => true | _ => false end.

(** The state of one node in [_nodes]: [manifest.json], [status.json] (state
    and time) and [seed.json] (phase), where they can be read. *)
Definition node_view (m : option manifest) (status : option (node_state * Z))
    (seed : option seed_phase) (now : Z) : api_state :=
  let fresh := match status with Some (_, t) => now - t <=? STALE_SEC | None => false end in
  let state_is s := match status with Some (s', _) => bool_decide (s' = s) | None => false end in
  if fresh && seed_running seed then ASeeding
  else if fresh && state_is WAITING then AWaiting
  else if fresh && state_is SYNCING then ASyncing
  else if match m with Some m => bool_decide (m_base_end_seq m = None) | None => true end then AUnprotected
  else if negb fresh then AStale
  else if state_is BITMAP || state_is RECOVERING then ABitmap
  else if state_is PAUSED then APaused
  else ACdp.

(** ** Starting a rebuild *)

Record host_row : Type := mk_host_row {
  hr_hostname : string;
  hr_ip : string;
  hr_ssh_user : option string;
  hr_hv_type : option string;
}.

Record rebuild_request : Type := mk_rebuild_request {
  rq_node : option (list Ascii.ascii);
  rq_host_id : option Z;
  rq_vmid : option Z;
  rq_storage : option string;
  rq_bridge : option string;
  rq_force : bool;
  rq_source : option string;
}.

(** [raise HTTPException(code, ...)] or the command that is started. *)
Inductive response : Type :=
  | HttpError (code : Z)
  | Started (cmd : list string).

Section Request.
Variables REBUILD_BIN JOURNAL PROGRESS_DIR : string.
(** [str(int(v))] *)
Variable show_Z : Z -> string.

Definition opt_arg (name : string) (v : option string) : list string :=
  match truthy_str v with Some x => [name; x] | None => [] end.

(** [rkcdp_rebuild], for an administrator: [running] is the node's progress
    file saying so, [host] the row of the hosts table. *)
Definition rkcdp_rebuild (rq : rebuild_request) (running : bool) (host : option host_row) : response :=
  let node := strip (default [] (rq_node rq)) in
  if bool_decide (node = []) || bool_decide (rq_host_id rq = None) then HttpError 400
  else if existsb (fun c => bool_decide (c = "/"%char)) node || bool_decide (head node = Some "."%char)
  then HttpError 400
  else if running then HttpError 409
  else
    match host with
    | None => HttpError 404
    | Some h =>
        let hv := lower (default ""%string (hr_hv_type h)) in
        if negb (bool_decide (hv = "proxmox"%string) || bool_decide (hv = "pve"%string) ||
                 bool_decide (hv = ""%string)) then HttpError 400
        else
          let name := String.string_of_list_ascii node in
          Started ([REBUILD_BIN; "--node"; name; "--host"; hr_ip h; "--user";
                    default "root"%string (truthy_str (hr_ssh_user h)); "--journal"; JOURNAL;
                    "--progress"; String.append PROGRESS_DIR (String.append "/" (String.append name ".json"))]%string
            ++ (match rq_vmid rq with Some v => if v =? 0 then [] else ["--vmid"%string; show_Z v] | None => [] end)
            ++ opt_arg "--storage" (rq_storage rq)
            ++ opt_arg "--bridge" (rq_bridge rq)
            ++ (if rq_force rq then ["--force"%string] else [])
            ++ (match rq_source rq with
                | Some s => if bool_decide (s = "replica"%string) || bool_decide (s = "seed"%string)
                            then ["--from"%string; s] else []
                | None => [] end))
    end.

(** ** Properties *)

(** A name that stays inside the directory it is put into. *)
Definition plain_name (node : list Ascii.ascii) : Prop :=
  node <> [] /\ ("/"%char ∉ node) /\ head node <> Some "."%char.

Lemma existsb_slash node : existsb (fun c => bool_decide (c = "/"%char)) node = true <-> "/"%char ∈ node.
Proof.
  rewrite existsb_exists. split.
  - intros (c & Hc & ->%bool_decide_eq_true). by apply list_elem_of_In.
  - intros H. exists "/"%char. split; [by apply list_elem_of_In|]. by apply bool_decide_eq_true.
Qed.

(** What starts a rebuild.  A command is run exactly when the stripped name
    stays inside the journal and the progress directory, a host is given and
    known, the host is a Proxmox one, and no rebuild of the node is running;
    the command then names that node, that host and the node's progress file. *)
Theorem rebuild_request_accepts rq running host :
  let node := strip (default [] (rq_node rq)) in
  ((exists cmd, rkcdp_rebuild rq running host = Started cmd) <->
    plain_name node /\ rq_host_id rq <> None /\ running = false /\
    exists h, host = Some h /\ lower (default ""%string (hr_hv_type h)) ∈ ["proxmox"; "pve"; ""]%string) /\
  forall cmd, rkcdp_rebuild rq running host = Started cmd ->
    exists h user rest, host = Some h /\
      cmd = [REBUILD_BIN; "--node"; String.string_of_list_ascii node; "--host"; hr_ip h; "--user"; user;
             "--journal"; JOURNAL; "--progress";
             String.append PROGRESS_DIR (String.append "/" (String.append (String.string_of_list_ascii node) ".json"))]%string
            ++ rest.
Proof.
  unfold rkcdp_rebuild, plain_name. set (node := strip (default [] (rq_node rq))). cbv zeta.
  destruct (bool_decide (node = []) || bool_decide (rq_host_id rq = None)) eqn:E1.
  { split; [|done]. split; [by intros [? ?]|]. intros ((H & _) & Hh & _).
    apply orb_true_iff in E1 as [E1%bool_decide_eq_true|E1%bool_decide_eq_true]; tauto. }
  apply orb_false_iff in E1 as [E1%bool_decide_eq_false E2%bool_decide_eq_false].
  destruct (existsb _ node || bool_decide (head node = Some "."%char)) eqn:E3.
  { split; [|done]. split; [by intros [? ?]|]. intros ((_ & H1 & H2) & _).
    apply orb_true_iff in E3 as [E3%existsb_slash|E3%bool_decide_eq_true]; tauto. }
  apply orb_false_iff in E3 as [E3 E4%bool_decide_eq_false].
  assert (Hs : "/"%char ∉ node) by (intros H%existsb_slash; congruence).
  destruct running; [split; [split; [by intros [? ?]|by intros (_ & _ & ? & _)]|done]|].
  destruct host as [h|]; [|split; [split; [by intros [? ?]|by intros (_ & _ & _ & ? & ? & _)]|done]].
  set (hv := lower (default ""%string (hr_hv_type h))).
  assert (Hv : hv ∈ ["proxmox"; "pve"; ""]%string <->
    bool_decide (hv = "proxmox"%string) || bool_decide (hv = "pve"%string) || bool_decide (hv = ""%string) = true).
  { rewrite !orb_true_iff, !bool_decide_eq_true, !elem_of_cons, elem_of_nil. tauto. }
  destruct (bool_decide (hv = "proxmox"%string) || bool_decide (hv = "pve"%string) ||
            bool_decide (hv = ""%string)); cbn [negb].
  - split.
    + split; [|by eexists]. intros _. split_and!; try done. exists h. split; [done|by apply Hv].
    + intros cmd [= <-]. by eexists h, _, _.
  - split; [|done]. split; [by intros [? ?]|]. intros (_ & _ & _ & h' & Eh & Hin).
    injection Eh as <-. discriminate (proj1 Hv Hin).
Qed.
End Request.

(** C31: what "cdp" means.  For a node whose daemon wrote its status at time
    [t], the manager shows "cdp" exactly when no seeding is under way, the
    status is at most a minute old, the base is recorded in the manifest,
    nothing is being copied, recovered or parked, and the driver reports no
    overflow. *)
Theorem api_cdp_protected fd t d sj m seed now :
  write_status fd t d = Ok sj ->
  node_view (Some m) (Some (sj_state sj, sj_time sj)) seed now = ACdp <->
    seed_running seed = false /\ now - t <= STALE_SEC /\ m_base_end_seq m <> None /\
    d_seed_required d = false /\ settled d /\ recovery_queue (d_feed d) = [] /\ no_overflow fd.
Proof.
  intros Hw. pose proof (status_CDP fd t d sj Hw) as Hc.
  assert (Ht : sj_time sj = t).
  { unfold write_status in Hw. res_inv. done. }
  assert (Hcase : node_view (Some m) (Some (sj_state sj, sj_time sj)) seed now = ACdp <->
    seed_running seed = false /\ now - t <= STALE_SEC /\ m_base_end_seq m <> None /\ sj_state sj = CDP).
  { unfold node_view. rewrite Ht. destruct (Z.leb_spec (now - t) STALE_SEC) as [L|L]; cbn [andb negb].
    2:{ split; [by case_bool_decide|]. intros (_ & ? & _). lia. }
    destruct (seed_running seed); [split; [done|by intros [? _]]|].
    destruct (decide (m_base_end_seq m = None)) as [E|E].
    - rewrite (bool_decide_eq_true_2 (m_base_end_seq m = None)) by done. split; [destruct (sj_state sj); vm_compute; congruence|]. by intros (_ & _ & ? & _).
    - rewrite (bool_decide_eq_false_2 (m_base_end_seq m = None)) by done.
      destruct (sj_state sj); (split; [first [(intros H; exfalso; vm_compute in H; discriminate H) | (intros _; by split_and!)]
                                  |first [(intros (_ & _ & _ & H); discriminate H) | (intros _; vm_compute; reflexivity)]]). }
  rewrite Hcase. tauto.
Qed.

(** ** Concrete cases *)

Definition demo_request (node : string) : rebuild_request :=
  mk_rebuild_request (Some (String.list_ascii_of_string node)) (Some 3) None None None true None.

Definition demo_host : host_row := mk_host_row "pve1" "10.0.0.1" None (Some "Proxmox"%string).

Example rebuild_request_traversal :
  rkcdp_rebuild "rkcdp-rebuild" "/j" "/run/rkcdp" (fun _ => "0"%string) (demo_request " ../etc ") false (Some demo_host)
    = HttpError 400.
Proof. vm_compute. reflexivity. Qed.

Example rebuild_request_example :
  rkcdp_rebuild "rkcdp-rebuild" "/j" "/run/rkcdp" (fun _ => "0"%string) (demo_request " km1 ") false (Some demo_host)
    = Started ["rkcdp-rebuild"; "--node"; "km1"; "--host"; "10.0.0.1"; "--user"; "root"; "--journal"; "/j";
               "--progress"; "/run/rkcdp/km1.json"; "--force"]%string.
Proof. vm_compute. reflexivity. Qed.

Lemma api_cdp_protected_witness :
  let d := demo_daemon zero_image None in
  exists sj, write_status demo_fd 70 d = Ok sj /\
    node_view (Some (with_base 9 77 demo_manifest)) (Some (sj_state sj, sj_time sj)) None 100 = ACdp /\
    node_view (Some demo_manifest) (Some (sj_state sj, sj_time sj)) None 100 <> ACdp.
Proof.
  intros d. set (r := write_status demo_fd 70 d).
  assert (Hok : match r with Ok _ => True | _ => False end) by (vm_compute; exact I).
  destruct r as [sj| |] eqn:E; try contradiction.
  exists sj. split; [reflexivity|]. split.
  - apply (api_cdp_protected demo_fd 70 d sj (with_base 9 77 demo_manifest) None 100 E).
    split; [reflexivity|]. split; [vm_compute; discriminate|]. split; [discriminate|].
    split; [reflexivity|]. split; [vm_compute; repeat split|].
    split; [reflexivity|]. exists 0. split; [vm_compute; reflexivity|reflexivity].
  - intros H. apply (api_cdp_protected demo_fd 70 d sj demo_manifest None 100 E) in H.
    destruct H as (_ & _ & H & _). exact (H eq_refl).
Defined.
