(* ===== verification/Launch.v ===== *)
(** * From the manager's request to the rebuild's arguments

    The argument parser of [rkcdp-rebuild.py] ([parse_args]) on the command
    line that the manager builds ([rkcdp_rebuild] of [api_rkcdp.py]): the
    rebuild runs with what the administrator asked for. *)
From Stdlib Require Import Ascii.
From stdpp Require Import pretty.
From S2P Require Import Prelude PyString Target Files Seed Rebuild SshScript HostScript Daemon SeedTool Api.

(** ** The arguments of the rebuild *)

Record cli : Type := mk_cli {
  cl_node : option string;
  cl_host : option string;
  cl_user : string;
  cl_vmid : option Z;
  cl_storage : string;
  cl_bridge : string;
  cl_journal : string;
  cl_host_journal : option string;
  cl_progress : option string;
  cl_force : bool;
  cl_keep_copy : bool;
  cl_no_standby : bool;
  cl_source : source;
}.

Definition cli_defaults : cli :=
  mk_cli None None "root" None "local-lvm" "vmbr0" "/replication/_kvmdr/rkcdp" None None false false false FromReplica.

(** An option with a value. *)
Definition set_value (o v : string) (c : cli) : option cli :=
  let '(mk_cli node host user vmid storage bridge journal hj progress force keep standby src) := c in
  if String.eqb o "--node" then Some (mk_cli (Some v) host user vmid storage bridge journal hj progress force keep standby src)
  else if String.eqb o "--host" then Some (mk_cli node (Some v) user vmid storage bridge journal hj progress force keep standby src)
  else if String.eqb o "--user" then Some (mk_cli node host v vmid storage bridge journal hj progress force keep standby src)
  else if String.eqb o "--vmid" then
    n ← py_int v; Some (mk_cli node host user (Some n) storage bridge journal hj progress force keep standby src)
  else if String.eqb o "--storage" then Some (mk_cli node host user vmid v bridge journal hj progress force keep standby src)
  else if String.eqb o "--bridge" then Some (mk_cli node host user vmid storage v journal hj progress force keep standby src)
  else if String.eqb o "--journal" then Some (mk_cli node host user vmid storage bridge v hj progress force keep standby src)
  else if String.eqb o "--host-journal" then Some (mk_cli node host user vmid storage bridge journal (Some v) progress force keep standby src)
  else if String.eqb o "--progress" then Some (mk_cli node host user vmid storage bridge journal hj (Some v) force keep standby src)
  else if String.eqb o "--from" then
    src' ← (if String.eqb v "replica" then Some FromReplica else if String.eqb v "seed" then Some FromSeed else None);
    Some (mk_cli node host user vmid storage bridge journal hj progress force keep standby src')
  else None.

Definition set_flag (o : string) (c : cli) : option cli :=
  let '(mk_cli node host user vmid storage bridge journal hj progress force keep standby src) := c in
  if String.eqb o "--force" then Some (mk_cli node host user vmid storage bridge journal hj progress true keep standby src)
  else if String.eqb o "--keep-copy" then Some (mk_cli node host user vmid storage bridge journal hj progress force true standby src)
  else if String.eqb o "--no-standby" then Some (mk_cli node host user vmid storage bridge journal hj progress force keep true src)
  else None.

(** A word that can be a value: one without a dash at its front, a lone dash, or a
    negative number.  ([argparse] also takes abbreviated options, [--name=value] and
    dashed words with blanks, which the manager does not write; here they
    are errors.) *)
Definition is_value (w : string) : bool :=
  match chars w with
  | "-"%char :: ds => forallb (fun c => bool_decide (c ∈ chars "0123456789")) ds
  | _ => true
  end.

(** The options one after the other, given what a flag and an option with a
    value do to the namespace; [error] exits with status 2. *)
Section Options.
Context {C : Type}.
Variable flag : string -> C -> option C.
Variable value : string -> string -> C -> option C.

Fixpoint parse_opts (args : list string) (c : C) : option C :=
  match args with
  | [] => Some c
  | o :: args' =>
      match flag o c with
      | Some c' => parse_opts args' c'
      | None =>
          match args' with
          | v :: args'' => if is_value v then c' ← value o v c; parse_opts args'' c' else None
          | [] => None
          end
      end
  end.

Lemma parse_value o v rest c c' :
  flag o c = None -> is_value v = true -> value o v c = Some c' -> parse_opts (o :: v :: rest) c = parse_opts rest c'.
Proof. intros H1 H2 H3. cbn [parse_opts]. by rewrite H1, H2, H3. Qed.

Lemma parse_flag o rest c c' : flag o c = Some c' -> parse_opts (o :: rest) c = parse_opts rest c'.
Proof. intros H. cbn [parse_opts]. by rewrite H. Qed.
End Options.

(** [ap.parse_args()], with [--node] and [--host] required. *)
Definition parse_args (args : list string) : res cli :=
  match parse_opts set_flag set_value args cli_defaults with
  | Some c => if bool_decide (cl_node c = None) || bool_decide (cl_host c = None) then Raise (SystemExit "2") else Ok c
  | None => Raise (SystemExit "2")
  end.

(** [a.host_journal or a.journal] *)
Definition host_journal (c : cli) : string := default (cl_journal c) (truthy_str (cl_host_journal c)).

(** What the rebuild takes from its arguments. *)
Definition cli_rb_args (c : cli) : rb_args :=
  mk_rb_args (default EmptyString (cl_node c)) (cl_force c) (cl_keep_copy c) (cl_source c).
Definition cli_vm_args (c : cli) : vm_args :=
  mk_vm_args (default EmptyString (cl_node c)) (cl_vmid c) (cl_storage c) (cl_bridge c).

(** ** Numbers as arguments *)

Lemma strip_no_space l : Forall (fun c => is_space c = false) l -> strip l = l.
Proof.
  intros H. assert (Hl : forall s, Forall (fun c => is_space c = false) s -> lstrip s = s).
  { intros [|c s] Hs; [done|]. inversion Hs as [|? ? Hc]; subst. cbn. by rewrite Hc. }
  unfold strip. rewrite (Hl l H), Hl by by apply Forall_reverse. apply reverse_involutive.
Qed.

Lemma digit_pretty_char d : (d < 10)%N -> digit_Z (pretty_N_char d) = Some (Z.of_N d).
Proof.
  intros H. assert (d = 0 \/ d = 1 \/ d = 2 \/ d = 3 \/ d = 4 \/ d = 5 \/ d = 6 \/ d = 7 \/ d = 8 \/ d = 9)%N as Hd by lia.
  by repeat destruct Hd as [->|Hd]; [..|subst].
Qed.

Lemma digits_go x : forall s b, (0 < x)%N ->
  digits_Z 0 b (chars (pretty_N_go x s)) = digits_Z (Z.of_N x) true (chars s).
Proof.
  induction (N.lt_wf_0 x) as [x _ IH]. intros s b Hx. rewrite pretty_N_go_step by done.
  pose proof (N.div_mod x 10 ltac:(done)) as E. assert (Hd : (x mod 10 < 10)%N) by (apply N.mod_lt; done).
  destruct (decide (x / 10 = 0)%N) as [H0|H0].
  - rewrite H0, pretty_N_go_0. change (chars (String ?c s)) with (c :: chars s). cbn [digits_Z].
    rewrite digit_pretty_char by done. f_equal. lia.
  - rewrite IH by (try apply N.div_lt; lia). change (chars (String ?c s)) with (c :: chars s). cbn [digits_Z].
    rewrite digit_pretty_char by done. f_equal. lia.
Qed.

Lemma digits_pretty (x : N) : digits_Z 0 false (chars (pretty x)) = Some (Z.of_N x).
Proof. unfold pretty, pretty_N. case_decide as Hx; [by subst|]. rewrite digits_go by lia. done. Qed.

(** [int(str(n))] *)
Lemma py_int_pretty (n : Z) : py_int (pretty n) = Some n.
Proof.
  unfold py_int. rewrite strip_no_space by apply field_pretty. destruct n as [|p|p]; [done| |].
  - change (pretty (Zpos p)) with (pretty (Npos p)). pose proof (digits_pretty (Npos p)) as E.
    destruct (chars (pretty (Npos p))) as [|c l]; [done|].
    destruct (digit_Z c) eqn:Ec; [|cbn [digits_Z] in E; rewrite Ec in E; by rewrite andb_false_r in E].
    destruct c as [[] [] [] [] [] [] [] []]; done.
  - change (chars (pretty (Zneg p))) with ("-"%char :: chars (pretty (Npos p))). cbn iota. by rewrite digits_pretty.
Qed.

Lemma is_value_no_dash w : startswith w "-" = false -> is_value w = true.
Proof.
  unfold is_value. destruct w as [|c w]; [done|]. change (chars (String c w)) with (c :: chars w).
  intros H. destruct (Ascii.ascii_dec "-" c) as [<-|Hn]; [by destruct w|]. destruct c as [[] [] [] [] [] [] [] []]; done.
Qed.

Definition is_digit (c : ascii) : bool := bool_decide (c ∈ chars "0123456789").

Lemma pretty_digits (x : N) : forallb is_digit (chars (pretty x)) = true.
Proof.
  assert (Hgo : forall s, forallb is_digit (chars s) = true -> forallb is_digit (chars (pretty_N_go x s)) = true).
  { induction (N.lt_wf_0 x) as [x _ IH]. intros s Hs. destruct (decide (0 < x)%N) as [Hx|Hx].
    - rewrite pretty_N_go_step by done. apply IH; [by apply N.div_lt|].
      change (chars (String ?c s)) with (c :: chars s). cbn [forallb]. rewrite Hs, andb_true_r.
      assert (Hd : (x mod 10 < 10)%N) by (apply N.mod_lt; done). apply digit_pretty_char in Hd. revert Hd.
      by destruct (pretty_N_char _) as [[] [] [] [] [] [] [] []].
    - replace x with 0%N by lia. by rewrite pretty_N_go_0. }
  unfold pretty, pretty_N. case_decide; [done|]. by apply Hgo.
Qed.

Lemma is_value_pretty (n : Z) : is_value (pretty n) = true.
Proof.
  unfold is_value. destruct n as [|p|p]; [done| |].
  - change (pretty (Zpos p)) with (pretty (Npos p)). pose proof (pretty_digits (Npos p)) as H.
    destruct (chars (pretty (Npos p))) as [|c l]; [done|]. cbn [forallb] in H. apply andb_prop in H as [H _]. revert H.
    by destruct c as [[] [] [] [] [] [] [] []].
  - change (chars (pretty (Zneg p))) with ("-"%char :: chars (pretty (Npos p))). exact (pretty_digits (Npos p)).
Qed.

(** ** The request arrives *)

Lemma parse_opt_arg o v rest c :
  set_flag o c = None -> is_value (default EmptyString (truthy_str v)) = true -> (forall x, is_Some (set_value o x c)) ->
  parse_opts set_flag set_value (opt_arg o v ++ rest) c =
    parse_opts set_flag set_value rest (match truthy_str v with Some x => default c (set_value o x c) | None => c end).
Proof.
  intros H1 H2 H3. unfold opt_arg. destruct (truthy_str v) as [x|]; [|done]. destruct (H3 x) as [c' E]. cbn [app].
  rewrite E. by apply parse_value.
Qed.

(** The values an administrator's request gives: none looks like an option. *)
Definition plain_request (rq : rebuild_request) (h : host_row) (journal progress_dir : string) : bool :=
  is_value (of_chars (strip (default [] (rq_node rq)))) && is_value (hr_ip h) &&
  is_value (default "root"%string (truthy_str (hr_ssh_user h))) && is_value journal &&
  is_value (default EmptyString (truthy_str (rq_storage rq))) && is_value (default EmptyString (truthy_str (rq_bridge rq))) &&
  negb (startswith progress_dir "-").

Definition requested_source (rq : rebuild_request) : source :=
  if bool_decide (rq_source rq = Some "seed"%string) then FromSeed else FromReplica.

Definition requested_cli (rq : rebuild_request) (h : host_row) (journal progress_dir : string) : cli :=
  let name := of_chars (strip (default [] (rq_node rq))) in
  mk_cli (Some name) (Some (hr_ip h)) (default "root"%string (truthy_str (hr_ssh_user h))) (truthy (rq_vmid rq))
    (default "local-lvm"%string (truthy_str (rq_storage rq))) (default "vmbr0"%string (truthy_str (rq_bridge rq)))
    journal None (Some (progress_dir +++ "/" +++ name +++ ".json")%string) (rq_force rq) false false (requested_source rq).

(** C38: a request arrives.  When the manager starts a rebuild and no value it
    passes looks like an option, the rebuild's argument parser reads the command
    line back as exactly what was asked for, with the default of every option
    that was left out. *)
Theorem request_reaches_rebuild bin journal progress_dir rq running h cmd :
  rkcdp_rebuild bin journal progress_dir pretty rq running (Some h) = Started cmd ->
  plain_request rq h journal progress_dir = true ->
  parse_args (drop 1 cmd) = Ok (requested_cli rq h journal progress_dir).
Proof.
  unfold rkcdp_rebuild, plain_request. intros E Hp.
  set (name := of_chars (strip (default [] (rq_node rq)))) in *.
  repeat match type of E with (if ?b then _ else _) = _ => destruct b; [discriminate E|] end.
  injection E as <-. rewrite !andb_true_iff, negb_true_iff in Hp. destruct Hp as [[[[[[H1 H2] H3] H4] H5] H6] H7].
  assert (is_value (progress_dir +++ "/" +++ name +++ ".json")%string = true) as Hpf.
  { apply is_value_no_dash. destruct progress_dir as [|c d]; [done|]. by rewrite startswith_dash. }
  assert (Hparse : forall l, parse_opts set_flag set_value l cli_defaults = Some (requested_cli rq h journal progress_dir) ->
    parse_args l = Ok (requested_cli rq h journal progress_dir)).
  { intros l Hl. unfold parse_args. by rewrite Hl. }
  apply Hparse. clear Hparse. cbn [app drop].
  do 5 (erewrite parse_value by (reflexivity || assumption)).
  match goal with |- parse_opts set_flag set_value ?l (mk_cli ?n ?ho ?u _ ?st ?br ?j ?hj ?pr ?f ?k ?sb ?src) = _ =>
    transitivity (parse_opts set_flag set_value (opt_arg "--storage" (rq_storage rq) ++ opt_arg "--bridge" (rq_bridge rq) ++
      (if rq_force rq then ["--force"%string] else []) ++
      (match rq_source rq with
       | Some s => if bool_decide (s = "replica"%string) || bool_decide (s = "seed"%string) then ["--from"%string; s] else []
       | None => [] end)) (mk_cli n ho u (truthy (rq_vmid rq)) st br j hj pr f k sb src)) end.
  { destruct (rq_vmid rq) as [v|]; [|done]. cbn [truthy]. destruct (v =? 0); [done|]. cbn [app].
    apply parse_value; [done|apply is_value_pretty|]. cbn. by rewrite py_int_pretty. }
  rewrite parse_opt_arg by (done || by eexists). cbn [set_value String.eqb Ascii.eqb Bool.eqb default].
  rewrite parse_opt_arg by (done || by case_match || (intros; case_match; by eexists)).
  unfold requested_cli, requested_source. fold name. destruct (truthy_str (rq_storage rq)), (truthy_str (rq_bridge rq)), (rq_force rq).
  all: destruct (rq_source rq) as [src|]; [|done]; cbn [app].
  all: destruct (decide (src = "replica"%string)) as [->|Hr]; [done|].
  all: destruct (decide (src = "seed"%string)) as [->|Hs]; [done|].
  all: rewrite !(bool_decide_eq_false_2 (src = _)) by done.
  all: rewrite (bool_decide_eq_false_2 (Some src = _)) by congruence; done.
Qed.

Definition demo_request : rebuild_request :=
  mk_rebuild_request (Some (chars " km1 ")) (Some 3) (Some 9107) None (Some "vmbr1"%string) true (Some "seed"%string).
Definition demo_row : host_row := mk_host_row "pve1" "192.168.1.180" None (Some "Proxmox"%string).

Lemma request_reaches_rebuild_witness :
  exists cmd, rkcdp_rebuild "/opt/rkcdp/rkcdp-rebuild" "/replication/_kvmdr/rkcdp" "/run/rkcdp" pretty demo_request false
      (Some demo_row) = Started cmd /\
    parse_args (drop 1 cmd) =
      Ok (mk_cli (Some "km1") (Some "192.168.1.180") "root" (Some 9107) "local-lvm" "vmbr1" "/replication/_kvmdr/rkcdp" None
            (Some "/run/rkcdp/km1.json") true false false FromSeed)%string.
Proof.
  eexists. split; [vm_compute; reflexivity|].
  refine (request_reaches_rebuild "/opt/rkcdp/rkcdp-rebuild" "/replication/_kvmdr/rkcdp" "/run/rkcdp" demo_request false
    demo_row _ _ _); vm_compute; reflexivity.
Defined.

(** A node name that begins with a dash, which the manager lets through, is taken for an option: the rebuild ends
    with the usage, without a progress file. *)
Example dashed_value : parse_args ["--node"; "-km1"; "--host"; "10.0.0.1"]%string = Raise (SystemExit "2").
Proof. reflexivity. Qed.
