(* ===== verification/ApiNodes.v ===== *)
(** * The manager's node list ([_nodes], [_refresh_loop] of [api_rkcdp.py])

    The list of the nodes as a refresh reads it from the share, one row for
    each node directory, and the cache through which the request handlers see
    it: the refresh thread and the handlers take turns under a lock. *)
From Stdlib Require Import Ascii.
From stdpp Require Import sorting fin_maps.
From S2P Require Import Prelude PyString Dmcdp Files Seed Replica Apply Consume Daemon CopyThreads MainLoop SeedTool Api.

(** ** Python's order on strings *)

Definition str_le (s t : string) : Prop := String.leb s t = true.

#[export] Instance str_le_dec : RelDecision str_le.
Proof. intros s t. unfold str_le. apply _. Defined.

#[export] Instance str_le_total : Total str_le.
Proof. intros s t. apply String.leb_total. Qed.

Lemma str_le_cons a s b t :
  str_le (String a s) (String b t) <->
  (N_of_ascii a < N_of_ascii b)%N \/ a = b /\ str_le s t.
Proof.
  unfold str_le, String.leb. cbn [String.compare]. unfold Ascii.compare.
  destruct (N.compare_spec (N_of_ascii a) (N_of_ascii b)) as [E|E|E].
  - apply (f_equal ascii_of_N) in E. rewrite !ascii_N_embedding in E. subst b.
    split; [by right|]. intros [?|[_ ?]]; [lia|done].
  - split; [by left|done].
  - split; [done|]. intros [?|[-> _]]; lia.
Qed.

#[export] Instance str_le_trans : Transitive str_le.
Proof.
  intros s. induction s as [|a s IH]; intros [|b t] [|c u]; try done.
  rewrite !str_le_cons. intros [H1|[-> H1]] [H2|[-> H2]]; [left; lia|by left|by left|].
  right. split; [done|]. by apply (IH t).
Qed.

(** [sorted(names)] *)
Definition py_sorted (l : list string) : list string := merge_sort str_le l.

(** ** The node directories *)

Record node_doc : Type := mk_node_doc { nd_ips : list string; nd_mem_mb : Z; nd_cpus : Z }.
Record seed_doc : Type := mk_seed_doc { sd_phase : seed_phase; sd_percent : option Z; sd_msg : string }.
Record status_doc : Type := mk_status_doc { st_json : status_json; st_last_time : option Z }.
(** The progress file of a rebuild: its state, and the rest. *)
Record prog_doc : Type := mk_prog_doc { pg_state : string; pg_msg : string }.

Record node_files : Type := mk_node_files {
  nf_manifest : option manifest;
  nf_status : option status_doc;
  nf_node : option node_doc;
  nf_seed : option seed_doc;
  nf_replica : option (Z * Z);       (* st_size, st_blocks *)
  nf_seed_raw : bool;
}.

Inductive dirent : Type := Plain | Dir (f : node_files).

(** What the refresh reads: [JOURNAL], where it is a directory, and the
    progress directory. *)
Record share : Type := mk_share {
  sh_journal : option (gmap string dirent);
  sh_progress : gmap string prog_doc;
}.

Record node_row : Type := mk_node_row {
  nr_node : string;
  nr_state : api_state;
  nr_age : option Z;
  nr_last_seq : option Z;
  nr_seq_next : option Z;
  nr_overflows : option Z;
  nr_applied_time : option Z;
  nr_pending_bytes : Z;
  nr_replica_bytes : option Z;
  nr_replica_used_bytes : option Z;
  nr_device : option string;
  nr_node_doc : option node_doc;     (* ips, mem_mb, cpus *)
  nr_base_copy : option Z;
  nr_seed : option seed_doc;
  nr_seed_present : bool;
  nr_rebuilding : bool;
  nr_rebuild : option prog_doc;
}.

(** [a or b] on numbers that may be missing: zero counts as missing. *)
Definition py_or_Z (a b : option Z) : option Z :=
  match a with Some 0 | None => b | x => x end.

Definition node_row_of (name : string) (f : node_files) (prog : option prog_doc) (now : Z) : node_row :=
  let st := st_json <$> nf_status f in
  mk_node_row name
    (node_view (nf_manifest f) ((fun s => (sj_state s, sj_time s)) <$> st) (sd_phase <$> nf_seed f) now)
    ((fun s => now - sj_time s) <$> st)
    (st ≫= sj_last_seq) (sj_seq_next <$> st) (sj_overflows <$> st)
    (py_or_Z (nf_status f ≫= st_last_time) (nf_manifest f ≫= m_base_time))
    (default 0 (sj_pending_bytes <$> st))
    (fst <$> nf_replica f) ((fun r => r.2 * 512) <$> nf_replica f)
    (m_device <$> nf_manifest f) (nf_node f) (st ≫= sj_base_copy) (nf_seed f) (nf_seed_raw f)
    (match prog with Some p => bool_decide (pg_state p = "running"%string) | None => false end) prog.

(** The directories that count as nodes. *)
Definition node_name (name : string) : bool :=
  negb (bool_decide (name = "rebuild"%string)) && negb (startswith name ".").

(** [_nodes]; [now] is the clock when the node is read. *)
Definition nodes_of (sh : share) (now : string -> Z) : list node_row :=
  match sh_journal sh with
  | None => []
  | Some j =>
      omap (fun name =>
        match j !! name with
        | Some (Dir f) => if node_name name then Some (node_row_of name f (sh_progress sh !! name) (now name)) else None
        | _ => None
        end) (py_sorted (map_to_list j).*1)
  end.

Lemma py_sorted_NoDup l : NoDup l -> NoDup (py_sorted l).
Proof. unfold py_sorted. by rewrite (merge_sort_Permutation str_le l). Qed.

(** Names that are kept, in order. *)
Lemma omap_names {A} (f : string -> option A) (g : A -> string) (l : list string) :
  (forall name a, f name = Some a -> g a = name) -> g <$> omap f l = filter (fun name => is_Some (f name)) l.
Proof.
  intros H. induction l as [|name l IH]; [done|]. cbn [omap list_omap]. rewrite filter_cons.
  destruct (f name) as [a|] eqn:E.
  - rewrite decide_True by by eexists. cbn. by rewrite (H name a E), <-IH.
  - rewrite decide_False by by intros [? ?]. exact IH.
Qed.

Lemma StronglySorted_filter (R : relation string) (P : string -> Prop) `{forall x, Decision (P x)} (l : list string) :
  StronglySorted R l -> StronglySorted R (filter P l).
Proof.
  induction 1 as [|x l Hl IH HF]; [constructor|]. rewrite filter_cons. case_decide; [|done].
  constructor; [done|]. rewrite Forall_forall in *. intros y [_ Hy]%list_elem_of_filter. by apply HF.
Qed.

(** The list has exactly one row for each directory of the journal other
    than [rebuild] and the hidden ones, sorted by name, with the state the
    files of that directory say; without the journal it is empty. *)
Theorem nodes_rows sh now :
  let rows := nodes_of sh now in
  StronglySorted str_le (nr_node <$> rows) /\ NoDup (nr_node <$> rows) /\
  forall row, row ∈ rows <-> exists j f, sh_journal sh = Some j /\ j !! nr_node row = Some (Dir f) /\
    nr_node row <> "rebuild"%string /\ startswith (nr_node row) "." = false /\
    row = node_row_of (nr_node row) f (sh_progress sh !! nr_node row) (now (nr_node row)).
Proof.
  cbv zeta. unfold nodes_of. destruct (sh_journal sh) as [j|].
  2:{ split; [constructor|]. split; [constructor|]. intros row. split; [by intros ?%not_elem_of_nil|]. by intros (? & ? & ? & _). }
  set (f := fun name => _). set (names := py_sorted (map_to_list j).*1).
  assert (Hf : forall name row, f name = Some row -> nr_node row = name).
  { intros name row. unfold f. destruct (j !! name) as [[|g]|]; [done| |done]. case_match; [|done]. by intros [= <-]. }
  rewrite (omap_names f nr_node names Hf). split_and!.
  - apply StronglySorted_filter. apply (StronglySorted_merge_sort str_le).
  - apply NoDup_filter, py_sorted_NoDup, NoDup_fst_map_to_list.
  - intros row. rewrite list_elem_of_omap. split.
    + intros (name & _ & E). pose proof (Hf name row E) as <-. revert E. unfold f at 1.
      destruct (j !! nr_node row) as [[|g]|] eqn:Ej; [done| |done]. unfold node_name.
      case_bool_decide as Hr; cbn [negb andb]; [done|]. destruct (startswith (nr_node row) ".") eqn:Ed; cbn [negb]; [done|].
      intros E. apply (inj Some) in E. by exists j, g.
    + intros (j' & g & [= <-] & Ej & Hr & Hd & E). exists (nr_node row). split.
      * unfold names, py_sorted. rewrite (merge_sort_Permutation str_le). apply list_elem_of_fmap.
        exists (nr_node row, Dir g). split; [done|]. by apply elem_of_map_to_list.
      * unfold f. rewrite Ej. unfold node_name. rewrite bool_decide_eq_false_2, Hd by done. cbn. by rewrite <-E.
Qed.

(** A seeding that exits.  When the VM's disk cannot be found the program
    leaves by [SystemExit], which its handler does not catch: [seed.json] keeps
    its first phase, and the node is shown as seeding as long as its daemon
    writes its status. *)
Theorem seed_exit_shown CH e s hv msg m st t now :
  se_vm e = Some hv -> se_vm_disk e = Raise (SystemExit msg) -> now - t <= STALE_SEC ->
  exists s', seed_main CH e s = (Raise (SystemExit msg), s') /\ ss_phase s' = Locate /\
    ss_manifest s' = ss_manifest s /\ node_view m (Some (st, t)) (Some (ss_phase s')) now = ASeeding.
Proof.
  intros Hvm Hd Ht. unfold seed_main, sm_except, seed_copy, mbind, SM_bind, progress_json, sm_upd, sm_res.
  rewrite Hvm. destruct hv as [host vmid]. rewrite Hd. eexists. split; [done|]. split; [done|]. split; [done|].
  unfold node_view. cbn [ss_phase seed_running]. destruct (Z.leb_spec (now - t) STALE_SEC); [done|lia].
Qed.

(** ** The cache *)

Section Cache.
Context {A : Type}.

(** [_cache], who holds [_cache_lock], and what happened: the refreshes that
    were stored and the answers that were given, newest first. *)
Inductive holder : Type :=
  | Free
  | Refresh (nodes : A) (time : Z) (half : bool)   (* half: _cache["nodes"] is stored *)
  | Request (nodes : option A).                    (* what it has read so far *)

Record cache : Type := mk_cache {
  c_nodes : A;
  c_time : Z;
  c_lock : holder;
  c_stored : list (A * Z);
  c_answers : list (A * Z);
}.

Inductive cache_step : Type :=
  | RefreshLock (nodes : A) (time : Z)   (* with _cache_lock, after _nodes() returned *)
  | RefreshStore                         (* the next store of the assignment *)
  | RefreshFailed                        (* except Exception *)
  | RequestLock
  | RequestRead.                         (* the next read of the answer *)

Definition with_lock (h : holder) (c : cache) : cache :=
  mk_cache (c_nodes c) (c_time c) h (c_stored c) (c_answers c).

(** One step of the refresh thread or of a handler; [None]: it has to wait, or
    is not there. *)
Definition cache_next (c : cache) (a : cache_step) : option cache :=
  match a, c_lock c with
  | RefreshLock nodes time, Free => Some (with_lock (Refresh nodes time false) c)
  | RefreshStore, Refresh nodes time false =>
      Some (mk_cache nodes (c_time c) (Refresh nodes time true) (c_stored c) (c_answers c))
  | RefreshStore, Refresh nodes time true =>
      Some (mk_cache (c_nodes c) time Free ((nodes, time) :: c_stored c) (c_answers c))
  | RefreshFailed, _ => Some c
  | RequestLock, Free => Some (with_lock (Request None) c)
  | RequestRead, Request None => Some (with_lock (Request (Some (c_nodes c))) c)
  | RequestRead, Request (Some nodes) =>
      Some (mk_cache (c_nodes c) (c_time c) Free (c_stored c) ((nodes, c_time c) :: c_answers c))
  | _, _ => None
  end.

Inductive cache_run : cache -> cache -> Prop :=
  | cache_run_refl c : cache_run c c
  | cache_run_step c a c1 c2 : cache_next c a = Some c1 -> cache_run c1 c2 -> cache_run c c2.

Definition cache_start (nodes : A) : cache := mk_cache nodes 0 Free [] [].

(** The last refresh that was stored, or what the cache began with. *)
Definition last_stored (nodes0 : A) (c : cache) : A * Z := default (nodes0, 0) (head (c_stored c)).

Definition cache_inv (nodes0 : A) (c : cache) : Prop :=
  let '(nodes, time) := last_stored nodes0 c in
  c_time c = time /\
  match c_lock c with
  | Free | Refresh _ _ false | Request None => c_nodes c = nodes
  | Refresh nodes' _ true => c_nodes c = nodes'
  | Request (Some nodes') => c_nodes c = nodes /\ nodes' = nodes
  end.

Lemma cache_inv_step nodes0 c a c' : cache_inv nodes0 c -> cache_next c a = Some c' -> cache_inv nodes0 c'.
Proof.
  unfold cache_inv, last_stored. destruct c as [n t l st an]. cbn.
  destruct (default (nodes0, 0) (head st)) as [ns tm] eqn:E.
  destruct a, l as [|? ? []|[]]; cbn; intros [Ht H] Hn; try discriminate Hn; injection Hn as <-; cbn; rewrite ?E; cbn; intuition congruence.
Qed.

(** What the handlers answer.  However refreshes and requests interleave,
    and whichever refreshes fail, the answer that is given at a step is the
    list and the time of one refresh, and of the last one that was stored. *)
Theorem answers_are_refreshes nodes0 c a c' :
  cache_run (cache_start nodes0) c -> cache_next c a = Some c' ->
  c_answers c' = c_answers c \/ c_answers c' = last_stored nodes0 c :: c_answers c.
Proof.
  intros Hr Hn. assert (Hi : cache_inv nodes0 c).
  { assert (H0 : cache_inv nodes0 (cache_start nodes0)) by done. revert H0.
    clear Hn. induction Hr as [|c1 b c2 c3 Hs _ IH]; [done|]. intros H0. apply IH. by eapply cache_inv_step. }
  unfold cache_inv in Hi. destruct c as [n t l st an]. cbn in *.
  destruct (last_stored nodes0 _) as [ns tm]. destruct Hi as [<- Hi].
  destruct a, l as [|? ? []|[]]; try discriminate Hn; injection Hn as <-; cbn; auto.
  right. by destruct Hi as [_ <-].
Qed.
End Cache.
Arguments cache A : clear implicits.
Arguments cache_step A : clear implicits.

(** ** Concrete cases *)

Fixpoint cache_exec {A} (c : cache A) (acts : list (cache_step A)) : option (cache A) :=
  match acts with [] => Some c | a :: acts' => cache_next c a ≫= fun c' => cache_exec c' acts' end.

Lemma cache_exec_run {A} (c c' : cache A) acts : cache_exec c acts = Some c' -> cache_run c c'.
Proof.
  revert c. induction acts as [|a acts IH]; cbn; intros c H; [injection H as <-; constructor|].
  destruct (cache_next c a) as [c1|] eqn:E; [|done]. econstructor; [done|]. by apply IH.
Qed.

Lemma answers_are_refreshes_witness :
  exists c c', cache_exec (cache_start 5) [RefreshLock 6 10; RefreshStore; RefreshStore; RequestLock; RequestRead] = Some c /\
    cache_next c RequestRead = Some c' /\ head (c_answers c') = Some (6, 10).
Proof.
  destruct (cache_exec (cache_start 5) [RefreshLock 6 10; RefreshStore; RefreshStore; RequestLock; RequestRead]) as [c|] eqn:E;
    [|discriminate E].
  exists c. pose proof (cache_exec_run _ _ _ E) as Hr. revert E. intros [= <-]. eexists. split; [reflexivity|].
  split; [reflexivity|].
  destruct (answers_are_refreshes 5 _ RequestRead _ Hr eq_refl) as [H|H]; [discriminate H|]. rewrite H. reflexivity.
Defined.

(** A journal with a node, the rebuild directory and a file. *)
Example nodes_example :
  let f := mk_node_files (Some (with_base 9 77 demo_manifest)) None None None (Some (100, 3)) false in
  let j := list_to_map [("km2", Dir f); ("rebuild", Dir f); ("km1", Dir f); (".tmp", Dir f); ("README", Plain)]%string in
  (fun r => (nr_node r, nr_state r, nr_replica_used_bytes r, nr_applied_time r)) <$>
    nodes_of (mk_share (Some j) ∅) (fun _ => 0)
  = [("km1", AStale, Some 1536, Some 77); ("km2", AStale, Some 1536, Some 77)]%string.
Proof. by vm_compute. Qed.

Lemma seed_exit_shown_witness :
  let e := mk_seed_env (Some ("10.0.0.1", 101)%string) (Raise (SystemExit "cannot find boot disk")) (fun _ => zero_image) None true 0 0 0
             (fun _ => true) "b1" 5 [] in
  let s := mk_seed_state DonePhase None None None None in
  exists s', seed_main 256 e s = (Raise (SystemExit "cannot find boot disk"), s') /\
    node_view None (Some (CDP, 70)) (Some (ss_phase s')) 100 = ASeeding.
Proof.
  intros e s. destruct (seed_exit_shown 256 e s ("10.0.0.1", 101)%string "cannot find boot disk" None CDP 70 100)
    as (s' & E & _ & _ & V); [reflexivity|reflexivity|vm_compute; discriminate|].
  exists s'. split; [exact E|exact V].
Defined.
