(* ===== verification/Driver.v ===== *)
(** * The device-mapper target ([drivers/md/dm-cdp.c])

    The driver that every write of the disk passes through: it marks the chunk
    in the dirty bitmap, puts a record into the ring, and hands the records to
    [/dev/cdpN] once the backing device has acknowledged them.  The ring is
    memory, a byte per address, that the code reads and writes field by field;
    integers have the width of their C type.  What the kernel decides (the
    clock, a failing copy to user space) is an argument. *)
From S2P Require Import Prelude PyString Dmcdp Files.

(** ** Integers and memory *)

Definition to_u16 (z : Z) : Z := z mod 2 ^ 16.
Definition to_u32 (z : Z) : Z := z mod 2 ^ 32.
Definition to_u64 (z : Z) : Z := z mod 2 ^ 64.

(** A little-endian load of [n] bytes, and a store. *)
Definition load (mem : image) (pos : Z) (n : nat) : Z := le_combine (img_read mem pos (Z.of_nat n)).
Definition store (mem : image) (pos : Z) (n : nat) (v : Z) : image := img_write mem pos (le_split n v).

(** [ALIGN(x, a)] for a power of two *)
Definition ALIGN (x a : Z) : Z := Z.land (x + a - 1) (Z.lnot (a - 1)).

(** ** Constants *)

Definition CDP_MAX_MINORS : Z := 64.
Definition CDP_REC_ALIGN : Z := 8.
Definition CDP_MAX_REC_DIV : Z := 4.
Definition CDP_MAX_IO_SECTORS : Z := 8192.
Definition ST_RESERVED : Z := 0.
Definition ST_DATA : Z := 1.
Definition ST_COMMITTED : Z := 2.

(** ** State *)

(** What the producer lock guards, and the consumer's offset. *)
Record ring : Type := mk_ring {
  rg_mem : image;
  rg_size : Z;
  rg_head : Z;
  rg_tail : Z;
  rg_seq_next : Z;
  rg_overflows : Z;
  rg_gap_pending : bool;
  rg_overflowed : bool;
}.

(** [struct cdp_target], with the fields of its [dm_target] that it uses. *)
Record cdp_target : Type := mk_target {
  tg_begin : Z;               (* ti->begin *)
  tg_len : Z;                 (* ti->len *)
  tg_start : Z;
  tg_ring : ring;
  tg_records : Z;
  tg_bytes_logged : Z;
  tg_bitmap : list Z;         (* unsigned longs *)
  tg_nbits : Z;
  tg_chunk_sectors : Z;
  tg_minor : Z;
  tg_dead : bool;
}.

Definition set_ring (g : ring) (t : cdp_target) : cdp_target :=
  mk_target (tg_begin t) (tg_len t) (tg_start t) g (tg_records t) (tg_bytes_logged t) (tg_bitmap t)
    (tg_nbits t) (tg_chunk_sectors t) (tg_minor t) (tg_dead t).
Definition set_counts (records bytes : Z) (t : cdp_target) : cdp_target :=
  mk_target (tg_begin t) (tg_len t) (tg_start t) (tg_ring t) records bytes (tg_bitmap t)
    (tg_nbits t) (tg_chunk_sectors t) (tg_minor t) (tg_dead t).
Definition set_bitmap (bm : list Z) (t : cdp_target) : cdp_target :=
  mk_target (tg_begin t) (tg_len t) (tg_start t) (tg_ring t) (tg_records t) (tg_bytes_logged t) bm
    (tg_nbits t) (tg_chunk_sectors t) (tg_minor t) (tg_dead t).

Definition with_mem (mem : image) (g : ring) : ring :=
  mk_ring mem (rg_size g) (rg_head g) (rg_tail g) (rg_seq_next g) (rg_overflows g) (rg_gap_pending g) (rg_overflowed g).
Definition with_tail (tail : Z) (g : ring) : ring :=
  mk_ring (rg_mem g) (rg_size g) (rg_head g) tail (rg_seq_next g) (rg_overflows g) (rg_gap_pending g) (rg_overflowed g).
Definition with_overflowed (b : bool) (g : ring) : ring :=
  mk_ring (rg_mem g) (rg_size g) (rg_head g) (rg_tail g) (rg_seq_next g) (rg_overflows g) (rg_gap_pending g) b.
Definition with_overflows (n : Z) (g : ring) : ring :=
  mk_ring (rg_mem g) (rg_size g) (rg_head g) (rg_tail g) (rg_seq_next g) n (rg_gap_pending g) (rg_overflowed g).

(** ** The dirty bitmap *)

(** [set_bit(b, bitmap)] *)
Definition set_bit (b : Z) (bm : list Z) : list Z :=
  alter (fun w => Z.setbit w (b mod 64)) (Z.to_nat (b / 64)) bm.

Definition test_bit (b : Z) (bm : list Z) : bool := Z.testbit (default 0 (bm !! Z.to_nat (b / 64))) (b mod 64).

(** [cdp_mark]; [bytes] is an [unsigned int], and so is [bytes + 511]. *)
Definition cdp_mark (t : cdp_target) (sector bytes : Z) : cdp_target :=
  if bytes =? 0 then t
  else
    let first := sector / tg_chunk_sectors t in
    let last := to_u64 (sector + to_u32 (bytes + 511) / 512 - 1) / tg_chunk_sectors t in
    let last := if tg_nbits t <=? last then tg_nbits t - 1 else last in
    set_bitmap (foldl (fun bm b => set_bit b bm) (tg_bitmap t) (seqZ first (last + 1 - first))) t.

(** ** The ring: producer *)

(** The header, field by field, as [struct dm_cdp_rec] lays it out. *)
Definition rec_widths : list nat := [4; 2; 2; 4; 4; 8; 8; 4; 4; 8; 8]%nat.
Definition put_header (mem : image) (pos : Z) (vs : list Z) : image :=
  img_write mem pos (concat (zip_with le_split rec_widths vs)).

Definition rec_type (mem : image) (pos : Z) : Z := load mem (pos + 6) 2.
Definition rec_flags (mem : image) (pos : Z) : Z := load mem (pos + 8) 4.
Definition rec_state (mem : image) (pos : Z) : Z := load mem (pos + 12) 4.
Definition rec_len (mem : image) (pos : Z) : Z := load mem (pos + 32) 4.
Definition rec_rec_len (mem : image) (pos : Z) : Z := load mem (pos + 36) 4.
Definition set_flags (mem : image) (pos v : Z) : image := store mem (pos + 8) 4 v.
Definition set_state (mem : image) (pos v : Z) : image := store mem (pos + 12) 4 v.

(** The address of the record at a monotonic offset ([cdp_rec_at]). *)
Definition cdp_rec_at (g : ring) (off : Z) : Z := off mod rg_size g.

(** [t->overflows++; t->overflowed = true; t->gap_pending = true] *)
Definition overflow (g : ring) : ring :=
  mk_ring (rg_mem g) (rg_size g) (rg_head g) (rg_tail g) (rg_seq_next g) (to_u64 (rg_overflows g + 1)) true true.

Definition rec_need (payload : Z) : Z := ALIGN (REC_SIZE + payload) CDP_REC_ALIGN.

(** The space lost before the end of the ring when a record does not fit
    there. *)
Definition rec_pad (g : ring) (need : Z) : Z :=
  let hpos := rg_head g mod rg_size g in
  if rg_size g <? hpos + need then rg_size g - hpos else 0.

Definition ring_free (g : ring) : Z := to_u64 (rg_size g - to_u64 (rg_head g - rg_tail g)).

(** The record that fills the end of the ring. *)
Definition pad_header (pad : Z) : list Z :=
  [REC_MAGIC; ABI_VERSION; REC_PAD; 0; ST_COMMITTED; 0; 0; 0; pad; 0; 0].

(** [cdp_reserve]: the offset of the new record, or nothing when there is no
    room. *)
Definition cdp_reserve (g : ring) (type flags sector len payload now : Z) : option Z * ring :=
  let need := rec_need payload in
  if rg_size g / CDP_MAX_REC_DIV <? need then (None, overflow g)
  else
    let hpos := rg_head g mod rg_size g in
    let pad := rec_pad g need in
    if ring_free g <? need + pad then (None, overflow g)
    else
      let mem := if (0 <? pad) && (REC_SIZE <=? pad) then put_header (rg_mem g) hpos (pad_header pad) else rg_mem g in
      let head := to_u64 (rg_head g + pad) in
      let hpos := if 0 <? pad then 0 else hpos in
      let flags := if rg_gap_pending g then Z.lor flags F_GAP_BEFORE else flags in
      let mem := put_header mem hpos
        [REC_MAGIC; ABI_VERSION; type; flags; ST_RESERVED; rg_seq_next g; sector; len; need; now; 0] in
      (Some head, mk_ring mem (rg_size g) (to_u64 (head + need)) (rg_tail g) (to_u64 (rg_seq_next g + 1))
                    (rg_overflows g) false (rg_overflowed g)).

(** ** I/O requests *)

Inductive bio_op : Type := OpWrite | OpDiscard | OpSecureErase | OpWriteZeroes | OpOther.

#[export] Instance bio_op_eq_dec : EqDecision bio_op.
Proof. solve_decision. Defined.

(** [bi_size] is the length of [bi_data] for a write that carries data. *)
Record bio : Type := mk_bio {
  bi_op : bio_op;
  bi_fua : bool;
  bi_preflush : bool;
  bi_sector : Z;
  bi_size : Z;
  bi_data : bytes;
}.

(** [struct cdp_pb]: the offset of the record, if there is one. *)
Definition cdp_pb : Type := option Z.

(** [cdp_log] up to the copy of the data: mark and reserve. *)
Definition log_reserve (t : cdp_target) (now type flags rel len : Z) (copy : bool) : cdp_pb * cdp_target :=
  let t := cdp_mark t rel len in
  let '(off, g) := cdp_reserve (tg_ring t) type flags rel len (if copy then len else 0) now in
  (off, set_ring g t).

(** The rest, for the record at [off]: the copy and the state.  Other
    processors run in between. *)
Definition log_fill (t : cdp_target) (b : bio) (copy : bool) (off : Z) : cdp_target :=
  let g := tg_ring t in
  let pos := cdp_rec_at g off in
  let mem := if copy then img_write (rg_mem g) (pos + REC_SIZE) (bi_data b) else rg_mem g in
  set_ring (with_mem (set_state mem pos ST_DATA) g) t.

Definition cdp_log (t : cdp_target) (b : bio) (now type flags rel len : Z) (copy : bool) : cdp_pb * cdp_target :=
  let '(pb, t) := log_reserve t now type flags rel len copy in
  (pb, match pb with Some off => log_fill t b copy off | None => t end).

Definition bio_flags (b : bio) : Z :=
  Z.lor (if bi_fua b then F_FUA else 0) (if bi_preflush b then F_PREFLUSH else 0).

(** [cdp_map]: what is logged of a request, by [log]; it goes on to the
    backing device at [start + rel]. *)
Definition cdp_map_with (log : cdp_target -> Z -> Z -> Z -> Z -> bool -> cdp_pb * cdp_target) (t : cdp_target) (b : bio)
    : cdp_pb * Z * cdp_target :=
  let rel := to_u64 (bi_sector b - tg_begin t) in
  let flags := bio_flags b in
  let '(pb, t') :=
    match bi_op b with
    | OpWrite =>
        if bi_size b =? 0 then
          if bi_preflush b then log t REC_FLUSH flags 0 0 false else (None, t)
        else log t REC_WRITE flags rel (bi_size b) true
    | OpDiscard | OpSecureErase => log t REC_DISCARD flags rel (bi_size b) false
    | OpWriteZeroes => log t REC_ZERO flags rel (bi_size b) false
    | OpOther => (None, t)
    end in
  (pb, to_u64 (tg_start t + rel), t').

Definition cdp_map (t : cdp_target) (b : bio) (now : Z) : cdp_pb * Z * cdp_target :=
  cdp_map_with (fun t => cdp_log t b now) t b.

(** [cdp_map] up to the copy of the data. *)
Definition map_reserve (t : cdp_target) (b : bio) (now : Z) : cdp_pb * Z * cdp_target :=
  cdp_map_with (fun t => log_reserve t now) t b.

(** [cdp_end_io]: the device is done with the request. *)
Definition cdp_end_io (t : cdp_target) (pb : cdp_pb) (error : bool) : cdp_target :=
  match pb with
  | None => t
  | Some off =>
      let g := tg_ring t in
      let pos := cdp_rec_at g off in
      let mem := if error then set_flags (rg_mem g) pos (Z.lor (rec_flags (rg_mem g) pos) F_ERROR) else rg_mem g in
      let bytes := if rec_type mem pos =? REC_WRITE then tg_bytes_logged t + rec_len mem pos else tg_bytes_logged t in
      set_counts (tg_records t + 1) bytes (set_ring (with_mem (set_state mem pos ST_COMMITTED) g) t)
  end.

(** ** The ring: consumer *)

(** [cdp_next]: the address of the record at or after [p], and its offset.
    [None] inside is "caught up", [None] outside an endless loop: a round that
    skips padding gets at least a byte closer to the head. *)
Fixpoint cdp_next (fuel : nat) (g : ring) (p : Z) : option (option (Z * Z)) :=
  match fuel with
  | O => None
  | S fuel' =>
      if rg_head g <=? p then Some None
      else
        let ppos := p mod rg_size g in
        if rg_size g - ppos <? REC_SIZE then cdp_next fuel' g (to_u64 (p + (rg_size g - ppos)))
        else if rec_type (rg_mem g) ppos =? REC_PAD
        then cdp_next fuel' g (to_u64 (p + rec_rec_len (rg_mem g) ppos))
        else Some (Some (ppos, p))
  end.

Definition next_fuel (g : ring) : nat := S (Z.to_nat (rg_head g - rg_tail g)).

(** The record that can be delivered: its address and offset. *)
Definition deliverable (g : ring) : option (Z * Z) :=
  match cdp_next (next_fuel g) g (rg_tail g) with
  | Some (Some (ppos, p)) => if rec_state (rg_mem g) ppos =? ST_COMMITTED then Some (ppos, p) else None
  | _ => None
  end.

Definition cdp_readable (t : cdp_target) : bool :=
  match deliverable (tg_ring t) with Some _ => true | None => false end.

Inductive errno : Type := EAGAIN | EMSGSIZE | EFAULT | EINVAL | ENOSPC | ENOMEM | ENODEV | ENOTTY.

(** The end of a [read]: bytes, end of file, an error, or the wait of a
    blocking reader. *)
Inductive read_outcome : Type :=
  | ReadBytes (b : bytes)
  | ReadEof
  | ReadError (e : errno)
  | ReadWaits.

Section Read.
(** [copy_to_user] of the record at this offset of the buffer succeeds. *)
Variable copy_ok : Z -> bool.
Variables (nonblock dead : bool) (count : Z).

(** The loop of [cdp_read]; a round delivers one record of at least a header,
    so that [count] bytes are enough fuel. *)
Fixpoint cdp_read_loop (fuel : nat) (g : ring) (copied : bytes) : read_outcome * ring :=
  match fuel with
  | O => (ReadBytes copied, g)
  | S fuel' =>
      match deliverable g with
      | None =>
          (if negb (bool_decide (copied = [])) then ReadBytes copied
           else if dead then ReadEof
           else if nonblock then ReadError EAGAIN else ReadWaits, g)
      | Some (ppos, p) =>
          let len := rec_rec_len (rg_mem g) ppos in
          if count - blen copied <? len then
            (if bool_decide (copied = []) then ReadError EMSGSIZE else ReadBytes copied, g)
          else if negb (copy_ok (blen copied)) then
            (if bool_decide (copied = []) then ReadError EFAULT else ReadBytes copied, g)
          else
            cdp_read_loop fuel' (with_tail (to_u64 (p + len)) g) (copied ++ img_read (rg_mem g) ppos len)
      end
  end.
End Read.

Definition cdp_read (copy_ok : Z -> bool) (nonblock : bool) (count : Z) (t : cdp_target) : read_outcome * cdp_target :=
  let '(o, g) := cdp_read_loop copy_ok nonblock (tg_dead t) count (S (Z.to_nat count)) (tg_ring t) [] in
  (o, set_ring g t).

(** [cdp_poll]: readable, and the hang-up. *)
Definition cdp_poll (t : cdp_target) : bool * bool := (cdp_readable t, tg_dead t).

(** ** ioctls and messages *)

Definition BITS_TO_LONGS (n : Z) : Z := (n + 63) / 64.
Definition cdp_bitmap_bytes (t : cdp_target) : Z := BITS_TO_LONGS (tg_nbits t) * 8.

(** [bitmap_weight]: the bits below [nbits] that are set. *)
Definition bitmap_weight (bm : list Z) (nbits : Z) : Z :=
  blen (List.filter (fun b => test_bit b bm) (seqZ 0 nbits)).

Definition status_widths : list nat := [4; 4; 8; 4; 4; 8; 8; 8; 8; 8; 8; 8; 8; 8; 8; 8; 8; 8]%nat.

Definition status_flags (t : cdp_target) : Z :=
  Z.lor (if rg_overflowed (tg_ring t) then S_OVERFLOWED else 0) (if tg_dead t then S_DEAD else 0).

(** [cdp_ioctl_status]: [struct dm_cdp_status] *)
Definition status_fields (t : cdp_target) : list Z :=
  let g := tg_ring t in
  [ABI_VERSION; status_flags t; tg_len t; tg_chunk_sectors t; tg_minor t; tg_nbits t; cdp_bitmap_bytes t;
   bitmap_weight (tg_bitmap t) (tg_nbits t); rg_size g; to_u64 (rg_head g - rg_tail g); rg_seq_next g;
   tg_records t; tg_bytes_logged t; rg_overflows g; 0; 0; 0; 0].

Definition cdp_ioctl_status (t : cdp_target) : bytes := concat (zip_with le_split status_widths (status_fields t)).

(** The words as they are copied to user space. *)
Definition bitmap_bytes_of (bm : list Z) : bytes := concat (le_split 8 <$> bm).

Definition clear_overflowed (t : cdp_target) : cdp_target := set_ring (with_overflowed false (tg_ring t)) t.

(** [cdp_ioctl_bitmap] when nothing runs beside it (the file BitmapRace has
    its loop word by word); [req] is the length of the buffer and the clear
    bit as [copy_from_user] reads them, [alloc] is [vmalloc], [copied] the copy
    to user space. *)
Definition cdp_ioctl_bitmap (alloc copied : bool) (req : option (Z * bool)) (t : cdp_target)
    : (errno + bytes) * cdp_target :=
  match req with
  | None => (inl EFAULT, t)
  | Some (len, clear) =>
      if len <? cdp_bitmap_bytes t then (inl ENOSPC, t)
      else if negb alloc then (inl ENOMEM, t)
      else
        let tmp := bitmap_bytes_of (tg_bitmap t) in
        let t' := if clear then clear_overflowed (set_bitmap ((fun _ => 0) <$> tg_bitmap t) t) else t in
        (if copied then inr tmp else inl EFAULT, t')
  end.

(** [bitmap_zero] and the flag, for the ioctl and for the message. *)
Definition cdp_bitmap_clear (t : cdp_target) : cdp_target :=
  clear_overflowed (set_bitmap ((fun _ => 0) <$> tg_bitmap t) t).

Definition cdp_reset_stats (t : cdp_target) : cdp_target :=
  set_counts 0 0 (set_ring (with_overflows 0 (tg_ring t)) t).

(** [IocBitmapFault] is the bitmap ioctl with an argument that cannot be
    read. *)
Inductive ioctl_cmd : Type :=
  | IocStatus | IocBitmap (len : Z) (clear : bool) | IocBitmapFault | IocBitmapClear | IocResetStats | IocOther.

(** [cdp_ioctl]: an error, or what is copied to the caller. *)
Definition cdp_ioctl (alloc copied : bool) (cmd : ioctl_cmd) (t : cdp_target) : (errno + bytes) * cdp_target :=
  match cmd with
  | IocStatus => (if copied then inr (cdp_ioctl_status t) else inl EFAULT, t)
  | IocBitmap len clear => cdp_ioctl_bitmap alloc copied (Some (len, clear)) t
  | IocBitmapFault => cdp_ioctl_bitmap alloc copied None t
  | IocBitmapClear => (inr [], cdp_bitmap_clear t)
  | IocResetStats => (inr [], cdp_reset_stats t)
  | IocOther => (inl ENOTTY, t)
  end.

(** The request numbers, as the macros of the header compute them from the
    direction, the size of the argument and the number. *)
Definition DM_CDP_IOC_MAGIC : Z := 0xCD.
Definition IOC (dir size nr : Z) : Z :=
  Z.lor (Z.shiftl dir 30) (Z.lor (Z.shiftl size 16) (Z.lor (Z.shiftl DM_CDP_IOC_MAGIC 8) nr)).
Definition sizeof_status : Z := Z.of_nat (sum_widths status_widths).
Definition sizeof_bitmap : Z := Z.of_nat (sum_widths [8; 8; 4; 4]%nat).
Definition DM_CDP_IOC_STATUS : Z := IOC 2 sizeof_status 1.
Definition DM_CDP_IOC_BITMAP : Z := IOC 3 sizeof_bitmap 2.
Definition DM_CDP_IOC_BITMAP_CLEAR : Z := IOC 0 0 3.
Definition DM_CDP_IOC_RESET_STATS : Z := IOC 0 0 4.

(** The [switch] of [cdp_ioctl]; [req] holds the [len] and [flags] of the
    [struct dm_cdp_bitmap] behind the argument, if it can be read. *)
Definition ioctl_decode (cmd : Z) (req : option (Z * Z)) : ioctl_cmd :=
  if cmd =? DM_CDP_IOC_STATUS then IocStatus
  else if cmd =? DM_CDP_IOC_BITMAP then
    match req with
    | Some (len, flags) => IocBitmap len (negb (Z.land flags BM_CLEAR =? 0))
    | None => IocBitmapFault
    end
  else if cmd =? DM_CDP_IOC_BITMAP_CLEAR then IocBitmapClear
  else if cmd =? DM_CDP_IOC_RESET_STATS then IocResetStats
  else IocOther.

(** [cdp_message]: [strcasecmp] for ASCII. *)
Definition cdp_message (argv : list string) (t : cdp_target) : option errno * cdp_target :=
  match argv with
  | [arg] =>
      if String.eqb (lower arg) "clear_bitmap" then (None, cdp_bitmap_clear t)
      else if String.eqb (lower arg) "reset_stats" then (None, cdp_reset_stats t)
      else (Some EINVAL, t)
  | _ => (Some EINVAL, t)
  end.

(** ** Setting a target up *)

Definition DIV_ROUND_UP (a b : Z) : Z := (a + b - 1) / b.

(** The state [cdp_ctr] leaves for a table line of [len] sectors that begins at
    [begin], when everything it asks for is there.  The ring is not
    initialised. *)
Definition cdp_ctr_target (begin len offset ring_mb chunk_kb minor : Z) (mem : image) : cdp_target :=
  let chunk_sectors := to_u32 (chunk_kb * 2) in
  let nbits := DIV_ROUND_UP len chunk_sectors in
  mk_target begin len offset
    (mk_ring mem (to_u64 (ring_mb * 2 ^ 20)) 0 0 0 0 false false) 0 0
    (replicate (Z.to_nat (BITS_TO_LONGS nbits)) 0) nbits chunk_sectors minor false.

(** What the constructor acquires, and the labels of its error path. *)
Inductive resource : Type := RContext | RDevice | RRing | RBitmap | RMinor | RCdev | RDevNode.

#[export] Instance resource_eq_dec : EqDecision resource.
Proof. solve_decision. Defined.

Inductive ctr_call : Type :=
  | Kzalloc | DmGetDevice | VmallocRing | BitmapZalloc | IdaAlloc | CdevAdd | DeviceCreate | SetMaxIoLen.

Inductive ctr_label : Type := ErrDevice | ErrCdev | ErrIda | ErrBitmap | ErrRing | ErrDev | ErrFree.

(** What the statements from a label to the end release. *)
Definition cleanup (l : ctr_label) : list resource :=
  let err_free := [RContext] in
  let err_dev := RDevice :: err_free in
  let err_ring := RRing :: err_dev in
  let err_bitmap := RBitmap :: err_ring in
  let err_ida := RMinor :: err_bitmap in
  let err_cdev := RCdev :: err_ida in
  let err_device := RDevNode :: err_cdev in
  match l with
  | ErrDevice => err_device | ErrCdev => err_cdev | ErrIda => err_ida | ErrBitmap => err_bitmap
  | ErrRing => err_ring | ErrDev => err_dev | ErrFree => err_free
  end.

(** The calls of [cdp_ctr] in order: what each acquires, and where it goes
    when it fails. *)
Definition ctr_calls : list (ctr_call * list resource * option ctr_label) :=
  [(Kzalloc, [RContext], None); (DmGetDevice, [RDevice], Some ErrFree); (VmallocRing, [RRing], Some ErrDev);
   (BitmapZalloc, [RBitmap], Some ErrRing); (IdaAlloc, [RMinor], Some ErrBitmap); (CdevAdd, [RCdev], Some ErrIda);
   (DeviceCreate, [RDevNode], Some ErrCdev); (SetMaxIoLen, [], Some ErrDevice)].

Section Ctr.
(** The answers of the kernel. *)
Variable fails : ctr_call -> bool.

(** Whether the constructor succeeds, what it acquired (the last first), and
    what it released. *)
Fixpoint ctr_run (calls : list (ctr_call * list resource * option ctr_label)) (held : list resource)
    : bool * list resource * list resource :=
  match calls with
  | [] => (true, held, [])
  | (c, acquires, l) :: calls' =>
      if fails c then (false, held, match l with Some l => cleanup l | None => [] end)
      else ctr_run calls' (acquires ++ held)
  end.
End Ctr.

Definition power_of_two (n : Z) : bool := Z.land n (n - 1) =? 0.

(** The arguments: two words, a decimal offset, and the module parameters. *)
Definition ctr_args_ok (argc : Z) (offset : option Z) (ring_mb chunk_kb : Z) : bool :=
  (argc =? 2) && match offset with Some o => (0 <=? o) && (o <? 2 ^ 64) | None => false end &&
  negb (ring_mb =? 0) && negb (chunk_kb =? 0) && power_of_two chunk_kb.

(** ** The life of a target

    The references to the context: the target's own, and one of every open
    file.  An [open] of the character device first finds the [cdev] and then
    calls [cdp_open], which reads the context the [cdev] is part of.  The
    context points to the [dm_target] ([t->ti]), which belongs to
    device-mapper: it is freed with the table after [cdp_dtr], whatever files
    are open. *)

Record life : Type := mk_life {
  lf_refs : nat;            (* kref *)
  lf_dead : bool;
  lf_cdev : bool;           (* the device node leads to the cdev *)
  lf_opening : nat;         (* opens that found the cdev *)
  lf_files : nat;           (* open files *)
  lf_freed : bool;          (* the context *)
  lf_ti_freed : bool;       (* the dm_target *)
  lf_fault : bool;          (* freed memory was used *)
}.

Definition life_init : life := mk_life 1 false true 0 0 false false false.

(** [kref_put(&t->kref, cdp_free)] *)
Definition put_ref (l : life) : life :=
  match lf_refs l with
  | O | 1%nat => mk_life 0 (lf_dead l) (lf_cdev l) (lf_opening l) (lf_files l) true (lf_ti_freed l) (lf_fault l)
  | S n => mk_life n (lf_dead l) (lf_cdev l) (lf_opening l) (lf_files l) (lf_freed l) (lf_ti_freed l) (lf_fault l)
  end.

(** The context is read or written. *)
Definition use_context (l : life) : life :=
  mk_life (lf_refs l) (lf_dead l) (lf_cdev l) (lf_opening l) (lf_files l) (lf_freed l) (lf_ti_freed l) (lf_fault l || lf_freed l).

(** The [dm_target] is. *)
Definition use_target (l : life) : life :=
  mk_life (lf_refs l) (lf_dead l) (lf_cdev l) (lf_opening l) (lf_files l) (lf_freed l) (lf_ti_freed l) (lf_fault l || lf_ti_freed l).

Definition life_open (l : life) : life :=
  match lf_opening l with
  | O => l
  | S n =>
      let l := use_context (mk_life (lf_refs l) (lf_dead l) (lf_cdev l) n (lf_files l) (lf_freed l) (lf_ti_freed l) (lf_fault l)) in
      if lf_dead l then l
      else mk_life (S (lf_refs l)) (lf_dead l) (lf_cdev l) (lf_opening l) (S (lf_files l)) (lf_freed l) (lf_ti_freed l) (lf_fault l)
  end.

Definition life_release (l : life) : life :=
  match lf_files l with
  | O => l
  | S n =>
      put_ref (use_context (mk_life (lf_refs l) (lf_dead l) (lf_cdev l) (lf_opening l) n (lf_freed l) (lf_ti_freed l) (lf_fault l)))
  end.

Definition life_dtr (l : life) : life :=
  if lf_dead l then l
  else put_ref (mk_life (lf_refs l) true false (lf_opening l) (lf_files l) (lf_freed l) (lf_ti_freed l) (lf_fault l)).

(** A call on an open file: [read], [poll] and the ioctls use the context,
    [DM_CDP_IOC_STATUS] also [t->ti->len]. *)
Definition life_call (status : bool) (l : life) : life :=
  match lf_files l with
  | O => l
  | _ => let l := use_context l in if status then use_target l else l
  end.

Inductive life_event : Type :=
  | FindCdev
  | CdpOpen
  | CdpRelease
  | CdpUse (status : bool)
  | CdpDtr
  | DmFreeTarget.             (* device-mapper frees the table *)

Definition life_step (l : life) (e : life_event) : life :=
  match e with
  | FindCdev =>
      if lf_cdev l
      then mk_life (lf_refs l) (lf_dead l) (lf_cdev l) (S (lf_opening l)) (lf_files l) (lf_freed l) (lf_ti_freed l) (lf_fault l)
      else l
  | CdpOpen => life_open l
  | CdpRelease => life_release l
  | CdpUse status => life_call status l
  | CdpDtr => life_dtr l
  | DmFreeTarget =>
      if lf_dead l
      then mk_life (lf_refs l) (lf_dead l) (lf_cdev l) (lf_opening l) (lf_files l) (lf_freed l) true (lf_fault l)
      else l
  end.

Definition life_run (l : life) (es : list life_event) : life := foldl life_step l es.
