(* ===== verification/Ring.v ===== *)
(** * The ring of the driver is a queue of records

    The ring of [Driver], seen as the queue of the records that lie in it:
    [layout] says where each one is, and what fills the gaps.  The lemmas say
    what reserving, filling, completing and delivering a record do to the
    queue, whatever the offsets and the wrap-around. *)
From S2P Require Import Prelude Dmcdp Files Driver.

#[global] Arguments load : simpl never.
#[global] Arguments store : simpl never.
#[global] Arguments put_header : simpl never.

(** ** Memory *)

Lemma img_read_ext m m' p n : (forall i, p <= i < p + n -> m i = m' i) -> img_read m p n = img_read m' p n.
Proof.
  intros H. apply list_fmap_ext. intros k i Hk. apply lookup_seqZ in Hk. apply H. lia.
Qed.

Lemma img_read_add m p a b : 0 <= a -> 0 <= b -> img_read m p (a + b) = img_read m p a ++ img_read m (p + a) b.
Proof. intros Ha Hb. unfold img_read. by rewrite seqZ_app, fmap_app. Qed.

Lemma img_read_written m p buf n : n = blen buf -> img_read (img_write m p buf) p n = buf.
Proof.
  intros ->. apply list_eq. intros k. destruct (decide (k < length buf)%nat) as [L|L].
  - pose proof (img_read_lookup (img_write m p buf) p (blen buf) (p + Z.of_nat k)) as E.
    replace (Z.to_nat (p + Z.of_nat k - p)) with k in E by lia. rewrite E by (unfold blen; lia).
    rewrite img_write_in by (unfold blen; lia). replace (Z.to_nat (p + Z.of_nat k - p)) with k by lia.
    destruct (lookup_lt_is_Some_2 buf k L) as [x ->]. done.
  - rewrite !lookup_ge_None_2; [done|lia|]. pose proof (blen_img_read (img_write m p buf) p (blen buf)). unfold blen in *. lia.
Qed.

Lemma img_write_app m p b1 b2 i : img_write m p (b1 ++ b2) i = img_write (img_write m p b1) (p + blen b1) b2 i.
Proof.
  pose proof (blen_nonneg b1). pose proof (blen_nonneg b2).
  destruct (decide (p <= i < p + blen b1)) as [A|A].
  - rewrite (img_write_out (img_write m p b1)) by lia. rewrite !img_write_in by (rewrite ?blen_app; lia).
    rewrite lookup_app_l; [done|unfold blen in *; lia].
  - destruct (decide (p + blen b1 <= i < p + blen b1 + blen b2)) as [B|B].
    + rewrite !img_write_in by (rewrite ?blen_app; lia).
      rewrite lookup_app_r by (unfold blen in *; lia). do 2 f_equal. unfold blen in *. lia.
    + rewrite !img_write_out by (rewrite ?blen_app; lia). done.
Qed.

Lemma blen_le_split n v : blen (le_split n v) = Z.of_nat n.
Proof. unfold blen. by rewrite LittleEndianList.length_le_split. Qed.

Lemma load_ext m m' p n : (forall i, p <= i < p + Z.of_nat n -> m i = m' i) -> load m p n = load m' p n.
Proof. intros H. unfold load. f_equal. by apply img_read_ext. Qed.

Lemma load_stored m p n v : 0 <= v < 2 ^ (8 * Z.of_nat n) -> load (store m p n v) p n = v.
Proof.
  intros H. unfold load, store. rewrite img_read_written by (by rewrite blen_le_split).
  rewrite LittleEndianList.le_combine_split. apply Z.mod_small. by rewrite (Z.mul_comm _ 8).
Qed.

Lemma load_store_other m p n v q k :
  q + Z.of_nat k <= p \/ p + Z.of_nat n <= q -> load (store m p n v) q k = load m q k.
Proof. intros H. apply load_ext. intros i Hi. apply img_write_out. rewrite blen_le_split. lia. Qed.

Lemma store_out m p n v i : ~ (p <= i < p + Z.of_nat n) -> store m p n v i = m i.
Proof. intros H. apply img_write_out. by rewrite blen_le_split. Qed.

(** ** Headers *)

(** The eleven fields of the header at an address. *)
Definition fields_at (m : image) (p : Z) : list Z :=
  [load m p 4; load m (p + 4) 2; load m (p + 6) 2; load m (p + 8) 4; load m (p + 12) 4; load m (p + 16) 8;
   load m (p + 24) 8; load m (p + 32) 4; load m (p + 36) 4; load m (p + 40) 8; load m (p + 48) 8].

Lemma unpack_read ws m p :
  unpack_widths ws (img_read m p (Z.of_nat (sum_widths ws))) =
    (fix go ws p := match ws with [] => [] | w :: ws' => load m p w :: go ws' (p + Z.of_nat w) end) ws p.
Proof.
  revert p. induction ws as [|w ws IH]; intros p; [done|]. cbn [unpack_widths sum_widths foldr].
  rewrite Nat2Z.inj_add, img_read_add by lia.
  pose proof (blen_img_read m p (Z.of_nat w)) as Hl.
  rewrite take_app_length', drop_app_length' by (unfold blen in Hl; lia). f_equal. apply IH.
Qed.

Lemma fields_unpack m p : fields_at m p = unpack_widths rec_widths (img_read m p REC_SIZE).
Proof.
  change REC_SIZE with (Z.of_nat (sum_widths rec_widths)). rewrite unpack_read. unfold rec_widths, fields_at.
  by rewrite <-!Z.add_assoc.
Qed.

Lemma fields_ext m m' p : (forall i, p <= i < p + REC_SIZE -> m i = m' i) -> fields_at m p = fields_at m' p.
Proof. intros H. rewrite !fields_unpack. f_equal. by apply img_read_ext. Qed.

Definition in_width (w : nat) (v : Z) : Prop := 0 <= v < 2 ^ (8 * Z.of_nat w).

Lemma unpack_concat ws vs post :
  Forall2 in_width ws vs -> unpack_widths ws (concat (zip_with le_split ws vs) ++ post) = vs.
Proof.
  induction 1 as [|w v ws vs Hv _ IH]; [done|]. cbn [zip_with concat unpack_widths]. rewrite <-app_assoc.
  rewrite take_app_length', drop_app_length' by (by rewrite LittleEndianList.length_le_split). rewrite IH. f_equal.
  rewrite LittleEndianList.le_combine_split. apply Z.mod_small. by rewrite (Z.mul_comm _ 8).
Qed.

Lemma blen_header vs : length vs = 11%nat -> blen (concat (zip_with le_split rec_widths vs)) = REC_SIZE.
Proof.
  intros H. do 12 (destruct vs as [|? vs]; try discriminate H). cbn [rec_widths zip_with concat].
  rewrite !blen_app, !blen_le_split. reflexivity.
Qed.

Lemma fields_put m p vs : Forall2 in_width rec_widths vs -> fields_at (put_header m p vs) p = vs.
Proof.
  intros H. rewrite fields_unpack. unfold put_header.
  rewrite img_read_written by (by rewrite blen_header by (apply Forall2_length in H; done)).
  rewrite <-(app_nil_r (concat _)). by apply unpack_concat.
Qed.

Lemma put_header_out m p vs i : length vs = 11%nat -> ~ (p <= i < p + REC_SIZE) -> put_header m p vs i = m i.
Proof. intros Hl H. apply img_write_out. by rewrite blen_header. Qed.

(** The bytes of a header. *)
Definition rec_bytes (r : rec) : bytes := concat (zip_with le_split rec_widths (rec_fields r)).

Lemma unpack_inj ws b vs :
  length b = sum_widths ws -> unpack_widths ws b = vs -> b = concat (zip_with le_split ws vs).
Proof.
  intros Hl <-. revert b Hl. induction ws as [|w ws IH]; intros b Hl.
  - by apply nil_length_inv in Hl.
  - change (length b = w + sum_widths ws)%nat in Hl. cbn [unpack_widths zip_with concat].
    rewrite <-IH by (rewrite length_drop; lia).
    rewrite LittleEndianList.split_le_combine' by (rewrite length_take; lia). by rewrite take_drop.
Qed.

Lemma header_read m p r : fields_at m p = rec_fields r -> img_read m p REC_SIZE = rec_bytes r.
Proof.
  rewrite fields_unpack. intros H. apply unpack_inj; [|done].
  pose proof (blen_img_read m p REC_SIZE) as Hb. unfold blen in Hb. change REC_SIZE with 56 in *.
  change (sum_widths rec_widths) with 56%nat. lia.
Qed.

(** ** Addresses

    An offset [a] of the ring lies at [a mod size].  Offsets of one window of
    [size] bytes have different addresses. *)

Section Size.
Variable size : Z.
Hypothesis size_pos : 0 < size.

Lemma mod_inj a b : a mod size = b mod size -> Z.abs (a - b) < size -> a = b.
Proof.
  intros E H. pose proof (Z.div_mod a size). pose proof (Z.div_mod b size).
  assert (a / size = b / size) by nia. nia.
Qed.

(** The [n] bytes from [o] on do not cross the end of the ring. *)
Definition unwrapped (o n : Z) : Prop := o mod size + n <= size.

Lemma mod_add o k n : unwrapped o n -> 0 <= k < n -> (o + k) mod size = o mod size + k.
Proof.
  unfold unwrapped. intros H Hk. pose proof (Z.mod_pos_bound o size size_pos). rewrite <-Zplus_mod_idemp_l. apply Z.mod_small. lia.
Qed.

(** Two memories hold the same bytes for the offsets from [lo] up to [hi]. *)
Definition same_on (m m' : image) (lo hi : Z) : Prop := forall a, lo <= a < hi -> m (a mod size) = m' (a mod size).

Lemma same_on_weaken m m' lo hi lo' hi' : same_on m m' lo hi -> lo <= lo' -> hi' <= hi -> same_on m m' lo' hi'.
Proof. intros H ?? a Ha. apply H. lia. Qed.

Lemma same_on_trans m1 m2 m3 lo hi : same_on m1 m2 lo hi -> same_on m2 m3 lo hi -> same_on m1 m3 lo hi.
Proof. intros H1 H2 a Ha. by rewrite H1, H2. Qed.

Lemma same_on_bytes m m' o n : unwrapped o n -> same_on m m' o (o + n) ->
  forall i, o mod size <= i < o mod size + n -> m i = m' i.
Proof.
  intros Hu H i Hi. specialize (H (o + (i - o mod size)) ltac:(lia)).
  rewrite (mod_add o (i - o mod size) n) in H by (done || lia). by replace (o mod size + (i - o mod size)) with i in H by lia.
Qed.

(** A write at offset [o] does not show at the other offsets of the window. *)
Lemma write_same_on m o k n buf lo hi :
  unwrapped o n -> 0 <= k -> k + blen buf <= n -> hi <= lo + size ->
  hi <= o + k \/ o + k + blen buf <= lo ->
  Z.min lo o + size >= Z.max hi (o + n) ->
  same_on (img_write m (o mod size + k) buf) m lo hi.
Proof.
  intros Hu Hk Hn Hw Hd Hwin a Ha. apply img_write_out. intros Hi.
  assert (a = o + (a mod size - o mod size)) as E; [|pose proof (blen_nonneg buf); lia].
  apply mod_inj; [|lia]. rewrite (mod_add _ _ n); [lia|done|lia].
Qed.

(** ** Where the records lie *)

(** A record of the ring: its offset, its header, and what follows it. *)
Record slot : Type := mk_slot { sl_off : Z; sl_rec : rec; sl_data : bytes }.

Definition slot_len (s : slot) : Z := REC_SIZE + blen (sl_data s).
Definition slot_bytes (s : slot) : bytes := rec_bytes (sl_rec s) ++ sl_data s.

Record slot_at (m : image) (s : slot) : Prop := {
  slot_unwrapped : unwrapped (sl_off s) (slot_len s);
  slot_fields : fields_at m (sl_off s mod size) = rec_fields (sl_rec s);
  slot_data : img_read m (sl_off s mod size + REC_SIZE) (blen (sl_data s)) = sl_data s;
}.

(** The record after offset [a] starts at [o]: there, or at the start of the
    ring when the rest of the ring is filler. *)
Definition gap_at (m : image) (a o : Z) : Prop :=
  a = o \/ (a < o /\ a mod size + (o - a) = size /\
    (REC_SIZE <= o - a -> rec_type m (a mod size) = REC_PAD /\ rec_rec_len m (a mod size) = o - a)).

Fixpoint layout (m : image) (a : Z) (q : list slot) (h : Z) : Prop :=
  match q with
  | [] => a = h
  | s :: q' => gap_at m a (sl_off s) /\ slot_at m s /\ layout m (sl_off s + slot_len s) q' h
  end.

Lemma slot_len_ge s : REC_SIZE <= slot_len s.
Proof. unfold slot_len. pose proof (blen_nonneg (sl_data s)). lia. Qed.

Lemma slot_at_ext m m' s :
  slot_at m s -> same_on m m' (sl_off s) (sl_off s + slot_len s) -> slot_at m' s.
Proof.
  intros [Hu Hf Hd] H. pose proof (same_on_bytes _ _ _ _ Hu H) as E. pose proof (slot_len_ge s).
  unfold slot_len in E. pose proof (blen_nonneg (sl_data s)). change REC_SIZE with 56 in *. split; [done|..].
  - rewrite <-Hf. symmetry. apply fields_ext. change REC_SIZE with 56. intros i Hi. apply E. lia.
  - rewrite <-Hd at 2. symmetry. apply img_read_ext. intros i Hi. apply E. change REC_SIZE with 56 in *. lia.
Qed.

Lemma gap_at_ext m m' a o : gap_at m a o -> same_on m m' a o -> gap_at m' a o.
Proof.
  intros [->|(Hlt & Hend & Hp)] H; [by left|right]. split; [done|]. split; [done|]. intros Hs. specialize (Hp Hs).
  assert (unwrapped a (o - a)) as Hu by (unfold unwrapped; lia).
  replace o with (a + (o - a)) in H by lia. pose proof (same_on_bytes _ _ _ _ Hu H) as E. change REC_SIZE with 56 in Hs.
  unfold rec_type, rec_rec_len in *. rewrite <-(load_ext m m' _ 2), <-(load_ext m m' _ 4); [done|..]; intros i Hi; apply E; lia.
Qed.

Lemma layout_le m a q h : layout m a q h -> a <= h.
Proof.
  revert a. induction q as [|s q IH]; intros a; cbn; [lia|]. intros (G & _ & L). apply IH in L.
  pose proof (slot_len_ge s). change REC_SIZE with 56 in *. destruct G as [->|[? _]]; lia.
Qed.

Lemma gap_le m a o : gap_at m a o -> a <= o.
Proof. intros [->|[? _]]; lia. Qed.

Lemma layout_ext m m' a q h : layout m a q h -> same_on m m' a h -> layout m' a q h.
Proof.
  revert a. induction q as [|s q IH]; intros a; cbn; [done|]. intros (G & S & L) H.
  pose proof (gap_le _ _ _ G). pose proof (layout_le _ _ _ _ L). pose proof (slot_len_ge s). change REC_SIZE with 56 in *.
  split; [eapply gap_at_ext, same_on_weaken; [done..|lia|lia]|].
  split; [eapply slot_at_ext, same_on_weaken; [done..|lia|lia]|].
  apply IH; [done|]. eapply same_on_weaken; [done|lia|lia].
Qed.

Lemma layout_app m a q1 q2 h : layout m a (q1 ++ q2) h <-> exists b, layout m a q1 b /\ layout m b q2 h.
Proof.
  revert a. induction q1 as [|s q1 IH]; intros a; cbn.
  - split; [by exists a|]. by intros (? & -> & ?).
  - rewrite IH. split.
    + intros (G & S & b & L1 & L2). by exists b.
    + intros (b & (G & S & L1) & L2). split; [done|]. split; [done|]. by exists b.
Qed.

(** A record at the end of the queue. *)
Lemma layout_snoc m a q b s h :
  layout m a q b -> gap_at m b (sl_off s) -> slot_at m s -> h = sl_off s + slot_len s -> layout m a (q ++ [s]) h.
Proof. intros L G S ->. apply layout_app. exists b. split; [done|]. cbn. done. Qed.
End Size.


(** ** The invariant *)

(** A record as the producer writes it. *)
Record slot_wf (s : slot) : Prop := {
  wf_magic : r_magic (sl_rec s) = REC_MAGIC;
  wf_version : r_version (sl_rec s) = ABI_VERSION;
  wf_type : 1 <= r_type (sl_rec s) <= 4;
  wf_range : Forall2 in_width rec_widths (rec_fields (sl_rec s));
  wf_rec_len : r_rec_len (sl_rec s) = slot_len s;
  wf_payload : r_type (sl_rec s) = REC_WRITE -> r_len (sl_rec s) <= blen (sl_data s);
  wf_aligned : sl_off s mod 8 = 0 /\ slot_len s mod 8 = 0;
}.

Definition seqs (q : list slot) : list Z := (fun s => r_seq (sl_rec s)) <$> q.

(** The ring holds exactly the records of [q], oldest first, with consecutive
    sequence numbers. *)
Record ring_inv (g : ring) (q : list slot) : Prop := {
  ri_size : 0 < rg_size g < 2 ^ 52 /\ rg_size g mod 8 = 0;
  ri_window : 0 <= rg_tail g /\ rg_head g <= rg_tail g + rg_size g;
  ri_layout : layout (rg_size g) (rg_mem g) (rg_tail g) q (rg_head g);
  ri_slots : Forall slot_wf q;
  ri_aligned : rg_head g mod 8 = 0;
  ri_seqs : seqs q = seqZ (rg_seq_next g - blen q) (blen q);
  ri_seq_bound : blen q <= rg_seq_next g /\ 56 * rg_seq_next g <= rg_head g;
}.

(** The offsets have not come near the end of their 64 bits. *)
Definition ring_young (g : ring) : Prop := rg_head g + 2 * rg_size g < 2 ^ 64.

Lemma slot_bytes_len s : blen (slot_bytes s) = slot_len s.
Proof. unfold slot_bytes, rec_bytes. by rewrite blen_app, blen_header. Qed.

(** Each record is a frame of the stream that userspace reads. *)
Lemma slot_frame s : slot_wf s -> frame (slot_bytes s) (sl_rec s).
Proof.
  intros W. pose proof (slot_bytes_len s) as Hl. pose proof (slot_len_ge s).
  split.
  - unfold Rec_init, struct_unpack_from. rewrite fmt_widths_REC, slice_from_0, Z.sub_0_r.
    change (Z.of_nat (sum_widths _)) with REC_SIZE. rewrite (proj2 (Z.leb_le _ _)) by lia. rewrite res_bind_Ok.
    unfold slot_bytes, rec_bytes. rewrite (unpack_concat rec_widths) by apply W.
    destruct s as [o [] d]. cbn. pose proof (wf_magic _ W) as Hm. cbn in Hm. by rewrite Hm.
  - by rewrite (wf_rec_len _ W), Hl.
  - intros E. pose proof (wf_payload _ W E). unfold payload_len. rewrite (wf_rec_len _ W). unfold slot_len. lia.
Qed.

Lemma slot_read size m s : slot_at size m s -> img_read m (sl_off s mod size) (slot_len s) = slot_bytes s.
Proof.
  intros [_ Hf Hd]. unfold slot_len, slot_bytes. rewrite img_read_add by (done || apply blen_nonneg).
  by rewrite Hd, (header_read _ _ _ Hf).
Qed.

Lemma slot_type size m s : slot_at size m s -> rec_type m (sl_off s mod size) = r_type (sl_rec s).
Proof. intros [_ Hf _]. by injection Hf. Qed.

Lemma slot_state size m s : slot_at size m s -> rec_state m (sl_off s mod size) = r_state (sl_rec s).
Proof. intros [_ Hf _]. by injection Hf. Qed.

Lemma slot_rec_len size m s : slot_at size m s -> rec_rec_len m (sl_off s mod size) = r_rec_len (sl_rec s).
Proof. intros [_ Hf _]. by injection Hf. Qed.

(** ** The consumer finds the oldest record *)

Lemma cdp_next_record fuel g s :
  slot_at (rg_size g) (rg_mem g) s -> slot_wf s -> sl_off s < rg_head g ->
  cdp_next (S fuel) g (sl_off s) = Some (Some (sl_off s mod rg_size g, sl_off s)).
Proof.
  intros S W H. cbn [cdp_next]. rewrite (proj2 (Z.leb_gt _ _)) by lia.
  pose proof (slot_unwrapped _ _ _ S) as U. unfold unwrapped in U. pose proof (slot_len_ge s).
  rewrite (proj2 (Z.ltb_ge _ _)) by lia. rewrite (slot_type _ _ _ S).
  pose proof (wf_type _ W). rewrite (proj2 (Z.eqb_neq _ _)); [done|]. unfold REC_PAD. lia.
Qed.

Lemma cdp_next_spec g q :
  ring_inv g q -> ring_young g ->
  cdp_next (next_fuel g) g (rg_tail g) =
    Some match q with [] => None | s :: _ => Some (sl_off s mod rg_size g, sl_off s) end.
Proof.
  intros I Y. pose proof (ri_layout _ _ I) as L. pose proof (ri_size _ _ I) as [Hs _]. pose proof (ri_window _ _ I) as [Ht _].
  unfold next_fuel, ring_young in *. destruct q as [|s q]; cbn [layout] in L.
  - rewrite L, Z.sub_diag. cbn [cdp_next Z.to_nat]. by rewrite Z.leb_refl.
  - destruct L as (G & S & L). pose proof (ri_slots _ _ I) as W. apply Forall_cons in W as [W _].
    pose proof (layout_le _ _ _ _ _ L). pose proof (slot_len_ge s). change REC_SIZE with 56 in *.
    assert (exists f, Z.to_nat (rg_head g - rg_tail g) = Datatypes.S f) as [f Hf].
    { exists (pred (Z.to_nat (rg_head g - rg_tail g))). pose proof (gap_le _ _ _ _ G). lia. }
    rewrite Hf. destruct G as [->|(Hlt & Hend & Hp)]; [apply cdp_next_record; [done..|lia]|].
    cbn [cdp_next]. rewrite (proj2 (Z.leb_gt _ _)) by lia. change REC_SIZE with 56.
    replace (rg_size g - rg_tail g mod rg_size g) with (sl_off s - rg_tail g) by lia.
    assert (to_u64 (rg_tail g + (sl_off s - rg_tail g)) = sl_off s) as E.
    { unfold to_u64. rewrite Z.mod_small; lia. }
    destruct (Z.ltb_spec (sl_off s - rg_tail g) 56).
    + rewrite E. apply cdp_next_record; [done..|lia].
    + destruct Hp as [-> ->]; [change REC_SIZE with 56; lia|]. rewrite Z.eqb_refl, E. apply cdp_next_record; [done..|lia].
Qed.

Lemma deliverable_spec g q :
  ring_inv g q -> ring_young g ->
  deliverable g = match q with
                  | s :: _ => if r_state (sl_rec s) =? ST_COMMITTED then Some (sl_off s mod rg_size g, sl_off s) else None
                  | [] => None
                  end.
Proof.
  intros I Y. unfold deliverable. rewrite (cdp_next_spec g q) by done. destruct q as [|s q]; [done|].
  pose proof (ri_layout _ _ I) as (_ & S & _). by rewrite (slot_state _ _ _ S).
Qed.

(** ** The producer appends a record *)

Lemma rec_need_spec payload : 0 <= payload ->
  REC_SIZE + payload <= rec_need payload < REC_SIZE + payload + 8 /\ rec_need payload mod 8 = 0.
Proof.
  intros H. unfold rec_need, ALIGN. change CDP_REC_ALIGN with 8.
  change (Z.lnot (8 - 1)) with (Z.lnot 7). rewrite land_lnot_7.
  pose proof (Z.div_mod (REC_SIZE + payload + 8 - 1) 8). pose proof (Z.mod_pos_bound (REC_SIZE + payload + 8 - 1) 8).
  split; [lia|]. apply Z.mod_mul. lia.
Qed.

(** Padding fills the ring up to its end, and then the record fits. *)
Lemma rec_pad_spec g need :
  0 < rg_size g -> 0 <= need <= rg_size g ->
  let pad := rec_pad g need in
  0 <= pad <= need /\ unwrapped (rg_size g) (rg_head g + pad) need /\
  (rg_head g + pad) mod rg_size g = (if 0 <? pad then 0 else rg_head g mod rg_size g) /\
  (0 < pad -> rg_head g mod rg_size g + pad = rg_size g).
Proof.
  intros Hs Hn. unfold rec_pad, unwrapped. pose proof (Z.mod_pos_bound (rg_head g) (rg_size g) Hs).
  destruct (Z.ltb_spec (rg_size g) (rg_head g mod rg_size g + need)) as [L|L]; cbn zeta.
  - assert ((rg_head g + (rg_size g - rg_head g mod rg_size g)) mod rg_size g = 0) as E.
    { rewrite <-Zplus_mod_idemp_l. rewrite Zplus_minus. apply Z.mod_same. lia. }
    rewrite E. rewrite (proj2 (Z.ltb_lt _ _)) by lia. lia.
  - rewrite Z.add_0_r. cbn. lia.
Qed.

Lemma aligned_add a b : a mod 8 = 0 -> b mod 8 = 0 -> (a + b) mod 8 = 0.
Proof. intros Ha Hb. by rewrite Z.add_mod, Ha, Hb by lia. Qed.

Lemma rec_pad_aligned g need :
  0 < rg_size g -> rg_size g mod 8 = 0 -> rg_head g mod 8 = 0 -> (rg_head g + rec_pad g need) mod 8 = 0.
Proof.
  intros Hs Hs8 Hh. unfold rec_pad. destruct (_ <? _); [|by rewrite Z.add_0_r].
  replace (rg_head g + _) with (rg_size g * (rg_head g / rg_size g + 1)) by (pose proof (Z.div_mod (rg_head g) (rg_size g)); lia).
  by rewrite Z.mul_mod, Hs8 by lia.
Qed.

Lemma ring_free_spec g q : ring_inv g q -> ring_free g = rg_size g - (rg_head g - rg_tail g).
Proof.
  intros I. pose proof (layout_le _ _ _ _ _ (ri_layout _ _ I)).
  pose proof (ri_size _ _ I). pose proof (ri_window _ _ I). unfold ring_free, to_u64.
  rewrite (Z.mod_small (rg_head g - rg_tail g)) by lia. apply Z.mod_small. lia.
Qed.

Lemma put_same_on size m vs o n lo hi :
  0 < size -> length vs = 11%nat -> unwrapped size o n -> REC_SIZE <= n -> lo <= hi <= o -> o + n <= lo + size ->
  same_on size (put_header m (o mod size) vs) m lo hi.
Proof.
  intros Hs Hl Hu Hn Hlo Hw. pose proof REC_SIZE_56. unfold put_header. rewrite <-(Z.add_0_r (o mod size)).
  eapply (write_same_on size); [done|exact Hu|lia|rewrite blen_header by done; lia|lia|lia|lia].
Qed.

(** The arguments of [cdp_reserve], as [cdp_log] passes them; a request is at
    most 4 MiB. *)
Record rec_args (type flags sector len payload now : Z) : Prop := {
  ra_type : 1 <= type <= 4;
  ra_flags : in_width 4 flags;
  ra_sector : in_width 8 sector;
  ra_len : in_width 4 len;
  ra_now : in_width 8 now;
  ra_payload : 0 <= payload <= CDP_MAX_IO_SECTORS * 512;
  ra_write : type = REC_WRITE -> len <= payload;
}.

Definition new_flags (g : ring) (flags : Z) : Z := if rg_gap_pending g then Z.lor flags F_GAP_BEFORE else flags.

(** The record that [cdp_reserve] starts. *)
Definition new_rec (g : ring) (type flags sector len payload now : Z) : rec :=
  mk_rec REC_MAGIC ABI_VERSION type (new_flags g flags) ST_RESERVED (rg_seq_next g) sector len (rec_need payload) now 0.

Lemma in_width_lor w a b : in_width w a -> in_width w b -> in_width w (Z.lor a b).
Proof.
  unfold in_width. intros Ha Hb. split; [apply Z.lor_nonneg; lia|].
  destruct (Z.eq_dec (Z.lor a b) 0) as [->|Hz]; [lia|].
  assert (forall c, 0 <= c < 2 ^ (8 * Z.of_nat w) -> c = 0 \/ Z.log2 c < 8 * Z.of_nat w) as Hlog.
  { intros c Hc. destruct (Z.eq_dec c 0); [by left|right]. apply Z.log2_lt_pow2; lia. }
  assert (0 <= Z.lor a b) by (apply Z.lor_nonneg; lia). apply Z.log2_lt_pow2; [lia|].
  rewrite Z.log2_lor by lia. destruct (Hlog a Ha) as [->|La], (Hlog b Hb) as [->|Lb].
  - done.
  - change (Z.log2 0) with 0. pose proof (Z.log2_nonneg b). lia.
  - change (Z.log2 0) with 0. pose proof (Z.log2_nonneg a). lia.
  - lia.
Qed.

Lemma new_rec_range g type flags sector len payload now :
  0 <= rg_seq_next g < 2 ^ 64 -> rec_args type flags sector len payload now ->
  Forall2 in_width rec_widths (rec_fields (new_rec g type flags sector len payload now)).
Proof.
  intros Hs [Ht Hf Hsec Hl Hn Hp _]. pose proof (rec_need_spec payload (proj1 Hp)) as [Hneed _].
  change REC_SIZE with 56 in *. change (CDP_MAX_IO_SECTORS * 512) with 4194304 in *.
  assert (in_width 4 (new_flags g flags)) as Hnf.
  { unfold new_flags. destruct (rg_gap_pending g); [|done]. by apply in_width_lor. }
  unfold rec_widths, rec_fields, new_rec; cbn [r_magic r_version r_type r_flags r_state r_seq r_sector r_len r_rec_len r_ts_ns r_reserved].
  pose proof (eq_refl : 2 ^ 64 = 2 ^ (8 * Z.of_nat 8)).
  repeat (apply Forall2_cons_2; [first [done|unfold in_width; cbn; lia|unfold in_width in *; lia]|]). apply Forall2_nil_2.
Qed.

Lemma seqs_app q1 q2 : seqs (q1 ++ q2) = seqs q1 ++ seqs q2.
Proof. apply fmap_app. Qed.

Lemma seqs_snoc g q s :
  seqs q = seqZ (rg_seq_next g - blen q) (blen q) -> r_seq (sl_rec s) = rg_seq_next g ->
  seqs (q ++ [s]) = seqZ (rg_seq_next g + 1 - blen (q ++ [s])) (blen (q ++ [s])).
Proof.
  intros Hq Hs. pose proof (blen_nonneg q). rewrite seqs_app, Hq, blen_app. cbn [seqs fmap list_fmap]. rewrite Hs.
  replace (rg_seq_next g + 1 - (blen q + blen [s])) with (rg_seq_next g - blen q)
    by (change (blen [s]) with 1; lia).
  change (blen [s]) with 1. rewrite seqZ_app by lia. f_equal. rewrite seqZ_cons by lia. cbn. f_equal. lia.
Qed.

(** What [cdp_reserve] does to the memory when it succeeds. *)
Definition reserve_mem (g : ring) (pad : Z) (vs : list Z) : image :=
  let mem := if (0 <? pad) && (REC_SIZE <=? pad) then put_header (rg_mem g) (rg_head g mod rg_size g) (pad_header pad) else rg_mem g in
  put_header mem (if 0 <? pad then 0 else rg_head g mod rg_size g) vs.

Lemma pad_header_range pad : in_width 4 pad -> Forall2 in_width rec_widths (pad_header pad).
Proof.
  intros H. unfold pad_header, rec_widths.
  repeat (apply Forall2_cons_2; [first [done|unfold in_width; cbn; lia]|]). apply Forall2_nil_2.
Qed.

Lemma reserve_mem_layout g q vs need :
  ring_inv g q -> length vs = 11%nat -> REC_SIZE <= need < 2 ^ 32 -> need <= rg_size g ->
  need + rec_pad g need <= ring_free g ->
  let m := reserve_mem g (rec_pad g need) vs in
  same_on (rg_size g) (rg_mem g) m (rg_tail g) (rg_head g) /\
  gap_at (rg_size g) m (rg_head g) (rg_head g + rec_pad g need).
Proof.
  intros I Hl Hn Hsz Hfree. rewrite (ring_free_spec _ _ I) in Hfree.
  pose proof (ri_size _ _ I) as [Hs _]. pose proof (layout_le _ _ _ _ _ (ri_layout _ _ I)) as Hle.
  destruct (rec_pad_spec g need) as (Hp & Hu & Hoff & Hend); [lia| pose proof REC_SIZE_56; lia|].
  pose proof REC_SIZE_56. cbn zeta. unfold reserve_mem. rewrite <-Hoff. set (pad := rec_pad g need) in *.
  set (m1 := if _ && _ then _ else _).
  assert (same_on (rg_size g) m1 (rg_mem g) (rg_tail g) (rg_head g)) as S1.
  { unfold m1. destruct (_ && _) eqn:E; [|by intros ?].
    apply (put_same_on _ _ _ _ pad); [lia|done|unfold unwrapped; lia|lia|lia|lia]. }
  assert (forall lo, rg_head g + pad + need - rg_size g <= lo <= rg_head g + pad ->
    same_on (rg_size g) (put_header m1 ((rg_head g + pad) mod rg_size g) vs) m1 lo (rg_head g + pad)) as S2.
  { intros lo Hlo. apply (put_same_on _ _ _ _ need); [lia|done|done|lia|lia|lia]. }
  split.
  - intros a Ha. rewrite (S2 (rg_tail g)) by lia. by rewrite S1.
  - destruct (Z.eq_dec pad 0) as [->|Hz]; [left; lia|right]. split; [lia|]. split; [lia|]. intros Hbig.
    replace (rg_head g + pad - rg_head g) with pad in * by lia.
    assert (unwrapped (rg_size g) (rg_head g) pad) as Hup by (unfold unwrapped; lia).
    pose proof (same_on_bytes (rg_size g) ltac:(lia) _ _ _ _ Hup (S2 (rg_head g) ltac:(lia))) as E.
    assert (fields_at m1 (rg_head g mod rg_size g) = pad_header pad) as F.
    { unfold m1. rewrite (proj2 (Z.ltb_lt _ _)), (proj2 (Z.leb_le _ _)) by lia. cbn [andb].
      apply fields_put, pad_header_range. unfold in_width. change (2 ^ (8 * Z.of_nat 4)) with (2 ^ 32). lia. }
    rewrite (fields_ext m1 (put_header m1 ((rg_head g + pad) mod rg_size g) vs)) in F
      by (intros i Hi; symmetry; apply E; lia).
    injection F as _ _ Ft _ _ _ _ _ Fl _ _. done.
Qed.

(** Either the record is the last of the queue, or there was no room and the
    records that follow are announced as coming after a gap. *)
Lemma cdp_reserve_spec g q type flags sector len payload now :
  ring_inv g q -> ring_young g -> rec_args type flags sector len payload now ->
  match cdp_reserve g type flags sector len payload now with
  | (None, g') => g' = overflow g /\
      (rg_size g / CDP_MAX_REC_DIV < rec_need payload \/
       rg_size g - (rg_head g - rg_tail g) < rec_need payload + rec_pad g (rec_need payload))
  | (Some off, g') => exists data, blen data = rec_need payload - REC_SIZE /\
      ring_inv g' (q ++ [mk_slot off (new_rec g type flags sector len payload now) data]) /\
      off = rg_head g + rec_pad g (rec_need payload) /\ rg_head g' = off + rec_need payload /\
      rg_size g' = rg_size g /\ rg_tail g' = rg_tail g /\
      rg_overflows g' = rg_overflows g /\ rg_overflowed g' = rg_overflowed g /\ rg_gap_pending g' = false /\
      rg_seq_next g' = rg_seq_next g + 1
  end.
Proof.
  intros I Y A. unfold cdp_reserve. change CDP_MAX_REC_DIV with 4.
  destruct (Z.ltb_spec (rg_size g / 4) (rec_need payload)) as [|Hdiv]; [by auto|].
  destruct (Z.ltb_spec (ring_free g) (rec_need payload + rec_pad g (rec_need payload))) as [Hno|Hfree].
  { split; [done|]. right. by rewrite <-(ring_free_spec _ _ I). }
  pose proof (ri_size _ _ I) as [Hs Hs8]. pose proof (layout_le _ _ _ _ _ (ri_layout _ _ I)) as Hle.
  pose proof (ri_window _ _ I) as [Ht0 Hwin]. pose proof (ri_seq_bound _ _ I) as [Hq Hseq]. pose proof (blen_nonneg q).
  destruct (rec_need_spec payload (proj1 (ra_payload _ _ _ _ _ _ A))) as [Hneed Hneed8].
  pose proof (ra_payload _ _ _ _ _ _ A) as Hpay. change (CDP_MAX_IO_SECTORS * 512) with 4194304 in Hpay.
  pose proof REC_SIZE_56. unfold ring_young in Y.
  assert (rec_need payload <= rg_size g) as Hfit by (pose proof (Z.div_mod (rg_size g) 4); pose proof (Z.mod_pos_bound (rg_size g) 4); lia).
  destruct (rec_pad_spec g (rec_need payload)) as (Hp & Hu & Hoff & Hend); [lia..|].
  pose proof (reserve_mem_layout g q (rec_fields (new_rec g type flags sector len payload now)) (rec_need payload)
    I eq_refl ltac:(lia) Hfit Hfree) as [Hsame Hgap].
  rewrite (ring_free_spec _ _ I) in Hfree.
  assert (Forall2 in_width rec_widths (rec_fields (new_rec g type flags sector len payload now))) as Hrange
    by (apply new_rec_range; [lia|done]).
  set (pad := rec_pad g (rec_need payload)) in *. cbn zeta in *.
  set (r := new_rec g type flags sector len payload now) in *.
  change (put_header _ _ _) with (reserve_mem g pad (rec_fields r)).
  assert (to_u64 (rg_head g + pad) = rg_head g + pad) as -> by (unfold to_u64; rewrite Z.mod_small; lia).
  assert (to_u64 (rg_head g + pad + rec_need payload) = rg_head g + pad + rec_need payload) as ->
    by (unfold to_u64; rewrite Z.mod_small; lia).
  assert (to_u64 (rg_seq_next g + 1) = rg_seq_next g + 1) as -> by (unfold to_u64; rewrite Z.mod_small; lia).
  set (m := reserve_mem g pad (rec_fields r)) in *.
  set (data := img_read m ((rg_head g + pad) mod rg_size g + REC_SIZE) (rec_need payload - REC_SIZE)).
  exists data. assert (blen data = rec_need payload - REC_SIZE) as Hd by (unfold data; rewrite blen_img_read; lia).
  set (s := mk_slot (rg_head g + pad) r data).
  assert (slot_len s = rec_need payload) as Hlen by (unfold slot_len; cbn; lia).
  split; [done|]. split; [|done]. split; cbn [rg_size rg_head rg_tail rg_mem rg_seq_next].
  - done.
  - lia.
  - eapply layout_snoc; [eapply layout_ext; [lia|apply I|exact Hsame]|exact Hgap| |by rewrite Hlen].
    split.
    + by rewrite Hlen.
    + cbn [sl_off sl_rec s]. unfold m, reserve_mem. rewrite <-Hoff. by apply fields_put.
    + cbn [sl_off sl_data s]. unfold data at 2. by rewrite Hd.
  - apply Forall_app. split; [apply I|]. constructor; [|done]. split; try done.
    + apply A.
    + cbn. intros E. pose proof (ra_write _ _ _ _ _ _ A E). lia.
    + rewrite Hlen. split; [|done]. apply rec_pad_aligned; [lia|done|apply I].
  - apply aligned_add; [apply rec_pad_aligned; [lia|done|apply I]|done].
  - by apply seqs_snoc; [apply I|].
  - rewrite blen_app. change (blen [s]) with 1. lia.
Qed.

(** ** A record of the queue changes in place *)

Lemma ring_update g q1 s q2 m' s' :
  ring_inv g (q1 ++ s :: q2) ->
  (forall i, ~ (sl_off s mod rg_size g <= i < sl_off s mod rg_size g + slot_len s) -> m' i = rg_mem g i) ->
  slot_at (rg_size g) m' s' -> slot_wf s' ->
  sl_off s' = sl_off s -> slot_len s' = slot_len s -> r_seq (sl_rec s') = r_seq (sl_rec s) ->
  ring_inv (with_mem m' g) (q1 ++ s' :: q2).
Proof.
  intros I Hout S' W' Ho Hl Hseq. destruct (ri_size _ _ I) as [Hs _].
  pose proof (ri_layout _ _ I) as L. apply layout_app in L as (b & L1 & G & S & L2).
  assert (same_on (rg_size g) (rg_mem g) m' (rg_tail g) (sl_off s) /\
          same_on (rg_size g) (rg_mem g) m' (sl_off s + slot_len s) (rg_head g)) as [E1 E2].
  { pose proof (layout_le _ _ _ _ _ L1). pose proof (layout_le _ _ _ _ _ L2). pose proof (gap_le _ _ _ _ G).
    pose proof (ri_window _ _ I). pose proof (slot_len_ge s). pose proof REC_SIZE_56.
    assert (forall a, rg_tail g <= a < rg_head g -> sl_off s mod rg_size g <= a mod rg_size g < sl_off s mod rg_size g + slot_len s ->
              a = sl_off s + (a mod rg_size g - sl_off s mod rg_size g)) as E.
    { intros a Ha Hi. apply (mod_inj (rg_size g)); [lia| |lia]. rewrite (mod_add (rg_size g) ltac:(lia) _ _ (slot_len s)); [lia|apply S|lia]. }
    split; intros a Ha; symmetry; apply Hout; intros Hi; specialize (E a ltac:(lia) Hi); lia. }
  split; cbn [with_mem rg_size rg_head rg_tail rg_mem rg_seq_next].
  - apply I.
  - apply I.
  - apply layout_app. exists b. split; [|split; [|split]].
    + eapply layout_ext; [lia|done|]. eapply same_on_weaken; [exact E1|lia|by eapply gap_le].
    + rewrite Ho. eapply gap_at_ext; [lia|done|]. eapply same_on_weaken; [exact E1|by eapply layout_le|lia].
    + done.
    + rewrite Ho, Hl. eapply layout_ext; [lia|done..].
  - pose proof (ri_slots _ _ I) as W. apply Forall_app in W as [W1 W2]. apply Forall_cons in W2 as [_ W2].
    apply Forall_app. by split; [|constructor].
  - apply I.
  - assert (blen (q1 ++ s' :: q2) = blen (q1 ++ s :: q2)) as -> by (unfold blen; by rewrite !length_app).
    rewrite <-(ri_seqs _ _ I), !seqs_app. f_equal. cbn. by rewrite Hseq.
  - assert (blen (q1 ++ s' :: q2) = blen (q1 ++ s :: q2)) as -> by (unfold blen; by rewrite !length_app). apply I.
Qed.

Definition with_state (v : Z) (r : rec) : rec :=
  mk_rec (r_magic r) (r_version r) (r_type r) (r_flags r) v (r_seq r) (r_sector r) (r_len r) (r_rec_len r) (r_ts_ns r) (r_reserved r).
Definition with_flags (v : Z) (r : rec) : rec :=
  mk_rec (r_magic r) (r_version r) (r_type r) v (r_state r) (r_seq r) (r_sector r) (r_len r) (r_rec_len r) (r_ts_ns r) (r_reserved r).

Lemma fields_set_state m p v r :
  in_width 4 v -> fields_at m p = rec_fields r -> fields_at (set_state m p v) p = rec_fields (with_state v r).
Proof.
  intros Hv H. unfold fields_at, set_state. rewrite load_stored by done. rewrite !load_store_other by lia.
  unfold fields_at in H. injection H as -> -> -> -> _ -> -> -> -> -> ->. done.
Qed.

Lemma fields_set_flags m p v r :
  in_width 4 v -> fields_at m p = rec_fields r -> fields_at (set_flags m p v) p = rec_fields (with_flags v r).
Proof.
  intros Hv H. unfold fields_at, set_flags. rewrite load_stored by done. rewrite !load_store_other by lia.
  unfold fields_at in H. injection H as -> -> -> _ -> -> -> -> -> -> ->. done.
Qed.

(** The header of a slot with another state and other flags. *)
Definition upd_slot (state flags : Z) (data : bytes) (s : slot) : slot :=
  mk_slot (sl_off s) (with_state state (with_flags flags (sl_rec s))) data.

Lemma upd_slot_wf state flags data s :
  slot_wf s -> in_width 4 state -> in_width 4 flags -> blen data = blen (sl_data s) -> slot_wf (upd_slot state flags data s).
Proof.
  intros [] Hs Hf Hd. assert (slot_len (upd_slot state flags data s) = slot_len s) as E by (unfold slot_len; by rewrite <-Hd).
  split; cbn [upd_slot sl_rec sl_off sl_data with_state with_flags r_magic r_version r_type r_len r_rec_len];
    rewrite ?E, ?Hd; [done..| |done|done|done].
  destruct s as [o [] d]. unfold rec_widths, rec_fields in *. cbn in *.
  repeat match goal with H : Forall2 _ (_ :: _) (_ :: _) |- _ => inversion H; clear H; subst end.
  by repeat (apply Forall2_cons_2; [done|]).
Qed.

Lemma wf_fields s : slot_wf s -> in_width 4 (r_flags (sl_rec s)) /\ in_width 4 (r_len (sl_rec s)) /\ in_width 8 (r_sector (sl_rec s)).
Proof.
  intros W. pose proof (wf_range _ W) as R. destruct s as [o [] d]. unfold rec_widths, rec_fields in R. cbn in *.
  repeat match goal with H : Forall2 _ (_ :: _) (_ :: _) |- _ => inversion H; clear H; subst end. done.
Qed.

(** Filling a record: the payload is copied, then the state is set. *)
Lemma ring_fill g q1 s q2 buf state :
  ring_inv g (q1 ++ s :: q2) -> blen buf <= blen (sl_data s) -> in_width 4 state ->
  ring_inv (with_mem (set_state (img_write (rg_mem g) (sl_off s mod rg_size g + REC_SIZE) buf) (sl_off s mod rg_size g) state) g)
    (q1 ++ upd_slot state (r_flags (sl_rec s)) (buf ++ drop (length buf) (sl_data s)) s :: q2).
Proof.
  intros I Hb Hst. pose proof (ri_layout _ _ I) as L. apply layout_app in L as (b & _ & _ & S & _).
  pose proof (ri_slots _ _ I) as W. apply Forall_app in W as [_ W]. apply Forall_cons in W as [W _].
  assert (blen (buf ++ drop (length buf) (sl_data s)) = blen (sl_data s)) as Hlen.
  { unfold blen in *. rewrite length_app, length_drop. lia. }
  pose proof REC_SIZE_56. pose proof (blen_nonneg buf). pose proof (slot_unwrapped _ _ _ S) as U.
  assert (forall i, i <> sl_off s mod rg_size g + 12 -> i <> sl_off s mod rg_size g + 13 ->
            i <> sl_off s mod rg_size g + 14 -> i <> sl_off s mod rg_size g + 15 -> forall m v,
            set_state m (sl_off s mod rg_size g) v i = m i) as Hset.
  { intros i ?? ?? m v. unfold set_state. apply store_out. lia. }
  eapply ring_update; [exact I|..].
  - unfold slot_len. intros i Hi. rewrite Hset by lia. apply img_write_out. lia.
  - split; cbn [upd_slot sl_off sl_rec sl_data].
    + unfold slot_len, upd_slot. cbn. by rewrite Hlen.
    + apply fields_set_state; [done|]. destruct s as [o [] d]. cbn in *.
      rewrite (fields_ext _ (rg_mem g)); [apply S|]. intros i Hi. apply img_write_out. lia.
    + rewrite Hlen. replace (blen (sl_data s)) with (blen buf + (blen (sl_data s) - blen buf)) by lia.
      rewrite img_read_add by lia. f_equal.
      * rewrite (img_read_ext _ (img_write (rg_mem g) (sl_off s mod rg_size g + REC_SIZE) buf)) by (intros i Hi; apply Hset; lia).
        by apply img_read_written.
      * rewrite (img_read_ext _ (rg_mem g)) by (intros i Hi; rewrite Hset by lia; apply img_write_out; lia).
        pose proof (slot_data _ _ _ S) as D.
        replace (blen (sl_data s)) with (blen buf + (blen (sl_data s) - blen buf)) in D by lia.
        rewrite img_read_add in D by lia. apply (f_equal (drop (length buf))) in D.
        rewrite drop_app_length' in D; [done|].
        pose proof (blen_img_read (rg_mem g) (sl_off s mod rg_size g + REC_SIZE) (blen buf)). unfold blen in *. lia.
  - apply upd_slot_wf; [done|done|by apply wf_fields|done].
  - done.
  - unfold slot_len. cbn. by rewrite Hlen.
  - done.
Qed.

Lemma ring_slot g q1 s q2 : ring_inv g (q1 ++ s :: q2) -> slot_at (rg_size g) (rg_mem g) s /\ slot_wf s.
Proof.
  intros I. pose proof (ri_layout _ _ I) as L. apply layout_app in L as (b & _ & _ & S & _).
  pose proof (ri_slots _ _ I) as W. apply Forall_app in W as [_ W]. by apply Forall_cons in W as [W _].
Qed.

(** The flags and the state of a record change. *)
Lemma ring_complete g q1 s q2 flags state :
  ring_inv g (q1 ++ s :: q2) -> in_width 4 flags -> in_width 4 state ->
  ring_inv (with_mem (set_state (set_flags (rg_mem g) (sl_off s mod rg_size g) flags) (sl_off s mod rg_size g) state) g)
    (q1 ++ upd_slot state flags (sl_data s) s :: q2).
Proof.
  intros I Hf Hst. destruct (ring_slot _ _ _ _ I) as [S W]. pose proof REC_SIZE_56. pose proof (blen_nonneg (sl_data s)).
  assert (forall i, ~ (sl_off s mod rg_size g + 8 <= i < sl_off s mod rg_size g + 16) ->
    set_state (set_flags (rg_mem g) (sl_off s mod rg_size g) flags) (sl_off s mod rg_size g) state i = rg_mem g i) as Hout.
  { intros i Hi. unfold set_state, set_flags. rewrite !store_out; [done|lia|lia]. }
  eapply ring_update; [exact I| | |by apply upd_slot_wf|done..].
  - unfold slot_len. intros i Hi. apply Hout. lia.
  - destruct S as [U F D]. split; [done| |].
    + apply fields_set_state; [done|]. by apply fields_set_flags.
    + cbn [upd_slot sl_data sl_off]. rewrite <-D at 2. apply img_read_ext. intros i Hi. apply Hout. lia.
Qed.

Lemma set_flags_same size m s :
  slot_at size m s -> forall i, set_flags m (sl_off s mod size) (r_flags (sl_rec s)) i = m i.
Proof.
  intros S i. pose proof (slot_fields _ _ _ S) as F. injection F as _ _ _ Hf _ _ _ _ _ _ _.
  unfold set_flags, store. rewrite <-Hf. unfold load. rewrite LittleEndianList.split_le_combine'.
  - rewrite img_write_read. by destruct (in_range _ _ _).
  - pose proof (blen_img_read m (sl_off s mod size + 8) (Z.of_nat 4)). unfold blen in *. lia.
Qed.

(** ** Delivery *)

Lemma ring_pop g s q : ring_inv g (s :: q) -> ring_inv (with_tail (sl_off s + slot_len s) g) q.
Proof.
  intros I. pose proof (ri_layout _ _ I) as (G & S & L). pose proof (gap_le _ _ _ _ G). pose proof (slot_len_ge s).
  pose proof REC_SIZE_56. pose proof (ri_window _ _ I). pose proof (ri_slots _ _ I) as W. apply Forall_cons in W as [_ W].
  pose proof (ri_seqs _ _ I) as Q. rewrite blen_cons in Q. pose proof (ri_seq_bound _ _ I) as B. rewrite blen_cons in B.
  pose proof (blen_nonneg q).
  split; cbn [with_tail rg_size rg_head rg_tail rg_mem rg_seq_next]; [apply I|lia|done|done|apply I| |lia].
  rewrite seqZ_cons in Q by lia. cbn in Q. injection Q as _ Q. unfold seqs. rewrite Q. f_equal; lia.
Qed.

(** The records one [read] takes: as long as the oldest one is complete, fits
    the rest of the buffer and is copied. *)
Fixpoint taken (copy_ok : Z -> bool) (count copied : Z) (q : list slot) : list slot :=
  match q with
  | s :: q' =>
      if (r_state (sl_rec s) =? ST_COMMITTED) && (copied + slot_len s <=? count) && copy_ok copied
      then s :: taken copy_ok count (copied + slot_len s) q' else []
  | [] => []
  end.

Definition stream (q : list slot) : bytes := concat (slot_bytes <$> q).

(** How a [read] ends that takes nothing. *)
Definition stop_outcome (copy_ok : Z -> bool) (nonblock dead : bool) (count : Z) (q : list slot) : read_outcome :=
  match q with
  | s :: _ =>
      if r_state (sl_rec s) =? ST_COMMITTED
      then if count <? slot_len s then ReadError EMSGSIZE else ReadError EFAULT
      else if dead then ReadEof else if nonblock then ReadError EAGAIN else ReadWaits
  | [] => if dead then ReadEof else if nonblock then ReadError EAGAIN else ReadWaits
  end.

Lemma taken_prefix copy_ok count copied q : exists rest, q = taken copy_ok count copied q ++ rest.
Proof.
  revert copied. induction q as [|s q IH]; intros copied; cbn; [by exists []|].
  destruct (_ && _); [|by eexists]. destruct (IH (copied + slot_len s)) as [rest E]. exists rest. cbn. by rewrite <-E.
Qed.

Lemma stream_cons s q : stream (s :: q) = slot_bytes s ++ stream q.
Proof. done. Qed.

Lemma slot_bytes_nonempty s : slot_bytes s <> [].
Proof. intros E. pose proof (slot_bytes_len s) as H. rewrite E in H. pose proof (slot_len_ge s). pose proof REC_SIZE_56. rewrite blen_nil in H. lia. Qed.

Lemma cdp_read_loop_spec copy_ok nonblock dead count q : forall fuel g copied,
  ring_inv g q -> ring_young g -> count - blen copied < Z.of_nat fuel -> blen copied <= count ->
  let D := taken copy_ok count (blen copied) q in
  exists g', cdp_read_loop copy_ok nonblock dead count fuel g copied =
    (if bool_decide (copied ++ stream D = []) then stop_outcome copy_ok nonblock dead count q
     else ReadBytes (copied ++ stream D), g') /\
    ring_inv g' (drop (length D) q) /\ ring_young g' /\ exists tail, g' = with_tail tail g.
Proof.
  induction q as [|s q IH]; intros [|fuel] g copied I Y Hfuel Hc; try lia.
  - cbn [taken cdp_read_loop]. rewrite (deliverable_spec _ _ I Y), app_nil_r. exists g.
    split; [by destruct (bool_decide (copied = []))|]. split; [done|]. split; [done|]. exists (rg_tail g). by destruct g.
  - cbn [taken cdp_read_loop]. rewrite (deliverable_spec _ _ I Y).
    destruct (ring_slot g [] s q I) as [S W]. pose proof (slot_len_ge s). pose proof REC_SIZE_56.
    assert (exists tail, g = with_tail tail g) as Hsame by (exists (rg_tail g); by destruct g).
    destruct (Z.eqb_spec (r_state (sl_rec s)) ST_COMMITTED) as [Est|Est]; cbn [andb].
    2: { exists g. rewrite app_nil_r. cbn [stop_outcome]. rewrite (proj2 (Z.eqb_neq _ _) Est).
         by destruct (bool_decide (copied = [])). }
    rewrite (slot_rec_len _ _ _ S), (wf_rec_len _ W).
    destruct (Z.ltb_spec (count - blen copied) (slot_len s)) as [L|L].
    { rewrite (proj2 (Z.leb_gt _ _)) by lia. cbn [andb]. exists g. rewrite app_nil_r. cbn [stop_outcome].
      rewrite Est. change (ST_COMMITTED =? ST_COMMITTED) with true.
      destruct (bool_decide_reflect (copied = [])) as [->|]; [|done].
      by rewrite (proj2 (Z.ltb_lt _ _)) by (rewrite blen_nil in L; lia). }
    rewrite (proj2 (Z.leb_le _ _)) by lia. cbn [andb].
    destruct (copy_ok (blen copied)) eqn:Eok; cbn [negb].
    2: { exists g. rewrite app_nil_r. cbn [stop_outcome].
         rewrite Est. change (ST_COMMITTED =? ST_COMMITTED) with true.
         destruct (bool_decide_reflect (copied = [])) as [->|]; [|done].
         by rewrite (proj2 (Z.ltb_ge _ _)) by (rewrite blen_nil in L; lia). }
    assert (to_u64 (sl_off s + slot_len s) = sl_off s + slot_len s) as ->.
    { pose proof (ri_layout _ _ I) as (G & _ & L2). pose proof (layout_le _ _ _ _ _ L2). pose proof (gap_le _ _ _ _ G).
      pose proof (ri_window _ _ I). pose proof (ri_size _ _ I). unfold ring_young in Y. unfold to_u64. apply Z.mod_small. lia. }
    rewrite (slot_read _ _ _ S). apply ring_pop in I.
    destruct (IH fuel _ (copied ++ slot_bytes s) I) as (g' & E & I' & Y' & tl & T);
      [done|rewrite blen_app, slot_bytes_len; lia|rewrite blen_app, slot_bytes_len; lia|].
    rewrite E. exists g'. rewrite blen_app, slot_bytes_len, stream_cons, <-!app_assoc in *.
    split; [|split; [done|split; [done|by exists tl]]].
    pose proof (slot_bytes_nonempty s). destruct copied, (slot_bytes s); done.
Qed.
