(* ===== verification/DirtyMap.v ===== *)
(** * The dirty bitmap and the ioctls of the driver

    [cdp_mark] sets exactly the bits of the chunks that a request touches;
    the bitmap that the ioctl copies out, read byte by byte as [dmcdp.py] reads
    it, has the same bits; and [dmcdp.status] unpacks what
    [cdp_ioctl_status] packs. *)
From S2P Require Import Prelude Dmcdp Files Driver Ring.

(** ** Bits *)

Lemma test_bit_set b x bm :
  0 <= b -> 0 <= x -> (Z.to_nat (b / 64) < length bm)%nat ->
  test_bit x (set_bit b bm) = test_bit x bm || (x =? b).
Proof.
  intros Hb Hx Hl. unfold test_bit, set_bit.
  pose proof (Z.mod_pos_bound b 64). pose proof (Z.mod_pos_bound x 64).
  pose proof (Z.div_mod b 64). pose proof (Z.div_mod x 64). pose proof (Z.div_pos b 64). pose proof (Z.div_pos x 64).
  destruct (decide (Z.to_nat (b / 64) = Z.to_nat (x / 64))) as [E|E].
  - rewrite E in *. rewrite list_lookup_alter_eq. destruct (lookup_lt_is_Some_2 bm _ Hl) as [w ->]. cbn.
    rewrite Z.setbit_eqb by lia. rewrite orb_comm. f_equal. lia.
  - rewrite list_lookup_alter_ne by done. rewrite (proj2 (Z.eqb_neq x b)) by (intros ->; done). by rewrite orb_false_r.
Qed.

Lemma length_set_bit b bm : length (set_bit b bm) = length bm.
Proof. apply length_alter. Qed.

Definition words (bm : list Z) : Prop := Forall (in_width 8) bm.

Lemma set_bit_words b bm : words bm -> words (set_bit b bm).
Proof.
  unfold words, set_bit. intros H. apply Forall_alter; [done|]. intros w _ Hw.
  unfold Z.setbit. rewrite Z.shiftl_1_l. apply in_width_lor; [done|]. unfold in_width.
  pose proof (Z.mod_pos_bound b 64). split; [lia|]. apply Z.pow_lt_mono_r; lia.
Qed.

(** The bits from [a] to [a + n - 1]. *)
Definition set_bits (a n : Z) (bm : list Z) : list Z := foldl (fun bm b => set_bit b bm) bm (seqZ a n).

Lemma set_bits_spec a n bm x :
  0 <= a -> 0 <= x -> (Z.to_nat ((a + n - 1) / 64) < length bm)%nat ->
  test_bit x (set_bits a n bm) = test_bit x bm || ((a <=? x) && (x <? a + n)).
Proof.
  intros Ha Hx. unfold set_bits. destruct (Z.lt_ge_cases n 0) as [Hn|Hn].
  { rewrite seqZ_nil by lia. intros _. cbn. replace ((a <=? x) && (x <? a + n)) with false by lia. by rewrite orb_false_r. }
  revert a bm Ha. pattern n. apply natlike_ind; [|clear n Hn; intros n Hn IH|done].
  - intros a bm Ha _. cbn. replace ((a <=? x) && (x <? a + 0)) with false by lia. by rewrite orb_false_r.
  - intros a bm Ha Hl. rewrite seqZ_cons by lia. cbn [foldl]. rewrite Z.pred_succ.
    assert (Z.to_nat (a / 64) < length bm)%nat as Hla.
    { pose proof (Z.div_le_mono a (a + Z.succ n - 1) 64 ltac:(lia) ltac:(lia)). lia. }
    rewrite IH; [|lia|rewrite length_set_bit; by replace (Z.succ a + n - 1) with (a + Z.succ n - 1) by lia].
    rewrite test_bit_set by (lia || done). rewrite <-orb_assoc. f_equal.
    apply eq_true_iff_eq. rewrite orb_true_iff, !andb_true_iff. clear -Hn. rewrite Z.eqb_eq, !Z.leb_le, !Z.ltb_lt. lia.
Qed.

Lemma length_set_bits a n bm : length (set_bits a n bm) = length bm.
Proof. unfold set_bits. generalize (seqZ a n). intros l. revert bm. induction l as [|x l IH]; intros bm; [done|]. cbn. by rewrite IH, length_set_bit. Qed.

Lemma set_bits_words a n bm : words bm -> words (set_bits a n bm).
Proof. unfold set_bits. generalize (seqZ a n). intros l. revert bm. induction l as [|x l IH]; intros bm; [done|]. cbn. intros H. by apply IH, set_bit_words. Qed.

(** ** The target *)

(** The sizes that [cdp_ctr] sets up. *)
Record target_ok (t : cdp_target) : Prop := {
  to_chunk : 0 < tg_chunk_sectors t < 2 ^ 32;
  to_len : 0 <= tg_begin t /\ 0 < tg_len t < 2 ^ 55;
  to_nbits : tg_nbits t = DIV_ROUND_UP (tg_len t) (tg_chunk_sectors t);
  to_bitmap : blen (tg_bitmap t) = BITS_TO_LONGS (tg_nbits t);
  to_words : words (tg_bitmap t);
}.

Lemma nbits_bounds t : target_ok t ->
  0 < tg_nbits t < 2 ^ 55 /\ tg_len t <= tg_nbits t * tg_chunk_sectors t < tg_len t + tg_chunk_sectors t.
Proof.
  intros K. pose proof (to_chunk _ K). pose proof (to_len _ K). rewrite (to_nbits _ K). unfold DIV_ROUND_UP.
  pose proof (div_ceil_spec (tg_len t) (tg_chunk_sectors t)) as [H1 H2]; [lia|]. split; [|lia]. split; nia.
Qed.

Lemma bitmap_room t x : target_ok t -> x < tg_nbits t -> (Z.to_nat (x / 64) < length (tg_bitmap t))%nat.
Proof.
  intros K Hx. pose proof (to_bitmap _ K) as Hb. unfold BITS_TO_LONGS, blen in Hb.
  pose proof (nbits_bounds _ K). pose proof (Z.div_le_mono x (tg_nbits t - 1) 64).
  replace (tg_nbits t + 63) with (tg_nbits t - 1 + 1 * 64) in Hb by lia. rewrite Z.div_add in Hb by lia.
  pose proof (Z.div_pos (tg_nbits t - 1) 64). lia.
Qed.

(** Chunk [x] shares a sector with the [bytes] bytes from [sector] on. *)
Definition chunk_touched (t : cdp_target) (sector bytes x : Z) : bool :=
  (x * tg_chunk_sectors t <? sector + (bytes + 511) / 512) && (sector <? (x + 1) * tg_chunk_sectors t).

Lemma chunk_range c a b x : 0 < c -> (a / c <= x <= b / c) <-> (x * c <= b /\ a < (x + 1) * c).
Proof.
  intros Hc. pose proof (Z.div_mod a c). pose proof (Z.mod_pos_bound a c Hc).
  pose proof (Z.div_mod b c). pose proof (Z.mod_pos_bound b c Hc). split; [nia|]. intros [H3 H4]. split; nia.
Qed.

Lemma cdp_mark_set_bits t sector bytes : exists a n,
  cdp_mark t sector bytes = set_bitmap (set_bits a n (tg_bitmap t)) t.
Proof.
  unfold cdp_mark. destruct (bytes =? 0); [|by eexists _, _].
  exists 0, 0. by destruct t.
Qed.

Lemma cdp_mark_ok t sector bytes : target_ok t -> target_ok (cdp_mark t sector bytes).
Proof.
  intros K. destruct (cdp_mark_set_bits t sector bytes) as (a & n & ->).
  split; try apply K; cbn [set_bitmap tg_bitmap].
  - unfold blen. rewrite length_set_bits. apply K.
  - apply set_bits_words, K.
Qed.

(** Marking a request sets the bits of exactly the chunks it shares a
    sector with, and clears none. *)
Lemma cdp_mark_bits t sector bytes x :
  target_ok t -> 0 <= sector -> 0 <= bytes <= 2 ^ 32 - 512 -> sector + (bytes + 511) / 512 <= tg_len t ->
  0 <= x ->
  test_bit x (tg_bitmap (cdp_mark t sector bytes)) =
    test_bit x (tg_bitmap t) || ((0 <? bytes) && chunk_touched t sector bytes x).
Proof.
  intros K Hs Hb Hend Hx. unfold cdp_mark. pose proof (to_chunk _ K) as Hc. pose proof (to_len _ K).
  destruct (Z.eqb_spec bytes 0) as [->|Hz]; [by rewrite orb_false_r|].
  assert (1 <= (bytes + 511) / 512) as Hn by (apply Z.div_le_lower_bound; lia).
  assert (to_u32 (bytes + 511) = bytes + 511) as -> by (unfold to_u32; apply Z.mod_small; lia).
  set (n := (bytes + 511) / 512) in *.
  assert (to_u64 (sector + n - 1) = sector + n - 1) as -> by (unfold to_u64; apply Z.mod_small; lia).
  pose proof (nbits_bounds _ K) as [Hnb Hcov].
  assert ((sector + n - 1) / tg_chunk_sectors t < tg_nbits t) as Hlast by (apply Z.div_lt_upper_bound; lia).
  rewrite (proj2 (Z.leb_gt _ _) Hlast). cbn [set_bitmap tg_bitmap].
  change (foldl _ _ _) with (set_bits (sector / tg_chunk_sectors t)
    ((sector + n - 1) / tg_chunk_sectors t + 1 - sector / tg_chunk_sectors t) (tg_bitmap t)).
  rewrite set_bits_spec; [|apply Z.div_pos; lia|done|].
  2: { apply (bitmap_room t); [done|]. lia. }
  f_equal. rewrite (proj2 (Z.ltb_lt 0 bytes)) by lia. unfold chunk_touched. fold n.
  pose proof (chunk_range (tg_chunk_sectors t) sector (sector + n - 1) x ltac:(lia)) as R.
  apply eq_true_iff_eq. rewrite !andb_true_iff. cbn [andb]. lia.
Qed.

(** ** What userspace reads *)

Lemma le_split_lookup n w k : (k < n)%nat -> le_split n w !! k = Some (coqutil.Byte.byte.of_Z (Z.shiftr w (8 * Z.of_nat k))).
Proof.
  revert w k. induction n as [|n IH]; intros w [|k] Hk; try lia; cbn [LittleEndianList.le_split].
  - by rewrite Z.shiftr_0_r.
  - etrans; [apply (IH (Z.shiftr w 8) k); lia|]. rewrite Z.shiftr_shiftr by lia. do 3 f_equal. lia.
Qed.

Lemma bitmap_bytes_lookup bm w k :
  (k < 8)%nat -> bitmap_bytes_of bm !! (8 * w + k)%nat = (fun v => coqutil.Byte.byte.of_Z (Z.shiftr v (8 * Z.of_nat k))) <$> bm !! w.
Proof.
  intros Hk. unfold bitmap_bytes_of. revert w. induction bm as [|v bm IH]; intros w; [done|]. cbn [fmap list_fmap concat].
  destruct w as [|w].
  - rewrite lookup_app_l by (rewrite LittleEndianList.length_le_split; lia). cbn [lookup list_lookup fmap option_fmap option_map].
    rewrite Nat.mul_0_r, Nat.add_0_l. by apply le_split_lookup.
  - rewrite lookup_app_r by (rewrite LittleEndianList.length_le_split; lia). rewrite LittleEndianList.length_le_split.
    replace (8 * S w + k - 8)%nat with (8 * w + k)%nat by lia. apply IH.
Qed.

Lemma blen_bitmap_bytes bm : blen (bitmap_bytes_of bm) = 8 * blen bm.
Proof.
  unfold bitmap_bytes_of. induction bm as [|v bm IH]; [done|]. cbn [fmap list_fmap concat].
  rewrite blen_app, IH, blen_le_split, blen_cons. lia.
Qed.

(** The bytes hold the bits of the words, as [bitmap_extents] reads them. *)
Lemma dirty_bitmap_bytes bm nbits i :
  0 <= nbits <= 64 * blen bm ->
  dirty (bitmap_bytes_of bm) nbits i = (0 <=? i) && (i <? nbits) && test_bit i bm.
Proof.
  intros Hn. unfold dirty, bm_bit. destruct (Z.ltb_spec i nbits) as [L|L]; [|by rewrite !andb_false_r].
  destruct (Z.leb_spec 0 i) as [Hi|Hi]; [|by destruct (bitmap_bytes_of bm !! _)]. cbn [andb].
  unfold test_bit. pose proof (Z.div_mod i 64). pose proof (Z.mod_pos_bound i 64).
  rewrite Z.shiftr_div_pow2 by lia. change (2 ^ 3) with 8.
  assert (Z.to_nat (i / 8) = 8 * Z.to_nat (i / 64) + Z.to_nat (i mod 64 / 8))%nat as ->.
  { assert (i / 8 = 8 * (i / 64) + i mod 64 / 8).
    { rewrite H at 1 by lia. replace (64 * (i / 64) + i mod 64) with (i mod 64 + (8 * (i / 64)) * 8) by lia.
      rewrite Z.div_add by lia. lia. }
    pose proof (Z.div_pos i 64). pose proof (Z.div_pos (i mod 64) 8). lia. }
  assert (0 <= i mod 64 / 8 < 8) as Hk by (split; [apply Z.div_pos; lia|apply Z.div_lt_upper_bound; lia]).
  rewrite bitmap_bytes_lookup by lia.
  destruct (bm !! Z.to_nat (i / 64)) as [w|] eqn:E; cbn [fmap option_fmap option_map default].
  2: { apply lookup_ge_None in E. pose proof (Z.div_lt_upper_bound i 64 (blen bm)). pose proof (Z.div_pos i 64). unfold blen in *. lia. }
  change 7 with (Z.ones 3). rewrite Z.land_ones by lia. change (2 ^ 3) with 8.
  rewrite coqutil.Byte.byte.unsigned_of_Z. unfold coqutil.Byte.byte.wrap. rewrite <-Z.land_ones by lia.
  rewrite <-Z.bit0_odd, Z.land_spec. change (Z.testbit 1 0) with true. rewrite andb_true_r.
  pose proof (Z.mod_pos_bound i 8). rewrite Z.shiftr_spec by lia. rewrite Z.land_spec, Z.ones_spec_low by lia.
  rewrite andb_true_r, Z.shiftr_spec by lia. f_equal. rewrite Z2Nat.id by lia.
  assert (i mod 8 = i mod 64 mod 8) as Em.
  { rewrite H at 1 by lia. replace (64 * (i / 64) + i mod 64) with (i mod 64 + (8 * (i / 64)) * 8) by lia. apply Z.mod_add. lia. }
  pose proof (Z.div_mod (i mod 64) 8). lia.
Qed.

(** The two ioctls as [dmcdp.py] calls them on this target, by number: a
    failing one raises. *)
Definition fd_answer (r : errno + bytes) : res bytes := match r with inr b => Ok b | inl _ => Raise OSError end.

Definition fd_of (alloc copied : bool) (t : cdp_target) : cdp_fd :=
  mk_cdp_fd (fd_answer (cdp_ioctl alloc copied (ioctl_decode IOC_STATUS None) t).1)
    (fun clear nbytes =>
       fd_answer (cdp_ioctl alloc copied (ioctl_decode IOC_BITMAP (Some (nbytes, if clear : bool then BM_CLEAR else 0))) t).1).

Lemma decode_status req : ioctl_decode IOC_STATUS req = IocStatus.
Proof. reflexivity. Qed.

Lemma decode_bitmap len (clear : bool) : ioctl_decode IOC_BITMAP (Some (len, if clear then BM_CLEAR else 0)) = IocBitmap len clear.
Proof. by destruct clear. Qed.

(** The counters fit their fields. *)
Definition status_fits (t : cdp_target) : Prop := Forall2 in_width status_widths (status_fields t).

Lemma fmt_widths_STATUS : fmt_widths STATUS_FMT = Some status_widths.
Proof. reflexivity. Qed.

Lemma blen_status t : blen (cdp_ioctl_status t) = STATUS_SIZE.
Proof. unfold cdp_ioctl_status, status_fields, status_widths. cbn [zip_with concat]. by rewrite !blen_app, !blen_le_split. Qed.

(** The dictionary [dmcdp.status] returns. *)
Definition status_dict (t : cdp_target) : gmap string Z := list_to_map (zip STATUS_FIELDS (status_fields t)).

Lemma status_of_driver alloc t : status_fits t -> status (fd_of alloc true t) = Ok (status_dict t).
Proof.
  intros H. unfold status. cbn [ioctl_status fd_of]. rewrite decode_status. cbn [cdp_ioctl fst fd_answer]. rewrite res_bind_Ok. unfold struct_unpack. rewrite fmt_widths_STATUS.
  rewrite decide_True by (pose proof (blen_status t) as Hl; unfold blen in Hl; rewrite STATUS_SIZE_128 in Hl;
    change (sum_widths status_widths) with 128%nat; lia).
  rewrite res_bind_Ok. unfold cdp_ioctl_status. rewrite <-(app_nil_r (concat _)). by rewrite unpack_concat.
Qed.

Lemma read_bitmap_of_driver t clear :
  status_fits t -> target_ok t ->
  read_bitmap (fd_of true true t) clear = Ok (bitmap_bytes_of (tg_bitmap t), tg_chunk_sectors t, tg_nbits t).
Proof.
  intros H K. unfold read_bitmap. rewrite status_of_driver, res_bind_Ok by done.
  assert (dict_get (status_dict t) "bitmap_bytes" = Ok (cdp_bitmap_bytes t)) as -> by reflexivity.
  assert (dict_get (status_dict t) "chunk_sectors" = Ok (tg_chunk_sectors t)) as -> by reflexivity.
  assert (dict_get (status_dict t) "bitmap_bits" = Ok (tg_nbits t)) as -> by reflexivity.
  rewrite res_bind_Ok. cbn [ioctl_bitmap fd_of]. rewrite decode_bitmap. cbn [cdp_ioctl]. unfold cdp_ioctl_bitmap. rewrite Z.ltb_irrefl. cbn [negb].
  by destruct clear.
Qed.

(** What [dmcdp.py] reads after a request was marked.  [read_bitmap] and
    [bitmap_extents] give sorted, separated extents, and a sector lies in one
    of them exactly when its chunk was dirty before or shares a sector with
    the request. *)
Theorem mark_read_extents t sector bytes clear :
  target_ok t -> status_fits (cdp_mark t sector bytes) ->
  0 <= sector -> 0 < bytes <= 2 ^ 32 - 512 -> sector + (bytes + 511) / 512 <= tg_len t ->
  exists es, ('(bm, chunk, nbits) ← read_bitmap (fd_of true true (cdp_mark t sector bytes)) clear;
              bitmap_extents bm chunk nbits) = Ok es /\ separated 0 es /\
    forall x, Exists (in_extent x) es <->
      0 <= x / tg_chunk_sectors t < tg_nbits t /\
      test_bit (x / tg_chunk_sectors t) (tg_bitmap t) || chunk_touched t sector bytes (x / tg_chunk_sectors t) = true.
Proof.
  intros K F Hs Hb He. pose proof (cdp_mark_ok t sector bytes K) as K'. pose proof (to_chunk _ K).
  rewrite read_bitmap_of_driver, res_bind_Ok by done.
  destruct (cdp_mark_set_bits t sector bytes) as (a & n & Em).
  assert (tg_chunk_sectors (cdp_mark t sector bytes) = tg_chunk_sectors t) as -> by by rewrite Em.
  assert (tg_nbits (cdp_mark t sector bytes) = tg_nbits t) as En by by rewrite Em.
  pose proof (nbits_bounds _ K) as [Hnb _]. pose proof (to_bitmap _ K') as Hbm. rewrite En in Hbm. unfold BITS_TO_LONGS in Hbm.
  assert (tg_nbits t <= 64 * blen (tg_bitmap (cdp_mark t sector bytes))) as Hroom.
  { rewrite Hbm. pose proof (Z.div_mod (tg_nbits t + 63) 64). pose proof (Z.mod_pos_bound (tg_nbits t + 63) 64). lia. }
  rewrite En. destruct (bitmap_extents_cover (bitmap_bytes_of (tg_bitmap (cdp_mark t sector bytes))) (tg_chunk_sectors t) (tg_nbits t))
    as (es & E & Hsep & Hcov); [lia|rewrite blen_bitmap_bytes; lia|].
  exists es. split; [done|]. split; [done|]. intros x. rewrite Hcov, dirty_bitmap_bytes by lia.
  assert (0 <= x / tg_chunk_sectors t < tg_nbits t ->
    test_bit (x / tg_chunk_sectors t) (tg_bitmap (cdp_mark t sector bytes)) =
      test_bit (x / tg_chunk_sectors t) (tg_bitmap t) || chunk_touched t sector bytes (x / tg_chunk_sectors t)) as E2.
  { intros Hx. rewrite cdp_mark_bits by (done || lia). by rewrite (proj2 (Z.ltb_lt 0 bytes)) by lia. }
  split; intros [Hx Ht]; (split; [done|]); specialize (E2 Hx).
  - by rewrite <-E2; apply andb_true_iff in Ht as [_ Ht].
  - rewrite E2, Ht, (proj2 (Z.leb_le _ _)), (proj2 (Z.ltb_lt _ _)) by lia. done.
Qed.

(** [dmcdp.status] unpacks the status block of the driver: every field has
    the name and the value the driver gave it. *)
Theorem status_driver alloc t :
  status_fits t ->
  exists st, status (fd_of alloc true t) = Ok st /\
    st !! "abi_version" = Some ABI_VERSION /\ st !! "flags" = Some (status_flags t) /\
    st !! "dev_sectors" = Some (tg_len t) /\ st !! "chunk_sectors" = Some (tg_chunk_sectors t) /\
    st !! "minor" = Some (tg_minor t) /\ st !! "bitmap_bits" = Some (tg_nbits t) /\
    st !! "bitmap_bytes" = Some (cdp_bitmap_bytes t) /\
    st !! "bitmap_set" = Some (bitmap_weight (tg_bitmap t) (tg_nbits t)) /\
    st !! "ring_size" = Some (rg_size (tg_ring t)) /\
    st !! "ring_used" = Some (to_u64 (rg_head (tg_ring t) - rg_tail (tg_ring t))) /\
    st !! "seq_next" = Some (rg_seq_next (tg_ring t)) /\ st !! "records" = Some (tg_records t) /\
    st !! "bytes_logged" = Some (tg_bytes_logged t) /\ st !! "overflows" = Some (rg_overflows (tg_ring t)).
Proof. intros H. exists (status_dict t). split; [by apply status_of_driver|]. repeat split; reflexivity. Qed.

(** A disk of 1000 sectors in 8 chunks, two of them dirty. *)
Definition demo_target : cdp_target :=
  set_bitmap [5] (cdp_ctr_target 0 1000 2048 1 64 3 zero_image).

Lemma demo_target_ok : target_ok demo_target.
Proof. split; [split; reflexivity|split; [discriminate|split; reflexivity]|reflexivity|reflexivity|]. repeat constructor; discriminate. Qed.

Lemma mark_read_extents_witness :
  exists es, ('(bm, chunk, nbits) ← read_bitmap (fd_of true true (cdp_mark demo_target 120 16384)) true;
              bitmap_extents bm chunk nbits) = Ok es /\ separated 0 es /\
    forall x, Exists (in_extent x) es <->
      0 <= x / 128 < 8 /\ test_bit (x / 128) [5] || chunk_touched demo_target 120 16384 (x / 128) = true.
Proof.
  apply (mark_read_extents demo_target 120 16384 true); [apply demo_target_ok| |discriminate|split; [reflexivity|discriminate]|discriminate].
  vm_compute. repeat constructor; discriminate.
Defined.

Example mark_read_extents_example :
  ('(bm, chunk, nbits) ← read_bitmap (fd_of true true (cdp_mark demo_target 120 16384)) true; bitmap_extents bm chunk nbits)
    = Ok [(0, 384)].
Proof. vm_compute. reflexivity. Qed.

Lemma status_driver_witness :
  exists st, status (fd_of true true demo_target) = Ok st /\ st !! "bitmap_set" = Some 2 /\ st !! "ring_size" = Some 1048576.
Proof.
  destruct (status_driver true demo_target) as (st & E & _ & _ & _ & _ & _ & _ & _ & Hw & Hs & _);
    [vm_compute; repeat constructor; discriminate|].
  exists st. split; [exact E|]. split; [exact Hw|exact Hs].
Defined.
