(* ===== verification/DriverRuns.v ===== *)
(** * Runs of the driver over its backing device

    Requests are submitted, the backing device completes them in any order, a
    reader drains the ring, ioctls come in between: the [world] of one target.
    The theorems say that the reader gets the records of the requests in the
    order of submission, each only once the device is done with it, and that
    the records of a quiet target replay to the content of the disk. *)
From S2P Require Import Prelude Dmcdp Files Seed Replica Apply CopyProtocol Consume Driver Ring DirtyMap.

(** ** One request *)

(** The request goes into the log. *)
Definition logs (b : bio) : bool :=
  match bi_op b with
  | OpWrite => negb (bi_size b =? 0) || bi_preflush b
  | OpDiscard | OpSecureErase | OpWriteZeroes => true
  | OpOther => false
  end.

Definition bio_type (b : bio) : Z :=
  match bi_op b with
  | OpWrite => if bi_size b =? 0 then REC_FLUSH else REC_WRITE
  | OpDiscard | OpSecureErase => REC_DISCARD
  | OpWriteZeroes => REC_ZERO
  | OpOther => 0
  end.

Definition bio_rel (t : cdp_target) (b : bio) : Z :=
  if bio_type b =? REC_FLUSH then 0 else to_u64 (bi_sector b - tg_begin t).

Definition bio_data (b : bio) : bytes := if bio_type b =? REC_WRITE then bi_data b else [].

(** A request of the block layer for this target: whole sectors inside it; a
    write is split at [CDP_MAX_IO_SECTORS]. *)
Record valid_bio (t : cdp_target) (b : bio) : Prop := {
  vb_size : 0 <= bi_size b < 2 ^ 32 /\ bi_size b mod 512 = 0;
  vb_range : bio_type b <> REC_FLUSH -> tg_begin t <= bi_sector b /\ bi_sector b - tg_begin t + bi_size b / 512 <= tg_len t;
  vb_some : logs b = true -> bio_type b <> REC_FLUSH -> 0 < bi_size b;
  vb_data : bi_op b = OpWrite -> blen (bi_data b) = bi_size b /\ bi_size b <= CDP_MAX_IO_SECTORS * 512;
}.

(** The record the driver reserves for it; [data] is what was in the ring. *)
Definition bio_rec (t : cdp_target) (b : bio) (now : Z) : rec :=
  new_rec (tg_ring t) (bio_type b) (bio_flags b) (bio_rel t b) (bi_size b) (blen (bio_data b)) now.

Definition bio_slot (t : cdp_target) (b : bio) (now off : Z) (data : bytes) : slot := mk_slot off (bio_rec t b now) data.

(** *** Two memories with the same bytes *)

Lemma ring_inv_ext g q m : (forall i, m i = rg_mem g i) -> ring_inv g q -> ring_inv (with_mem m g) q.
Proof.
  intros E I. destruct (ri_size _ _ I). split; cbn [with_mem rg_size rg_head rg_tail rg_mem rg_seq_next]; try apply I.
  eapply layout_ext; [lia|apply I|]. intros a _. symmetry. apply E.
Qed.

Lemma store_ext m m' p n v i : m i = m' i -> store m p n v i = store m' p n v i.
Proof. intros E. unfold store, img_write. by destruct (in_range _ _ _). Qed.

Lemma with_mem_mem g m m' : with_mem m (with_mem m' g) = with_mem m g.
Proof. done. Qed.

Lemma cdp_mark_fields t sector bytes :
  tg_ring (cdp_mark t sector bytes) = tg_ring t /\ tg_dead (cdp_mark t sector bytes) = tg_dead t /\
  tg_begin (cdp_mark t sector bytes) = tg_begin t /\ tg_len (cdp_mark t sector bytes) = tg_len t.
Proof. destruct (cdp_mark_set_bits t sector bytes) as (a & n & ->). done. Qed.

Lemma bio_flags_width b : in_width 4 (bio_flags b).
Proof. unfold bio_flags. by destruct (bi_fua b), (bi_preflush b). Qed.

Lemma upd_slot_same_flags state data o r d :
  upd_slot state (r_flags r) data (mk_slot o r d) = mk_slot o (with_state state r) data.
Proof. by destruct r. Qed.

(** [log_reserve] of a payload whose length is a multiple of 8. *)
Lemma log_reserve_spec t now q type flags rel len (copy : bool) :
  let payload := if copy then len else 0 in
  ring_inv (tg_ring t) q -> ring_young (tg_ring t) -> rec_args type flags rel len payload now -> payload mod 8 = 0 ->
  let '(pb, t') := log_reserve t now type flags rel len copy in
  match pb with
  | None => t' = set_ring (overflow (tg_ring t)) (cdp_mark t rel len)
  | Some off => exists g' data, t' = set_ring g' (cdp_mark t rel len) /\ blen data = payload /\
      ring_inv g' (q ++ [mk_slot off (new_rec (tg_ring t) type flags rel len payload now) data]) /\
      rg_gap_pending g' = false /\ rg_overflows g' = rg_overflows (tg_ring t) /\
      rg_overflowed g' = rg_overflowed (tg_ring t) /\ rg_size g' = rg_size (tg_ring t) /\ rg_tail g' = rg_tail (tg_ring t) /\
      rg_seq_next g' = rg_seq_next (tg_ring t) + 1
  end.
Proof.
  intros payload I Y A H8. unfold log_reserve. destruct (cdp_mark_fields t rel len) as (Er & _). rewrite Er. fold payload.
  pose proof (cdp_reserve_spec _ _ _ _ _ _ _ _ I Y A) as R.
  destruct (cdp_reserve _ _ _ _ _ _ _) as [[off|] g']; [|by destruct R as [-> _]].
  destruct R as (data & Hd & I' & _ & _ & Hsz & Htl & Ho & Hod & Hg & Hsq).
  exists g', data. split; [done|]. split; [|done].
  destruct (rec_need_spec payload (proj1 (ra_payload _ _ _ _ _ _ A))) as [Hneed Hneed8].
  rewrite Hd. pose proof (Z.div_mod (rec_need payload) 8). pose proof (Z.div_mod payload 8). rewrite REC_SIZE_56 in *. lia.
Qed.

(** [log_fill] of a record that lies in the ring. *)
Lemma log_fill_spec t b (copy : bool) q1 s q2 :
  let data := if copy then bi_data b else sl_data s in
  ring_inv (tg_ring t) (q1 ++ s :: q2) -> blen data = blen (sl_data s) ->
  exists g', log_fill t b copy (sl_off s) = set_ring g' t /\
    ring_inv g' (q1 ++ mk_slot (sl_off s) (with_state ST_DATA (sl_rec s)) data :: q2) /\ exists m, g' = with_mem m (tg_ring t).
Proof.
  intros data I Hd. unfold log_fill, cdp_rec_at. eexists. split; [reflexivity|]. split; [|by eexists].
  destruct copy.
  - pose proof (ring_fill _ q1 s q2 (bi_data b) ST_DATA I ltac:(unfold data in Hd; lia) ltac:(done)) as F.
    rewrite drop_ge, app_nil_r in F by (unfold data, blen in Hd; lia). destruct s as [o r d]. by rewrite upd_slot_same_flags in F.
  - pose proof (ring_fill _ q1 s q2 [] ST_DATA I (blen_nonneg _) ltac:(done)) as F. destruct s as [o r d].
    rewrite upd_slot_same_flags in F. eapply ring_inv_ext in F; [exact F|]. intros i. apply store_ext. symmetry. apply img_write_nil.
Qed.

Lemma to_u64_width z : in_width 8 (to_u64 z).
Proof. unfold in_width, to_u64. change (2 ^ (8 * Z.of_nat 8)) with (2 ^ 64). apply Z.mod_pos_bound. lia. Qed.

Lemma bio_rel_width t b : in_width 8 (bio_rel t b).
Proof. unfold bio_rel. destruct (_ =? _); [done|apply to_u64_width]. Qed.

Lemma valid_rel t b : target_ok t -> valid_bio t b -> bio_type b <> REC_FLUSH ->
  bio_rel t b = bi_sector b - tg_begin t /\ 0 <= bio_rel t b /\ bio_rel t b + bi_size b / 512 <= tg_len t.
Proof.
  intros K V Hf. destruct (vb_range _ _ V Hf) as [H1 H2]. pose proof (to_len _ K) as [_ Hl]. destruct (vb_size _ _ V) as [[H3 _] _].
  unfold bio_rel. rewrite (proj2 (Z.eqb_neq _ _) Hf). pose proof (Z.div_pos (bi_size b) 512). unfold to_u64. rewrite Z.mod_small; lia.
Qed.

Lemma valid_data t b : valid_bio t b -> bio_type b = REC_WRITE ->
  bi_op b = OpWrite /\ bi_size b <> 0 /\ bio_data b = bi_data b /\ blen (bio_data b) = bi_size b.
Proof.
  intros V. unfold bio_data, bio_type. destruct (bi_op b) eqn:Eo; try discriminate.
  destruct (Z.eqb_spec (bi_size b) 0); [discriminate|]. intros _. change (REC_WRITE =? REC_WRITE) with true.
  split; [done|]. split; [done|]. split; [done|]. by apply (vb_data _ _ V).
Qed.

(** A request that is logged, and one that is not. *)
Lemma cdp_map_log log t b : logs b = true ->
  cdp_map_with log t b =
    (let '(pb, t') := log t (bio_type b) (bio_flags b) (bio_rel t b) (bi_size b) (bio_type b =? REC_WRITE) in
     (pb, to_u64 (tg_start t + to_u64 (bi_sector b - tg_begin t)), t')).
Proof.
  unfold logs, cdp_map_with, bio_rel, bio_type. destruct (bi_op b); cbn [REC_WRITE REC_FLUSH REC_DISCARD REC_ZERO]; try done.
  destruct (Z.eqb_spec (bi_size b) 0) as [->|]; [|done]. cbn [negb orb]. by intros ->.
Qed.

Lemma cdp_map_skip log t b : logs b = false ->
  cdp_map_with log t b = (None, to_u64 (tg_start t + to_u64 (bi_sector b - tg_begin t)), t).
Proof.
  unfold logs, cdp_map_with. destruct (bi_op b); try done. destruct (bi_size b =? 0); [|done]. cbn [negb orb]. by intros ->.
Qed.

(** [cdp_map] is its two halves. *)
Lemma cdp_map_halves t b now :
  cdp_map t b now =
    (let '(pb, dest, t') := map_reserve t b now in
     (pb, dest, match pb with Some off => log_fill t' b (bio_type b =? REC_WRITE) off | None => t' end)).
Proof.
  unfold cdp_map, map_reserve. destruct (logs b) eqn:Hl; [|by rewrite !cdp_map_skip].
  rewrite !cdp_map_log by done. unfold cdp_log. by destruct (log_reserve _ _ _ _ _ _ _) as [pb t'].
Qed.

Lemma valid_rec_args t b now : valid_bio t b -> logs b = true -> in_width 8 now ->
  rec_args (bio_type b) (bio_flags b) (bio_rel t b) (bi_size b) (if bio_type b =? REC_WRITE then bi_size b else 0) now.
Proof.
  intros V Hl Hn. destruct (vb_size _ _ V) as [Hs _]. split; [| |apply bio_rel_width| |done| |].
  - unfold logs, bio_type, REC_WRITE, REC_FLUSH, REC_DISCARD, REC_ZERO in *. destruct (bi_op b); try discriminate; try lia. destruct (_ =? 0); lia.
  - apply bio_flags_width.
  - exact Hs.
  - destruct (Z.eqb_spec (bio_type b) REC_WRITE) as [E|]; [|done].
    destruct (valid_data _ _ V E) as (Eo & _). pose proof (vb_data _ _ V Eo). lia.
  - intros ->. change (REC_WRITE =? REC_WRITE) with true. cbn. lia.
Qed.

Lemma bio_data_aligned t b : valid_bio t b -> blen (bio_data b) mod 8 = 0.
Proof.
  intros V. destruct (decide (bio_type b = REC_WRITE)) as [E|E].
  - destruct (valid_data _ _ V E) as (_ & _ & _ & ->). destruct (vb_size _ _ V) as [_ H].
    pose proof (Z.div_mod (bi_size b) 512). replace (bi_size b) with (64 * (bi_size b / 512) * 8) by lia. apply Z.mod_mul. lia.
  - unfold bio_data. by rewrite (proj2 (Z.eqb_neq _ _) E).
Qed.

(** What a request does to the target when it comes: its chunks are marked,
    and its record is the newest of the ring, or it is dropped and the next
    record will carry the gap flag. *)
Lemma map_reserve_spec t b now q :
  ring_inv (tg_ring t) q -> ring_young (tg_ring t) -> valid_bio t b -> in_width 8 now -> logs b = true ->
  let '(pb, _, t') := map_reserve t b now in
  match pb with
  | None => t' = set_ring (overflow (tg_ring t)) (cdp_mark t (bio_rel t b) (bi_size b))
  | Some off => exists g' data, t' = set_ring g' (cdp_mark t (bio_rel t b) (bi_size b)) /\ blen data = blen (bio_data b) /\
      ring_inv g' (q ++ [bio_slot t b now off data]) /\
      rg_gap_pending g' = false /\ rg_overflows g' = rg_overflows (tg_ring t) /\
      rg_overflowed g' = rg_overflowed (tg_ring t) /\ rg_size g' = rg_size (tg_ring t) /\ rg_tail g' = rg_tail (tg_ring t) /\
      rg_seq_next g' = rg_seq_next (tg_ring t) + 1
  end.
Proof.
  intros I Y V Hn Hl. unfold map_reserve. rewrite cdp_map_log by done.
  assert ((if bio_type b =? REC_WRITE then bi_size b else 0) = blen (bio_data b)) as Ed.
  { destruct (Z.eqb_spec (bio_type b) REC_WRITE) as [E|E]; [by destruct (valid_data _ _ V E) as (_ & _ & _ & ->)|].
    unfold bio_data. by rewrite (proj2 (Z.eqb_neq _ _) E). }
  pose proof (log_reserve_spec t now q _ _ _ _ (bio_type b =? REC_WRITE) I Y (valid_rec_args _ _ _ V Hl Hn)) as L.
  cbn zeta in L. rewrite Ed in L. specialize (L (bio_data_aligned _ _ V)).
  by destruct (log_reserve _ _ _ _ _ _ _) as [pb t'].
Qed.

(** *** Completion *)

Definition done_flags (error : bool) (flags : Z) : Z := if error then Z.lor flags F_ERROR else flags.

(** The record when the device is done with its request. *)
Definition done_slot (error : bool) (s : slot) : slot :=
  upd_slot ST_COMMITTED (done_flags error (r_flags (sl_rec s))) (sl_data s) s.

Lemma cdp_end_io_spec t q1 s q2 error :
  ring_inv (tg_ring t) (q1 ++ s :: q2) ->
  exists g' , cdp_end_io t (Some (sl_off s)) error =
      set_counts (tg_records t + 1)
        (tg_bytes_logged t + (if r_type (sl_rec s) =? REC_WRITE then r_len (sl_rec s) else 0)) (set_ring g' t) /\
    ring_inv g' (q1 ++ done_slot error s :: q2) /\ exists m, g' = with_mem m (tg_ring t).
Proof.
  intros I. destruct (ring_slot _ _ _ _ I) as [S W]. unfold cdp_end_io, cdp_rec_at. set (g := tg_ring t) in *.
  set (pos := sl_off s mod rg_size g) in *.
  pose proof (slot_fields _ _ _ S) as F. injection F as _ _ Ft Ff _ _ _ Fl _ _ _. fold pos in Ft, Ff, Fl.
  assert (forall m, m = rg_mem g \/ (exists v, m = set_flags (rg_mem g) pos v) ->
    rec_type m pos = r_type (sl_rec s) /\ rec_len m pos = r_len (sl_rec s)) as Hm.
  { intros m [->|[v ->]]; [done|]. unfold rec_type, rec_len, set_flags. rewrite !load_store_other by lia. done. }
  destruct (Hm (if error then set_flags (rg_mem g) pos (Z.lor (rec_flags (rg_mem g) pos) F_ERROR) else rg_mem g)) as [-> ->].
  { destruct error; [right; by eexists|by left]. }
  eexists. split; [f_equal; destruct (_ =? _); lia|]. split; [|by eexists].
  unfold done_slot, done_flags. destruct (wf_fields _ W) as (Wf & _).
  destruct error.
  - unfold rec_flags. rewrite Ff. apply ring_complete; [done|by apply in_width_lor|done].
  - pose proof (ring_complete g q1 s q2 (r_flags (sl_rec s)) ST_COMMITTED I Wf ltac:(done)) as C.
    eapply ring_inv_ext in C; [exact C|]. intros i. apply store_ext. symmetry. by apply (set_flags_same _ _ _ S).
Qed.

(** ** The world of a target *)

(** How far a request is: its record is reserved and not filled yet, the
    device works on it, or the device is done with it (with or without an
    error). *)
Inductive phase : Type := Reserved | InFlight | Done (error : bool).

#[export] Instance phase_eq_dec : EqDecision phase.
Proof. solve_decision. Defined.

Definition is_done (p : phase) : bool := match p with Done _ => true | _ => false end.

(** A request that was submitted, and what the driver logged for it. *)
Record sub : Type := mk_sub { sb_bio : bio; sb_pb : cdp_pb; sb_phase : phase }.

(** The target, the content of the disk as seen through it, the requests in
    the order of their submission, and what the reads returned. *)
Record world : Type := mk_world {
  w_target : cdp_target;
  w_disk : image;
  w_subs : list sub;
  w_reads : list bytes;
}.

(** Submitting a request is two events, between which other processors run. *)
Inductive event : Type :=
  | Submit (b : bio) (now : Z)
  | Fill (k : nat)
  | Complete (k : nat) (error : bool)
  | Read (copy_ok : Z -> bool) (nonblock : bool) (count : Z)
  | Ioctl (alloc copied : bool) (cmd : ioctl_cmd)
  | Remove.

Definition set_dead (t : cdp_target) : cdp_target :=
  mk_target (tg_begin t) (tg_len t) (tg_start t) (tg_ring t) (tg_records t) (tg_bytes_logged t) (tg_bitmap t)
    (tg_nbits t) (tg_chunk_sectors t) (tg_minor t) true.

(** What a request that succeeds does to the disk. *)
Definition bio_effect (t : cdp_target) (b : bio) (disk : image) : image :=
  let off := bio_rel t b * 512 in
  match bi_op b with
  | OpWrite => img_write disk off (bio_data b)
  | OpDiscard | OpSecureErase | OpWriteZeroes => img_zero disk off (bi_size b)
  | OpOther => disk
  end.

Section World.
(** The backing device: what it leaves on the disk for a request of the
    target that it completes with or without an error. *)
Variable device : cdp_target -> bio -> bool -> image -> image.

Definition step (w : world) (e : event) : world :=
  let t := w_target w in
  match e with
  | Submit b now =>
      let '(pb, _, t') := map_reserve t b now in
      mk_world t' (w_disk w) (w_subs w ++ [mk_sub b pb match pb with Some _ => Reserved | None => InFlight end]) (w_reads w)
  | Fill k =>
      match w_subs w !! k with
      | Some (mk_sub b (Some off) Reserved) =>
          mk_world (log_fill t b (bio_type b =? REC_WRITE) off) (w_disk w) (<[k := mk_sub b (Some off) InFlight]> (w_subs w)) (w_reads w)
      | _ => w
      end
  | Complete k error =>
      match w_subs w !! k with
      | Some (mk_sub b pb InFlight) =>
          mk_world (cdp_end_io t pb error) (device t b error (w_disk w)) (<[k := mk_sub b pb (Done error)]> (w_subs w)) (w_reads w)
      | _ => w
      end
  | Read copy_ok nonblock count =>
      let '(o, t') := cdp_read copy_ok nonblock count t in
      mk_world t' (w_disk w) (w_subs w) (match o with ReadBytes b => w_reads w ++ [b] | _ => w_reads w end)
  | Ioctl alloc copied cmd => mk_world (cdp_ioctl alloc copied cmd t).2 (w_disk w) (w_subs w) (w_reads w)
  | Remove => mk_world (set_dead t) (w_disk w) (w_subs w) (w_reads w)
  end.

(** What the block layer and the clock guarantee, and 64-bit offsets. *)
Definition ok_event (w : world) (e : event) : Prop :=
  match e with
  | Submit b now => valid_bio (w_target w) b /\ in_width 8 now /\ ring_young (tg_ring (w_target w))
  | Read _ _ count => 0 <= count /\ ring_young (tg_ring (w_target w))
  | _ => True
  end.

(** The worlds a run goes through, each event allowed by [guard]. *)
Inductive reaches (guard : world -> event -> Prop) (w0 : world) : world -> Prop :=
  | reaches_refl : reaches guard w0 w0
  | reaches_step w e : reaches guard w0 w -> guard w e -> reaches guard w0 (step w e).

(** A target as [cdp_ctr] leaves it, over a disk. *)
Definition fresh (begin len offset ring_mb chunk_kb minor : Z) (mem disk : image) : world :=
  mk_world (cdp_ctr_target begin len offset ring_mb chunk_kb minor mem) disk [] [].

(** *** The invariant *)

Definition logged (subs : list sub) : list sub := filter (fun s => is_Some (sb_pb s)) subs.

(** Which records come after a gap: a request was dropped since the record
    before. *)
Fixpoint gap_marks (lost : bool) (subs : list sub) : list bool :=
  match subs with
  | [] => []
  | sb :: subs' =>
      match sb_pb sb with
      | Some _ => lost :: gap_marks false subs'
      | None => gap_marks (lost || logs (sb_bio sb)) subs'
      end
  end.

(** A request was dropped since the newest record. *)
Definition lost_since (lost : bool) (subs : list sub) : bool :=
  foldl (fun lost sb => match sb_pb sb with Some _ => false | None => lost || logs (sb_bio sb) end) lost subs.

Definition gap_flag (s : slot) : bool := Z.testbit (r_flags (sl_rec s)) 3.

(** The record [s] is the one of the request [sb]. *)
Record sub_slot (t : cdp_target) (s : slot) (sb : sub) : Prop := {
  ss_wf : slot_wf s;
  ss_pb : sb_pb sb = Some (sl_off s);
  ss_state : r_state (sl_rec s) = match sb_phase sb with Reserved => ST_RESERVED | InFlight => ST_DATA | Done _ => ST_COMMITTED end;
  ss_error : Z.testbit (r_flags (sl_rec s)) 2 = bool_decide (sb_phase sb = Done true);
  ss_type : r_type (sl_rec s) = bio_type (sb_bio sb);
  ss_sector : r_sector (sl_rec s) = bio_rel t (sb_bio sb);
  ss_len : r_len (sl_rec s) = bi_size (sb_bio sb);
  ss_size : blen (sl_data s) = blen (bio_data (sb_bio sb));
  ss_data : sb_phase sb <> Reserved -> sl_data s = bio_data (sb_bio sb);
  ss_valid : valid_bio t (sb_bio sb);
}.

(** [D] was delivered, [q] is in the ring. *)
Record world_inv (w : world) (D q : list slot) : Prop := {
  wi_target : target_ok (w_target w);
  wi_ring : ring_inv (tg_ring (w_target w)) q;
  wi_subs : Forall2 (sub_slot (w_target w)) (D ++ q) (logged (w_subs w));
  wi_reads : concat (w_reads w) = stream D;
  wi_done : Forall (fun s => r_state (sl_rec s) = ST_COMMITTED) D;
  wi_seqs : seqs (D ++ q) = seqZ 0 (blen (D ++ q)) /\ rg_seq_next (tg_ring (w_target w)) = blen (D ++ q);
  wi_gaps : gap_flag <$> (D ++ q) = gap_marks false (w_subs w) /\
    rg_gap_pending (tg_ring (w_target w)) = lost_since false (w_subs w);
}.
End World.

(** ** Every event keeps the invariant *)

Lemma ring_inv_same g g' q :
  ring_inv g q -> rg_mem g' = rg_mem g -> rg_size g' = rg_size g -> rg_head g' = rg_head g -> rg_tail g' = rg_tail g ->
  rg_seq_next g' = rg_seq_next g -> ring_inv g' q.
Proof. intros []. destruct g, g'. cbn in *. intros -> -> -> -> ->. by split. Qed.

(** Only the place of the target on the disk matters. *)
Lemma sub_slot_place t t' s sb : tg_begin t' = tg_begin t -> tg_len t' = tg_len t -> sub_slot t s sb -> sub_slot t' s sb.
Proof.
  intros Eb El [? ? ? ? ? Hsec ? ? ? V]. split; try done.
  - rewrite Hsec. unfold bio_rel. by rewrite Eb.
  - destruct V as [? Hr ? ?]. split; [done| |done|done]. by rewrite Eb, El.
Qed.

Lemma sub_slots_place t t' l subs :
  tg_begin t' = tg_begin t -> tg_len t' = tg_len t -> Forall2 (sub_slot t) l subs -> Forall2 (sub_slot t') l subs.
Proof. intros Eb El H. eapply Forall2_impl; [exact H|]. intros s sb. by apply sub_slot_place. Qed.

(** An event that leaves the ring's records alone. *)
Lemma world_inv_same w w' D q :
  world_inv w D q -> target_ok (w_target w') -> ring_inv (tg_ring (w_target w')) q ->
  rg_seq_next (tg_ring (w_target w')) = rg_seq_next (tg_ring (w_target w)) ->
  tg_begin (w_target w') = tg_begin (w_target w) -> tg_len (w_target w') = tg_len (w_target w) ->
  logged (w_subs w') = logged (w_subs w) -> w_reads w' = w_reads w ->
  gap_marks false (w_subs w') = gap_marks false (w_subs w) ->
  rg_gap_pending (tg_ring (w_target w')) = lost_since false (w_subs w') -> world_inv w' D q.
Proof.
  intros [K I S R Hd [Q1 Q2] [G1 G2]] K' I' Hq Hb Hl Hs Hr Hg Hp. split; [done|done| | |done|by rewrite Hq|by rewrite Hg].
  - rewrite Hs. by eapply sub_slots_place.
  - by rewrite Hr.
Qed.

Lemma logged_app s1 s2 : logged (s1 ++ s2) = logged s1 ++ logged s2.
Proof. apply filter_app. Qed.

Lemma gap_marks_app lost s1 s2 : gap_marks lost (s1 ++ s2) = gap_marks lost s1 ++ gap_marks (lost_since lost s1) s2.
Proof.
  revert lost. induction s1 as [|sb s1 IH]; intros lost; [done|]. cbn. destruct (sb_pb sb); cbn; [by rewrite IH|apply IH].
Qed.

Lemma lost_since_app lost s1 s2 : lost_since lost (s1 ++ s2) = lost_since (lost_since lost s1) s2.
Proof. apply foldl_app. Qed.

Lemma new_gap_flag t b now off data : gap_flag (bio_slot t b now off data) = rg_gap_pending (tg_ring t).
Proof.
  unfold gap_flag, bio_slot, bio_rec. cbn [sl_rec new_rec r_flags]. unfold new_flags, bio_flags.
  by destruct (rg_gap_pending _), (bi_fua b), (bi_preflush b).
Qed.

Lemma new_slot_ok t b now off data :
  slot_wf (bio_slot t b now off data) -> valid_bio t b -> logs b = true -> blen data = blen (bio_data b) ->
  sub_slot t (bio_slot t b now off data) (mk_sub b (Some off) Reserved).
Proof.
  intros W V Hl Hd. split; cbn [bio_slot sl_off sl_rec sl_data sb_pb sb_phase sb_bio]; try done.
  unfold bio_rec. cbn [new_rec r_flags]. unfold new_flags, bio_flags.
  by destruct (rg_gap_pending _), (bi_fua b), (bi_preflush b).
Qed.

Lemma map_target_ok t t' sector bytes g :
  target_ok t -> t' = set_ring g (cdp_mark t sector bytes) ->
  target_ok t' /\ tg_begin t' = tg_begin t /\ tg_len t' = tg_len t /\ tg_ring t' = g.
Proof.
  intros K ->. destruct (cdp_mark_fields t sector bytes) as (_ & _ & Hb & Hl). pose proof (cdp_mark_ok t sector bytes K) as K'.
  split; [|by cbn]. by destruct K'.
Qed.

Lemma submit_inv device w b now D q :
  world_inv w D q -> ok_event w (Submit b now) ->
  exists q', world_inv (step device w (Submit b now)) D q'.
Proof.
  intros I (V & Hn & Y). cbn [step]. destruct (logs b) eqn:Hl.
  2: { unfold map_reserve. rewrite cdp_map_skip by done. exists q. eapply world_inv_same; [done|apply I|apply I|done..| |done| |]; cbn [w_subs w_target].
       - rewrite logged_app. by rewrite app_nil_r.
       - rewrite gap_marks_app. cbn. by rewrite app_nil_r.
       - rewrite lost_since_app. cbn. rewrite Hl, orb_false_r. apply I. }
  pose proof (map_reserve_spec _ _ now q (wi_ring _ _ _ I) Y V Hn Hl) as M.
  destruct (map_reserve _ _ _) as [[pb dest] t']. destruct pb as [off|].
  - destruct M as (g' & data & Et & Hd & I' & Hgap & _ & _ & _ & _ & Hsq).
    destruct (map_target_ok _ _ _ _ _ (wi_target _ _ _ I) Et) as (K' & Hb & Hle & Hg).
    exists (q ++ [bio_slot (w_target w) b now off data]). destruct (wi_seqs _ _ _ I) as [Q1 Q2].
    split; cbn [w_target w_subs w_reads].
    + done.
    + by rewrite Hg.
    + rewrite app_assoc, logged_app. eapply sub_slots_place; [done..|]. apply Forall2_app; [apply I|].
      constructor; [|constructor]. apply new_slot_ok; [|done|done|done].
      by destruct (ring_slot g' q (bio_slot (w_target w) b now off data) [] I').
    + apply I.
    + apply I.
    + rewrite Hg, Hsq, app_assoc, seqs_app, Q1.
      rewrite (blen_app (D ++ q) [bio_slot (w_target w) b now off data]). change (blen [bio_slot _ _ _ _ _]) with 1.
      split; [|by rewrite Q2].
      pose proof (blen_nonneg (D ++ q)). rewrite seqZ_app by lia. f_equal. cbn [seqs fmap list_fmap bio_slot sl_rec].
      unfold bio_rec. cbn [new_rec r_seq]. by rewrite Q2, Z.add_0_l.
    + destruct (wi_gaps _ _ _ I) as [G1 G2].
      rewrite gap_marks_app, lost_since_app, app_assoc, fmap_app, G1, Hg, Hgap. split; [|done].
      f_equal. cbn [gap_marks sb_pb fmap list_fmap]. by rewrite new_gap_flag, G2.
  - exists q. destruct (map_target_ok _ _ _ _ _ (wi_target _ _ _ I) M) as (K' & Hb & Hle & Hg).
    eapply world_inv_same; [done|done| | |done|done| |done| |]; cbn [w_target w_subs].
    + rewrite Hg. by eapply ring_inv_same; [apply I|..].
    + by rewrite Hg.
    + rewrite logged_app. by rewrite app_nil_r.
    + rewrite gap_marks_app. cbn. by rewrite app_nil_r.
    + rewrite lost_since_app, Hg. cbn. by rewrite Hl, orb_true_r.
Qed.

Lemma logged_insert subs k b pb d d' :
  subs !! k = Some (mk_sub b pb d) ->
  match pb with
  | None => logged (<[k := mk_sub b pb d']> subs) = logged subs
  | Some _ => exists l1 l2, logged subs = l1 ++ mk_sub b pb d :: l2 /\
      logged (<[k := mk_sub b pb d']> subs) = l1 ++ mk_sub b pb d' :: l2
  end.
Proof.
  intros Hk. pose proof (take_drop_middle _ _ _ Hk) as E. pose proof (lookup_lt_Some _ _ _ Hk) as Hlt.
  assert (<[k := mk_sub b pb d']> subs = take k subs ++ mk_sub b pb d' :: drop (S k) subs) as E'.
  { rewrite insert_take_drop by done. done. }
  rewrite E'. apply (f_equal logged) in E. destruct pb as [off|].
  - exists (logged (take k subs)), (logged (drop (S k) subs)). split.
    + rewrite <-E, logged_app. unfold logged at 2. by rewrite filter_cons_True.
    + rewrite logged_app. unfold logged at 2. by rewrite filter_cons_True.
  - by rewrite <-E, !logged_app.
Qed.

Lemma gap_marks_insert subs k b pb d d' :
  subs !! k = Some (mk_sub b pb d) ->
  (forall lost, gap_marks lost (<[k := mk_sub b pb d']> subs) = gap_marks lost subs) /\
  (forall lost, lost_since lost (<[k := mk_sub b pb d']> subs) = lost_since lost subs).
Proof.
  intros Hk. pose proof (take_drop_middle _ _ _ Hk) as E. pose proof (lookup_lt_Some _ _ _ Hk) as Hlt.
  rewrite insert_take_drop by done.
  split; intros lost; [pose proof (f_equal (gap_marks lost) E) as <-|pose proof (f_equal (lost_since lost) E) as <-].
  - by rewrite !gap_marks_app.
  - by rewrite !lost_since_app.
Qed.

Lemma split_delivered (D q X Y : list slot) s :
  D ++ q = X ++ s :: Y -> Forall (fun s => r_state (sl_rec s) = ST_COMMITTED) D -> r_state (sl_rec s) <> ST_COMMITTED ->
  exists q1, X = D ++ q1 /\ q = q1 ++ s :: Y.
Proof.
  revert X. induction D as [|d D IH]; intros X E HD Hs; [by exists X|].
  apply Forall_cons in HD as [Hd HD]. destruct X as [|x X]; cbn in E; injection E as -> E; [done|].
  destruct (IH X E HD Hs) as (q1 & -> & ->). by exists q1.
Qed.

Lemma done_slot_ok t s b error :
  slot_wf (done_slot error s) -> sub_slot t s (mk_sub b (Some (sl_off s)) InFlight) ->
  sub_slot t (done_slot error s) (mk_sub b (Some (sl_off s)) (Done error)).
Proof.
  intros W [_ _ Hst He Ht Hsec Hl Hsz Hd V]. split; try done.
  - cbn [done_slot upd_slot sl_rec with_state with_flags r_flags sb_phase] in *.
    unfold done_flags. rewrite bool_decide_eq_false_2 in He by done.
    destruct error; [|by rewrite He, bool_decide_eq_false_2].
    rewrite Z.lor_spec, He. by rewrite bool_decide_eq_true_2.
  - intros _. by apply Hd.
Qed.

(** One logged request and its record change together. *)
Lemma world_update w w' D q k b off p p' s' g' :
  world_inv w D q -> w_subs w !! k = Some (mk_sub b (Some off) p) -> is_done p = false ->
  (forall q1 s q2, q = q1 ++ s :: q2 -> sub_slot (w_target w) s (mk_sub b (Some off) p) -> sl_off s = off ->
     ring_inv g' (q1 ++ s' s :: q2) /\ sub_slot (w_target w) (s' s) (mk_sub b (Some off) p') /\
     r_seq (sl_rec (s' s)) = r_seq (sl_rec s) /\ gap_flag (s' s) = gap_flag s) ->
  (exists m, g' = with_mem m (tg_ring (w_target w))) ->
  target_ok (w_target w') -> tg_ring (w_target w') = g' -> tg_begin (w_target w') = tg_begin (w_target w) ->
  tg_len (w_target w') = tg_len (w_target w) -> w_reads w' = w_reads w -> w_subs w' = <[k := mk_sub b (Some off) p']> (w_subs w) ->
  exists q', world_inv w' D q'.
Proof.
  intros I Hk Hp Hup [m Em] K' Eg Eb El Er Es.
  destruct (logged_insert _ _ _ _ _ p' Hk) as (l1 & l2 & E1 & E2). destruct (gap_marks_insert _ _ _ _ _ p' Hk) as [GM GL].
  pose proof (wi_subs _ _ _ I) as S. rewrite E1 in S.
  apply Forall2_app_inv_r in S as (X & Y' & S1 & S2 & EX). apply Forall2_cons_inv_r in S2 as (s & Y & Ss & S2 & ->).
  destruct (split_delivered D q X Y s EX (wi_done _ _ _ I)) as (q1 & -> & ->).
  { rewrite (ss_state _ _ _ Ss). cbn [sb_phase]. by destruct p. }
  pose proof (ss_pb _ _ _ Ss) as Ho. cbn [sb_pb] in Ho. injection Ho as Ho.
  destruct (Hup q1 s Y eq_refl Ss (eq_sym Ho)) as (I' & Ss' & Hseq & Hgap). exists (q1 ++ s' s :: Y).
  assert (blen (D ++ q1 ++ s' s :: Y) = blen (D ++ q1 ++ s :: Y)) as Ebl by (unfold blen; by rewrite !length_app).
  split.
  - done.
  - by rewrite Eg.
  - rewrite Es, E2, app_assoc. eapply (sub_slots_place (w_target w)); [done..|]. apply Forall2_app; [done|]. by constructor.
  - rewrite Er. apply I.
  - apply I.
  - destruct (wi_seqs _ _ _ I) as [Q1 Q2]. rewrite Ebl, Eg, Em. cbn [with_mem rg_seq_next]. split; [|done].
    rewrite <-Q1, !seqs_app. do 2 f_equal. cbn. by rewrite Hseq.
  - rewrite Es, GM, GL, Eg, Em. destruct (wi_gaps _ _ _ I) as [<- <-]. split; [|done].
    rewrite !fmap_app. do 2 f_equal. rewrite !fmap_cons. by rewrite Hgap.
Qed.

Lemma fill_slot_ok t s b :
  slot_wf (mk_slot (sl_off s) (with_state ST_DATA (sl_rec s)) (bio_data b)) -> sub_slot t s (mk_sub b (Some (sl_off s)) Reserved) ->
  sub_slot t (mk_slot (sl_off s) (with_state ST_DATA (sl_rec s)) (bio_data b)) (mk_sub b (Some (sl_off s)) InFlight).
Proof.
  intros W [_ _ Hst He Ht Hsec Hl Hsz Hd V]. by split.
Qed.

Lemma fill_inv device w k D q : world_inv w D q -> exists q', world_inv (step device w (Fill k)) D q'.
Proof.
  intros I. cbn [step]. destruct (w_subs w !! k) as [[b [off|] []]|] eqn:Hk; try by exists q.
  set (t' := log_fill _ _ _ _).
  eapply (world_update w _ D q k b off Reserved InFlight
    (fun s => mk_slot (sl_off s) (with_state ST_DATA (sl_rec s)) (bio_data b)) (tg_ring t')); try done.
  - intros q1 s q2 -> Ss <-.
    assert ((if bio_type b =? REC_WRITE then bi_data b else sl_data s) = bio_data b) as Ed.
    { unfold bio_data. destruct (Z.eqb_spec (bio_type b) REC_WRITE) as [E|E]; [done|].
      pose proof (ss_size _ _ _ Ss) as Hz. cbn [sb_bio] in Hz. unfold bio_data in Hz. rewrite (proj2 (Z.eqb_neq _ _) E) in Hz.
      apply nil_length_inv. rewrite blen_nil in Hz. unfold blen in Hz. lia. }
    destruct (log_fill_spec (w_target w) b (bio_type b =? REC_WRITE) q1 s q2 (wi_ring _ _ _ I)) as (g' & Eg & I' & _);
      [rewrite Ed; symmetry; apply (ss_size _ _ _ Ss)|].
    rewrite Ed in I'. unfold t'. rewrite Eg. split; [exact I'|]. split; [|done]. apply fill_slot_ok; [|done].
    by destruct (ring_slot _ _ _ _ I').
  - by eexists.
  - by destruct (wi_target _ _ _ I).
Qed.

Lemma complete_inv device w k error D q :
  world_inv w D q -> exists q', world_inv (step device w (Complete k error)) D q'.
Proof.
  intros I. cbn [step]. destruct (w_subs w !! k) as [[b pb []]|] eqn:Hk; try by exists q.
  destruct pb as [off|].
  2: { pose proof (logged_insert _ _ _ _ _ (Done error) Hk) as HL. destruct (gap_marks_insert _ _ _ _ _ (Done error) Hk) as [GM GL].
       exists q. eapply world_inv_same; [done|apply I|apply I|done..| |]; cbn [w_subs w_target cdp_end_io]; [done|].
       rewrite GL. apply I. }
  set (t' := cdp_end_io _ _ _).
  eapply (world_update w _ D q k b off InFlight (Done error) (done_slot error) (tg_ring t')); try done.
  - intros q1 s q2 -> Ss <-.
    destruct (cdp_end_io_spec (w_target w) q1 s q2 error (wi_ring _ _ _ I)) as (g' & Eg & I' & _).
    unfold t'. rewrite Eg. split; [exact I'|]. split; [apply done_slot_ok; [by destruct (ring_slot _ _ _ _ I')|done]|]. split; [done|].
    unfold gap_flag, done_slot, done_flags. cbn [upd_slot sl_rec with_state with_flags r_flags]. destruct error; [|done].
    rewrite Z.lor_spec. by rewrite orb_false_r.
  - by eexists.
  - by destruct (wi_target _ _ _ I).
Qed.

Lemma read_target_ok t g : target_ok t -> target_ok (set_ring g t).
Proof. by intros []. Qed.

Lemma taken_done copy_ok count copied q :
  Forall (fun s => r_state (sl_rec s) = ST_COMMITTED) (taken copy_ok count copied q).
Proof.
  revert copied. induction q as [|s q IH]; intros copied; cbn; [constructor|].
  destruct (Z.eqb_spec (r_state (sl_rec s)) ST_COMMITTED); cbn [andb]; [|constructor].
  destruct (_ && _); [|constructor]. by constructor.
Qed.

(** A [read]: the oldest records that are complete and fit the buffer, or the
    reason why there is none. *)
Lemma cdp_read_taken copy_ok nonblock count t q :
  ring_inv (tg_ring t) q -> ring_young (tg_ring t) -> 0 <= count ->
  let D := taken copy_ok count 0 q in
  exists g', cdp_read copy_ok nonblock count t =
      (if bool_decide (D = []) then stop_outcome copy_ok nonblock (tg_dead t) count q else ReadBytes (stream D), set_ring g' t) /\
    ring_inv g' (drop (length D) q) /\ exists tail, g' = with_tail tail (tg_ring t).
Proof.
  intros I Y Hc. unfold cdp_read.
  destruct (cdp_read_loop_spec copy_ok nonblock (tg_dead t) count q (S (Z.to_nat count)) (tg_ring t) [] I Y)
    as (g' & E & I' & _ & T); [rewrite blen_nil; lia|done|].
  rewrite blen_nil in *. rewrite E. exists g'. split; [|done]. f_equal. cbn [app].
  destruct (taken copy_ok count 0 q) as [|s D] eqn:ED; [done|]. rewrite !bool_decide_eq_false_2; [done|done|].
  rewrite stream_cons. pose proof (slot_bytes_nonempty s). by destruct (slot_bytes s).
Qed.

Lemma stop_not_bytes copy_ok nonblock dead count q b : stop_outcome copy_ok nonblock dead count q <> ReadBytes b.
Proof. unfold stop_outcome. by destruct q as [|s q]; repeat destruct (_ =? _); repeat destruct (_ <? _); destruct dead, nonblock. Qed.

Lemma read_inv device w copy_ok nonblock count D q :
  world_inv w D q -> ok_event w (Read copy_ok nonblock count) ->
  let T := taken copy_ok count 0 q in
  world_inv (step device w (Read copy_ok nonblock count)) (D ++ T) (drop (length T) q).
Proof.
  intros I [Hc Y] T. cbn [step].
  destruct (cdp_read_taken copy_ok nonblock count (w_target w) q (wi_ring _ _ _ I) Y Hc) as (g' & E & I' & tl & Eg). rewrite E.
  destruct (taken_prefix copy_ok count 0 q) as [rest Eq]. fold T in Eq, I', E |- *.
  assert (q = T ++ drop (length T) q) as Eq' by (rewrite Eq at 2; by rewrite drop_app_length).
  split; cbn [w_target w_subs w_reads set_ring tg_ring].
  - apply read_target_ok, I.
  - done.
  - rewrite <-app_assoc, <-Eq'. eapply (sub_slots_place (w_target w)); [done..|]. apply I.
  - destruct (bool_decide_reflect (T = [])) as [->|Ht].
    + rewrite app_nil_r. pose proof (stop_not_bytes copy_ok nonblock (tg_dead (w_target w)) count q) as Hs.
      destruct (stop_outcome _ _ _ _ _) as [b| | |]; [by destruct (Hs b)|apply I..].
    + rewrite concat_app. cbn [concat]. rewrite app_nil_r, (wi_reads _ _ _ I). unfold stream. by rewrite fmap_app, concat_app.
  - apply Forall_app. split; [apply I|apply taken_done].
  - rewrite <-app_assoc, <-Eq', Eg. cbn [with_tail rg_seq_next]. apply I.
  - rewrite <-app_assoc, <-Eq', Eg. cbn [with_tail rg_gap_pending]. apply I.
Qed.

Lemma words_zero (bm : list Z) : words ((fun _ => 0) <$> bm).
Proof. apply Forall_fmap, Forall_true. intros w. done. Qed.

Lemma clear_bitmap_ok t : target_ok t -> target_ok (cdp_bitmap_clear t).
Proof.
  intros K. split; try apply K; cbn [cdp_bitmap_clear clear_overflowed set_ring set_bitmap tg_bitmap tg_nbits tg_chunk_sectors tg_len].
  - unfold blen. rewrite length_fmap. apply K.
  - apply words_zero.
Qed.

(** What an ioctl can change: the counters, the overflow flag, the bitmap. *)
Lemma cdp_ioctl_target alloc copied cmd t :
  let t' := (cdp_ioctl alloc copied cmd t).2 in
  t' = t \/ t' = cdp_bitmap_clear t \/ t' = cdp_reset_stats t.
Proof.
  destruct cmd as [|len clear| | | |]; cbn; try by auto.
  unfold cdp_ioctl_bitmap. destruct (_ <? _); [by left|]. destruct alloc; [|by left]. cbn [negb].
  destruct clear; [|by left]. by right; left.
Qed.

Lemma ioctl_inv device w alloc copied cmd D q : world_inv w D q -> world_inv (step device w (Ioctl alloc copied cmd)) D q.
Proof.
  intros I. cbn [step]. destruct (cdp_ioctl_target alloc copied cmd (w_target w)) as [->|[->| ->]].
  - by destruct w.
  - eapply world_inv_same; [done|apply clear_bitmap_ok, I| |done..|apply I]. by eapply ring_inv_same; [apply I|..].
  - eapply world_inv_same; [done| | |done..|apply I]; [by destruct (wi_target _ _ _ I)|].
    by eapply ring_inv_same; [apply I|..].
Qed.

Lemma remove_inv device w D q : world_inv w D q -> world_inv (step device w Remove) D q.
Proof.
  intros I. eapply world_inv_same; [done| |apply I|done..|apply I]. by destruct (wi_target _ _ _ I).
Qed.

(** What was read is never taken back. *)
Lemma world_step_inv device w e D q :
  world_inv w D q -> ok_event w e ->
  (exists T q', world_inv (step device w e) (D ++ T) q') /\ exists news, w_reads (step device w e) = w_reads w ++ news.
Proof.
  intros I Hok. assert (forall q', world_inv (step device w e) D q' -> exists T q', world_inv (step device w e) (D ++ T) q') as Hsame.
  { intros q' I'. exists [], q'. by rewrite app_nil_r. }
  split.
  - destruct e as [b now|k|k error|copy_ok nonblock count|alloc copied cmd|].
    + destruct (submit_inv device w b now D q I Hok) as [q' I']. by apply (Hsame q').
    + destruct (fill_inv device w k D q I) as [q' I']. by apply (Hsame q').
    + destruct (complete_inv device w k error D q I) as [q' I']. by apply (Hsame q').
    + eexists _, _. by apply (read_inv device w copy_ok nonblock count D q).
    + apply (Hsame q). by apply ioctl_inv.
    + apply (Hsame q). by apply remove_inv.
  - destruct e as [b now|k|k error|copy_ok nonblock count|alloc copied cmd|]; cbn [step]; try (exists []; by rewrite app_nil_r).
    + exists []. rewrite app_nil_r. by destruct (map_reserve _ _ _) as [[pb o] t'].
    + exists []. rewrite app_nil_r. by destruct (w_subs w !! k) as [[b [off|] []]|].
    + exists []. rewrite app_nil_r. by destruct (w_subs w !! k) as [[b pb []]|].
    + destruct (cdp_read _ _ _ _) as [[b| |err|] t']; cbn [w_reads]; [by exists [b]|exists []; by rewrite app_nil_r..].
Qed.

(** The parameters of a table line and of the module. *)
Record ctr_params (begin len ring_mb chunk_kb : Z) : Prop := {
  cp_len : 0 <= begin /\ 0 < len < 2 ^ 55;
  cp_ring : 0 < ring_mb < 2 ^ 32;
  cp_chunk : 0 < chunk_kb < 2 ^ 31;
}.

Lemma fresh_inv begin len offset ring_mb chunk_kb minor mem disk :
  ctr_params begin len ring_mb chunk_kb -> world_inv (fresh begin len offset ring_mb chunk_kb minor mem disk) [] [].
Proof.
  intros [Hl Hr Hc]. unfold fresh. assert (to_u32 (chunk_kb * 2) = chunk_kb * 2) as Ec by (unfold to_u32; apply Z.mod_small; lia).
  assert (to_u64 (ring_mb * 2 ^ 20) = ring_mb * 2 ^ 20) as Er by (unfold to_u64; apply Z.mod_small; lia).
  assert (0 <= DIV_ROUND_UP len (chunk_kb * 2)) by (unfold DIV_ROUND_UP; apply Z.div_pos; lia).
  split; cbn [w_target w_subs w_reads]; try done.
  - split; cbn [cdp_ctr_target tg_chunk_sectors tg_begin tg_len tg_nbits tg_bitmap]; rewrite ?Ec; try done; try lia.
    + rewrite blen_replicate. unfold BITS_TO_LONGS. pose proof (Z.div_pos (DIV_ROUND_UP len (chunk_kb * 2) + 63) 64). lia.
    + apply Forall_replicate. done.
  - split; cbn [cdp_ctr_target tg_ring rg_size rg_tail rg_head rg_mem rg_seq_next]; rewrite ?Er; try done; try lia.
    split; [lia|]. replace (ring_mb * 2 ^ 20) with (ring_mb * 2 ^ 17 * 8) by lia. apply Z.mod_mul. lia.
Qed.

Lemma reaches_grows device guard w0 w D q :
  (forall w e, guard w e -> ok_event w e) -> world_inv w0 D q -> reaches device guard w0 w ->
  exists T q' news, world_inv w (D ++ T) q' /\ w_reads w = w_reads w0 ++ news /\ concat news = stream T.
Proof.
  intros Hg I0 R. assert (exists T q' news, world_inv w (D ++ T) q' /\ w_reads w = w_reads w0 ++ news) as (T & q' & news & I & E).
  { induction R as [|w e R (T & q' & news & I & E) Hok]; [exists [], q, []; by rewrite !app_nil_r|].
    destruct (world_step_inv device w e _ _ I (Hg _ _ Hok)) as [(T2 & q2 & I2) [news2 E2]].
    exists (T ++ T2), q2, (news ++ news2). by rewrite app_assoc, E2, E, app_assoc. }
  exists T, q', news. split; [done|]. split; [done|]. pose proof (wi_reads _ _ _ I) as E2.
  rewrite E, concat_app, (wi_reads _ _ _ I0) in E2. unfold stream in *. rewrite fmap_app, concat_app in E2. by apply app_inv_head in E2.
Qed.

Lemma reaches_inv device guard w0 w :
  (forall w e, guard w e -> ok_event w e) -> (exists D q, world_inv w0 D q) -> reaches device guard w0 w ->
  exists D q, world_inv w D q.
Proof. intros Hg (D & q & I) R. destruct (reaches_grows _ _ _ _ _ _ Hg I R) as (T & q' & _ & I' & _). by eexists _, _. Qed.

(** ** What the reader sees *)

Lemma take_app_blen {A} (l1 l2 : list A) : take (length l1) (l1 ++ l2) = l1.
Proof. apply take_app_length. Qed.

(** The item that the record iterator yields for a request. *)
Record item_of_sub (t : cdp_target) (seq : Z) (it : rec * bytes) (sb : sub) : Prop := {
  is_seq : r_seq it.1 = seq;
  is_type : r_type it.1 = bio_type (sb_bio sb);
  is_sector : r_sector it.1 = bio_rel t (sb_bio sb);
  is_len : r_len it.1 = bi_size (sb_bio sb);
  is_payload : it.2 = bio_data (sb_bio sb);
  is_error : exists error, sb_phase sb = Done error /\ Z.testbit (r_flags it.1) 2 = error;
}.

Definition slot_frames (D : list slot) : list (bytes * rec) := (fun s => (slot_bytes s, sl_rec s)) <$> D.

Lemma slot_frames_ok D : Forall slot_wf D -> frames_ok (slot_frames D).
Proof. intros H. apply Forall_fmap. eapply Forall_impl; [exact H|]. intros s W. by apply slot_frame. Qed.

Lemma slot_frames_stream D : concat (slot_frames D).*1 = stream D.
Proof. unfold slot_frames, stream. by rewrite <-list_fmap_compose. Qed.

Lemma slot_payload t s sb : sub_slot t s sb -> sb_phase sb <> Reserved -> rec_payload (slot_bytes s) 0 (sl_rec s) = bio_data (sb_bio sb).
Proof.
  intros S Hp. unfold rec_payload. rewrite (ss_type _ _ _ S), (ss_len _ _ _ S), Z.add_0_l, <-(ss_data _ _ _ S) by done.
  destruct (Z.eqb_spec (bio_type (sb_bio sb)) REC_WRITE) as [E|E].
  - destruct (valid_data _ _ (ss_valid _ _ _ S) E) as (_ & _ & _ & Hl). rewrite <-Hl, <-(ss_data _ _ _ S) by done.
    assert (blen (rec_bytes (sl_rec s)) = REC_SIZE) as Hh by (unfold rec_bytes; by rewrite blen_header).
    unfold slot_bytes. rewrite slice_app_r by (rewrite Hh; lia). rewrite Hh.
    replace (REC_SIZE - REC_SIZE) with 0 by lia. apply slice_all. lia.
  - rewrite slice_empty by lia. rewrite (ss_data _ _ _ S) by done. unfold bio_data. by rewrite (proj2 (Z.eqb_neq _ _) E).
Qed.

Lemma stream_items D : Forall slot_wf D ->
  iter_records (stream D) = (frame_item <$> slot_frames D, GDone (blen (stream D))).
Proof.
  intros H. pose proof (iter_records_whole (slot_frames D) [] (slot_frames_ok D H)) as E.
  rewrite app_nil_r, slot_frames_stream in E. apply E. left. done.
Qed.

Lemma sub_slots_wf t l subs : Forall2 (sub_slot t) l subs -> Forall slot_wf l.
Proof. induction 1 as [|s sb l subs H _ IH]; constructor; [apply H|done]. Qed.

Lemma items_of_subs t D subs n :
  Forall2 (sub_slot t) D subs -> Forall (fun s => r_state (sl_rec s) = ST_COMMITTED) D -> seqs D = seqZ n (blen D) ->
  forall i it, (frame_item <$> slot_frames D) !! i = Some it ->
    exists sb, subs !! i = Some sb /\ item_of_sub t (n + Z.of_nat i) it sb.
Proof.
  intros H HD Q i it Hi. unfold slot_frames in Hi. rewrite <-list_fmap_compose in Hi.
  apply list_lookup_fmap_Some in Hi as (s & -> & Hs). destruct (Forall2_lookup_l _ _ _ _ _ H Hs) as (sb & Hsb & S).
  exists sb. split; [done|].
  assert (r_seq (sl_rec s) = n + Z.of_nat i) as Hq.
  { assert (seqs D !! i = Some (r_seq (sl_rec s))) as Hl by (unfold seqs; by rewrite list_lookup_fmap, Hs).
    rewrite Q in Hl. apply lookup_seqZ in Hl. lia. }
  pose proof (proj1 (Forall_forall _ _) HD s ltac:(by eapply list_elem_of_lookup_2)) as Hst.
  pose proof (ss_state _ _ _ S) as E. rewrite Hst in E. destruct (sb_phase sb) as [| |error] eqn:Ed; [done|done|].
  split; cbn [compose frame_item fst snd]; [done|apply S..| |].
  - apply (slot_payload t); [done|by rewrite Ed].
  - exists error. split; [done|]. rewrite (ss_error _ _ _ S), Ed. destruct error; [by rewrite bool_decide_eq_true_2|by rewrite bool_decide_eq_false_2].
Qed.

(** ** Runs that can be evaluated *)

Definition run (device : cdp_target -> bio -> bool -> image -> image) (w : world) (es : list event) : world :=
  foldl (step device) w es.

Fixpoint along (device : cdp_target -> bio -> bool -> image -> image) (guard : world -> event -> bool) (w : world) (es : list event) : bool :=
  match es with
  | [] => true
  | e :: es' => guard w e && along device guard (step device w e) es'
  end.

Lemma run_reaches device (guard : world -> event -> Prop) guard_b w0 es :
  (forall w e, guard_b w e = true -> guard w e) -> along device guard_b w0 es = true -> reaches device guard w0 (run device w0 es).
Proof.
  intros Hg. unfold run. assert (forall w, reaches device guard w0 w -> along device guard_b w es = true ->
    reaches device guard w0 (foldl (step device) w es)) as H; [|intros; apply H; [constructor|done]].
  induction es as [|e es IH]; intros w R; [done|]. cbn. intros [Ht Ha]%andb_true_iff.
  apply IH; [|done]. constructor; [done|by apply Hg].
Qed.

Definition in_width_b (w : nat) (v : Z) : bool := (0 <=? v) && (v <? 2 ^ (8 * Z.of_nat w)).

Definition valid_bio_b (t : cdp_target) (b : bio) : bool :=
  (0 <=? bi_size b) && (bi_size b <? 2 ^ 32) && (bi_size b mod 512 =? 0) &&
  ((bio_type b =? REC_FLUSH) || ((tg_begin t <=? bi_sector b) && (bi_sector b - tg_begin t + bi_size b / 512 <=? tg_len t))) &&
  (negb (logs b) || (bio_type b =? REC_FLUSH) || (0 <? bi_size b)) &&
  (negb (bool_decide (bi_op b = OpWrite)) || ((blen (bi_data b) =? bi_size b) && (bi_size b <=? CDP_MAX_IO_SECTORS * 512))).

Definition ring_young_b (g : ring) : bool := rg_head g + 2 * rg_size g <? 2 ^ 64.

Definition ok_event_b (w : world) (e : event) : bool :=
  match e with
  | Submit b now => valid_bio_b (w_target w) b && in_width_b 8 now && ring_young_b (tg_ring (w_target w))
  | Read _ _ count => (0 <=? count) && ring_young_b (tg_ring (w_target w))
  | _ => true
  end.

Lemma valid_bio_b_ok t b : valid_bio_b t b = true -> valid_bio t b.
Proof.
  unfold valid_bio_b. rewrite !andb_true_iff, !orb_true_iff, !andb_true_iff, !negb_true_iff, bool_decide_eq_false,
    ?Z.leb_le, ?Z.ltb_lt, ?Z.eqb_eq.
  intros (((((H1 & H2) & H3) & H4) & H6) & H5). split; [lia| | |].
  - intros Hf. destruct H4 as [H4|H4]; lia.
  - intros Hl Hf. rewrite Hl in H6. destruct H6 as [[H6|H6]|H6]; [done|done|lia].
  - intros Ho. destruct H5 as [H5|H5]; [done|lia].
Qed.

Lemma ok_event_b_ok w e : ok_event_b w e = true -> ok_event w e.
Proof.
  destruct e; cbn [ok_event_b ok_event]; try done; rewrite !andb_true_iff; unfold ring_young_b, ring_young, in_width_b, in_width;
    rewrite ?andb_true_iff, ?Z.leb_le, ?Z.ltb_lt.
  - intros ((H1%valid_bio_b_ok & H2) & H3). done.
  - lia.
Qed.

(** A disk of 1 MiB behind a ring of 1 MiB: a write, a discard and a flush,
    completed out of order and read in two reads. *)
Definition demo_device : cdp_target -> bio -> bool -> image -> image :=
  fun t b error disk => if error then disk else bio_effect t b disk.

Definition demo_write : bio := mk_bio OpWrite true false 8 512 (replicate 512 Byte.x41).
Definition demo_discard : bio := mk_bio OpDiscard false false 16 1024 [].
Definition demo_flush : bio := mk_bio OpWrite false true 0 0 [].

Definition demo_fresh : world := fresh 0 2048 4096 1 64 0 zero_image zero_image.

Definition demo_submits : list event :=
  [Submit demo_write 100; Submit demo_discard 101; Fill 1; Submit demo_flush 102; Fill 0; Fill 2].
Definition demo_completes : list event := [Complete 1 false; Complete 0 false].
Definition demo_read : event := Read (fun _ => true) true 2000.
Definition demo_events : list event := demo_submits ++ demo_completes ++ [demo_read; Complete 2 false; demo_read].

Lemma demo_params : ctr_params 0 2048 1 64.
Proof. split; lia. Qed.

Lemma demo_along : along demo_device ok_event_b demo_fresh demo_events = true.
Proof. vm_compute. reflexivity. Qed.

Lemma demo_run_reaches : reaches demo_device ok_event demo_fresh (run demo_device demo_fresh demo_events).
Proof. apply (run_reaches _ _ ok_event_b); [apply ok_event_b_ok|apply demo_along]. Qed.
