(* ===== verification/DriverStream.v ===== *)
(** * From the disk to the replica

    The properties of the runs of [DriverRuns]: the stream has every request
    once, in order, complete and with its gaps announced; a quiet target's
    stream replays to the content of the disk, also through the daemon's
    [consume]; and the dirty bitmap covers what changed since it was
    cleared. *)
From S2P Require Import Prelude Dmcdp Files Seed Replica Apply CopyProtocol Consume Driver Ring DirtyMap DriverRuns.

#[local] Arguments Z.pow : simpl never.

(** ** The stream *)

Lemma reached_inv device guard begin len offset ring_mb chunk_kb minor mem disk w :
  ctr_params begin len ring_mb chunk_kb -> (forall w e, guard w e -> ok_event w e) ->
  reaches device guard (fresh begin len offset ring_mb chunk_kb minor mem disk) w -> exists D q, world_inv w D q.
Proof. intros P Hg. apply reaches_inv; [done|]. exists [], []. by apply fresh_inv. Qed.

(** C9: in every run of the driver, whatever the order in which the device
    completes the requests and however the reader reads, what was read is a
    sequence of whole records; record [i] has sequence number [i], is the
    record of the [i]-th request that was logged, with its data, and the
    device was done with that request. *)
Theorem driver_stream_in_order device begin len offset ring_mb chunk_kb minor mem disk w :
  ctr_params begin len ring_mb chunk_kb ->
  reaches device ok_event (fresh begin len offset ring_mb chunk_kb minor mem disk) w ->
  exists items, iter_records (concat (w_reads w)) = (items, GDone (blen (concat (w_reads w)))) /\
    forall i it, items !! i = Some it ->
      exists sb, logged (w_subs w) !! i = Some sb /\ item_of_sub (w_target w) (Z.of_nat i) it sb.
Proof.
  intros P R. destruct (reached_inv _ _ _ _ _ _ _ _ _ _ _ P (fun _ _ H => H) R) as (D & q & I).
  pose proof (wi_subs _ _ _ I) as S. apply Forall2_app_inv_l in S as (S1 & S2 & F1 & F2 & E).
  rewrite (wi_reads _ _ _ I). rewrite (stream_items D) by (by eapply sub_slots_wf). eexists. split; [done|].
  assert (seqs D = seqZ 0 (blen D)) as Q.
  { destruct (wi_seqs _ _ _ I) as [Q _]. rewrite seqs_app, blen_app, seqZ_app in Q by apply blen_nonneg.
    apply app_inj_1 in Q as [Q _]; [done|]. unfold seqs. rewrite length_fmap, length_seqZ. unfold blen. lia. }
  intros i it Hi. destruct (items_of_subs _ _ _ 0 F1 (wi_done _ _ _ I) Q i it Hi) as (sb & Hsb & Hit).
  exists sb. rewrite E. split; [|done]. by apply lookup_app_l_Some.
Qed.

(** C11: gaps are announced exactly: a record that is read carries
    GAP_BEFORE if and only if a request was dropped since the record before
    it. *)
Theorem driver_gaps_announced device begin len offset ring_mb chunk_kb minor mem disk w :
  ctr_params begin len ring_mb chunk_kb ->
  reaches device ok_event (fresh begin len offset ring_mb chunk_kb minor mem disk) w ->
  let items := (iter_records (concat (w_reads w))).1 in
  (fun it => Z.testbit (r_flags it.1) 3) <$> items = take (length items) (gap_marks false (w_subs w)).
Proof.
  intros P R. destruct (reached_inv _ _ _ _ _ _ _ _ _ _ _ P (fun _ _ H => H) R) as (D & q & I).
  pose proof (wi_subs _ _ _ I) as S. apply Forall2_app_inv_l in S as (S1 & S2 & F1 & _ & _).
  cbn zeta. rewrite (wi_reads _ _ _ I), (stream_items D) by (by eapply sub_slots_wf). cbn [fst].
  destruct (wi_gaps _ _ _ I) as [<- _]. unfold slot_frames. rewrite !length_fmap, fmap_app, take_app_length' by (by rewrite length_fmap).
  rewrite <-!list_fmap_compose. done.
Qed.

(** ** Reading makes progress *)

Lemma slot_len_bound t s sb : sub_slot t s sb -> slot_len s <= 4 * 2 ^ 20 + 56.
Proof.
  intros S. unfold slot_len. rewrite REC_SIZE_56, (ss_size _ _ _ S). unfold bio_data.
  destruct (Z.eqb_spec (bio_type (sb_bio sb)) REC_WRITE) as [E|E]; [|rewrite blen_nil; lia].
  destruct (valid_data _ _ (ss_valid _ _ _ S) E) as (Eo & _ & Ed & Hl). rewrite <-Ed, Hl.
  pose proof (vb_data _ _ (ss_valid _ _ _ S) Eo). change (CDP_MAX_IO_SECTORS * 512) with (4 * 2 ^ 20) in *. lia.
Qed.

Lemma ring_bound w D q s : world_inv w D q -> s ∈ q -> slot_len s <= READ_SZ.
Proof.
  intros I Hs. pose proof (wi_subs _ _ _ I) as S.
  destruct (proj1 (list_elem_of_lookup _ _) Hs) as [i Hi].
  destruct (Forall2_lookup_l _ _ _ (length D + i) s S) as (sb & _ & Ss); 
    [rewrite lookup_app_r by lia; by replace (length D + i - length D)%nat with i by lia|].
  pose proof (slot_len_bound _ _ _ Ss). unfold READ_SZ. lia.
Qed.

(** C18: nothing is dropped while the ring is at most half full: in a ring of
    at least 16 MiB and 256 bytes every request up to 4 MiB that finds half of
    the ring free is logged, wherever the ring wraps. *)
Theorem half_empty_ring_logs device begin len offset ring_mb chunk_kb minor mem disk w b now :
  ctr_params begin len ring_mb chunk_kb ->
  reaches device ok_event (fresh begin len offset ring_mb chunk_kb minor mem disk) w ->
  ok_event w (Submit b now) -> logs b = true ->
  let g := tg_ring (w_target w) in
  4 * (4 * 2 ^ 20 + 64) <= rg_size g -> 2 * (rg_head g - rg_tail g) <= rg_size g ->
  exists off, (cdp_map (w_target w) b now).1.1 = Some off.
Proof.
  intros P R (V & Hn & Y) Hl g Hs Hh. destruct (reached_inv _ _ _ _ _ _ _ _ _ _ _ P (fun _ _ H => H) R) as (D & q & I).
  rewrite cdp_map_halves. unfold map_reserve. rewrite cdp_map_log by done. unfold log_reserve. destruct (cdp_mark_fields (w_target w) (bio_rel (w_target w) b) (bi_size b)) as (-> & _).
  pose proof (valid_rec_args _ _ now V Hl Hn) as A. pose proof (cdp_reserve_spec _ _ _ _ _ _ _ _ (wi_ring _ _ _ I) Y A) as S.
  destruct (cdp_reserve _ _ _ _ _ _ _) as [[off|] g']; [by exists off|]. exfalso. destruct S as [_ S]. fold g in S.
  pose proof (ra_payload _ _ _ _ _ _ A) as Hp. destruct (rec_need_spec _ (proj1 Hp)) as [Hneed _].
  rewrite REC_SIZE_56 in Hneed. change (CDP_MAX_IO_SECTORS * 512) with (4 * 2 ^ 20) in Hp. change CDP_MAX_REC_DIV with 4 in S.
  pose proof (Z.div_le_lower_bound (rg_size g) 4 (4 * 2 ^ 20 + 64) ltac:(lia) ltac:(lia)).
  destruct (rec_pad_spec g (rec_need (if bio_type b =? REC_WRITE then bi_size b else 0))) as (Hpad & _); [lia|lia|]. lia.
Qed.

Lemma stop_not_emsgsize copy_ok nonblock dead count q :
  (forall s, s ∈ q -> slot_len s <= count) -> stop_outcome copy_ok nonblock dead count q <> ReadError EMSGSIZE.
Proof.
  intros H. unfold stop_outcome. destruct q as [|s q]; [by destruct dead, nonblock|].
  destruct (_ =? _); [|by destruct dead, nonblock]. rewrite (proj2 (Z.ltb_ge _ _)); [done|]. apply H. by left.
Qed.

(** The buffer of the daemon, [READ_SZ] bytes, is large enough for every
    record: its reads never fail with EMSGSIZE. *)
Theorem daemon_read_fits device begin len offset ring_mb chunk_kb minor mem disk w copy_ok nonblock :
  ctr_params begin len ring_mb chunk_kb ->
  reaches device ok_event (fresh begin len offset ring_mb chunk_kb minor mem disk) w -> ring_young (tg_ring (w_target w)) ->
  (cdp_read copy_ok nonblock READ_SZ (w_target w)).1 <> ReadError EMSGSIZE.
Proof.
  intros P R Y. destruct (reached_inv _ _ _ _ _ _ _ _ _ _ _ P (fun _ _ H => H) R) as (D & q & I).
  destruct (cdp_read_taken copy_ok nonblock READ_SZ (w_target w) q (wi_ring _ _ _ I) Y) as (g' & -> & _); [done|].
  cbn [fst]. destruct (bool_decide _); [|done]. apply stop_not_emsgsize. intros s. by eapply ring_bound.
Qed.

(** A read of the daemon when every copy to user space succeeds. *)
Definition full_read : event := Read (fun _ => true) true READ_SZ.

Lemma READ_SZ_pos : 0 <= READ_SZ.
Proof. done. Qed.

Lemma drain_step device w D s q :
  world_inv w D (s :: q) -> ring_young (tg_ring (w_target w)) -> Forall (fun s => r_state (sl_rec s) = ST_COMMITTED) (s :: q) ->
  exists D' q', world_inv (step device w full_read) D' q' /\ D' ++ q' = D ++ s :: q /\ (length q' <= length q)%nat /\
    ring_young (tg_ring (w_target (step device w full_read))) /\ Forall (fun s => r_state (sl_rec s) = ST_COMMITTED) q'.
Proof.
  intros I Y HC. pose proof (read_inv device w (fun _ => true) true READ_SZ D (s :: q) I) as R. cbn zeta in R.
  specialize (R (conj READ_SZ_pos Y)). destruct (taken_prefix (fun _ => true) READ_SZ 0 (s :: q)) as [rest E].
  assert (slot_len s <= READ_SZ) as Hs by (apply (ring_bound w D (s :: q)); [done|by left]).
  assert (exists T, taken (fun _ => true) READ_SZ 0 (s :: q) = s :: T) as [T ET].
  { cbn [taken]. apply Forall_cons in HC as [-> _]. rewrite Z.eqb_refl, Z.add_0_l, (proj2 (Z.leb_le _ _) Hs). by eexists. }
  rewrite ET in R, E. assert (drop (length (s :: T)) (s :: q) = rest) as Er by (rewrite E; apply drop_app_length). rewrite Er in R.
  eexists _, _. split; [exact R|]. split; [|split; [|split]].
  - by rewrite <-app_assoc, <-E.
  - apply (f_equal length) in E. rewrite length_app in E. cbn [length] in E. lia.
  - unfold step, full_read.
    destruct (cdp_read_taken (fun _ => true) true READ_SZ (w_target w) (s :: q) (wi_ring _ _ _ I) Y) as (g' & -> & _ & tl & ->); [done|].
    exact Y.
  - rewrite E in HC. by apply Forall_app in HC as [_ HC].
Qed.

Lemma drain_inv device n : forall w D q,
  world_inv w D q -> ring_young (tg_ring (w_target w)) -> Forall (fun s => r_state (sl_rec s) = ST_COMMITTED) q ->
  (length q <= n)%nat -> world_inv (Nat.iter n (fun w => step device w full_read) w) (D ++ q) [].
Proof.
  induction n as [|n IH]; intros w D q I Y HC Hn; rewrite ?Nat.iter_succ_r.
  - destruct q; [by rewrite app_nil_r|cbn in Hn; lia].
  - destruct q as [|s q].
    + pose proof (read_inv device w (fun _ => true) true READ_SZ D [] I (conj READ_SZ_pos Y)) as R. cbn in R.
      rewrite !app_nil_r in *. rewrite <-(app_nil_r D). apply IH; [done| |done|cbn; lia].
      unfold step, full_read.
      destruct (cdp_read_taken (fun _ => true) true READ_SZ (w_target w) [] (wi_ring _ _ _ I) Y) as (g' & -> & _ & tl & ->); [done|].
      exact Y.
    + destruct (drain_step device w D s q I Y HC) as (D' & q' & I' & E & Hl & Y' & HC'). rewrite <-E.
      apply IH; [done..|]. cbn in Hn. lia.
Qed.

Lemma all_committed w D q :
  world_inv w D q -> Forall (fun sb => is_done (sb_phase sb) = true) (w_subs w) -> Forall (fun s => r_state (sl_rec s) = ST_COMMITTED) q.
Proof.
  intros I H. pose proof (wi_subs _ _ _ I) as S. apply Forall2_app_inv_l in S as (S1 & S2 & _ & F & E).
  assert (Forall (fun sb => is_done (sb_phase sb) = true) S2) as H2.
  { assert (Forall (fun sb => is_done (sb_phase sb) = true) (logged (w_subs w))) as HL.
    { apply Forall_forall. intros sb [_ Hsb]%list_elem_of_filter. by apply (proj1 (Forall_forall _ _) H). }
    rewrite E in HL. by apply Forall_app in HL as [_ ?]. }
  clear -F H2. induction F as [|s sb q S2 Hs _ IH]; [constructor|]. apply Forall_cons in H2 as [He H2].
  constructor; [rewrite (ss_state _ _ _ Hs); by destruct (sb_phase sb)|by apply IH].
Qed.

(** C17: once the device is done with every request, the daemon's reads empty
    the ring: as many of them as there are records, at most, and then
    everything that was logged was read. *)
Theorem driver_drains device begin len offset ring_mb chunk_kb minor mem disk w :
  ctr_params begin len ring_mb chunk_kb ->
  reaches device ok_event (fresh begin len offset ring_mb chunk_kb minor mem disk) w -> ring_young (tg_ring (w_target w)) ->
  Forall (fun sb => is_done (sb_phase sb) = true) (w_subs w) ->
  let w' := Nat.iter (length (logged (w_subs w))) (fun w => step device w full_read) w in
  rg_head (tg_ring (w_target w')) = rg_tail (tg_ring (w_target w')) /\
  length (iter_records (concat (w_reads w'))).1 = length (logged (w_subs w)).
Proof.
  intros P R Y Hd. destruct (reached_inv _ _ _ _ _ _ _ _ _ _ _ P (fun _ _ H => H) R) as (D & q & I).
  pose proof (Forall2_length _ _ _ (wi_subs _ _ _ I)) as Hl.
  pose proof (drain_inv device (length (logged (w_subs w))) w D q I Y (all_committed _ _ _ I Hd)) as I'.
  rewrite <-Hl in I' |- *. specialize (I' ltac:(rewrite length_app; lia)). cbn zeta. split.
  - by rewrite (ri_layout _ _ (wi_ring _ _ _ I')).
  - rewrite (wi_reads _ _ _ I'), stream_items; [cbn [fst]; unfold slot_frames; by rewrite !length_fmap|].
    eapply (sub_slots_wf (w_target w)). apply I.
Qed.

(** ** The content of the disk *)

(** The request as an item of the stream. *)
Definition bio_item (t : cdp_target) (b : bio) : rec * bytes :=
  (mk_rec REC_MAGIC ABI_VERSION (bio_type b) 0 0 0 (bio_rel t b) (bi_size b) 0 0 0, bio_data b).

(** Two requests share no byte of the disk. *)
Definition apart (t : cdp_target) (b1 b2 : bio) : Prop := forall i, touches (bio_item t b1) i -> ~ touches (bio_item t b2) i.

Lemma bio_effect_item t b disk : bio_effect t b disk ≡ apply_img disk (bio_item t b).
Proof.
  unfold bio_effect, bio_item, apply_img, bio_data, bio_type. destruct (bi_op b); try done.
  destruct (Z.eqb_spec (bi_size b) 0); [|done]. apply img_write_nil.
Qed.

Lemma unlogged_effect t b disk : logs b = false -> apply_img disk (bio_item t b) ≡ disk.
Proof. unfold logs, bio_item, apply_img, bio_type. destruct (bi_op b); try done. by destruct (bi_size b =? 0). Qed.

Lemma apply_img_comm img it1 it2 :
  (forall i, touches it1 i -> ~ touches it2 i) -> apply_img (apply_img img it1) it2 ≡ apply_img (apply_img img it2) it1.
Proof.
  intros H i. destruct (decide (touches it1 i)) as [T1|T1].
  - rewrite apply_img_untouched by (by apply H). by apply apply_img_touched.
  - rewrite (apply_img_untouched (apply_img img it2)) by done. destruct (decide (touches it2 i)) as [T2|T2].
    + by apply apply_img_touched.
    + by rewrite !apply_img_untouched.
Qed.

Lemma apply_all_comm img it l :
  Forall (fun it' => forall i, touches it i -> ~ touches it' i) l -> apply_all (apply_img img it) l ≡ apply_img (apply_all img l) it.
Proof.
  intros H. revert img. induction H as [|it' l Hd _ IH]; intros img; [done|]. rewrite !apply_all_cons.
  etrans; [|apply IH]. apply apply_all_proper; [|done]. by apply apply_img_comm.
Qed.

(** What a stream item does depends on four fields. *)
Lemma apply_img_same img it1 it2 :
  r_type it1.1 = r_type it2.1 -> r_sector it1.1 = r_sector it2.1 -> r_len it1.1 = r_len it2.1 -> it1.2 = it2.2 ->
  apply_img img it1 = apply_img img it2.
Proof. destruct it1, it2. cbn. unfold apply_img. by intros -> -> -> ->. Qed.

(** Requests in flight are apart from the requests submitted after them. *)
Fixpoint settled (t : cdp_target) (subs : list sub) : Prop :=
  match subs with
  | [] => True
  | sb :: subs' => (is_done (sb_phase sb) = false -> Forall (fun sb' => apart t (sb_bio sb) (sb_bio sb')) subs') /\ settled t subs'
  end.

Definition done_items (t : cdp_target) (subs : list sub) : list (rec * bytes) :=
  (fun sb => bio_item t (sb_bio sb)) <$> filter (fun sb => is_done (sb_phase sb) = true) subs.

Lemma done_items_app t s1 s2 : done_items t (s1 ++ s2) = done_items t s1 ++ done_items t s2.
Proof. unfold done_items. by rewrite filter_app, fmap_app. Qed.

Lemma done_items_cons t b pb p subs :
  is_done p = true -> done_items t (mk_sub b pb p :: subs) = bio_item t b :: done_items t subs.
Proof. intros H. unfold done_items. by rewrite filter_cons_True. Qed.

Lemma done_items_cons_other t b pb p subs :
  is_done p = false -> done_items t (mk_sub b pb p :: subs) = done_items t subs.
Proof. intros H. unfold done_items. rewrite filter_cons_False; [done|]. cbn. by rewrite H. Qed.

Lemma done_items_all t subs :
  Forall (fun sb => is_done (sb_phase sb) = true) subs -> done_items t subs = (fun sb => bio_item t (sb_bio sb)) <$> subs.
Proof.
  unfold done_items. induction 1 as [|sb subs Hd _ IH]; [done|]. rewrite filter_cons_True by done.
  rewrite !fmap_cons. by rewrite IH.
Qed.

Lemma settled_snoc t subs b pb p :
  settled t subs -> Forall (fun sb => is_done (sb_phase sb) = false -> apart t (sb_bio sb) b) subs -> settled t (subs ++ [mk_sub b pb p]).
Proof.
  induction subs as [|sb subs IH]; cbn; [done|]. intros [H1 H2] [Ha Hf]%Forall_cons. split; [|by apply IH].
  intros Hn. apply Forall_app. split; [by apply H1|]. constructor; [by apply Ha|constructor].
Qed.

Lemma settled_phase t s1 b pb p p' s2 :
  settled t (s1 ++ mk_sub b pb p :: s2) -> is_done p = false ->
  settled t (s1 ++ mk_sub b pb p' :: s2) /\ Forall (fun it => forall i, touches (bio_item t b) i -> ~ touches it i) (done_items t s2).
Proof.
  intros H Hp. revert H. induction s1 as [|sb s1 IH]; cbn [app settled].
  - intros [H1 H2]. specialize (H1 Hp). split; [by split|]. apply Forall_fmap, Forall_forall.
    intros sb [_ Hsb]%list_elem_of_filter. exact (proj1 (Forall_forall _ _) H1 sb Hsb).
  - intros [H1 H2]. destruct (IH H2) as [H3 H4]. split; [|done]. split; [|done]. intros Hn. specialize (H1 Hn).
    apply Forall_app in H1 as [H1 H1']. apply Forall_cons in H1' as [Hb H1']. apply Forall_app. split; [done|by constructor].
Qed.

Section Disk.
(** A request that succeeds does its work, a discarded sector reads as zeros. *)
Variable device : cdp_target -> bio -> bool -> image -> image.
Hypothesis device_works : forall t b disk, valid_bio t b -> device t b false disk ≡ bio_effect t b disk.

(** No request overlaps one that is in flight, and none fails. *)
Definition calm (w : world) (e : event) : Prop :=
  ok_event w e /\
  match e with
  | Submit b _ => Forall (fun sb => is_done (sb_phase sb) = false -> apart (w_target w) (sb_bio sb) b) (w_subs w)
  | Complete _ error => error = false
  | _ => True
  end.

Record disk_inv (disk0 : image) (begin len : Z) (w : world) : Prop := {
  di_place : tg_begin (w_target w) = begin /\ tg_len (w_target w) = len;
  di_valid : Forall (fun sb => valid_bio (w_target w) (sb_bio sb)) (w_subs w);
  di_disk : w_disk w ≡ apply_all disk0 (done_items (w_target w) (w_subs w));
  di_settled : settled (w_target w) (w_subs w);
  di_ok : Forall (fun sb => sb_phase sb <> Done true) (w_subs w);
}.

Lemma bio_item_place t t' b : tg_begin t' = tg_begin t -> bio_item t' b = bio_item t b.
Proof. intros E. unfold bio_item, bio_rel. by rewrite E. Qed.

Lemma done_items_place t t' subs : tg_begin t' = tg_begin t -> done_items t' subs = done_items t subs.
Proof. intros E. unfold done_items. apply list_fmap_ext. intros ? ? _. by apply bio_item_place. Qed.

Lemma valid_place t t' b : tg_begin t' = tg_begin t -> tg_len t' = tg_len t -> valid_bio t b -> valid_bio t' b.
Proof. intros Eb El [? Hr ? ?]. split; [done| |done|done]. by rewrite Eb, El. Qed.

Lemma settled_place t t' subs : tg_begin t' = tg_begin t -> settled t subs -> settled t' subs.
Proof.
  intros E. induction subs as [|sb subs IH]; cbn; [done|]. intros [H1 H2]. split; [|by apply IH]. intros Hn.
  eapply Forall_impl; [by apply H1|]. intros sb' H i. rewrite !(bio_item_place t t') by done. apply H.
Qed.

(** An event that submits and completes nothing. *)
Lemma disk_inv_same disk0 begin len w w' :
  disk_inv disk0 begin len w -> tg_begin (w_target w') = tg_begin (w_target w) -> tg_len (w_target w') = tg_len (w_target w) ->
  w_subs w' = w_subs w -> w_disk w' = w_disk w -> disk_inv disk0 begin len w'.
Proof.
  intros [[P1 P2] V Hd S O] Eb El Es Ed. split; [by rewrite Eb, El|rewrite Es|rewrite Es, Ed|rewrite Es|by rewrite Es].
  - eapply Forall_impl; [exact V|]. intros sb. by apply valid_place.
  - by rewrite (done_items_place (w_target w)).
  - by eapply settled_place.
Qed.
Lemma map_place t b now :
  let '(_, _, t') := map_reserve t b now in tg_begin t' = tg_begin t /\ tg_len t' = tg_len t.
Proof.
  unfold map_reserve. destruct (logs b) eqn:Hl; [rewrite cdp_map_log by done|by rewrite cdp_map_skip].
  unfold log_reserve. destruct (cdp_mark_fields t (bio_rel t b) (bi_size b)) as (_ & _ & Hb & Hle).
  by destruct (cdp_reserve _ _ _ _ _ _ _) as [[off|] g].
Qed.

Lemma cdp_end_io_place t pb error : tg_begin (cdp_end_io t pb error) = tg_begin t /\ tg_len (cdp_end_io t pb error) = tg_len t.
Proof. by destruct pb. Qed.

Lemma submit_disk disk0 begin len w b now :
  disk_inv disk0 begin len w -> calm w (Submit b now) -> disk_inv disk0 begin len (step device w (Submit b now)).
Proof.
  intros [[P1 P2] V Hd S O] [(Vb & _) Ha]. cbn [step]. pose proof (map_place (w_target w) b now) as M.
  destruct (map_reserve _ _ _) as [[pb dest] t']. destruct M as [Eb El].
  split; cbn [w_target w_subs w_disk]; [by rewrite Eb, El|..].
  - apply Forall_app. split; [|constructor; [by apply (valid_place (w_target w))|constructor]].
    eapply Forall_impl; [exact V|]. intros sb. by apply valid_place.
  - rewrite (done_items_place (w_target w)), done_items_app by done. destruct pb; cbn; by rewrite app_nil_r.
  - eapply settled_place; [done|]. by apply settled_snoc.
  - apply Forall_app. split; [done|]. constructor; [by destruct pb|constructor].
Qed.

(** A request goes to another phase: what stays as it was. *)
Lemma phase_disk disk0 begin len w k b pb p p' t' disk' :
  disk_inv disk0 begin len w -> w_subs w !! k = Some (mk_sub b pb p) -> is_done p = false -> p' <> Done true ->
  tg_begin t' = tg_begin (w_target w) -> tg_len t' = tg_len (w_target w) ->
  disk' ≡ (if is_done p' then apply_img (w_disk w) (bio_item (w_target w) b) else w_disk w) ->
  disk_inv disk0 begin len (mk_world t' disk' (<[k := mk_sub b pb p']> (w_subs w)) (w_reads w)).
Proof.
  intros [[P1 P2] V Hd S O] Hk Hp Hp' Eb El Ed.
  pose proof (take_drop_middle _ _ _ Hk) as E. pose proof (lookup_lt_Some _ _ _ Hk) as Hlt.
  rewrite insert_take_drop by done. set (s1 := take k (w_subs w)) in *. set (s2 := drop (Datatypes.S k) (w_subs w)) in *.
  rewrite <-E in V, Hd, S, O. apply Forall_app in O as [O1 O2]. apply Forall_cons in O2 as [_ O2].
  apply Forall_app in V as [V1 V2]. apply Forall_cons in V2 as [Vb V2].
  destruct (settled_phase _ _ _ _ _ p' _ S Hp) as [S' Hap].
  split; cbn [w_target w_subs w_disk]; [by rewrite Eb, El|..].
  - assert (forall l, Forall (fun sb => valid_bio (w_target w) (sb_bio sb)) l ->
      Forall (fun sb => valid_bio t' (sb_bio sb)) l) as HV.
    { intros l H. eapply Forall_impl; [exact H|]. intros sb. by apply valid_place. }
    apply Forall_app. split; [by apply HV|]. constructor; [by apply (valid_place (w_target w))|by apply HV].
  - rewrite (done_items_place (w_target w)) by done. rewrite Ed, done_items_app, apply_all_app.
    rewrite done_items_app, apply_all_app, done_items_cons_other in Hd by done.
    destruct (is_done p') eqn:Hd'; [|by rewrite done_items_cons_other].
    rewrite done_items_cons, apply_all_cons by done. rewrite Hd. symmetry. by apply apply_all_comm.
  - by eapply settled_place.
  - apply Forall_app. by split; [|constructor].
Qed.

Lemma log_fill_place t b copy off : tg_begin (log_fill t b copy off) = tg_begin t /\ tg_len (log_fill t b copy off) = tg_len t.
Proof. done. Qed.

Lemma complete_disk disk0 begin len w k :
  disk_inv disk0 begin len w -> disk_inv disk0 begin len (step device w (Complete k false)).
Proof.
  intros I. cbn [step]. destruct (w_subs w !! k) as [[b pb []]|] eqn:Hk; try done.
  destruct (cdp_end_io_place (w_target w) pb false) as [Eb El]. eapply phase_disk; [done..|]. cbn [is_done].
  etrans; [|apply bio_effect_item]. apply device_works.
  pose proof (di_valid _ _ _ _ I) as V. exact (Forall_lookup_1 _ _ _ _ V Hk).
Qed.

Lemma fill_disk disk0 begin len w k :
  disk_inv disk0 begin len w -> disk_inv disk0 begin len (step device w (Fill k)).
Proof.
  intros I. cbn [step]. destruct (w_subs w !! k) as [[b [off|] []]|] eqn:Hk; try done. by eapply phase_disk.
Qed.

Lemma step_disk disk0 begin len w e :
  disk_inv disk0 begin len w -> calm w e -> disk_inv disk0 begin len (step device w e).
Proof.
  intros I C. destruct e as [b now|k|k error|copy_ok nonblock count|alloc copied cmd|].
  - by apply submit_disk.
  - by apply fill_disk.
  - destruct C as [_ ->]. by apply complete_disk.
  - eapply disk_inv_same; [done|..]; unfold step, cdp_read; by destruct (cdp_read_loop _ _ _ _ _ _ _).
  - eapply disk_inv_same; [done|..]; try done; cbn [step w_target]; by destruct (cdp_ioctl_target alloc copied cmd (w_target w)) as [->|[->| ->]].
  - by eapply disk_inv_same.
Qed.

Lemma reaches_disk begin len offset ring_mb chunk_kb minor mem disk0 w :
  reaches device calm (fresh begin len offset ring_mb chunk_kb minor mem disk0) w -> disk_inv disk0 begin len w.
Proof. induction 1 as [|w e _ I C]; [by split|by apply step_disk]. Qed.

(** ** The stream of a quiet target *)

(** The device is done with every request, no request was dropped, and the
    reader has read everything. *)
Record quiet (w : world) : Prop := {
  qu_done : Forall (fun sb => is_done (sb_phase sb) = true) (w_subs w);
  qu_logged : Forall (fun sb => logs (sb_bio sb) = true -> is_Some (sb_pb sb)) (w_subs w);
  qu_read : rg_tail (tg_ring (w_target w)) = rg_head (tg_ring (w_target w));
}.

Lemma layout_empty size m q a : layout size m a q a -> q = [].
Proof.
  destruct q as [|s q]; [done|]. cbn. intros (G & _ & L). apply gap_le in G. apply layout_le in L.
  pose proof (slot_len_ge s). rewrite REC_SIZE_56 in *. lia.
Qed.

Lemma apply_all_same img items1 items2 :
  Forall2 (fun it1 it2 => forall img, apply_img img it1 ≡ apply_img img it2) items1 items2 -> apply_all img items1 ≡ apply_all img items2.
Proof.
  intros H. revert img. induction H as [|it1 it2 l1 l2 Hi _ IH]; intros img; [done|].
  rewrite !apply_all_cons. etrans; [|apply IH]. by apply apply_all_proper.
Qed.

Lemma slot_item_effect t s sb img : sub_slot t s sb -> sb_phase sb <> Reserved -> apply_img img (frame_item (slot_bytes s, sl_rec s)) = apply_img img (bio_item t (sb_bio sb)).
Proof. intros S Hp. apply apply_img_same; [apply S..|]. cbn. by apply (slot_payload t). Qed.

(** Requests that are not logged change nothing. *)
Lemma apply_logged t img subs :
  Forall (fun sb => logs (sb_bio sb) = true -> is_Some (sb_pb sb)) subs ->
  apply_all img ((fun sb => bio_item t (sb_bio sb)) <$> logged subs) ≡ apply_all img ((fun sb => bio_item t (sb_bio sb)) <$> subs).
Proof.
  intros H. revert img. induction H as [|sb subs Hl _ IH]; intros img; [done|]. unfold logged. rewrite filter_cons.
  case_decide as Hd; cbn [fmap list_fmap]; rewrite !apply_all_cons; [apply IH|].
  etrans; [|apply IH]. apply apply_all_proper; [|done]. symmetry. apply unlogged_effect.
  destruct (logs (sb_bio sb)); [by destruct Hd; apply Hl|done].
Qed.

(** A record that was delivered has its data. *)
Lemma delivered_filled t D subs :
  Forall2 (sub_slot t) D subs -> Forall (fun s => r_state (sl_rec s) = ST_COMMITTED) D ->
  Forall2 (fun s sb => sub_slot t s sb /\ sb_phase sb <> Reserved) D subs.
Proof.
  induction 1 as [|s sb D subs Hs _ IH]; [constructor|]. intros [Hc HD]%Forall_cons. constructor; [|by apply IH].
  split; [done|]. intros E. pose proof (ss_state _ _ _ Hs) as Hst. by rewrite E, Hc in Hst.
Qed.

Lemma quiet_stream disk0 begin len w D q :
  world_inv w D q -> disk_inv disk0 begin len w -> quiet w ->
  q = [] /\ apply_all disk0 (items_of (slot_frames D)) ≡ w_disk w.
Proof.
  intros I [_ _ Hd _ _] Q. assert (q = []) as ->.
  { eapply (layout_empty _ _ _ (rg_tail (tg_ring (w_target w)))). rewrite (qu_read _ Q) at 2. apply (wi_ring _ _ _ I). }
  split; [done|]. rewrite Hd. pose proof (wi_subs _ _ _ I) as S. rewrite app_nil_r in S.
  apply delivered_filled in S; [|apply I].
  assert (done_items (w_target w) (w_subs w) = (fun sb => bio_item (w_target w) (sb_bio sb)) <$> w_subs w) as ->.
  { apply done_items_all, Q. }
  rewrite <-(apply_logged _ _ _ (qu_logged _ Q)). apply apply_all_same. unfold slot_frames. rewrite <-list_fmap_compose.
  apply Forall2_fmap. eapply Forall2_impl; [exact S|]. intros s sb [Hs Hp] img. by rewrite <-(slot_item_effect _ s).
Qed.

Lemma calm_ok w e : calm w e -> ok_event w e.
Proof. by intros [H _]. Qed.

(** The stream is the disk.  When no request overlapped one in flight and
    none failed, and the target is quiet, replaying the records that were read
    on the first content of the disk gives its present content. *)
Theorem driver_stream_replicates begin len offset ring_mb chunk_kb minor mem disk0 w :
  ctr_params begin len ring_mb chunk_kb ->
  reaches device calm (fresh begin len offset ring_mb chunk_kb minor mem disk0) w -> quiet w ->
  apply_all disk0 (iter_records (concat (w_reads w))).1 ≡ w_disk w.
Proof.
  intros P R Q. destruct (reached_inv _ _ _ _ _ _ _ _ _ _ _ P calm_ok R) as (D & q & I).
  destruct (quiet_stream disk0 begin len w D q I (reaches_disk _ _ _ _ _ _ _ _ _ R) Q) as [-> E].
  rewrite (wi_reads _ _ _ I), stream_items; [exact E|].
  pose proof (wi_subs _ _ _ I) as S. rewrite app_nil_r in S. by eapply sub_slots_wf.
Qed.

(** ** Through the daemon *)

Lemma sub_slot_in w s sb : target_ok (w_target w) -> sub_slot (w_target w) s sb -> sb_phase sb <> Reserved ->
  item_in (tg_len (w_target w) * 512) (frame_item (slot_bytes s, sl_rec s)).
Proof.
  intros K S Hph. unfold item_in, item_range, frame_item. cbn [fst snd].
  rewrite (ss_type _ _ _ S), (ss_sector _ _ _ S), (ss_len _ _ _ S), (slot_payload _ _ _ S Hph).
  pose proof (ss_valid _ _ _ S) as V. destruct (vb_size _ _ V) as [Hs Hm]. pose proof (Z.div_mod (bi_size (sb_bio sb)) 512).
  destruct (Z.eqb_spec (bio_type (sb_bio sb)) REC_WRITE) as [E|E].
  - destruct (valid_data _ _ V E) as (_ & _ & _ & ->).
    destruct (valid_rel _ _ K V) as (_ & H1 & H2); [by rewrite E|]. lia.
  - pose proof (to_len _ K). destruct (_ || _) eqn:Ed; [|lia].
    destruct (valid_rel _ _ K V) as (_ & H1 & H2); [|lia]. intros Ef. by rewrite Ef in Ed.
Qed.

Lemma gap_marks_clean subs :
  Forall (fun sb => logs (sb_bio sb) = true -> is_Some (sb_pb sb)) subs -> Forall (eq false) (gap_marks false subs).
Proof.
  induction 1 as [|sb subs Hl _ IH]; [constructor|]. cbn [gap_marks]. destruct (sb_pb sb) as [off|]; [by constructor|].
  destruct (logs (sb_bio sb)); [by destruct Hl|done].
Qed.

Lemma no_gap_flag f : Z.testbit f 3 = false -> Z.land f F_GAP_BEFORE = 0.
Proof.
  intros H. apply Z.bits_inj'. intros n Hn. rewrite Z.land_spec, Z.bits_0. change F_GAP_BEFORE with (2 ^ 3).
  destruct (Z.eq_dec n 3) as [->|Hne]; [by rewrite H|]. rewrite Z.pow2_bits_false by lia. apply andb_false_r.
Qed.

Lemma gap_seqs_none items : Forall (fun it : rec * bytes => Z.testbit (r_flags it.1) 3 = false) items -> gap_seqs items = [].
Proof.
  induction 1 as [|it items H _ IH]; [done|]. unfold gap_seqs in *. rewrite filter_cons_False; [done|].
  intros Hg. apply Hg. by apply no_gap_flag.
Qed.

(** Nothing dropped, no gap announced. *)
Lemma delivered_clean w D q :
  world_inv w D q -> Forall (fun sb => logs (sb_bio sb) = true -> is_Some (sb_pb sb)) (w_subs w) -> gap_seqs (items_of (slot_frames D)) = [].
Proof.
  intros I HL. apply gap_seqs_none. unfold slot_frames. rewrite <-list_fmap_compose. apply Forall_fmap.
  pose proof (gap_marks_clean _ HL) as C. destruct (wi_gaps _ _ _ I) as [G _]. rewrite <-G, fmap_app in C.
  apply Forall_app in C as [C _]. rewrite Forall_fmap in C. eapply Forall_impl; [exact C|]. intros s0 Hs0. by symmetry.
Qed.

(** The daemon on the records of a number of slots, however they were read. *)
Lemma consume_slots libc_fallocate S0 w T subs news s :
  target_ok (w_target w) -> Forall2 (sub_slot (w_target w)) T subs -> Forall (fun s => r_state (sl_rec s) = ST_COMMITTED) T ->
  concat news = stream T -> feed_ok S0 (tg_len (w_target w) * 512) s -> rebuild_lock s = false ->
  exists a', consume_reads libc_fallocate [] news s = (Ok [], set_app a' (scan_gaps (items_of (slot_frames T)) s)) /\
    feed_ok S0 (tg_len (w_target w) * 512) (set_app a' (scan_gaps (items_of (slot_frames T)) s)) /\
    img_of a' ≡ apply_all (img_of (fd_app s)) (items_of (slot_frames T)).
Proof.
  intros K S HC Hd F Hlock. pose proof (sub_slots_wf _ _ _ S) as W.
  destruct (consume_reads_scans libc_fallocate S0 (tg_len (w_target w) * 512) news (slot_frames T) [] s)
    as (a' & Es & Hok & Hc & Himg & _); [| |done..|by exists a'].
  - split; [by apply slot_frames_ok|]. split; [by left|]. unfold slot_frames. rewrite <-list_fmap_compose. apply Forall_fmap, Forall_forall.
    intros s0 Hs0. destruct (proj1 (list_elem_of_lookup _ _) Hs0) as [i Hi].
    destruct (Forall2_lookup_l _ _ _ _ _ (delivered_filled _ _ _ S HC) Hi) as (sb & _ & Ssb & Hph).
    by apply (sub_slot_in w s0 sb).
  - by rewrite app_nil_r, slot_frames_stream.
Qed.

(** C1: from the writes of the machine to the replica.  The daemon's main
    loop, fed with what its reads of a quiet target returned, leaves the
    replica with the content of the disk, and queues no recovery. *)
Theorem replica_follows_disk libc_fallocate begin len offset ring_mb chunk_kb minor mem disk0 w S0 s :
  ctr_params begin len ring_mb chunk_kb ->
  reaches device calm (fresh begin len offset ring_mb chunk_kb minor mem disk0) w -> quiet w ->
  feed_ok S0 (len * 512) s -> rebuild_lock s = false -> img_of (fd_app s) ≡ disk0 ->
  exists s', consume_reads libc_fallocate [] (w_reads w) s = (Ok [], s') /\
    img_of (fd_app s') ≡ w_disk w /\ recovery_queue s' = recovery_queue s /\ pending_bin s' = pending_bin s.
Proof.
  intros P R Q F Hlock E0. destruct (reached_inv _ _ _ _ _ _ _ _ _ _ _ P calm_ok R) as (D & q & I).
  pose proof (reaches_disk _ _ _ _ _ _ _ _ _ R) as DI.
  destruct (quiet_stream disk0 begin len w D q I DI Q) as [-> E].
  pose proof (wi_subs _ _ _ I) as S. rewrite app_nil_r in S. destruct (di_place _ _ _ _ DI) as [_ El]. rewrite <-El in F.
  pose proof (delivered_clean w D [] I (qu_logged _ Q)) as Hg.
  destruct (consume_slots libc_fallocate S0 w D _ (w_reads w) s (wi_target _ _ _ I) S (wi_done _ _ _ I) (wi_reads _ _ _ I) F Hlock)
    as (a' & Es & _ & Hi).
  eexists. split; [exact Es|]. split; [|split; [|apply scan_gaps_frame]].
  - cbn [set_app fd_app]. rewrite Hi, <-E. by apply apply_all_proper.
  - cbn [set_app recovery_queue]. rewrite scan_gaps_queue by (intros; rewrite Hg; first [by constructor|apply not_elem_of_nil]). by rewrite Hg, app_nil_r.
Qed.
End Disk.

(** ** Concrete runs *)

Lemma driver_stream_in_order_witness :
  let w := run demo_device demo_fresh demo_events in
  exists items, iter_records (concat (w_reads w)) = (items, GDone 680) /\ (length items = 3)%nat /\
    forall i it, items !! i = Some it ->
      exists sb, logged (w_subs w) !! i = Some sb /\ item_of_sub (w_target w) (Z.of_nat i) it sb.
Proof.
  destruct (driver_stream_in_order _ _ _ _ _ _ _ _ _ _ demo_params demo_run_reaches) as (items & E & H).
  exists items. split; [|split; [|exact H]].
  - rewrite E. vm_compute. reflexivity.
  - apply (f_equal (length ∘ fst)) in E. cbn [compose fst] in E. rewrite <-E. vm_compute. reflexivity.
Defined.

(** A write of 256 KiB never fits a ring of 1 MiB. *)
Definition demo_big : bio := mk_bio OpWrite false false 1024 262144 (replicate (Z.to_nat 262144) Byte.x42).

Definition demo_gap_events : list event :=
  [Submit demo_write 100; Submit demo_big 101; Fill 0; Submit demo_discard 102; Fill 2; Complete 0 false; Complete 1 false; Complete 2 false; demo_read].

Lemma demo_gap_reaches : reaches demo_device ok_event demo_fresh (run demo_device demo_fresh demo_gap_events).
Proof. apply (run_reaches _ _ ok_event_b); [apply ok_event_b_ok|vm_compute; reflexivity]. Qed.

Lemma driver_gaps_announced_witness :
  let w := run demo_device demo_fresh demo_gap_events in
  let items := (iter_records (concat (w_reads w))).1 in
  (fun it => Z.testbit (r_flags it.1) 3) <$> items = [false; true].
Proof.
  intros w items. pose proof (driver_gaps_announced _ _ _ _ _ _ _ _ _ _ demo_params demo_gap_reaches) as E. cbn zeta in E.
  fold w in E. fold items in E. rewrite E. vm_compute. reflexivity.
Defined.

Lemma daemon_read_fits_witness :
  let w := run demo_device demo_fresh (demo_submits ++ demo_completes) in
  (cdp_read (fun _ => true) true READ_SZ (w_target w)).1 <> ReadError EMSGSIZE.
Proof.
  intros w. apply (daemon_read_fits demo_device 0 2048 4096 1 64 0 zero_image zero_image); [apply demo_params| |vm_compute; reflexivity].
  apply (run_reaches _ _ ok_event_b); [apply ok_event_b_ok|vm_compute; reflexivity].
Defined.

Lemma driver_drains_witness :
  let w := run demo_device demo_fresh (demo_submits ++ demo_completes ++ [Complete 2 true]) in
  let w' := Nat.iter (length (logged (w_subs w))) (fun w => step demo_device w full_read) w in
  rg_head (tg_ring (w_target w)) = 680 /\ rg_tail (tg_ring (w_target w)) = 0 /\
  rg_head (tg_ring (w_target w')) = rg_tail (tg_ring (w_target w')) /\
  length (iter_records (concat (w_reads w'))).1 = length (logged (w_subs w)).
Proof.
  split; [vm_compute; reflexivity|]. split; [vm_compute; reflexivity|].
  apply (driver_drains demo_device 0 2048 4096 1 64 0 zero_image zero_image); [apply demo_params| |vm_compute; reflexivity|].
  - apply (run_reaches _ _ ok_event_b); [apply ok_event_b_ok|vm_compute; reflexivity].
  - vm_compute. repeat constructor; eexists; reflexivity.
Defined.

Definition apart_b (t : cdp_target) (b1 b2 : bio) : bool :=
  let '(o1, n1) := item_range (bio_item t b1) in
  let '(o2, n2) := item_range (bio_item t b2) in
  (o1 + n1 <=? o2) || (o2 + n2 <=? o1).

Lemma apart_b_ok t b1 b2 : apart_b t b1 b2 = true -> apart t b1 b2.
Proof.
  unfold apart_b, apart, touches, in_extent. destruct (item_range (bio_item t b1)) as [o1 n1], (item_range (bio_item t b2)) as [o2 n2].
  cbn [fst snd]. rewrite orb_true_iff, !Z.leb_le. lia.
Qed.

Definition calm_b (w : world) (e : event) : bool :=
  ok_event_b w e &&
  match e with
  | Submit b _ => forallb (fun sb => is_done (sb_phase sb) || apart_b (w_target w) (sb_bio sb) b) (w_subs w)
  | Complete _ error => negb error
  | _ => true
  end.

Lemma calm_b_ok w e : calm_b w e = true -> calm w e.
Proof.
  unfold calm_b, calm. rewrite andb_true_iff. intros [H1%ok_event_b_ok H2]. split; [done|]. destruct e; try done.
  - apply Forall_forall. intros sb Hsb Hn. apply apart_b_ok. rewrite forallb_forall in H2.
    specialize (H2 sb). rewrite Hn in H2. apply H2. by apply list_elem_of_In.
  - by destruct error.
Qed.

Lemma demo_calm : reaches demo_device calm demo_fresh (run demo_device demo_fresh demo_events).
Proof. apply (run_reaches _ _ calm_b); [apply calm_b_ok|vm_compute; reflexivity]. Qed.

Lemma demo_quiet : quiet (run demo_device demo_fresh demo_events).
Proof. split; [| |vm_compute; reflexivity]; vm_compute; repeat constructor; intros; eexists; reflexivity. Qed.

Lemma demo_works t b disk : valid_bio t b -> demo_device t b false disk ≡ bio_effect t b disk.
Proof. done. Qed.

Lemma driver_stream_replicates_witness :
  let w := run demo_device demo_fresh demo_events in
  apply_all zero_image (iter_records (concat (w_reads w))).1 ≡ w_disk w /\ w_disk w 4096 = Byte.x41.
Proof.
  split; [|vm_compute; reflexivity].
  apply (driver_stream_replicates demo_device demo_works 0 2048 4096 1 64 0 zero_image); [apply demo_params|apply demo_calm|apply demo_quiet].
Defined.

Definition demo_empty_feed : feed :=
  mk_feed (mk_applier (mk_Replica (file_create 1048576) true None) None [] None 0 0) None [] None false.

Lemma replica_follows_disk_witness :
  let w := run demo_device demo_fresh demo_events in
  exists s', consume_reads (fun _ _ _ => FaZero) [] (w_reads w) demo_empty_feed = (Ok [], s') /\
    img_of (fd_app s') ≡ w_disk w /\ recovery_queue s' = [] /\ w_disk w 4096 = Byte.x41.
Proof.
  intros w.
  destruct (replica_follows_disk demo_device demo_works (fun _ _ _ => FaZero) 0 2048 4096 1 64 0 zero_image zero_image w zero_image demo_empty_feed)
    as (s' & E & Hi & Hq & _); [apply demo_params|apply demo_calm|apply demo_quiet|by split|done|done|].
  exists s'. split; [exact E|]. split; [exact Hi|]. split; [exact Hq|]. vm_compute. reflexivity.
Defined.

Lemma half_empty_ring_logs_witness :
  exists off, (cdp_map (w_target (fresh 0 2048 4096 17 64 0 zero_image zero_image)) demo_write 100).1.1 = Some off.
Proof.
  apply (half_empty_ring_logs demo_device 0 2048 4096 17 64 0 zero_image zero_image).
  - split; lia.
  - constructor.
  - apply ok_event_b_ok. vm_compute. reflexivity.
  - reflexivity.
  - vm_compute. discriminate.
  - vm_compute. discriminate.
Defined.
