(* ===== verification/ChangeMap.v ===== *)
(** * Changed-block tracking over runs of the driver

    What the dirty bitmap promises when the stream has a gap: between two
    reads of the bitmap, a byte of the disk that changed lies in an extent
    that [dmcdp.py] reads; and where the promise ends: a request in flight
    when the bitmap is read and cleared. *)
From S2P Require Import Prelude Dmcdp Files Seed Replica Apply CopyProtocol Consume Driver Ring DirtyMap DriverRuns DriverStream.

#[local] Arguments Z.pow : simpl never.

(** What a submission leaves of the target besides the ring. *)
Lemma map_static t b now :
  let '(_, _, t') := map_reserve t b now in
  tg_bitmap t' = (if logs b then tg_bitmap (cdp_mark t (bio_rel t b) (bi_size b)) else tg_bitmap t) /\
  tg_begin t' = tg_begin t /\ tg_len t' = tg_len t /\ tg_chunk_sectors t' = tg_chunk_sectors t /\ tg_nbits t' = tg_nbits t.
Proof.
  unfold map_reserve. destruct (logs b) eqn:Hl; [rewrite cdp_map_log by done|by rewrite cdp_map_skip].
  unfold log_reserve. destruct (cdp_mark_set_bits t (bio_rel t b) (bi_size b)) as (a & n & ->).
  by destruct (cdp_reserve _ _ _ _ _ _ _) as [[off|] g].
Qed.

(** The chunk of a byte of the disk. *)
Definition chunk_of (t : cdp_target) (i : Z) : Z := i / 512 / tg_chunk_sectors t.

Lemma mark_keeps t b x :
  target_ok t -> valid_bio t b -> 0 <= x -> test_bit x (tg_bitmap t) = true ->
  test_bit x (tg_bitmap (cdp_mark t (bio_rel t b) (bi_size b))) = true.
Proof.
  intros K V Hx Ht. destruct (Z.eq_dec (bi_size b) 0) as [E|E]; [by rewrite E|].
  destruct (vb_size _ _ V) as [Hs Hm]. pose proof (Z.div_mod (bi_size b) 512).
  assert (bio_type b <> REC_FLUSH) as Hf.
  { unfold bio_type. destruct (bi_op b); try done. by rewrite (proj2 (Z.eqb_neq _ _) E). }
  destruct (valid_rel _ _ K V Hf) as (_ & H1 & H2).
  assert ((bi_size b + 511) / 512 = bi_size b / 512) as Ed.
  { replace (bi_size b + 511) with (511 + (bi_size b / 512) * 512) by lia. by rewrite Z.div_add. }
  rewrite cdp_mark_bits by (rewrite ?Ed; done || lia). by rewrite Ht.
Qed.

Lemma mark_covers t b i :
  target_ok t -> valid_bio t b -> touches (bio_item t b) i ->
  0 <= i < tg_len t * 512 /\ logs b = true /\
  test_bit (chunk_of t i) (tg_bitmap (cdp_mark t (bio_rel t b) (bi_size b))) = true.
Proof.
  intros K V T. destruct (vb_size _ _ V) as [Hs Hm]. pose proof (Z.div_mod (bi_size b) 512).
  assert (bio_type b <> REC_FLUSH /\ logs b = true /\ bio_rel t b * 512 <= i < bio_rel t b * 512 + bi_size b) as (Hf & Hl & Hi).
  { unfold touches, in_extent, bio_item, item_range in T. cbn [r_type r_sector r_len fst snd] in T.
    destruct (Z.eqb_spec (bio_type b) REC_WRITE) as [E|E].
    - destruct (valid_data _ _ V E) as (Eo & Hz & _ & Hd). rewrite Hd in T. split; [by rewrite E|]. split; [|exact T].
      unfold logs. by rewrite Eo, (proj2 (Z.eqb_neq _ _) Hz).
    - destruct (_ || _) eqn:Ed; cbn [fst snd] in T; [|lia]. split; [by intros Ef; rewrite Ef in Ed|]. split; [|exact T].
      unfold logs, bio_type in *. destruct (bi_op b); try done. by destruct (bi_size b =? 0). }
  destruct (valid_rel _ _ K V Hf) as (_ & H1 & H2). split; [lia|]. split; [done|].
  assert ((bi_size b + 511) / 512 = bi_size b / 512) as Ed.
  { replace (bi_size b + 511) with (511 + (bi_size b / 512) * 512) by lia. by rewrite Z.div_add. }
  pose proof (to_chunk _ K). pose proof (Z.div_mod i 512). pose proof (Z.mod_pos_bound i 512).
  rewrite cdp_mark_bits; [|done|done|lia|by rewrite Ed|unfold chunk_of; apply Z.div_pos; [apply Z.div_pos; lia|lia]].
  rewrite (proj2 (Z.ltb_lt 0 (bi_size b))) by lia. unfold chunk_touched. rewrite Ed. cbn [andb].
  pose proof (chunk_range (tg_chunk_sectors t) (bio_rel t b) (bio_rel t b + bi_size b / 512 - 1) (chunk_of t i) ltac:(lia)) as [R _].
  unfold chunk_of in *. pose proof (Z.div_le_mono (bio_rel t b) (i / 512) (tg_chunk_sectors t)).
  pose proof (Z.div_le_mono (i / 512) (bio_rel t b + bi_size b / 512 - 1) (tg_chunk_sectors t)).
  destruct R as [R1 R2]; [split; [apply Z.div_le_mono; lia|apply Z.div_le_mono; lia]|].
  rewrite (proj2 (Z.ltb_lt _ _)), (proj2 (Z.ltb_lt _ _)) by lia. apply orb_true_r.
Qed.

Section Tracking.
(** The device changes no byte outside the request, whether it fails or not. *)
Variable device : cdp_target -> bio -> bool -> image -> image.
Hypothesis device_local : forall t b error disk i, ~ touches (bio_item t b) i -> device t b error disk i = disk i.

(** Nothing clears the bitmap. *)
Definition tracking (w : world) (e : event) : Prop :=
  ok_event w e /\ match e with Ioctl _ _ IocBitmapClear | Ioctl _ _ (IocBitmap _ true) => False | _ => True end.

(** The bit of every byte of [sb] is set. *)
Definition marked (t : cdp_target) (sb : sub) : Prop :=
  forall i, touches (bio_item t (sb_bio sb)) i -> 0 <= i < tg_len t * 512 /\ test_bit (chunk_of t i) (tg_bitmap t) = true.

Record tracked (disk1 : image) (s1 : list sub) (w : world) : Prop := {
  tk_target : target_ok (w_target w);
  tk_subs : exists s2, w_subs w = s1 ++ s2 /\ Forall (fun sb => is_done (sb_phase sb) = true) s1 /\ Forall (marked (w_target w)) s2;
  tk_disk : forall i, w_disk w i <> disk1 i -> 0 <= i < tg_len (w_target w) * 512 /\ test_bit (chunk_of (w_target w) i) (tg_bitmap (w_target w)) = true;
}.

Lemma tracked_same disk1 (s1 : list sub) w w' :
  tracked disk1 s1 w -> target_ok (w_target w') -> tg_bitmap (w_target w') = tg_bitmap (w_target w) ->
  tg_begin (w_target w') = tg_begin (w_target w) -> tg_len (w_target w') = tg_len (w_target w) ->
  tg_chunk_sectors (w_target w') = tg_chunk_sectors (w_target w) ->
  w_subs w' = w_subs w -> w_disk w' = w_disk w -> tracked disk1 s1 w'.
Proof.
  intros [K (s2 & E & H1 & H2) Hd] K' Eb Ep El Ec Es Ed. split; [done| |].
  - exists s2. rewrite Es. split; [done|]. split; [done|]. eapply Forall_impl; [exact H2|].
    intros sb H i. rewrite (bio_item_place (w_target w)) by done. unfold chunk_of. rewrite Eb, El, Ec. apply H.
  - intros i. unfold chunk_of. rewrite Ed, Eb, El, Ec. apply Hd.
Qed.

Lemma submit_tracked disk1 (s1 : list sub) w b now :
  tracked disk1 s1 w -> ok_event w (Submit b now) -> tracked disk1 s1 (step device w (Submit b now)).
Proof.
  intros [K (s2 & E & H1 & H2) Hd] (V & _). cbn [step]. pose proof (map_static (w_target w) b now) as M.
  destruct (map_reserve _ _ _) as [[pb dest] t']. destruct M as (Eb & Ep & El & Ec & En).
  assert (forall i, 0 <= i -> 0 <= chunk_of (w_target w) i) as Hc.
  { intros i Hi. unfold chunk_of. pose proof (to_chunk _ K). apply Z.div_pos; [apply Z.div_pos; lia|lia]. }
  assert (forall i, 0 <= i -> test_bit (chunk_of (w_target w) i) (tg_bitmap (w_target w)) = true ->
            test_bit (chunk_of t' i) (tg_bitmap t') = true) as Hmono.
  { intros i Hi Ht. unfold chunk_of in *. rewrite Eb, Ec. destruct (logs b); [|done]. apply mark_keeps; [done..|by apply Hc|done]. }
  split; cbn [w_target w_subs w_disk].
  - pose proof (cdp_mark_ok (w_target w) (bio_rel (w_target w) b) (bi_size b) K) as K'.
    destruct (cdp_mark_set_bits (w_target w) (bio_rel (w_target w) b) (bi_size b)) as (a & n & Em).
    split; rewrite ?Eb, ?Ep, ?El, ?Ec, ?En; try apply K.
    + destruct (logs b); [|apply K]. rewrite (to_bitmap _ K'), Em. done.
    + destruct (logs b); [apply K'|apply K].
  - eexists (s2 ++ [_]). rewrite E, app_assoc. split; [done|]. split; [done|].
    apply Forall_app. split; [|constructor; [|constructor]].
    + eapply Forall_impl; [exact H2|]. intros sb H i. rewrite (bio_item_place (w_target w)) by done. intros T.
      destruct (H i T) as [Hi Ht]. rewrite El. split; [done|]. apply Hmono; [lia|done].
    + intros i. cbn [sb_bio]. rewrite (bio_item_place (w_target w)) by done. intros T.
      destruct (mark_covers _ _ _ K V T) as (Hi & Hl & Ht). rewrite El. split; [done|].
      unfold chunk_of in *. by rewrite Eb, Ec, Hl.
  - intros i Hi. destruct (Hd i Hi) as [Hr Ht]. rewrite El. split; [done|]. apply Hmono; [lia|done].
Qed.

(** A request goes to another phase. *)
Lemma phase_tracked disk1 (s1 : list sub) w k b pb p p' t' disk' :
  tracked disk1 s1 w -> w_subs w !! k = Some (mk_sub b pb p) -> is_done p = false ->
  target_ok t' -> tg_bitmap t' = tg_bitmap (w_target w) -> tg_begin t' = tg_begin (w_target w) ->
  tg_len t' = tg_len (w_target w) -> tg_chunk_sectors t' = tg_chunk_sectors (w_target w) ->
  (forall i, ~ touches (bio_item (w_target w) b) i -> disk' i = w_disk w i) ->
  tracked disk1 s1 (mk_world t' disk' (<[k := mk_sub b pb p']> (w_subs w)) (w_reads w)).
Proof.
  intros [K (s2 & E & H1 & H2) Hd] Hk Hp K' Eb Ep El Ec Hout.
  assert (forall sb, marked (w_target w) sb -> marked t' sb) as Hmk.
  { intros sb H i. rewrite (bio_item_place (w_target w)) by done. unfold chunk_of. rewrite Eb, El, Ec. apply H. }
  assert (length s1 <= k)%nat as Hk1.
  { destruct (decide (k < length s1)%nat) as [L|L]; [|lia]. rewrite E, lookup_app_l in Hk by done.
    apply (Forall_lookup_1 _ _ _ _ H1) in Hk. cbn in Hk. congruence. }
  assert (s2 !! (k - length s1)%nat = Some (mk_sub b pb p)) as Hk2 by (by rewrite E, lookup_app_r in Hk).
  pose proof (Forall_lookup_1 _ _ _ _ H2 Hk2) as Hm.
  split; cbn [w_target w_subs w_disk].
  - done.
  - exists (<[(k - length s1)%nat := mk_sub b pb p']> s2). rewrite E, insert_app_r_alt by done.
    split; [done|]. split; [done|]. apply Forall_insert; [eapply Forall_impl; [exact H2|done]|]. apply Hmk. exact Hm.
  - intros i Hi. unfold chunk_of. rewrite Eb, El, Ec. destruct (decide (touches (bio_item (w_target w) b) i)) as [Ti|Ti]; [by apply Hm|].
    rewrite Hout in Hi by done. by apply Hd.
Qed.

Lemma complete_tracked disk1 (s1 : list sub) w k error :
  tracked disk1 s1 w -> tracked disk1 s1 (step device w (Complete k error)).
Proof.
  intros T. cbn [step]. destruct (w_subs w !! k) as [[b pb []]|] eqn:Hk; try done.
  eapply phase_tracked; [done..| | | | | |]; try (by destruct pb).
  - pose proof (tk_target _ _ _ T) as K. destruct pb; [by destruct K|done].
  - intros i. apply device_local.
Qed.

Lemma fill_tracked disk1 (s1 : list sub) w k : tracked disk1 s1 w -> tracked disk1 s1 (step device w (Fill k)).
Proof.
  intros T. cbn [step]. destruct (w_subs w !! k) as [[b [off|] []]|] eqn:Hk; try done.
  eapply phase_tracked; [done..| | | | | |]; try done. by destruct (tk_target _ _ _ T).
Qed.

Lemma step_tracked disk1 (s1 : list sub) w e : tracked disk1 s1 w -> tracking w e -> tracked disk1 s1 (step device w e).
Proof.
  intros T [Hok Hc]. destruct e as [b now|k|k error|copy_ok nonblock count|alloc copied cmd|].
  - by apply submit_tracked.
  - by apply fill_tracked.
  - by apply complete_tracked.
  - eapply tracked_same; [done|..]; unfold step, cdp_read; destruct (cdp_read_loop _ _ _ _ _ _ _); try done.
    apply read_target_ok, T.
  - assert ((cdp_ioctl alloc copied cmd (w_target w)).2 = w_target w \/ (cdp_ioctl alloc copied cmd (w_target w)).2 = cdp_reset_stats (w_target w)) as E.
    { destruct cmd as [|len [|]| | | |]; cbn; try done; try (by auto). unfold cdp_ioctl_bitmap.
      destruct (_ <? _); [by left|]. destruct alloc; by left. }
    eapply tracked_same; [done|..]; try done; cbn [step w_target]; destruct E as [-> | ->]; try done; [apply T|].
    by destruct (tk_target _ _ _ T).
  - eapply tracked_same; [done|..]; try done. by destruct (tk_target _ _ _ T).
Qed.

Lemma reaches_tracked w1 w2 :
  target_ok (w_target w1) -> Forall (fun sb => is_done (sb_phase sb) = true) (w_subs w1) -> reaches device tracking w1 w2 ->
  tracked (w_disk w1) (w_subs w1) w2.
Proof.
  intros K Hd R. induction R as [|w e _ IH Ht]; [|by apply step_tracked]. split; [done| |done].
  exists []. by rewrite app_nil_r.
Qed.

Lemma bitmap_size t : target_ok t -> tg_nbits t <= 64 * blen (tg_bitmap t).
Proof.
  intros K. rewrite (to_bitmap _ K). unfold BITS_TO_LONGS.
  pose proof (Z.div_mod (tg_nbits t + 63) 64). pose proof (Z.mod_pos_bound (tg_nbits t + 63) 64). lia.
Qed.

(** The bit [dmcdp.py] reads for a byte of the disk. *)
Lemma chunk_dirty t i :
  target_ok t -> 0 <= i < tg_len t * 512 ->
  0 <= i / 512 / tg_chunk_sectors t < tg_nbits t /\
  dirty (bitmap_bytes_of (tg_bitmap t)) (tg_nbits t) (i / 512 / tg_chunk_sectors t) = test_bit (chunk_of t i) (tg_bitmap t).
Proof.
  intros K Hr. pose proof (to_chunk _ K). pose proof (nbits_bounds _ K). pose proof (bitmap_size _ K).
  assert (0 <= i / 512 < tg_len t) by (split; [apply Z.div_pos; lia|apply Z.div_lt_upper_bound; lia]).
  assert (0 <= i / 512 / tg_chunk_sectors t < tg_nbits t) as Hx.
  { split; [apply Z.div_pos; lia|apply Z.div_lt_upper_bound; lia]. }
  split; [done|]. rewrite dirty_bitmap_bytes by lia. by rewrite (proj2 (Z.leb_le _ _)), (proj2 (Z.ltb_lt _ _)) by lia.
Qed.

(** C10: the dirty bitmap covers what changed.  From a moment at which no
    request is in flight on, as long as nothing clears the bitmap, every byte
    of the disk that differs from what it was lies in one of the extents that
    [dmcdp.py] computes from the bitmap it reads, whether the requests were
    logged, dropped or failed. *)
Theorem bitmap_covers_changes begin len offset ring_mb chunk_kb minor mem disk0 w1 w2 :
  ctr_params begin len ring_mb chunk_kb ->
  reaches device ok_event (fresh begin len offset ring_mb chunk_kb minor mem disk0) w1 ->
  Forall (fun sb => is_done (sb_phase sb) = true) (w_subs w1) -> reaches device tracking w1 w2 -> status_fits (w_target w2) ->
  exists es, ('(bm, chunk, nbits) ← read_bitmap (fd_of true true (w_target w2)) true; bitmap_extents bm chunk nbits) = Ok es /\
    separated 0 es /\ forall i, w_disk w2 i <> w_disk w1 i -> Exists (in_extent (i / 512)) es.
Proof.
  intros P R1 Hd R2 F. destruct (reached_inv _ _ _ _ _ _ _ _ _ _ _ P (fun _ _ H => H) R1) as (D & q & I).
  destruct (reaches_tracked w1 w2 (wi_target _ _ _ I) Hd R2) as [K _ HD].
  pose proof (bitmap_size _ K). pose proof (to_chunk _ K). pose proof (nbits_bounds _ K).
  rewrite read_bitmap_of_driver, res_bind_Ok by done.
  destruct (bitmap_extents_cover (bitmap_bytes_of (tg_bitmap (w_target w2))) (tg_chunk_sectors (w_target w2)) (tg_nbits (w_target w2)))
    as (es & E & Hsep & Hes); [lia|rewrite blen_bitmap_bytes; lia|].
  exists es. split; [done|]. split; [done|]. intros i Hi. destruct (HD i Hi) as [Hr Ht]. apply Hes.
  destruct (chunk_dirty _ i K Hr) as [Hx ->]. done.
Qed.
End Tracking.

(** ** Where the promise ends *)

(** The dropped request, the record after it, and the daemon's reading. *)
Definition demo_race : list event :=
  [Submit demo_big 100; Submit demo_discard 101; Fill 1; Complete 1 false; demo_read; Ioctl true true (IocBitmap 8 true)].

(** A dropped request in flight when the bitmap is read and cleared is
    lost.  The request marks its chunk, finds no room in the ring, and is
    still in flight when the next record, which announces the gap, makes the
    daemon read and clear the bitmap: the chunk it then copies has the old
    content.  The request completes; the disk has changed, no bit is set, no
    gap is pending, and no record will ever carry the data. *)
Theorem inflight_at_clear_lost :
  let w1 := run demo_device demo_fresh demo_race in
  let w2 := run demo_device demo_fresh (demo_race ++ [Complete 0 false]) in
  reaches demo_device ok_event demo_fresh w2 /\
  (fun it => Z.testbit (r_flags it.1) 3) <$> (iter_records (concat (w_reads w1))).1 = [true] /\
  w_disk w1 524288 = Byte.x00 /\ w_disk w2 524288 = Byte.x42 /\
  concat (w_reads w2) = concat (w_reads w1) /\ rg_tail (tg_ring (w_target w2)) = rg_head (tg_ring (w_target w2)) /\
  rg_gap_pending (tg_ring (w_target w2)) = false /\ rg_overflowed (tg_ring (w_target w2)) = false /\
  bitmap_weight (tg_bitmap (w_target w2)) (tg_nbits (w_target w2)) = 0.
Proof.
  intros w1 w2. split.
  { apply (run_reaches _ _ ok_event_b); [apply ok_event_b_ok|vm_compute; reflexivity]. }
  vm_compute. repeat split.
Qed.

(** ** A concrete run *)

Lemma demo_local t b error disk i : ~ touches (bio_item t b) i -> demo_device t b error disk i = disk i.
Proof. intros H. destruct error; [done|]. unfold demo_device. rewrite (bio_effect_item t b disk i). by apply apply_img_untouched. Qed.

Definition tracking_b (w : world) (e : event) : bool :=
  ok_event_b w e && match e with Ioctl _ _ IocBitmapClear | Ioctl _ _ (IocBitmap _ true) => false | _ => true end.

Lemma tracking_b_ok w e : tracking_b w e = true -> tracking w e.
Proof.
  unfold tracking_b, tracking. rewrite andb_true_iff. intros [H1%ok_event_b_ok H2]. split; [done|].
  destruct e as [| | | |? ? []|]; try done. by destruct clear.
Qed.

Lemma bitmap_covers_changes_witness :
  let w2 := run demo_device demo_fresh demo_gap_events in
  w_disk w2 524288 = Byte.x42 /\
  exists es, ('(bm, chunk, nbits) ← read_bitmap (fd_of true true (w_target w2)) true; bitmap_extents bm chunk nbits) = Ok es /\
    es = [(0, 128); (1024, 512)] /\ forall i, w_disk w2 i <> zero_image i -> Exists (in_extent (i / 512)) es.
Proof.
  intros w2. split; [vm_compute; reflexivity|].
  destruct (bitmap_covers_changes demo_device demo_local 0 2048 4096 1 64 0 zero_image zero_image demo_fresh w2) as (es & E & _ & H).
  - apply demo_params.
  - constructor.
  - constructor.
  - apply (run_reaches _ _ tracking_b); [apply tracking_b_ok|vm_compute; reflexivity].
  - vm_compute. repeat constructor; discriminate.
  - exists es. split; [exact E|]. split; [|exact H].
    assert (Ok es = Ok [(0, 128); (1024, 512)]) as Ee by (rewrite <-E; vm_compute; reflexivity). by injection Ee.
Defined.
