(* ===== verification/CdpTools.v ===== *)
(** * The C tools ([tools/cdp-drain.c], [tools/cdp-apply.c])

    [cdp-drain -B] prints the dirty extents, [cdp-apply] replays a drained
    stream onto an image.  Both do in C what the daemon does in Python; the
    theorems compare them with [bitmap_extents] and with the replay of the
    records.  What the kernel answers to [pwrite] and to [malloc] is an
    argument. *)
From S2P Require Import Prelude Dmcdp Files Seed Replica Apply CopyProtocol Consume Driver Ring DirtyMap DriverRuns DriverStream.

(** ** [cdp-drain -B] *)

(** [i < bitmap_bits && (bm[i / 64] >> (i % 64)) & 1] *)
Definition drain_bit (bm : list Z) (nbits i : Z) : bool := (i <? nbits) && test_bit i bm.

(** The loop of [do_bitmap]: the extents it prints, and the count of the set
    bits. *)
Fixpoint do_bitmap_loop (bm : list Z) (chunk_sectors nbits : Z) (idxs : list Z) (start : Z) (inside : bool) (set : Z)
    : list (Z * Z) * Z :=
  match idxs with
  | [] => ([], set)
  | i :: idxs' =>
      let bit := drain_bit bm nbits i in
      let set := to_u64 (set + (if bit then 1 else 0)) in
      if bit && negb inside then do_bitmap_loop bm chunk_sectors nbits idxs' i true set
      else if negb bit && inside then
        let '(es, n) := do_bitmap_loop bm chunk_sectors nbits idxs' start false set in
        ((to_u64 (start * chunk_sectors), to_u64 ((i - start) * chunk_sectors)) :: es, n)
      else do_bitmap_loop bm chunk_sectors nbits idxs' start inside set
  end.

Definition do_bitmap (bm : list Z) (chunk_sectors nbits : Z) : list (Z * Z) * Z :=
  do_bitmap_loop bm chunk_sectors nbits (seqZ 0 (nbits + 1)) 0 false 0.

Lemma do_bitmap_loop_extents bm c nbits m : forall i start inside set,
  0 <= nbits <= 64 * blen bm -> 0 < c -> nbits * c + c < 2 ^ 64 -> 0 <= i -> i + Z.of_nat m = nbits + 1 ->
  (inside = true -> 0 <= start <= i) -> 0 <= set <= i ->
  bitmap_extents_loop (bitmap_bytes_of bm) c nbits (seqZ i (Z.of_nat m)) (if inside then Some start else None) =
    Ok (do_bitmap_loop bm c nbits (seqZ i (Z.of_nat m)) start inside set).1 /\
  (do_bitmap_loop bm c nbits (seqZ i (Z.of_nat m)) start inside set).2 =
    set + blen (List.filter (fun b => drain_bit bm nbits b) (seqZ i (Z.of_nat m))).
Proof.
  induction m as [|m IH]; intros i start inside set Hb Hc Hw Hi Hm Hs Hset.
  - change (Z.of_nat 0) with 0. rewrite seqZ_nil by lia. cbn. split; [done|rewrite blen_nil; lia].
  - rewrite seqZ_cons by lia. cbn [bitmap_extents_loop do_bitmap_loop List.filter].
    rewrite bm_bit_Ok, res_bind_Ok by (rewrite ?blen_bitmap_bytes; lia). rewrite dirty_bitmap_bytes by done.
    assert ((0 <=? i) && (i <? nbits) && test_bit i bm = drain_bit bm nbits i) as ->.
    { unfold drain_bit. by rewrite (proj2 (Z.leb_le 0 i)). }
    replace (Z.pred (Z.of_nat (S m))) with (Z.of_nat m) by lia.
    assert (to_u64 (set + (if drain_bit bm nbits i then 1 else 0)) = set + (if drain_bit bm nbits i then 1 else 0)) as ->.
    { unfold to_u64. apply Z.mod_small. destruct (drain_bit bm nbits i); nia. }
    assert (inside = true -> to_u64 (start * c) = start * c /\ to_u64 ((i - start) * c) = (i - start) * c) as Hu.
    { intros E. specialize (Hs E). unfold to_u64. rewrite !Z.mod_small; nia. }
    destruct (drain_bit bm nbits i) eqn:Ed, inside; cbn [andb negb].
    + pose proof (Hs eq_refl). destruct (IH (Z.succ i) start true (set + 1)) as [-> ->]; try done; try lia.
      split; [done|]. rewrite blen_cons. lia.
    + destruct (IH (Z.succ i) i true (set + 1)) as [-> ->]; try done; try lia. split; [done|]. rewrite blen_cons. lia.
    + destruct (IH (Z.succ i) start false (set + 0)) as [E1 E2]; try done; try lia. rewrite E1, res_bind_Ok.
      destruct (do_bitmap_loop _ _ _ _ _ _ _) as [es n]. cbn [fst snd] in *. destruct (Hu eq_refl) as [-> ->].
      split; [done|]. lia.
    + destruct (IH (Z.succ i) start false (set + 0)) as [-> ->]; try done; try lia. split; [done|]. lia.
Qed.

(** [cdp-drain -B] and [dmcdp.py] read the same bitmap the same way: the
    extents the tool prints are those of [bitmap_extents], and the count it
    prints is the [bitmap_set] of the status block. *)
Theorem do_bitmap_extents t :
  target_ok t -> tg_nbits t * tg_chunk_sectors t + tg_chunk_sectors t < 2 ^ 64 ->
  bitmap_extents (bitmap_bytes_of (tg_bitmap t)) (tg_chunk_sectors t) (tg_nbits t) =
    Ok (do_bitmap (tg_bitmap t) (tg_chunk_sectors t) (tg_nbits t)).1 /\
  (do_bitmap (tg_bitmap t) (tg_chunk_sectors t) (tg_nbits t)).2 = bitmap_weight (tg_bitmap t) (tg_nbits t).
Proof.
  intros K Hw. pose proof (to_chunk _ K). pose proof (nbits_bounds _ K) as [Hn _]. pose proof (to_bitmap _ K) as Hb.
  unfold BITS_TO_LONGS in Hb. pose proof (Z.div_mod (tg_nbits t + 63) 64). pose proof (Z.mod_pos_bound (tg_nbits t + 63) 64).
  destruct (do_bitmap_loop_extents (tg_bitmap t) (tg_chunk_sectors t) (tg_nbits t) (Z.to_nat (tg_nbits t + 1)) 0 0 false 0)
    as [E1 E2]; try done; try lia.
  rewrite Z2Nat.id in E1, E2 by lia. split; [exact E1|]. unfold do_bitmap. rewrite E2. unfold bitmap_weight.
  rewrite (seqZ_app 0 (tg_nbits t) 1), List.filter_app, blen_app, !Z.add_0_l by lia.
  rewrite (seqZ_cons (tg_nbits t)) by lia. cbn [List.filter]. unfold drain_bit at 2. rewrite Z.ltb_irrefl. cbn [andb].
  rewrite (seqZ_nil (Z.succ (tg_nbits t)) (Z.pred 1)) by lia. cbn [List.filter]. change (blen (@nil Z)) with 0. rewrite Z.add_0_r. f_equal.
  apply List.filter_ext_in. intros x Hx%list_elem_of_In%elem_of_seqZ. unfold drain_bit. by rewrite (proj2 (Z.ltb_lt _ _)) by lia.
Qed.

(** ** [cdp-apply] *)

Inductive pwrite_answer : Type :=
  | PwWrote (n : Z)     (* n bytes, at most what was asked *)
  | PwEintr
  | PwFailed.

(** [write_all]: whether it succeeded, the image, and the answers that are
    left; nothing while the kernel still has to answer.  [pwrite] refuses a
    negative offset ([EINVAL]). *)
Fixpoint write_all (answers : list pwrite_answer) (buf : bytes) (off : Z) (img : image)
    : option (bool * image * list pwrite_answer) :=
  match buf with
  | [] => Some (true, img, answers)
  | _ =>
      if off <? 0 then Some (false, img, answers)
      else match answers with
      | [] => None
      | PwEintr :: answers' => write_all answers' buf off img
      | PwFailed :: answers' => Some (false, img, answers')
      | PwWrote n :: answers' => write_all answers' (buf.[n : ]) (off + n) (img_write img off (buf.[0 : n]))
      end
  end.

(** [(long long)x] *)
Definition to_s64 (x : Z) : Z := if x <? 2 ^ 63 then x else x - 2 ^ 64.

(** [(off_t)r.sector * 512], in 64 bits with a sign, as the compiler's
    multiplication leaves it *)
Definition off_of (sector : Z) : Z := to_s64 (to_u64 (to_s64 sector * 512)).

(** The state of [main]: the target, the counters, the expected sequence
    number once there is one, and the length of the buffer of zeros. *)
Record apply_state : Type := mk_apply_state {
  as_img : image;
  as_applied : Z;
  as_bytes : Z;
  as_expect : option Z;
  as_zero : option Z;
  as_answers : list pwrite_answer;
}.

Definition set_expect (seq : Z) (s : apply_state) : apply_state :=
  mk_apply_state (as_img s) (as_applied s) (as_bytes s) (Some seq) (as_zero s) (as_answers s).

(** [fread] of a header at a position of the stream. *)
Definition read_header (f : bytes) (pos : Z) : option rec :=
  if blen f <? pos + REC_SIZE then None else rec_of_fields (unpack_widths rec_widths (f.[pos : ])).

Section CdpApply.
Variables (from_seq stop_seq : Z).
(** [malloc] of the payload succeeds, [calloc] of the zeros does; what lies
    behind a buffer on the heap. *)
Variables (malloc calloc : Z -> bool) (heap : bytes -> Z -> bytes).

(** The payload: [NULL] when there is none; an error when it is cut short. *)
Definition read_payload (f : bytes) (pos payload : Z) : option (option bytes) :=
  if payload =? 0 then Some None
  else if malloc payload && (pos + payload <=? blen f) then Some (Some (f.[pos : pos + payload])) else None.

(** The [switch] on the type: whether it went well, and the new state. *)
Definition apply_record (r : rec) (buf : option bytes) (s : apply_state) : option (bool * apply_state) :=
  let off := off_of (r_sector r) in
  if r_type r =? REC_WRITE then
    let done '(ok, img, answers) :=
      (ok : bool, mk_apply_state img (as_applied s + 1) (as_bytes s + r_len r) (as_expect s) (as_zero s) answers) in
    match buf with
    | None => (* pwrite(fd, NULL, len): EFAULT *) if r_len r =? 0 then Some (done (true, as_img s, as_answers s)) else Some (done (false, as_img s, as_answers s))
    | Some b =>
        let data := if r_len r <=? blen b then b.[0 : r_len r] else heap b (r_len r) in
        done <$> write_all (as_answers s) data off (as_img s)
    end
  else if (r_type r =? REC_ZERO) || (r_type r =? REC_DISCARD) then
    let zero := if default 0 (as_zero s) <? r_len r then (if calloc (r_len r) then Some (r_len r) else None) else as_zero s in
    let done '(ok, img, answers) :=
      (ok : bool, mk_apply_state img (as_applied s + 1) (as_bytes s) (as_expect s) zero answers) in
    match zero with
    | None => Some (done (false, as_img s, as_answers s))
    | Some _ => done <$> write_all (as_answers s) (replicate (Z.to_nat (r_len r)) x00) off (as_img s)
    end
  else Some (true, s).

(** The loop of [main]: the exit code and the final state. *)
Fixpoint cdp_apply_loop (fuel : nat) (f : bytes) (pos : Z) (s : apply_state) : option (Z * apply_state) :=
  match fuel with
  | O => None
  | S fuel' =>
      match read_header f pos with
      | None => Some (0, s)
      | Some r =>
          if negb (r_magic r =? REC_MAGIC) then Some (1, s)
          else
            let payload := to_u64 (r_rec_len r - REC_SIZE) in
            let pos := pos + REC_SIZE in
            if to_s64 (r_seq r) <? from_seq then
              if pos + to_s64 payload <? 0 then Some (1, s) else cdp_apply_loop fuel' f (pos + to_s64 payload) s
            else if match as_expect s with Some e => negb (r_seq r =? e) | None => false end then Some (1, s)
            else if negb (Z.land (r_flags r) F_GAP_BEFORE =? 0) && negb (to_s64 (r_seq r) =? from_seq) then Some (3, s)
            else if negb (Z.land (r_flags r) F_ERROR =? 0) then Some (1, s)
            else
              let s := set_expect (to_u64 (r_seq r + 1)) s in
              match read_payload f pos payload with
              | None => Some (1, s)
              | Some buf =>
                  '(ok, s) ← apply_record r buf s;
                  if negb ok then Some (1, s)
                  else if (0 <=? stop_seq) && (stop_seq <=? to_s64 (r_seq r)) then Some (0, s)
                  else cdp_apply_loop fuel' f (pos + payload) s
              end
      end
  end.
End CdpApply.

(** *** What the tool does to the records of a stream *)

(** The exit code, and the records that are applied. *)
Fixpoint replayed (from_seq stop_seq : Z) (expect : option Z) (items : list (rec * bytes)) : Z * list (rec * bytes) :=
  match items with
  | [] => (0, [])
  | it :: items' =>
      let r := it.1 in
      if r_seq r <? from_seq then replayed from_seq stop_seq expect items'
      else if match expect with Some e => negb (r_seq r =? e) | None => false end then (1, [])
      else if negb (Z.land (r_flags r) F_GAP_BEFORE =? 0) && negb (r_seq r =? from_seq) then (3, [])
      else if negb (Z.land (r_flags r) F_ERROR =? 0) then (1, [])
      else if (0 <=? stop_seq) && (stop_seq <=? r_seq r) then (0, [it])
      else let '(rc, l) := replayed from_seq stop_seq (Some (r_seq r + 1)) items' in (rc, it :: l)
  end.

(** The kernel writes something at every call. *)
Definition generous (answers : list pwrite_answer) : Prop :=
  Forall (fun a => match a with PwWrote n => 1 <= n | PwEintr => True | PwFailed => False end) answers.

(** The answers that write. *)
Definition writes (answers : list pwrite_answer) : Z :=
  blen (List.filter (fun a => match a with PwWrote _ => true | _ => false end) answers).

Lemma writes_cons a answers : writes (a :: answers) = (match a with PwWrote _ => 1 | _ => 0 end) + writes answers.
Proof. unfold writes. cbn [List.filter]. destruct a; rewrite ?blen_cons; lia. Qed.

(** Enough answers, however short the writes: everything is written. *)
Lemma write_all_spec answers : forall buf off img,
  generous answers -> blen buf <= writes answers -> 0 <= off ->
  exists img' used rest, write_all answers buf off img = Some (true, img', rest) /\ img' ≡ img_write img off buf /\
    answers = used ++ rest /\ writes used <= blen buf.
Proof.
  induction answers as [|a answers IH]; intros buf off img G H H0.
  - destruct buf as [|x buf]; [|rewrite blen_cons in H; pose proof (blen_nonneg buf); change (writes []) with 0 in H; lia].
    exists img, [], []. cbn. split; [done|]. split; [|done]. symmetry. apply img_write_nil.
  - destruct buf as [|x buf].
    { exists img, [], (a :: answers). cbn. split; [done|]. split; [|done]. symmetry. apply img_write_nil. }
    apply Forall_cons in G as [Ga G]. rewrite writes_cons in H. assert ((off <? 0) = false) as Eo by by apply Z.ltb_ge.
    destruct a as [n| |]; cbn [write_all]; rewrite ?Eo; [|..].
    + set (b := x :: buf) in *.
      assert (blen (b.[n : ]) = Z.max 0 (blen b - n)) as Hl by (apply blen_slice_from; lia).
      assert (1 <= blen b) by (unfold b; rewrite blen_cons; pose proof (blen_nonneg buf); lia).
      destruct (IH (b.[n : ]) (off + n) (img_write img off (b.[0 : n])) G) as (img' & used & rest & E & Hi & -> & Hu); [lia..|].
      exists img', (PwWrote n :: used), rest. split; [exact E|]. split; [|split; [done|rewrite writes_cons; lia]].
      intros i. rewrite (Hi i). destruct (decide (n <= blen b)) as [L|L].
      * assert (b = b.[0 : n] ++ b.[n : ]) as Eb by (rewrite <-(slice_from_0 b) at 1; apply slice_split; lia).
        assert (blen (b.[0 : n]) = n) as Hn by (rewrite blen_slice; lia).
        rewrite Eb at 3. rewrite img_write_app, Hn. done.
      * assert (b.[n : ] = []) as -> by (apply nil_length_inv; unfold blen in *; lia).
        rewrite (img_write_nil _ _ i). by rewrite slice_all by lia.
    + destruct (IH (x :: buf) off img G) as (img' & used & rest & E & Hi & -> & Hu); [lia..|].
      exists img', (PwEintr :: used), rest. split; [exact E|]. split; [done|]. split; [done|]. rewrite writes_cons. lia.
    + done.
Qed.

Lemma frame_header pre b post r : frame b r -> read_header (pre ++ b ++ post) (blen pre) = Some r /\ r_magic r = REC_MAGIC.
Proof.
  intros F. pose proof (frame_size _ _ F) as Hs. pose proof (frame_init _ _ F) as E.
  unfold Rec_init, struct_unpack_from in E. rewrite fmt_widths_REC, slice_from_0 in E.
  change (Z.of_nat (sum_widths _)) with REC_SIZE in E. rewrite (proj2 (Z.leb_le _ _)), res_bind_Ok in E by lia.
  unfold read_header. pose proof (blen_nonneg post). rewrite (proj2 (Z.ltb_ge _ _)) by (rewrite !blen_app; lia).
  rewrite slice_from_blen, unpack_widths_app by (change (sum_widths rec_widths) with 56%nat; rewrite REC_SIZE_56 in Hs; unfold blen in Hs; lia).
  unfold rec_widths. destruct (rec_of_fields _) as [r'|]; [|done].
  destruct (Z.eqb_spec (r_magic r') REC_MAGIC); [|done]. by injection E as ->.
Qed.

(** The payload of a frame, as [main] reads it. *)
Definition frame_buf (b : bytes) (r : rec) : option bytes := if r_rec_len r =? REC_SIZE then None else Some (b.[REC_SIZE : ]).

Lemma frame_read malloc pre b post r :
  (forall n, malloc n = true) -> frame b r ->
  read_payload malloc (pre ++ b ++ post) (blen pre + REC_SIZE) (r_rec_len r - REC_SIZE) = Some (frame_buf b r).
Proof.
  intros Hm F. pose proof (frame_size _ _ F). pose proof (frame_len _ _ F) as Hl. pose proof (blen_nonneg post). pose proof (blen_nonneg pre).
  unfold read_payload, frame_buf. rewrite Hm. cbn [andb].
  destruct (Z.eqb_spec (r_rec_len r) REC_SIZE) as [E|E].
  - by rewrite E, Z.sub_diag.
  - rewrite (proj2 (Z.eqb_neq _ 0)) by lia. rewrite (proj2 (Z.leb_le _ _)) by (rewrite !blen_app; lia). do 2 f_equal.
    rewrite REC_SIZE_56 in *. rewrite slice_app_r by lia. rewrite slice_app_l by lia.
    rewrite Hl. replace (blen pre + 56 - blen pre) with 56 by lia. replace (blen pre + 56 + (blen b - 56) - blen pre) with (blen b) by lia.
    rewrite <-(slice_all (b.[56 : ]) (blen b - 56)) by (rewrite blen_slice_from; lia). rewrite slice_slice_from by lia. f_equal; lia.
Qed.

Lemma generous_app a1 a2 : generous (a1 ++ a2) -> generous a2.
Proof. intros H. by apply Forall_app in H as [_ H]. Qed.

Lemma writes_app a1 a2 : writes (a1 ++ a2) = writes a1 + writes a2.
Proof. unfold writes. by rewrite List.filter_app, blen_app. Qed.

Lemma to_s64_small x : 0 <= x < 2 ^ 63 -> to_s64 x = x.
Proof. intros H. unfold to_s64. by rewrite (proj2 (Z.ltb_lt _ _)) by lia. Qed.

Lemma off_of_small sector : 0 <= sector < 2 ^ 54 -> off_of sector = sector * 512.
Proof. intros H. unfold off_of. rewrite (to_s64_small sector) by lia. unfold to_u64. rewrite Z.mod_small by lia. apply to_s64_small. lia. Qed.

(** A record that [cdp-apply] can apply: the end of a disk of 8 EiB is as far
    as an [off_t] goes. *)
Definition applicable (it : rec * bytes) : Prop :=
  0 <= r_seq it.1 < 2 ^ 63 - 1 /\ (r_type it.1 <> REC_WRITE -> r_type it.1 <> REC_FLUSH -> 0 < r_len it.1) /\
  (r_type it.1 <> REC_FLUSH -> r_sector it.1 < 2 ^ 54).

Lemma apply_record_spec calloc heap b r s :
  (forall n, calloc n = true) -> frame b r -> applicable (r, []) -> generous (as_answers s) -> r_len r <= writes (as_answers s) ->
  exists s', apply_record calloc heap r (frame_buf b r) s = Some (true, s') /\
    as_img s' ≡ apply_img (as_img s) (frame_item (b, r)) /\ as_expect s' = as_expect s /\
    generous (as_answers s') /\ writes (as_answers s) - r_len r <= writes (as_answers s').
Proof.
  intros Hc F (_ & Hz & Hsec) G Hw. pose proof (frame_size _ _ F). pose proof (frame_len _ _ F) as Hl.
  destruct (Rec_init_range _ _ _ (frame_init _ _ F)) as (_ & _ & _ & [Hs0 _] & [Hlen _] & _). cbn [fst] in Hz, Hsec.
  assert (r_type r <> REC_FLUSH -> off_of (r_sector r) = r_sector r * 512) as Eoff.
  { intros Hf. apply off_of_small. split; [done|by apply Hsec]. }
  assert (forall data, blen data = r_len r -> exists img' rest,
      write_all (as_answers s) data (r_sector r * 512) (as_img s) = Some (true, img', rest) /\
      img' ≡ img_write (as_img s) (r_sector r * 512) data /\ generous rest /\ writes (as_answers s) - r_len r <= writes rest) as HW.
  { intros data Hd. destruct (write_all_spec (as_answers s) data (r_sector r * 512) (as_img s) G) as (img' & used & rest & E & Hi & Ea & Hu); [lia..|].
    exists img', rest. split; [exact E|]. split; [exact Hi|]. rewrite Ea in G |- *. rewrite writes_app. split; [by eapply generous_app|lia]. }
  unfold apply_record, apply_img, frame_item. cbn [fst snd]. destruct (Z.eqb_spec (r_type r) REC_WRITE) as [Ew|Ew].
  - pose proof (frame_payload _ _ F Ew) as Hp. unfold payload_len in Hp. unfold frame_buf, rec_payload. rewrite Ew. change (REC_WRITE =? REC_WRITE) with true.
    destruct (Z.eqb_spec (r_rec_len r) REC_SIZE) as [E|E].
    + rewrite (proj2 (Z.eqb_eq (r_len r) 0)) by lia. eexists. split; [done|]. cbn [as_img as_answers as_expect].
      split; [|split; [done|split; [done|lia]]]. rewrite slice_empty by lia. symmetry. apply img_write_nil.
    + assert (blen (b.[REC_SIZE : ]) = blen b - REC_SIZE) as Hb by (rewrite blen_slice_from; rewrite REC_SIZE_56 in *; lia).
      rewrite (proj2 (Z.leb_le _ _)) by lia.
      assert ((b.[REC_SIZE : ]).[0 : r_len r] = b.[0 + REC_SIZE : 0 + REC_SIZE + r_len r]) as Es.
      { pose proof REC_SIZE_56. rewrite slice_slice_from by lia. f_equal; lia. }
      rewrite Es, Eoff by by rewrite Ew. destruct (HW (b.[0 + REC_SIZE : 0 + REC_SIZE + r_len r])) as (img' & rest & -> & Hi & Hg & Hr).
      { rewrite <-Es. rewrite blen_slice by lia. lia. }
      eexists. split; [done|]. by cbn [as_img as_answers as_expect].
  - rewrite (orb_comm (r_type r =? REC_DISCARD)). destruct (_ || _) eqn:Ez.
    2: { eexists. split; [done|]. split; [done|]. split; [done|]. split; [done|lia]. }
    assert (0 < r_len r) as Hpos by (apply Hz; [done|]; intros Ef; by rewrite Ef in Ez).
    rewrite Hc, Eoff by by (intros Ef; rewrite Ef in Ez). destruct (HW (replicate (Z.to_nat (r_len r)) x00)) as (img' & rest & -> & Hi & Hg & Hr); [rewrite blen_replicate; lia|].
    assert (img' ≡ img_zero (as_img s) (r_sector r * 512) (r_len r)) as Hi'.
    { intros i. rewrite (Hi i). apply img_write_replicate_zero. }
    destruct (Z.ltb_spec (default 0 (as_zero s)) (r_len r)) as [L|L].
    + eexists. split; [done|]. by cbn [as_img as_answers as_expect].
    + destruct (as_zero s) as [z|]; [|cbn in L; lia]. eexists. split; [done|]. by cbn [as_img as_answers as_expect].
Qed.

Definition total_payload (items : list (rec * bytes)) : Z := foldr (fun it n => r_len it.1 + n) 0 items.

Lemma read_header_end f pos : blen f < pos + REC_SIZE -> read_header f pos = None.
Proof. intros H. unfold read_header. by rewrite (proj2 (Z.ltb_lt _ _)). Qed.

Lemma cdp_apply_loop_spec from stop malloc calloc heap frames tail : forall pre s fuel,
  (forall n, malloc n = true) -> (forall n, calloc n = true) ->
  frames_ok frames -> Forall applicable (items_of frames) -> blen tail < REC_SIZE -> (length frames < fuel)%nat ->
  generous (as_answers s) -> total_payload (items_of frames) <= writes (as_answers s) ->
  exists s', cdp_apply_loop from stop malloc calloc heap fuel (pre ++ concat frames.*1 ++ tail) (blen pre) s =
      Some ((replayed from stop (as_expect s) (items_of frames)).1, s') /\
    as_img s' ≡ apply_all (as_img s) (replayed from stop (as_expect s) (items_of frames)).2.
Proof.
  intros pre s fuel Hm Hc HF HA HT. revert pre s fuel HA. induction HF as [|[b r] frames F HF IH]; intros pre s [|fuel] HA Hfu G Hw; try (cbn in Hfu; lia).
  - cbn [cdp_apply_loop fmap list_fmap concat app replayed fst snd]. rewrite read_header_end by (rewrite blen_app; lia). by exists s.
  - apply Forall_cons in HA as [Hap HA]. pose proof Hap as (Hseq & _). cbn [frame_item fst snd] in Hseq. pose proof (frame_len _ _ F) as Hl. pose proof (frame_size _ _ F).
    destruct (Rec_init_range _ _ _ (frame_init _ _ F)) as (_ & _ & _ & _ & [Hlen _] & [_ Hrl] & _).
    cbn [fmap list_fmap] in Hw |- *. change (total_payload _) with (r_len r + total_payload (items_of frames)) in Hw.
    assert (0 <= total_payload (items_of frames)) as Htp.
    { clear -HF. induction HF as [|[b' r'] fs F' _ IH']; [done|]. destruct (Rec_init_range _ _ _ (frame_init _ _ F')) as (_ & _ & _ & _ & [? _] & _).
      change (0 <= r_len r' + total_payload (items_of fs)). lia. }
    assert (length frames < fuel)%nat as Hfu' by (cbn in Hfu; lia).
    assert (total_payload (items_of frames) <= writes (as_answers s)) as Hw' by lia.
    cbn [fst concat]. rewrite <-(app_assoc b). cbn [cdp_apply_loop].
    destruct (frame_header pre b (concat frames.*1 ++ tail) r F) as [-> ->]. rewrite Z.eqb_refl. cbn [negb].
    pose proof REC_SIZE_56.
    assert (to_u64 (r_rec_len r - REC_SIZE) = r_rec_len r - REC_SIZE) as -> by (unfold to_u64; apply Z.mod_small; lia).
    rewrite !to_s64_small by lia. cbn [replayed frame_item fst snd].
    assert (blen pre + REC_SIZE + (r_rec_len r - REC_SIZE) = blen (pre ++ b)) as Epos by (rewrite blen_app; lia).
    rewrite (app_assoc pre b).
    destruct (Z.ltb_spec (r_seq r) from) as [Lf|Lf].
    { rewrite Epos. pose proof (blen_nonneg (pre ++ b)). rewrite (proj2 (Z.ltb_ge _ _)) by lia. by apply IH. }
    destruct (match as_expect s with Some e => negb (r_seq r =? e) | None => false end); [by exists s|].
    destruct (negb (Z.land (r_flags r) F_GAP_BEFORE =? 0) && _); [by exists s|].
    destruct (negb (Z.land (r_flags r) F_ERROR =? 0)); [by exists s|].
    rewrite <-(app_assoc pre b), (frame_read malloc pre b _ r Hm F).
    destruct (apply_record_spec calloc heap b r (set_expect (to_u64 (r_seq r + 1)) s) Hc F) as (s1 & E1 & Hi & He & G1 & Hw1);
      [done|done|cbn [set_expect as_answers]; lia|].
    cbn [set_expect as_answers as_img as_expect] in *. rewrite E1. cbn [mbind option_bind negb].
    destruct ((0 <=? stop) && _); [by exists s1|].
    rewrite Epos, (app_assoc pre b).
    destruct (IH (pre ++ b) s1 fuel HA Hfu' G1 ltac:(lia)) as (s' & E' & Hi').
    assert (to_u64 (r_seq r + 1) = r_seq r + 1) as Eu by (unfold to_u64; apply Z.mod_small; lia). rewrite Eu in He.
    rewrite He in E', Hi'. destruct (replayed from stop (Some (r_seq r + 1)) (items_of frames)) as [rc l]. cbn [fst snd] in *.
    exists s'. split; [exact E'|]. rewrite apply_all_cons, Hi'. by apply apply_all_proper.
Qed.

(** [cdp-apply [-f from] [-s stop] stream target]; without the options both are
    -1.  Every round but the last reads a header, so that the length of the
    stream is enough fuel. *)
Definition cdp_apply (from stop : Z) (malloc calloc : Z -> bool) (heap : bytes -> Z -> bytes)
    (answers : list pwrite_answer) (f : bytes) (img : image) : option (Z * apply_state) :=
  cdp_apply_loop from stop malloc calloc heap (S (length f)) f 0 (mk_apply_state img 0 0 None None answers).

Lemma cdp_apply_any_tail from stop malloc calloc heap answers frames tail img :
  (forall n, malloc n = true) -> (forall n, calloc n = true) ->
  frames_ok frames -> Forall applicable (items_of frames) -> blen tail < REC_SIZE ->
  generous answers -> total_payload (items_of frames) <= writes answers ->
  exists s', cdp_apply from stop malloc calloc heap answers (concat frames.*1 ++ tail) img =
      Some ((replayed from stop None (items_of frames)).1, s') /\
    as_img s' ≡ apply_all img (replayed from stop None (items_of frames)).2.
Proof.
  intros Hm Hc HF HA HT G Hw. unfold cdp_apply.
  apply (cdp_apply_loop_spec from stop malloc calloc heap frames tail [] (mk_apply_state img 0 0 None None answers)); try done.
  pose proof (concat_frames_length frames HF). rewrite length_app. lia.
Qed.


(** A stream that ends inside a header is taken for a whole one.  Where the
    replay gets to the cut, the exit code is 0, and not the 1 that the tool
    announces for a broken stream: a script cannot see that records are
    missing. *)
Theorem cdp_apply_cut_header malloc calloc heap answers frames cut img :
  (forall n, malloc n = true) -> (forall n, calloc n = true) ->
  frames_ok frames -> Forall applicable (items_of frames) -> 0 < blen cut < REC_SIZE ->
  generous answers -> total_payload (items_of frames) <= writes answers ->
  (replayed (-1) (-1) None (items_of frames)).1 = 0 ->
  exists s', cdp_apply (-1) (-1) malloc calloc heap answers (concat frames.*1 ++ cut) img = Some (0, s').
Proof.
  intros Hm Hc HF HA HT G Hw E.
  destruct (cdp_apply_any_tail (-1) (-1) malloc calloc heap answers frames cut img Hm Hc HF HA (proj2 HT) G Hw) as (s' & E' & _).
  exists s'. by rewrite E', E.
Qed.

(** *** On the stream of the driver *)

(** A stream without gaps, errors and holes is replayed whole. *)
Lemma replayed_clean items : forall n expect,
  (fun it : rec * bytes => r_seq it.1) <$> items = seqZ n (blen items) -> 0 <= n -> (expect = None \/ expect = Some n) ->
  Forall (fun it : rec * bytes => Z.land (r_flags it.1) F_GAP_BEFORE = 0 /\ Z.land (r_flags it.1) F_ERROR = 0) items ->
  replayed (-1) (-1) expect items = (0, items).
Proof.
  induction items as [|it items IH]; intros n expect Hs Hn He HF; [done|]. pose proof (blen_nonneg items).
  rewrite blen_cons, seqZ_cons in Hs by lia. injection Hs as Hseq Hs. apply Forall_cons in HF as [[Hg Hr] HF].
  cbn [replayed]. rewrite Hseq, Hg, Hr. rewrite (proj2 (Z.ltb_ge _ _)) by lia.
  assert (match expect with Some e => negb (n =? e) | None => false end = false) as ->.
  { destruct He as [->| ->]; [done|]. by rewrite Z.eqb_refl. }
  cbn [negb andb Z.eqb]. change (0 <=? -1) with false. cbn [andb].
  rewrite (IH (n + 1)); [done| |lia|by right|done]. etrans; [exact Hs|]. f_equal; lia.
Qed.

Lemma no_error_flag f : Z.testbit f 2 = false -> Z.land f F_ERROR = 0.
Proof.
  intros H. apply Z.bits_inj'. intros n Hn. rewrite Z.land_spec, Z.bits_0. change F_ERROR with (2 ^ 2).
  destruct (Z.eq_dec n 2) as [->|Hne]; [by rewrite H|]. rewrite Z.pow2_bits_false by lia. apply andb_false_r.
Qed.

Lemma quiet_clean disk0 begin len w D :
  world_inv w D [] -> disk_inv disk0 begin len w -> quiet w ->
  Forall (fun it : rec * bytes => Z.land (r_flags it.1) F_GAP_BEFORE = 0 /\ Z.land (r_flags it.1) F_ERROR = 0) (items_of (slot_frames D)).
Proof.
  intros I DI Q. pose proof (wi_subs _ _ _ I) as S. rewrite app_nil_r in S.
  pose proof (gap_marks_clean _ (qu_logged _ Q)) as C. destruct (wi_gaps _ _ _ I) as [G _]. rewrite <-G, app_nil_r, Forall_fmap in C.
  unfold slot_frames. rewrite <-list_fmap_compose. apply Forall_fmap, Forall_forall. intros s Hs. cbn [compose frame_item fst snd].
  destruct (proj1 (list_elem_of_lookup _ _) Hs) as [i Hi]. destruct (Forall2_lookup_l _ _ _ _ _ S Hi) as (sb & Hsb & Ssb).
  split; [apply no_gap_flag; symmetry; exact (proj1 (Forall_forall _ _) C s Hs)|]. apply no_error_flag.
  rewrite (ss_error _ _ _ Ssb). apply bool_decide_eq_false_2.
  apply list_elem_of_lookup_2 in Hsb. unfold logged in Hsb. apply list_elem_of_filter in Hsb as [_ Hsb].
  exact (proj1 (Forall_forall _ _) (di_ok _ _ _ _ DI) sb Hsb).
Qed.

(** The tools restore the disk.  The records that [cdp-drain] read from a
    quiet target, replayed by [cdp-apply] on a copy of the first content,
    give the present content of the disk, and the exit code is 0. *)
Theorem cdp_apply_restores_disk device malloc calloc heap answers begin len offset ring_mb chunk_kb minor mem disk0 w :
  (forall t b disk, valid_bio t b -> device t b false disk ≡ bio_effect t b disk) ->
  (forall n, malloc n = true) -> (forall n, calloc n = true) -> ctr_params begin len ring_mb chunk_kb ->
  len <= 2 ^ 54 ->
  reaches device calm (fresh begin len offset ring_mb chunk_kb minor mem disk0) w -> quiet w -> ring_young (tg_ring (w_target w)) ->
  generous answers -> total_payload (iter_records (concat (w_reads w))).1 <= writes answers ->
  exists s', cdp_apply (-1) (-1) malloc calloc heap answers (concat (w_reads w)) disk0 = Some (0, s') /\ as_img s' ≡ w_disk w.
Proof.
  intros Hdev Hm Hc P Hlen R Q Y G Hw. destruct (reached_inv _ _ _ _ _ _ _ _ _ _ _ P calm_ok R) as (D & q & I).
  pose proof (reaches_disk device Hdev _ _ _ _ _ _ _ _ _ R) as DI.
  destruct (quiet_stream disk0 begin len w D q I DI Q) as [-> E].
  pose proof (wi_subs _ _ _ I) as S. rewrite app_nil_r in S. pose proof (sub_slots_wf _ _ _ S) as W.
  rewrite (wi_reads _ _ _ I) in *. rewrite (stream_items D W) in Hw. cbn [fst] in Hw.
  destruct (wi_seqs _ _ _ I) as [Hq Hn]. rewrite app_nil_r in Hq, Hn.
  assert ((fun it : rec * bytes => r_seq it.1) <$> items_of (slot_frames D) = seqZ 0 (blen (items_of (slot_frames D)))) as Hseq.
  { assert (blen (items_of (slot_frames D)) = blen D) as -> by (unfold blen, slot_frames; by rewrite !length_fmap).
    rewrite <-Hq. unfold slot_frames, seqs. by rewrite <-!list_fmap_compose. }
  pose proof (replayed_clean _ 0 None Hseq ltac:(lia) ltac:(by left) (quiet_clean _ _ _ _ _ I DI Q)) as Er.
  assert (Forall applicable (items_of (slot_frames D))) as HA.
  { apply Forall_forall. intros it Hit. destruct (proj1 (list_elem_of_lookup _ _) Hit) as [i Hi].
    destruct (items_of_subs _ _ _ 0 S (wi_done _ _ _ I) Hq i it Hi) as (sb & Hsb & Hitem).
    pose proof (lookup_lt_Some _ _ _ Hi) as Hlt. unfold slot_frames in Hlt. rewrite !length_fmap in Hlt.
    destruct (ri_seq_bound _ _ (wi_ring _ _ _ I)) as [_ Hb]. unfold ring_young in Y. pose proof (ri_size _ _ (wi_ring _ _ _ I)) as [Hsz _].
    destruct (Forall2_lookup_r _ _ _ _ _ S Hsb) as (s & _ & Ss). pose proof (di_place _ _ _ _ DI) as [_ El].
    split; [rewrite (is_seq _ _ _ _ Hitem); unfold blen in Hn; lia|]. rewrite (is_type _ _ _ _ Hitem), (is_len _ _ _ _ Hitem), (is_sector _ _ _ _ Hitem).
    assert (bio_type (sb_bio sb) <> REC_FLUSH -> 0 < bi_size (sb_bio sb)) as Hsome.
    { intros Hf. apply (vb_some _ _ (ss_valid _ _ _ Ss)); [|done].
      pose proof (wf_type _ (ss_wf _ _ _ Ss)) as Ht. rewrite (ss_type _ _ _ Ss) in Ht. unfold logs, bio_type in *.
      destruct (bi_op (sb_bio sb)); try done; [by destruct (_ =? 0)|lia]. }
    split; [by intros _ Hf; apply Hsome|]. intros Hf. specialize (Hsome Hf).
    destruct (valid_rel _ _ (wi_target _ _ _ I) (ss_valid _ _ _ Ss) Hf) as (_ & H1 & H2).
    destruct (vb_size _ _ (ss_valid _ _ _ Ss)) as [_ Hmod]. pose proof (Z.div_mod (bi_size (sb_bio sb)) 512). lia. }
  pose proof (concat_frames_length _ (slot_frames_ok D W)) as Hl.
  destruct (cdp_apply_loop_spec (-1) (-1) malloc calloc heap (slot_frames D) [] [] (mk_apply_state disk0 0 0 None None answers)
    (Datatypes.S (length (concat (slot_frames D).*1))) Hm Hc (slot_frames_ok D W) HA) as (s' & Es & Hi); [done|lia|done|done|].
  rewrite app_nil_l, app_nil_r, slot_frames_stream in Es. cbn [as_expect as_img] in Es, Hi. rewrite Er in Es, Hi. cbn [fst snd] in Es, Hi.
  exists s'. split; [exact Es|]. by rewrite Hi, E.
Qed.

(** ** Concrete runs *)

Lemma do_bitmap_extents_witness :
  bitmap_extents (bitmap_bytes_of (tg_bitmap demo_target)) 128 8 = Ok [(0, 128); (256, 128)] /\
  (do_bitmap (tg_bitmap demo_target) 128 8).2 = 2.
Proof.
  destruct (do_bitmap_extents demo_target demo_target_ok) as [E1 E2]; [reflexivity|].
  split; [exact E1|exact E2].
Defined.


Lemma cdp_apply_cut_header_witness :
  exists s', cdp_apply (-1) (-1) (fun _ => true) (fun _ => true) (fun _ _ => []) [PwWrote 2; PwWrote 2]
      (concat [demo_frame REC_WRITE 0 5 0 2 [Byte.x41; Byte.x42]].*1 ++ [Byte.x01]) zero_image = Some (0, s').
Proof.
  apply (cdp_apply_cut_header (fun _ => true) (fun _ => true) (fun _ _ => []) [PwWrote 2; PwWrote 2]
    [demo_frame REC_WRITE 0 5 0 2 [Byte.x41; Byte.x42]] [Byte.x01] zero_image).
  - done.
  - done.
  - repeat constructor; vm_compute; congruence.
  - repeat constructor; vm_compute; congruence.
  - rewrite REC_SIZE_56. vm_compute. split; congruence.
  - repeat constructor; discriminate.
  - vm_compute. discriminate.
  - reflexivity.
Defined.

Lemma cdp_apply_restores_disk_witness :
  let w := run demo_device demo_fresh demo_events in
  exists s', cdp_apply (-1) (-1) (fun _ => true) (fun _ => true) (fun _ _ => []) (replicate 1600 (PwWrote 100)) (concat (w_reads w)) zero_image
      = Some (0, s') /\ as_img s' ≡ w_disk w.
Proof.
  intros w. apply (cdp_apply_restores_disk demo_device (fun _ => true) (fun _ => true) (fun _ _ => []) (replicate 1600 (PwWrote 100))
    0 2048 4096 1 64 0 zero_image zero_image w).
  - apply demo_works.
  - reflexivity.
  - reflexivity.
  - apply demo_params.
  - lia.
  - apply demo_calm.
  - apply demo_quiet.
  - vm_compute. reflexivity.
  - apply Forall_replicate. discriminate.
  - vm_compute. discriminate.
Defined.
