(* ===== verification/DriverLife.v ===== *)
(** * The constructor and the end of a target

    What [cdp_ctr] releases when one of its calls fails, the parameters it
    accepts, and the references that keep the context of a removed target
    alive. *)
From S2P Require Import Prelude PyString Dmcdp Files Driver Ring DirtyMap.

(** The constructor acquires everything or keeps nothing: when one of its
    calls fails, the statements from the label it jumps to release exactly
    what was acquired before, each thing once, the last one first. *)
Theorem cdp_ctr_all_or_nothing fails :
  let '(ok, acquired, released) := ctr_run fails ctr_calls [] in
  if ok then acquired = [RDevNode; RCdev; RMinor; RBitmap; RRing; RDevice; RContext] /\ released = []
  else released = acquired /\ NoDup released.
Proof.
  unfold ctr_calls. cbn [ctr_run app].
  repeat match goal with |- context [fails ?c] => destruct (fails c) end; cbn [cleanup]; try done;
    (split; [done|]; apply (bool_decide_unpack _); vm_compute; exact I).
Qed.

(** With [chunk_kb] = 2^31 KiB, a power of two that the checks of the
    constructor let pass, the number of sectors of a chunk wraps to 0, and the
    constructor divides by it. *)
Theorem ctr_accepts_chunk_zero begin len offset ring_mb minor mem :
  0 <= offset < 2 ^ 64 -> ring_mb <> 0 ->
  ctr_args_ok 2 (Some offset) ring_mb (2 ^ 31) = true /\
  tg_chunk_sectors (cdp_ctr_target begin len offset ring_mb (2 ^ 31) minor mem) = 0.
Proof.
  intros Ho Hr. split; [|reflexivity]. unfold ctr_args_ok.
  rewrite (proj2 (Z.leb_le 0 offset)), (proj2 (Z.ltb_lt offset _)), (proj2 (Z.eqb_neq ring_mb 0)) by lia. reflexivity.
Qed.

Lemma ctr_accepts_chunk_zero_witness :
  ctr_args_ok 2 (Some 0) 256 (2 ^ 31) = true /\ tg_chunk_sectors (cdp_ctr_target 0 1000 0 256 (2 ^ 31) 3 zero_image) = 0.
Proof. apply ctr_accepts_chunk_zero; [split; [discriminate|reflexivity]|discriminate]. Defined.

(** ** References *)

(** No open is between finding the [cdev] and [cdp_open] when the target goes
    away, and no status is asked for after that. *)
Fixpoint orderly (l : life) (es : list life_event) : Prop :=
  match es with
  | [] => True
  | e :: es' =>
      match e with
      | CdpDtr => lf_opening l = 0%nat
      | CdpUse true => lf_ti_freed l = false
      | _ => True
      end /\ orderly (life_step l e) es'
  end.

Record life_inv (l : life) : Prop := {
  li_refs : lf_refs l = ((if lf_dead l then 0 else 1) + lf_files l)%nat;
  li_freed : lf_freed l = true <-> lf_refs l = 0%nat;
  li_cdev : lf_cdev l = negb (lf_dead l);
  li_opening : lf_dead l = true -> lf_opening l = 0%nat;
  li_target : lf_ti_freed l = true -> lf_dead l = true;
  li_fault : lf_fault l = false;
}.

(** While something refers to the context it is not freed. *)
Lemma life_inv_alive l : life_inv l -> lf_freed l = false \/ lf_dead l = true /\ lf_files l = 0%nat.
Proof.
  intros [H1 H2 _ _ _ _]. destruct (lf_freed l); [right|by left]. destruct H2 as [H2 _]. specialize (H2 eq_refl).
  destruct (lf_dead l); [|lia]. split; [done|lia].
Qed.

Ltac life_cases := cbn; split; cbn; try done; try lia; try (split; try done; lia).

Lemma life_step_inv l e :
  life_inv l -> match e with CdpDtr => lf_opening l = 0%nat | CdpUse true => lf_ti_freed l = false | _ => True end ->
  life_inv (life_step l e).
Proof.
  intros I He. pose proof (life_inv_alive l I) as Hf. revert I He Hf.
  destruct l as [refs dead cdev opening files freed tifreed fault]. intros [H1 H2 H3 H4 H5 H6] He Hf. cbn in *. subst.
  destruct e as [| | |[]| |]; cbn.
  - destruct dead; life_cases.
  - unfold life_open. destruct opening as [|n]; [by split|]. destruct dead; [by specialize (H4 eq_refl)|].
    destruct Hf as [->|(? & _)]; [|done]. life_cases.
  - unfold life_release. destruct files as [|n]; [by split|]. destruct Hf as [->|(_ & ?)]; [|done]. unfold put_ref. cbn.
    destruct dead; cbn; [destruct n as [|n]|]; life_cases.
  - unfold life_call. cbn. destruct files as [|n]; [by split|]. destruct Hf as [->|(_ & ?)]; [|done]. subst. by split.
  - unfold life_call. cbn. destruct files as [|n]; [by split|]. destruct Hf as [->|(_ & ?)]; [|done]. by split.
  - unfold life_dtr. destruct dead; [by split|]. destruct Hf as [->|(? & _)]; [|done]. subst.
    unfold put_ref. cbn. destruct files as [|n]; life_cases.
  - destruct dead; by split.
Qed.

Lemma life_run_inv es : forall l, life_inv l -> orderly l es -> life_inv (life_run l es).
Proof.
  induction es as [|e es IH]; intros l I; [done|]. intros [He Hn]. cbn. apply IH; [by apply life_step_inv|done].
Qed.

(** C21: the context lives as long as someone uses it.  In a run in which no
    open races with the removal and no status is asked for on a file that is
    still open when device-mapper has freed the target, freed memory is never
    used, and the context is freed exactly when the target was removed and
    the last file was closed. *)
Theorem cdp_life_safe es :
  orderly life_init es ->
  let l := life_run life_init es in
  lf_fault l = false /\ (lf_freed l = true <-> lf_dead l = true /\ lf_files l = 0%nat).
Proof.
  intros H. pose proof (life_run_inv es life_init ltac:(split; try done; split; done) H) as I.
  split; [apply I|]. rewrite (li_freed _ I), (li_refs _ I). destruct (lf_dead _); split; intros; try split; lia || naive_solver lia.
Qed.

Lemma cdp_life_safe_witness :
  let l := life_run life_init [FindCdev; CdpOpen; CdpUse true; CdpDtr; DmFreeTarget; CdpUse false; CdpRelease] in
  lf_freed l = true /\ lf_fault l = false.
Proof.
  intros l. destruct (cdp_life_safe [FindCdev; CdpOpen; CdpUse true; CdpDtr; DmFreeTarget; CdpUse false; CdpRelease]) as [H1 H2]; [repeat split; done|].
  split; [|exact H1]. apply H2. split; reflexivity.
Defined.

(** An open that found the [cdev] before the removal reads the freed
    context. *)
Theorem open_after_free : lf_fault (life_run life_init [FindCdev; CdpDtr; CdpOpen]) = true.
Proof. reflexivity. Qed.

(** A status that is asked for on a file opened before the removal reads the
    freed [dm_target]: [cdp_ioctl] does not look at [dead]. *)
Theorem status_after_removal :
  lf_fault (life_run life_init [FindCdev; CdpOpen; CdpDtr; DmFreeTarget; CdpUse true]) = true.
Proof. reflexivity. Qed.
