(* ===== verification/DriverRecovery.v ===== *)
(** * The daemon's recovery on the bitmap of the driver

    The composition that answers an overflow: the daemon applies what it
    reads, reads and clears the bitmap of the driver and copies its extents
    from the disk.  The first theorem is what that achieves; the second is a
    run in which records that are in the ring at that moment undo it. *)
From S2P Require Import Prelude Dmcdp Files Seed Replica Apply CopyProtocol Consume Daemon CopyThreads Driver Ring DirtyMap DriverRuns DriverStream ChangeMap.

#[local] Arguments Z.pow : simpl never.

(** A target never moves on its disk. *)
Lemma step_len device w e : tg_len (w_target (step device w e)) = tg_len (w_target w).
Proof.
  destruct e as [b now|k|k error|copy_ok nonblock count|alloc copied cmd|]; cbn [step].
  - pose proof (map_static (w_target w) b now) as M. destruct (map_reserve _ _ _) as [[pb o] t']. apply M.
  - by destruct (w_subs w !! k) as [[b [off|] []]|].
  - destruct (w_subs w !! k) as [[b pb []]|]; try done. apply cdp_end_io_place.
  - unfold cdp_read. by destruct (cdp_read_loop _ _ _ _ _ _ _).
  - cbn [w_target]. by destruct (cdp_ioctl_target alloc copied cmd (w_target w)) as [->|[->| ->]].
  - done.
Qed.

Lemma reaches_len device guard w0 w : reaches device guard w0 w -> tg_len (w_target w) = tg_len (w_target w0).
Proof. induction 1 as [|w e _ IH _]; [done|]. by rewrite step_len. Qed.

(** The records that the reader got between two moments, and the daemon on
    them. *)
Lemma new_slots device guard w1 w2 D q1 s2 :
  (forall w e, guard w e -> ok_event w e) -> world_inv w1 D q1 -> reaches device guard w1 w2 ->
  exists T subs, Forall2 (sub_slot (w_target w2)) T subs /\ Forall (fun s => r_state (sl_rec s) = ST_COMMITTED) T /\
    concat (drop (length (w_reads w1)) (w_reads w2)) = stream T /\
    (q1 = [] -> w_subs w2 = w_subs w1 ++ s2 -> forall sb, sb ∈ subs -> sb ∈ s2).
Proof.
  intros Hg I1 R. destruct (reaches_grows device guard w1 w2 D q1 Hg I1 R) as (T & q & news & I2 & E & Ec).
  pose proof (wi_subs _ _ _ I1) as S1. pose proof (wi_subs _ _ _ I2) as S2. rewrite <-app_assoc in S2.
  apply Forall2_app_inv_l in S2 as (subsD & l & SD & S2 & El). apply Forall2_app_inv_l in S2 as (subs & rest & ST & _ & El2).
  exists T, subs. split; [done|]. split; [by destruct (proj1 (Forall_app _ _ _) (wi_done _ _ _ I2))|].
  split; [by rewrite E, drop_app_length|]. intros -> Es sb Hsb. rewrite app_nil_r in S1.
  rewrite Es, logged_app in El. apply app_inj_1 in El as [_ El]; [|by rewrite <-(Forall2_length _ _ _ SD), <-(Forall2_length _ _ _ S1)].
  assert (sb ∈ logged s2) as H by (rewrite El, El2; apply elem_of_app; by left). by apply list_elem_of_filter in H as [_ H].
Qed.

Lemma consume_driver device guard libc_fallocate w1 w2 D q S0 s :
  (forall w e, guard w e -> ok_event w e) -> world_inv w1 D q -> reaches device guard w1 w2 ->
  feed_ok S0 (tg_len (w_target w2) * 512) s -> rebuild_lock s = false ->
  let news := drop (length (w_reads w1)) (w_reads w2) in
  let items := (iter_records (concat news)).1 in
  exists a', consume_reads libc_fallocate [] news s = (Ok [], set_app a' (scan_gaps items s)) /\
    feed_ok S0 (tg_len (w_target w2) * 512) (set_app a' (scan_gaps items s)) /\ img_of a' ≡ apply_all (img_of (fd_app s)) items.
Proof.
  intros Hg I R F Hl news items. destruct (new_slots device guard w1 w2 D q [] Hg I R) as (T & subs & ST & HC & Ec & _).
  destruct (reaches_inv device guard w1 w2 Hg ltac:(by exists D, q) R) as (D2 & q2 & I2).
  unfold items, news. rewrite Ec, (stream_items T) by (by eapply sub_slots_wf). apply (consume_slots libc_fallocate S0 w2 T subs); try done. apply I2.
Qed.

Lemma slots_untouched t T subs img x :
  Forall2 (fun s sb => sub_slot t s sb /\ sb_phase sb <> Reserved) T subs ->
  (forall sb, sb ∈ subs -> ~ touches (bio_item t (sb_bio sb)) x) -> apply_all img (items_of (slot_frames T)) x = img x.
Proof.
  intros H Hn. assert (apply_all img (items_of (slot_frames T)) ≡ apply_all img ((fun sb => bio_item t (sb_bio sb)) <$> subs)) as ->.
  { apply apply_all_same. unfold slot_frames. rewrite <-list_fmap_compose. apply Forall2_fmap. eapply Forall2_impl; [exact H|].
    intros s sb [Hs Hp] im. by rewrite <-(slot_item_effect _ s). }
  apply apply_all_untouched. unfold touched. rewrite Exists_fmap, Exists_exists. intros (sb & Hin & Ht). by apply (Hn sb).
Qed.

Section Recovery.
(** The device changes no byte outside the request, whether it fails or not. *)
Variable device : cdp_target -> bio -> bool -> image -> image.
Hypothesis device_local : forall t b error disk i, ~ touches (bio_item t b) i -> device t b error disk i = disk i.
Variable libc_fallocate : file -> Z -> Z -> fallocate_result.
Variable chunk : Z.
Hypothesis chunk_pos : 0 < chunk.
(** No signal comes. *)
Variable stop : nat -> bool.
Hypothesis Hrun : forall i, stop i = false.

(** C2: an overflow is repaired.  From a moment at which the replica is the
    disk, no request is in flight and the ring is empty, however many requests
    are dropped, fail or overlap afterwards: once the daemon has applied what
    it read, reading and clearing the bitmap of the driver and copying its
    extents makes the replica the disk again, on stable storage. *)
Theorem overflow_recovered begin len offset ring_mb chunk_kb minor mem disk0 w1 w2 S0 d now gap :
  ctr_params begin len ring_mb chunk_kb ->
  reaches device ok_event (fresh begin len offset ring_mb chunk_kb minor mem disk0) w1 ->
  Forall (fun sb => is_done (sb_phase sb) = true) (w_subs w1) -> rg_tail (tg_ring (w_target w1)) = rg_head (tg_ring (w_target w1)) ->
  reaches device tracking w1 w2 -> status_fits (w_target w2) ->
  daemon_ok S0 d -> d_size d = len * 512 -> copying (d_app d) = None -> rebuild_lock (d_feed d) = false ->
  (forall x, 0 <= x < len * 512 -> img_of (d_app d) x = w_disk w1 x) ->
  exists d', (on_feed (consume_reads libc_fallocate [] (drop (length (w_reads w1)) (w_reads w2)));;
              rc ← start_recovery (fd_of true true (w_target w2)) now gap;
              recover libc_fallocate (w_disk w2) (len * 512) chunk stop rc) d = (Ok tt, d') /\
    d_recovery_json d' = None /\ forall x, 0 <= x < len * 512 -> d_durable d' x = w_disk w2 x.
Proof.
  intros P R1 Hd Hemp R2 F Hok Hsz Hcp Hlock H0.
  destruct (reached_inv _ _ _ _ _ _ _ _ _ _ _ P (fun _ _ H => H) R1) as (D & q & I).
  assert (q = []) as -> by (eapply (layout_empty _ _ _ (rg_tail (tg_ring (w_target w1)))); rewrite Hemp at 2; apply (wi_ring _ _ _ I)).
  pose proof (reaches_tracked device device_local w1 w2 (wi_target _ _ _ I) Hd R2) as [K (s2 & Es & _ & Hm) HD].
  assert (tg_len (w_target w2) = len) as El.
  { by rewrite (reaches_len _ _ _ _ R2), (reaches_len _ _ _ _ R1). }
  destruct (new_slots device tracking w1 w2 D [] s2 (fun _ _ H => proj1 H) I R2) as (T & subs & ST & HC & Ec & Hsub). specialize (Hsub eq_refl Es).
  destruct (consume_slots libc_fallocate S0 w2 T subs _ (d_feed d) K ST HC Ec) as (a' & E1 & [Fr Fc] & Himg); [|done|].
  { split; [rewrite El, <-Hsz; exact Hok|exact Hcp]. }
  rewrite (sm_bind_Ok _ _ _ _ _ (on_feed_Ok _ _ _ _ E1)).
  pose proof (bitmap_size _ K). pose proof (to_chunk _ K). pose proof (nbits_bounds _ K).
  destruct (recovery_result libc_fallocate (w_disk w2) (len * 512) chunk stop chunk_pos ltac:(intros i j _; by rewrite Hrun) S0 (fd_of true true (w_target w2))
    (bitmap_bytes_of (tg_bitmap (w_target w2))) (tg_chunk_sectors (w_target w2)) (tg_nbits (w_target w2)) now gap (set_feed (set_app a' (scan_gaps (items_of (slot_frames T)) (d_feed d))) d))
    as (d' & E & _ & _ & _ & _ & Hj & Hdur & Hx).
  { unfold daemon_ok. cbn. rewrite Hsz, <-El. exact Fr. }
  { done. }
  { done. }
  { by apply read_bitmap_of_driver. }
  { lia. }
  { rewrite blen_bitmap_bytes. lia. }
  exists d'. split; [exact E|]. split; [done|]. intros x Hr. rewrite Hdur. destruct (Hx x Hr) as [Hclean Hdirty].
  destruct (chunk_dirty _ x K) as [_ Eb]; [by rewrite El|]. rewrite Eb in Hclean, Hdirty.
  destruct (test_bit (chunk_of (w_target w2) x) (tg_bitmap (w_target w2))) eqn:Et; [by apply Hdirty|]. rewrite Hclean by done.
  cbn [set_feed d_app d_feed set_app fd_app]. rewrite (Himg x).
  rewrite (slots_untouched (w_target w2) T subs); [|by apply delivered_filled|].
  - rewrite H0 by done. destruct (decide (w_disk w2 x = w_disk w1 x)) as [->|Hne]; [done|]. destruct (HD x Hne). congruence.
  - intros sb Hsb Ht. destruct (proj1 (Forall_forall _ _) Hm sb (Hsub sb Hsb) x Ht). congruence.
Qed.
End Recovery.

(** ** Records behind the gap *)

Definition demo_small : bio := mk_bio OpWrite false false 1024 512 (replicate 512 Byte.x41).

(** A request is dropped, the next record announces it, and the daemon reads
    that record, all that is in the ring.  Before it comes to reading the bitmap there are a small write
    and a large one over it, which is dropped again. *)
Definition demo_backlog : list event :=
  [Submit demo_big 100; Complete 0 false; Submit demo_discard 101; Fill 1; Complete 1 false; demo_read;
   Submit demo_small 102; Fill 2; Complete 2 false; Submit demo_big 103; Complete 3 false].

Definition clear_bitmap : event := Ioctl true true (IocBitmap 8 true).

(** It reads on, and the next record announces the second gap. *)
Definition demo_backlog_rest : list event :=
  [demo_read; Submit demo_discard 104; Fill 4; Complete 4 false; demo_read].

Definition demo_node : daemon :=
  mk_daemon demo_empty_feed 1048576 (Some "b1"%string) demo_manifest (Some demo_manifest) None false None false false 0 false zero_image.

Definition recover_demo (w : world) (now gap : Z) : SM daemon unit :=
  rc ← start_recovery (fd_of true true (w_target w)) now gap;
  recover (fun _ _ _ => FaZero) (w_disk w) 1048576 4194304 (fun _ => false) rc.

Lemma recover_demo_result w now gap d :
  target_ok (w_target w) -> status_fits (w_target w) -> tg_len (w_target w) = 2048 -> daemon_ok zero_image d -> d_size d = 1048576 ->
  exists d', recover_demo w now gap d = (Ok tt, d') /\ daemon_ok zero_image d' /\ d_size d' = 1048576 /\
    d_feed d' = set_app (d_app d') (d_feed d) /\ (copying (d_app d) = None -> copying (d_app d') = None) /\
    forall x, 0 <= x < 1048576 -> test_bit (chunk_of (w_target w) x) (tg_bitmap (w_target w)) = false ->
      img_of (d_app d') x = img_of (d_app d) x.
Proof.
  intros K F El Hok Hs. pose proof (bitmap_size _ K). pose proof (to_chunk _ K). pose proof (nbits_bounds _ K).
  destruct (recovery_result (fun _ _ _ => FaZero) (w_disk w) 1048576 4194304 (fun _ => false) ltac:(lia) ltac:(done) zero_image (fd_of true true (w_target w))
    (bitmap_bytes_of (tg_bitmap (w_target w))) (tg_chunk_sectors (w_target w)) (tg_nbits (w_target w)) now gap d)
    as (d' & E & Hok' & Hs' & Hf & Hc & _ & _ & Hx); [done|done|done|by apply read_bitmap_of_driver|lia|rewrite blen_bitmap_bytes; lia|].
  exists d'. split_and!; try done. intros x Hr. destruct (Hx x Hr) as [Hclean _].
  destruct (chunk_dirty _ x K) as [_ Eb]; [by rewrite El|]. by rewrite <-Eb.
Qed.

(** Two recoveries, and the records that came between them. *)
Lemma two_recoveries w1 w2 w3 x v :
  reaches demo_device ok_event demo_fresh w1 -> reaches demo_device ok_event demo_fresh w2 -> reaches demo_device ok_event w2 w3 ->
  status_fits (w_target w1) -> status_fits (w_target w3) -> 0 <= x < 1048576 ->
  test_bit (chunk_of (w_target w3) x) (tg_bitmap (w_target w3)) = false ->
  let items1 := (iter_records (concat (w_reads w1))).1 in
  let items3 := (iter_records (concat (drop (length (w_reads w2)) (w_reads w3)))).1 in
  (forall im, apply_all im items3 x = v) ->
  exists d' a1 a2, (on_feed (consume_reads (fun _ _ _ => FaZero) [] (w_reads w1));; recover_demo w1 70 0;;
        on_feed (consume_reads (fun _ _ _ => FaZero) [] (drop (length (w_reads w2)) (w_reads w3)));; recover_demo w3 71 2) demo_node = (Ok tt, d') /\
    recovery_queue (d_feed d') = recovery_queue (scan_gaps items3 (set_app a2 (set_app a1 (scan_gaps items1 (d_feed demo_node))))) /\
    img_of (d_app d') x = v.
Proof.
  intros R1 R2 R3 F1 F3 Hr Hbit items1 items3 Hv.
  pose proof (fresh_inv 0 2048 4096 1 64 0 zero_image zero_image demo_params) as I0. fold demo_fresh in I0.
  assert (forall w, reaches demo_device ok_event demo_fresh w -> exists D q, world_inv w D q) as HI.
  { intros w R. apply (reaches_inv demo_device ok_event demo_fresh); [done|by exists [], []|done]. }
  destruct (HI _ R1) as (D1 & q1 & I1), (HI _ R2) as (D2 & q2 & I2).
  destruct (reaches_inv demo_device ok_event w2 w3 (fun _ _ H => H) (ex_intro _ D2 (ex_intro _ q2 I2)) R3) as (D3 & q3 & I3).
  assert (tg_len (w_target w1) = 2048 /\ tg_len (w_target w3) = 2048) as [El1 El3].
  { by rewrite (reaches_len _ _ _ _ R3), (reaches_len _ _ _ _ R2), (reaches_len _ _ _ _ R1). }
  destruct (consume_driver demo_device ok_event (fun _ _ _ => FaZero) demo_fresh w1 [] [] zero_image (d_feed demo_node) (fun _ _ H => H) I0 R1)
    as (a1 & E1 & G1 & _); [by rewrite El1|done|].
  change (length (w_reads demo_fresh)) with 0%nat in E1, G1. rewrite drop_0 in E1, G1. fold items1 in E1, G1.
  rewrite (sm_bind_Ok _ _ _ _ _ (on_feed_Ok _ _ _ _ E1)). rewrite El1 in G1. destruct G1 as [Ok1 C1].
  destruct (recover_demo_result w1 70 0 (set_feed (set_app a1 (scan_gaps items1 (d_feed demo_node))) demo_node)) as (d2 & E2 & Ok2 & S2 & Fd2 & C2 & _);
    [apply I1|done|done|exact Ok1|done|].
  rewrite (sm_bind_Ok _ _ _ _ _ E2).
  destruct (consume_driver demo_device ok_event (fun _ _ _ => FaZero) w2 w3 D2 q2 zero_image (d_feed d2) (fun _ _ H => H) I2 R3)
    as (a3 & E3 & G3 & Hi3).
  { rewrite El3. split; [|apply C2, C1]. unfold daemon_ok in Ok2. rewrite S2 in Ok2. exact Ok2. }
  { rewrite Fd2. cbn [set_app rebuild_lock set_feed d_feed]. apply scan_gaps_frame. }
  fold items3 in E3, G3, Hi3. rewrite El3 in G3. destruct G3 as [Ok3 C3].
  rewrite (sm_bind_Ok _ _ _ _ _ (on_feed_Ok _ _ _ _ E3)).
  destruct (recover_demo_result w3 71 2 (set_feed (set_app a3 (scan_gaps items3 (d_feed d2))) d2)) as (d4 & E4 & _ & _ & Fd4 & _ & Hx);
    [apply I3|done|done|unfold daemon_ok; cbn [set_feed d_size]; rewrite S2; exact Ok3|exact S2|].
  exists d4, a1, (d_app d2). split; [exact E4|]. split.
  - rewrite Fd4. cbn [set_feed d_feed set_app recovery_queue]. by rewrite Fd2.
  - rewrite Hx by done. cbn [set_feed d_app d_feed set_app fd_app]. by rewrite (Hi3 x).
Qed.

(** Records behind the gap undo a recovery.  The daemon reads and clears
    the bitmap when it has read the record that announces a gap, while later
    records are in the ring; the bits it clears include those of
    requests that were dropped after those records.  It copies the present
    content, then applies an older record over it; and the recovery for the
    second gap finds no bit.  Every gap was noted and recovered from, the ring
    is empty, nothing is in flight, no bit is set: the replica keeps the old
    content. *)
Theorem backlog_undoes_recovery :
  let w1 := run demo_device demo_fresh demo_backlog in
  let w2 := run demo_device demo_fresh (demo_backlog ++ [clear_bitmap]) in
  let w3 := run demo_device w2 demo_backlog_rest in
  let w4 := step demo_device w3 clear_bitmap in
  reaches demo_device ok_event demo_fresh w4 /\ Forall (fun sb => is_done (sb_phase sb) = true) (w_subs w4) /\
  rg_tail (tg_ring (w_target w4)) = rg_head (tg_ring (w_target w4)) /\ rg_gap_pending (tg_ring (w_target w4)) = false /\
  rg_overflowed (tg_ring (w_target w4)) = false /\ bitmap_weight (tg_bitmap (w_target w4)) (tg_nbits (w_target w4)) = 0 /\
  exists d', (on_feed (consume_reads (fun _ _ _ => FaZero) [] (w_reads w1));; recover_demo w1 70 0;;
              on_feed (consume_reads (fun _ _ _ => FaZero) [] (drop (length (w_reads w2)) (w_reads w3)));; recover_demo w3 71 2) demo_node = (Ok tt, d') /\
    recovery_queue (d_feed d') = [0; 2] /\ img_of (d_app d') 524288 = Byte.x41 /\ w_disk w4 524288 = Byte.x42.
Proof.
  intros w1 w2 w3 w4.
  assert (reaches demo_device ok_event demo_fresh w1) as R1.
  { apply (run_reaches _ _ ok_event_b); [apply ok_event_b_ok|vm_compute; reflexivity]. }
  assert (reaches demo_device ok_event demo_fresh w2) as R2.
  { apply (run_reaches _ _ ok_event_b); [apply ok_event_b_ok|vm_compute; reflexivity]. }
  assert (reaches demo_device ok_event w2 w3) as R3.
  { apply (run_reaches _ _ ok_event_b); [apply ok_event_b_ok|vm_compute; reflexivity]. }
  assert (reaches demo_device ok_event demo_fresh w4) as R4.
  { assert (w4 = run demo_device demo_fresh ((demo_backlog ++ [clear_bitmap]) ++ demo_backlog_rest ++ [clear_bitmap])) as ->.
    { unfold w4, w3, w2, run. by rewrite (foldl_app _ (_ ++ _) (_ ++ _)), (foldl_app _ demo_backlog_rest). }
    apply (run_reaches _ _ ok_event_b); [apply ok_event_b_ok|vm_compute; reflexivity]. }
  split; [exact R4|]. split.
  { apply Forall_forall. intros sb Hsb%list_elem_of_In. revert sb Hsb. apply forallb_forall. vm_compute. reflexivity. }
  do 4 (split; [vm_compute; reflexivity|]).
  destruct (two_recoveries w1 w2 w3 524288 Byte.x41 R1 R2 R3) as (d' & a1 & a2 & E & Hq & Hi).
  - vm_compute. repeat constructor; discriminate.
  - vm_compute. repeat constructor; discriminate.
  - done.
  - vm_compute. reflexivity.
  - intros im. vm_compute. reflexivity.
  - exists d'. split; [exact E|]. split; [|split; [exact Hi|vm_compute; reflexivity]]. rewrite Hq. vm_compute. reflexivity.
Qed.

Lemma overflow_recovered_witness :
  let w2 := run demo_device demo_fresh demo_gap_events in
  exists d', (on_feed (consume_reads (fun _ _ _ => FaZero) [] (w_reads w2));; recover_demo w2 70 2) demo_node = (Ok tt, d') /\
    w_disk w2 524288 = Byte.x42 /\ forall x, 0 <= x < 1048576 -> d_durable d' x = w_disk w2 x.
Proof.
  intros w2.
  destruct (overflow_recovered demo_device demo_local (fun _ _ _ => FaZero) 4194304 ltac:(lia) (fun _ => false) ltac:(done)
    0 2048 4096 1 64 0 zero_image zero_image demo_fresh w2 zero_image demo_node 70 2) as (d' & E & _ & H).
  - apply demo_params.
  - constructor.
  - constructor.
  - reflexivity.
  - apply (run_reaches _ _ tracking_b); [apply tracking_b_ok|vm_compute; reflexivity].
  - vm_compute. repeat constructor; discriminate.
  - by split.
  - reflexivity.
  - reflexivity.
  - reflexivity.
  - done.
  - change (length (w_reads demo_fresh)) with 0%nat in E. rewrite drop_0 in E. change (2048 * 512) with 1048576 in E, H.
    exists d'. split; [unfold recover_demo; exact E|]. split; [vm_compute; reflexivity|exact H].
Defined.
