(* ===== verification/LiveCopy.v ===== *)
(** * Copying beside the driver

    [CopyProtocol] has a guest whose writes reach the disk and the stream at
    once.  Here the stream is what the reader gets from the driver of
    [DriverRuns]: a record is reserved when its request is submitted, the disk
    changes when the device completes it, in any order, and the record can be
    read when the ones before it are complete too.  The sections of
    [Daemon.copy_chunk] and the apply loop run in between, in any order.  The
    theorem is that the copy still converges to the disk. *)
From S2P Require Import Prelude Dmcdp Files Seed Replica Apply CopyProtocol Consume Driver Ring DirtyMap DriverRuns DriverStream.

#[local] Arguments Z.pow : simpl never.

(** ** The system *)

Record live : Type := mk_live {
  lv_world : world;
  lv_taken : nat;                  (* records that the apply loop has taken *)
  lv_core : applier;
  lv_ph : CopyProtocol.phase;
  lv_covered : list (Z * Z);
}.

Inductive live_action : Type :=
  | Driver (e : event)
  | Thread (act : action).         (* a section of the daemon's two threads *)

(** The records the daemon has read. *)
Definition read_items (w : world) : list item := (iter_records (concat (w_reads w))).1.

(** The daemon's side of it: the disk as it is now, the records that were
    read and not taken yet. *)
Definition view (l : live) : sys :=
  mk_sys (w_disk (lv_world l)) (drop (lv_taken l) (read_items (lv_world l))) (lv_core l) (lv_ph l) (lv_covered l).

Section Live.
Variable device : cdp_target -> bio -> bool -> image -> image.
Variable libc_fallocate : file -> Z -> Z -> fallocate_result.
Variable size : Z.
Variable skip_zero : option bytes.

Definition live_next (l : live) (a : live_action) : option live :=
  match a with
  | Driver e => Some (mk_live (step device (lv_world l) e) (lv_taken l) (lv_core l) (lv_ph l) (lv_covered l))
  | Thread (Guest _) => None
  | Thread act =>
      s ← sys_next libc_fallocate size skip_zero (view l) act;
      Some (mk_live (lv_world l) (match act with Apply => S (lv_taken l) | _ => lv_taken l end) (core s) (ph s) (covered s))
  end.

(** No request overlaps one in flight, fails or is dropped; chunks lie inside
    the disk; records are applied in order. *)
Definition live_ok (l : live) (a : live_action) : Prop :=
  match a with
  | Driver e => calm (lv_world l) e /\
      match e with Submit b now => logs b = true -> is_Some (map_reserve (lv_world l).(w_target) b now).1.1 | _ => True end
  | Thread act => action_ok size act /\ in_order (view l) act
  end.

Inductive live_run (l0 : live) : live -> Prop :=
  | live_refl : live_run l0 l0
  | live_step l a l' : live_run l0 l -> live_ok l a -> live_next l a = Some l' -> live_run l0 l'.
End Live.

(** ** Items up to what they do *)

(** Equal in the fields that decide what a record does. *)
Definition like (it1 it2 : item) : Prop :=
  r_type it1.1 = r_type it2.1 /\ r_sector it1.1 = r_sector it2.1 /\ r_len it1.1 = r_len it2.1 /\ it1.2 = it2.2.

#[export] Instance like_equivalence : Equivalence like.
Proof.
  unfold like. split; [done|by intros x y (-> & -> & -> & ->)|].
  by intros x y z (-> & -> & -> & ->) (-> & -> & -> & ->).
Qed.

Lemma like_range it1 it2 : like it1 it2 -> item_range it1 = item_range it2.
Proof. destruct it1, it2. unfold like, item_range. cbn. by intros (-> & -> & -> & ->). Qed.

Lemma like_apply it1 it2 img : like it1 it2 -> apply_img img it1 = apply_img img it2.
Proof. intros (H1 & H2 & H3 & H4). by apply apply_img_same. Qed.

Lemma like_wf size it1 it2 : like it1 it2 -> item_wf it1 /\ item_in size it1 -> item_wf it2 /\ item_in size it2.
Proof.
  intros H [Hw Hi]. split; [|unfold item_in in *; by rewrite <-(like_range _ _ H)].
  destruct it1, it2. unfold like, item_wf in *. cbn in *. by destruct H as (<- & <- & <- & <-).
Qed.

Lemma like_apply_all l1 l2 img : Forall2 like l1 l2 -> apply_all img l1 = apply_all img l2.
Proof.
  intros H. revert img. induction H as [|it1 it2 l1 l2 Hi _ IH]; intros img; [done|].
  by rewrite !apply_all_cons, (like_apply it1 it2), IH.
Qed.

Lemma like_touched l1 l2 i : Forall2 like l1 l2 -> touched l1 i <-> touched l2 i.
Proof.
  unfold touched. induction 1 as [|it1 it2 l1 l2 H _ IH]; [done|]. rewrite !Exists_cons, IH.
  unfold touches. by rewrite (like_range _ _ H).
Qed.

Lemma Forall2_like_refl l : Forall2 like l l.
Proof. induction l; by constructor. Qed.

(** The invariant of the protocol does not see the rest of a record. *)
Lemma inv_like size skip_zero S0 V st st' c p cov :
  Forall2 like st st' -> inv size skip_zero S0 (mk_sys V st c p cov) -> inv size skip_zero S0 (mk_sys V st' c p cov).
Proof.
  intros H [Hok Hit Hself Hcov Hfr Hph].
  set (s := mk_sys V st c p cov) in *. set (s' := mk_sys V st' c p cov).
  assert (Forall2 like (pend s) (pend s')) as HL.
  { unfold pend, outstanding, s, s'. cbn. apply Forall2_app; [|done]. apply Forall2_like_refl. }
  assert (forall X i, agrees X (pend s) V i -> agrees X (pend s') V i) as HA.
  { unfold agrees. intros X i. by rewrite (like_apply_all _ _ X HL). }
  split; cbn [core disk s s'] in *; try done.
  - clear -HL Hit. induction HL as [|it1 it2 l1 l2 H _ IH]; [done|]. apply Forall_cons in Hit as [H1 H2].
    constructor; [by eapply like_wf|by apply IH].
  - intros i. apply HA, Hself.
  - intros i Hi. by apply HA, Hcov.
  - intros i Hs Hi. destruct (Hfr i Hs Hi) as [Ha|[H0 Ht]]; [left; by apply HA|right]. by rewrite <-(like_touched _ _ _ HL).
  - unfold phase_inv, landing in *. cbn [ph core s s'] in *. destruct p; try done.
    + destruct Hph as (? & ? & ? & Hl). split_and!; try done. intros i Hi. by apply HA, Hl.
    + destruct Hph as (? & ? & Hl). split_and!; try done. intros i Hi. by apply HA, Hl.
Qed.

(** ** The requests as a stream *)

Definition all_items (t : cdp_target) (subs : list sub) : list item := (fun sb => bio_item t (sb_bio sb)) <$> subs.

Lemma all_items_place t t' subs : tg_begin t' = tg_begin t -> all_items t' subs = all_items t subs.
Proof. intros E. apply list_fmap_ext. intros ? ? _. by apply bio_item_place. Qed.

(** A request that goes to another phase is the same request. *)
Lemma all_items_phase t subs k b pb p p' :
  subs !! k = Some (mk_sub b pb p) ->
  all_items t (<[k := mk_sub b pb p']> subs) = all_items t subs /\
  all_items t (logged (<[k := mk_sub b pb p']> subs)) = all_items t (logged subs).
Proof.
  revert k. induction subs as [|sb subs IH]; intros [|k] Hk; [done|done| |].
  - injection Hk as ->. split; [done|]. cbn [insert list_insert]. unfold logged. rewrite !filter_cons. cbn [sb_pb]. by case_decide.
  - destruct (IH k Hk) as [E1 E2]. change (<[S k := mk_sub b pb p']> (sb :: subs)) with (sb :: <[k := mk_sub b pb p']> subs). unfold all_items in *. rewrite !fmap_cons, E1. split; [done|].
    unfold logged in *. rewrite !filter_cons. case_decide; [by rewrite !fmap_cons, E2|done].
Qed.

(** While no request in flight has an effect at [i], the disk is there what it
    will be. *)
Lemma all_done_items t X subs i :
  (forall sb, sb ∈ subs -> is_done (sb_phase sb) = false -> forall Y : image, apply_img Y (bio_item t (sb_bio sb)) i = Y i) ->
  apply_all X (all_items t subs) i = apply_all X (done_items t subs) i.
Proof.
  revert X. induction subs as [|[b pb p] subs IH]; intros X H; [done|]. cbn [all_items fmap list_fmap sb_bio].
  rewrite apply_all_cons. assert (forall sb, sb ∈ subs -> is_done (sb_phase sb) = false -> forall Y : image, apply_img Y (bio_item t (sb_bio sb)) i = Y i) as H'.
  { intros sb Hs. apply H. by right. }
  destruct (is_done p) eqn:Hp; [rewrite done_items_cons, apply_all_cons by done; by apply IH|].
  rewrite done_items_cons_other by done. rewrite <-(IH X H'). apply apply_all_local.
  apply (H (mk_sub b pb p)); [by left|done].
Qed.

Lemma bio_item_ok t b : target_ok t -> valid_bio t b -> item_wf (bio_item t b) /\ item_in (tg_len t * 512) (bio_item t b).
Proof.
  intros K V. destruct (vb_size _ _ V) as [Hs Hm]. pose proof (Z.div_mod (bi_size b) 512). pose proof (to_len _ K).
  assert (bio_type b <> REC_FLUSH -> 0 <= bio_rel t b /\ bio_rel t b + bi_size b / 512 <= tg_len t) as Hrel.
  { intros Hf. destruct (valid_rel _ _ K V Hf) as (_ & ? & ?). by split. }
  assert (0 <= bio_rel t b) as Hr0.
  { destruct (decide (bio_type b = REC_FLUSH)) as [E|E]; [|by apply Hrel]. unfold bio_rel. by rewrite E. }
  unfold item_wf, item_in, item_range, bio_item. cbn [r_type r_sector r_len]. split.
  - split_and!; [done|lia|]. intros E. by destruct (valid_data _ _ V E) as (_ & _ & _ & ->).
  - destruct (Z.eqb_spec (bio_type b) REC_WRITE) as [E|E].
    + destruct (valid_data _ _ V E) as (_ & _ & _ & ->). destruct Hrel; [by rewrite E|lia].
    + destruct (_ || _) eqn:Ed; [|lia]. destruct Hrel; [|lia]. intros Ef. by rewrite Ef in Ed.
Qed.

Lemma read_items_slots w D q : world_inv w D q -> read_items w = items_of (slot_frames D).
Proof.
  intros I. unfold read_items. rewrite (wi_reads _ _ _ I), stream_items; [done|].
  pose proof (wi_subs _ _ _ I) as H. apply Forall2_app_inv_l in H as (l1 & l2 & H & _ & _). by eapply sub_slots_wf.
Qed.

(** The records that were read are those of the first logged requests, and a
    request in flight is a later one. *)
Lemma read_items_like w D q :
  world_inv w D q -> Forall2 like (take (length D) (all_items (w_target w) (logged (w_subs w)))) (read_items w) /\
  (length D <= length (all_items (w_target w) (logged (w_subs w))))%nat /\
  forall sb, sb ∈ w_subs w -> is_done (sb_phase sb) = false -> is_Some (sb_pb sb) ->
    bio_item (w_target w) (sb_bio sb) ∈ drop (length D) (all_items (w_target w) (logged (w_subs w))).
Proof.
  intros I. rewrite (read_items_slots w D q I). pose proof (wi_subs _ _ _ I) as H.
  apply Forall2_app_inv_l in H as (l1 & l2 & H1 & H2 & El). rewrite El. unfold all_items. rewrite fmap_app.
  pose proof (Forall2_length _ _ _ H1) as Hl. rewrite Hl. rewrite take_app_length', drop_app_length' by (by rewrite length_fmap).
  split; [|split; [rewrite length_app, length_fmap; lia|]].
  - pose proof (delivered_filled _ _ _ H1 (wi_done _ _ _ I)) as HF. unfold slot_frames. rewrite <-list_fmap_compose.
    clear -HF. induction HF as [|s sb D subs [Hs Hp] _ IH]; [constructor|]. cbn. constructor; [|exact IH].
    unfold like, bio_item, frame_item. cbn. split_and!; try (symmetry; apply Hs). symmetry. by apply (slot_payload (w_target w)).
  - intros sb Hsb Hd Hpb. apply list_elem_of_fmap. exists sb. split; [done|].
    assert (sb ∈ l1 ++ l2) as Hin by (rewrite <-El; unfold logged; apply list_elem_of_filter; done).
    apply elem_of_app in Hin as [Hin|]; [|done]. exfalso.
    apply list_elem_of_lookup in Hin as [k Hk]. destruct (Forall2_lookup_r _ _ _ _ _ H1 Hk) as (s & Hsk & Hss).
    pose proof (Forall_lookup_1 _ _ _ _ (wi_done _ _ _ I) Hsk) as Hc. cbn in Hc. rewrite (ss_state _ _ _ Hss) in Hc.
    by destruct (sb_phase sb).
Qed.

Definition kept (sb : sub) : Prop := logs (sb_bio sb) = true -> is_Some (sb_pb sb).

(** What an event does to the requests. *)
Lemma step_requests device w e :
  match e with
  | Submit b now => exists p, w_subs (step device w e) = w_subs w ++ [mk_sub b (map_reserve (w_target w) b now).1.1 p]
  | _ => (forall t, all_items t (w_subs (step device w e)) = all_items t (w_subs w) /\
            all_items t (logged (w_subs (step device w e))) = all_items t (logged (w_subs w))) /\
         (Forall kept (w_subs w) -> Forall kept (w_subs (step device w e)))
  end.
Proof.
  assert (forall k b pb p p', w_subs w !! k = Some (mk_sub b pb p) -> Forall kept (w_subs w) -> Forall kept (<[k := mk_sub b pb p']> (w_subs w))) as HP.
  { intros k b pb p p' Hk H. apply Forall_insert; [done|]. exact (Forall_lookup_1 _ _ _ _ H Hk). }
  destruct e as [b now|k|k error|copy_ok nonblock count|alloc copied cmd|]; cbn [step].
  - destruct (map_reserve (w_target w) b now) as [[pb o] t']. by eexists.
  - destruct (w_subs w !! k) as [[b [off|] []]|] eqn:Hk; try done. split; [|by eapply HP].
    intros t. by eapply all_items_phase.
  - destruct (w_subs w !! k) as [[b pb []]|] eqn:Hk; try done. split; [|by eapply HP].
    intros t. by eapply all_items_phase.
  - by destruct (cdp_read _ _ _ _) as [[] t'].
  - done.
  - done.
Qed.

(** The sections of the copy thread, but for its read, see neither the disk
    nor the stream. *)
Lemma section_view fa size skip_zero d1 d2 st1 st2 c p cov act s' :
  match act with Guest _ | Apply | CopyProtocol.Read => False | _ => True end ->
  sys_next fa size skip_zero (mk_sys d1 st1 c p cov) act = Some s' ->
  sys_next fa size skip_zero (mk_sys d2 st2 c p cov) act = Some (mk_sys d2 st2 (core s') (ph s') (covered s')).
Proof.
  destruct act as [it| |off n| | | | |]; intros Hact; try done; cbn [sys_next ph core covered disk stream].
  - destruct p; try done. by intros [= <-].
  - destruct p as [| |off n buf| |]; try done. destruct (of_res _) as [a|]; [|done]. cbn. by intros [= <-].
  - destruct p as [| | |off n|]; try done. by intros [= <-].
  - destruct p as [| | | |[|it late]]; try done. destruct (of_res _) as [a|]; [|done]. cbn. by intros [= <-].
  - destruct p as [| | | |[|it late]]; try done. by intros [= <-].
Qed.

Section LiveInv.
Variable device : cdp_target -> bio -> bool -> image -> image.
Hypothesis device_works : forall t b disk, valid_bio t b -> device t b false disk ≡ bio_effect t b disk.
Variable libc_fallocate : file -> Z -> Z -> fallocate_result.
Variable skip_zero : option bytes.
Hypothesis zeros : zero_buffer skip_zero.
Variable S0 : image.
Variables (begin len : Z) (disk0 : image).

Abbreviation size := (len * 512).

(** The protocol's invariant holds of the disk that will be when the requests
    in flight are done, and of every request whose record was not taken. *)
Record live_inv (l : live) : Prop := {
  li_world : exists D q, world_inv (lv_world l) D q /\ (lv_taken l <= length D)%nat;
  li_disk : disk_inv disk0 begin len (lv_world l);
  li_kept : Forall kept (w_subs (lv_world l));
  li_sys : exists V st, V ≡ apply_all disk0 (all_items (w_target (lv_world l)) (w_subs (lv_world l))) /\
    Forall2 like (drop (lv_taken l) (all_items (w_target (lv_world l)) (logged (w_subs (lv_world l))))) st /\
    inv size skip_zero S0 (mk_sys V st (lv_core l) (lv_ph l) (lv_covered l));
}.

Lemma submit_live V st w k c p cov b now D q phase :
  world_inv w D q -> (k <= length D)%nat -> disk_inv disk0 begin len w -> valid_bio (w_target w) b ->
  (logs b = true -> is_Some (map_reserve (w_target w) b now).1.1) ->
  V ≡ apply_all disk0 (all_items (w_target w) (w_subs w)) -> Forall2 like (drop k (all_items (w_target w) (logged (w_subs w)))) st ->
  inv size skip_zero S0 (mk_sys V st c p cov) ->
  let subs := w_subs w ++ [mk_sub b (map_reserve (w_target w) b now).1.1 phase] in
  exists V' st', V' ≡ apply_all disk0 (all_items (w_target w) subs) /\
    Forall2 like (drop k (all_items (w_target w) (logged subs))) st' /\ inv size skip_zero S0 (mk_sys V' st' c p cov).
Proof.
  intros I Hk DI Vb Hl HV Hst Hinv subs. destruct (read_items_like w D q I) as (_ & Hlen & _).
  assert (apply_all disk0 (all_items (w_target w) subs) = apply_img (apply_all disk0 (all_items (w_target w) (w_subs w))) (bio_item (w_target w) b)) as EV.
  { unfold subs, all_items. by rewrite fmap_app, apply_all_app. }
  unfold subs in *. rewrite logged_app. destruct (map_reserve (w_target w) b now).1.1 as [off|] eqn:Epb.
  - exists (apply_img V (bio_item (w_target w) b)), (st ++ [bio_item (w_target w) b]). split; [|split].
    + rewrite EV. by apply apply_img_proper.
    + unfold all_items in *. rewrite fmap_app, drop_app_le by lia. apply Forall2_app; [done|]. by apply Forall2_like_refl.
    + destruct (bio_item_ok _ _ (wi_target _ _ _ I) Vb) as [Hw Hi]. rewrite (proj2 (di_place _ _ _ _ DI)) in Hi.
      by apply (inv_guest size skip_zero S0 (mk_sys V st c p cov)).
  - exists V, st. split; [|split; [by rewrite app_nil_r|done]]. rewrite EV, HV. symmetry. apply unlogged_effect.
    destruct (logs b); [by destruct (Hl eq_refl)|done].
Qed.

Lemma driver_live l e :
  live_inv l -> live_ok size l (Driver e) ->
  live_inv (mk_live (step device (lv_world l) e) (lv_taken l) (lv_core l) (lv_ph l) (lv_covered l)).
Proof.
  intros [(D & q & I & Hk) DI HK (V & st & HV & Hst & Hinv)] [Hc Hl].
  destruct (world_step_inv device (lv_world l) e D q I (calm_ok _ _ Hc)) as [(T & q' & I') _].
  pose proof (step_disk device device_works disk0 begin len _ _ DI Hc) as DI'.
  assert (tg_begin (w_target (step device (lv_world l) e)) = tg_begin (w_target (lv_world l))) as Eb.
  { by rewrite (proj1 (di_place _ _ _ _ DI')), (proj1 (di_place _ _ _ _ DI)). }
  pose proof (step_requests device (lv_world l) e) as R.
  split; cbn [lv_world lv_taken lv_core lv_ph lv_covered]; [|done| |].
  - exists (D ++ T), q'. split; [done|]. rewrite length_app. lia.
  - destruct e as [b now| | | | |]; [|by apply (proj2 R)..]. destruct R as [p ->]. apply Forall_app. split; [done|]. by repeat constructor.
  - rewrite !(all_items_place (w_target (lv_world l)) (w_target (step device (lv_world l) e))) by done.
    destruct e as [b now| | | | |]; [|exists V, st; destruct R as [R _]; destruct (R (w_target (lv_world l))) as [-> ->]; split_and!; done..].
    destruct R as [p ->]. destruct Hc as [(Vb & _) _].
    destruct (submit_live V st (lv_world l) (lv_taken l) (lv_core l) (lv_ph l) (lv_covered l) b now D q p I Hk DI Vb Hl HV Hst Hinv)
      as (V' & st' & HV' & Hst' & Hinv').
    by exists V', st'.
Qed.

(** *** The sections of the daemon *)

(** The disk is what the invariant says it will be, but for pending records. *)
Lemma disk_agrees V st l i :
  live_inv l -> V ≡ apply_all disk0 (all_items (w_target (lv_world l)) (w_subs (lv_world l))) ->
  Forall2 like (drop (lv_taken l) (all_items (w_target (lv_world l)) (logged (w_subs (lv_world l))))) st ->
  inv size skip_zero S0 (mk_sys V st (lv_core l) (lv_ph l) (lv_covered l)) ->
  agrees (w_disk (lv_world l)) (pend (mk_sys V st (lv_core l) (lv_ph l) (lv_covered l))) V i.
Proof.
  intros [(D & q & I & Hk) DI HK _] HV Hst Hinv. set (s := mk_sys _ _ _ _ _). set (w := lv_world l) in *.
  destruct (read_items_like w D q I) as (_ & _ & HF). unfold agrees.
  destruct (decide (touched (pend s) i)) as [T|T].
  { rewrite (apply_all_touched _ V) by done. apply (inv_self _ _ _ _ Hinv). }
  rewrite apply_all_untouched by done. rewrite (di_disk _ _ _ _ DI i), (HV i). symmetry. apply all_done_items.
  intros sb Hsb Hd Y. destruct (logs (sb_bio sb)) eqn:Hl; [|by apply unlogged_effect].
  apply apply_img_untouched. intros Ht. apply T. unfold touched, pend. apply Exists_app. right. cbn [stream s].
  apply (like_touched _ _ i Hst). pose proof (HF sb Hsb Hd (proj1 (Forall_forall _ _) HK sb Hsb Hl)) as Hin.
  apply Exists_exists. exists (bio_item (w_target w) (sb_bio sb)). split; [|done].
  apply list_elem_of_lookup in Hin as [j Hj]. apply list_elem_of_lookup. exists (length D - lv_taken l + j)%nat.
  rewrite lookup_drop in *. by replace (lv_taken l + (length D - lv_taken l + j))%nat with (length D + j)%nat by lia.
Qed.

(** A section of the daemon leaves the driver alone. *)
Lemma live_inv_daemon l l' V st :
  live_inv l -> lv_world l' = lv_world l ->
  (exists D q, world_inv (lv_world l) D q /\ (lv_taken l' <= length D)%nat) ->
  V ≡ apply_all disk0 (all_items (w_target (lv_world l)) (w_subs (lv_world l))) ->
  Forall2 like (drop (lv_taken l') (all_items (w_target (lv_world l)) (logged (w_subs (lv_world l))))) st ->
  inv size skip_zero S0 (mk_sys V st (lv_core l') (lv_ph l') (lv_covered l')) -> live_inv l'.
Proof. intros [_ DI HK _] E HW HV Hst Hinv. split; rewrite E; try done. by exists V, st. Qed.

(** The next record to apply is that of the oldest request not taken. *)
Lemma next_record l D q it rest st :
  world_inv (lv_world l) D q -> CopyProtocol.stream (view l) = it :: rest ->
  Forall2 like (drop (lv_taken l) (all_items (w_target (lv_world l)) (logged (w_subs (lv_world l))))) st ->
  (S (lv_taken l) <= length D)%nat /\ exists st', Forall2 like st (it :: st') /\
    Forall2 like (drop (S (lv_taken l)) (all_items (w_target (lv_world l)) (logged (w_subs (lv_world l))))) st'.
Proof.
  intros I Es Hst. destruct (read_items_like _ _ _ I) as (HR & Hlen & _). set (all := all_items _ (logged _)) in *.
  cbn [view CopyProtocol.stream] in Es.
  assert (read_items (lv_world l) !! lv_taken l = Some it) as Hit.
  { pose proof (lookup_drop (read_items (lv_world l)) (lv_taken l) 0) as H. rewrite Es, Nat.add_0_r in H. by rewrite <-H. }
  destruct (Forall2_lookup_r _ _ _ _ _ HR Hit) as (x & Hx & Hl). pose proof (lookup_lt_Some _ _ _ Hx) as Hlt. rewrite length_take in Hlt.
  rewrite lookup_take_lt in Hx by lia. split; [lia|]. rewrite (drop_S _ _ _ Hx) in Hst.
  apply Forall2_cons_inv_l in Hst as (y & st' & Hy & Hst & ->). exists st'. split; [|done].
  constructor; [by rewrite <-Hy|apply Forall2_like_refl].
Qed.

Lemma apply_live l l' :
  live_inv l -> in_order (view l) Apply -> live_next device libc_fallocate size skip_zero l (Thread Apply) = Some l' -> live_inv l'.
Proof.
  intros LI Hord. pose proof LI as [(D & q & I & Hk) DI HK (V & st & HV & Hst & Hinv)]. cbn [live_next sys_next].
  unfold in_order in Hord. destruct (CopyProtocol.stream (view l)) as [|it rest] eqn:Es; [done|].
  destruct (next_record l D q it rest st I Es Hst) as (Ht & st' & Hl & Hst').
  apply (inv_like _ _ _ _ _ _ _ _ _ Hl) in Hinv. cbn [view core disk ph covered] in *.
  destruct (apply_one libc_fallocate (lv_core l) it) as [a| |] eqn:Ea; cbn; try done. intros [= <-].
  apply (live_inv_daemon l _ V st'); try done; [by exists D, q|].
  apply (step_inv libc_fallocate _ _ _ (mk_sys V (it :: st') (lv_core l) (lv_ph l) (lv_covered l)) Apply); try done.
  cbn [sys_next CopyProtocol.stream core]. by rewrite Ea.
Qed.

Lemma read_live l l' :
  live_inv l -> live_next device libc_fallocate size skip_zero l (Thread CopyProtocol.Read) = Some l' -> live_inv l'.
Proof.
  intros LI. pose proof LI as [(D & q & I & Hk) DI HK (V & st & HV & Hst & Hinv)]. cbn [live_next sys_next view ph].
  destruct (lv_ph l) as [|off n| | |] eqn:Ei; try done. cbn. intros [= <-].
  apply (live_inv_daemon l _ V st); try done; [by exists D, q|].
  apply (inv_read_from _ _ _ _ (mk_sys V st (lv_core l) (Flagged off n) (lv_covered l))); try done.
  intros i _. rewrite <-Ei in Hinv |- *. by apply disk_agrees.
Qed.

Lemma thread_live l act l' :
  live_inv l -> live_ok size l (Thread act) -> live_next device libc_fallocate size skip_zero l (Thread act) = Some l' -> live_inv l'.
Proof.
  intros LI [Hok Hord] H. pose proof LI as [(D & q & I & Hk) DI HK (V & st & HV & Hst & Hinv)].
  assert (match act with Guest _ | Apply | CopyProtocol.Read => False | _ => True end -> live_inv l') as Hsec.
  { intros Hact. assert (exists s, sys_next libc_fallocate size skip_zero (view l) act = Some s /\
      l' = mk_live (lv_world l) (lv_taken l) (core s) (ph s) (covered s)) as (s & Hs & ->).
    { destruct act; try done; cbn [live_next] in H; destruct (sys_next _ _ _ _ _) as [s|]; try done;
        exists s; split; try done; by injection H as <-. }
    apply (live_inv_daemon l _ V st); try done; [by exists D, q|]. cbn [lv_core lv_ph lv_covered].
    apply (section_view _ _ _ _ V _ st) in Hs; [|done].
    eapply (step_inv libc_fallocate); [done|exact Hinv|exact Hok| |exact Hs]. by destruct act. }
  destruct act; try by apply Hsec.
  - by apply apply_live in H.
  - by apply read_live in H.
Qed.

Lemma live_run_inv l0 l : live_inv l0 -> live_run device libc_fallocate size skip_zero l0 l -> live_inv l.
Proof.
  intros H0 R. induction R as [|l a l' R IH Hok Hn]; [done|]. destruct a as [e|act].
  - injection Hn as <-. by apply driver_live.
  - by eapply thread_live.
Qed.
End LiveInv.

(** ** Convergence *)

(** The daemon over a target that [cdp_ctr] just made. *)
Record live_start (skip_zero : option bytes) (S0 : image) (begin len offset ring_mb chunk_kb minor : Z) (mem disk0 : image) (l : live) : Prop := {
  ls_world : lv_world l = fresh begin len offset ring_mb chunk_kb minor mem disk0;
  ls_taken : lv_taken l = 0%nat;
  ls_idle : lv_ph l = Idle /\ lv_covered l = [];
  ls_copying : copying (lv_core l) = None /\ deferred (lv_core l) = [];
  ls_replica : replica_ok S0 (len * 512) (replica (lv_core l));
  ls_blank : is_Some skip_zero -> forall i, in_disk (len * 512) i -> img_of (lv_core l) i = x00;
}.

(** The device is done with every request, every record was read and taken,
    and no chunk is under way. *)
Record live_quiet (l : live) : Prop := {
  lq_done : Forall (fun sb => is_done (sb_phase sb) = true) (w_subs (lv_world l));
  lq_read : rg_tail (tg_ring (w_target (lv_world l))) = rg_head (tg_ring (w_target (lv_world l)));
  lq_taken : lv_taken l = length (read_items (lv_world l));
  lq_idle : lv_ph l = Idle;
}.

Lemma live_start_inv skip_zero S0 begin len offset ring_mb chunk_kb minor mem disk0 l :
  ctr_params begin len ring_mb chunk_kb -> zero_buffer skip_zero ->
  live_start skip_zero S0 begin len offset ring_mb chunk_kb minor mem disk0 l -> live_inv skip_zero S0 begin len disk0 l.
Proof.
  intros P Hz [Ew Et [Ei Ec] [Hc Hd] Hok Hb]. pose proof (fresh_inv begin len offset ring_mb chunk_kb minor mem disk0 P) as I.
  split; rewrite ?Ew, ?Et.
  - exists [], []. split; [exact I|done].
  - by split.
  - constructor.
  - exists disk0, []. split; [done|]. split; [constructor|]. apply start_inv. rewrite Ei, Ec.
    split; try done. intros i Hi. by apply Exists_nil in Hi.
Qed.

Lemma live_quiet_disk skip_zero S0 begin len disk0 l i :
  live_inv skip_zero S0 begin len disk0 l -> live_quiet l -> Exists (in_extent i) (lv_covered l) ->
  img_of (lv_core l) i = w_disk (lv_world l) i.
Proof.
  intros [(D & q & I & Hk) DI HK (V & st & HV & Hst & Hinv)] [Qd Qr Qt Qi] Hi.
  assert (q = []) as -> by (eapply (layout_empty _ _ _ (rg_tail (tg_ring (w_target (lv_world l))))); rewrite Qr at 2; apply (wi_ring _ _ _ I)).
  assert (st = []) as ->.
  { apply nil_length_inv. rewrite <-(Forall2_length _ _ _ Hst), length_drop. unfold all_items. rewrite length_fmap.
    rewrite <-(Forall2_length _ _ _ (wi_subs _ _ _ I)), app_nil_r, Qt, (read_items_slots _ _ _ I).
    unfold slot_frames. rewrite !length_fmap. lia. }
  etrans; [apply (inv_quiescent _ _ _ _ i Hinv); done|]. cbn [disk]. rewrite (HV i), (di_disk _ _ _ _ DI i).
  unfold all_items. by rewrite <-done_items_all.
Qed.


(** ** A run that can be evaluated *)

Definition live_ok_b (size : Z) (l : live) (a : live_action) : bool :=
  match a with
  | Driver e => calm_b (lv_world l) e &&
      match e with Submit b now => bool_decide (is_Some (map_reserve (lv_world l).(w_target) b now).1.1) | _ => true end
  | Thread (Flag off n) => (0 <=? off) && (0 <? n) && (off + n <=? size)
  | Thread (Guest _) => false
  | Thread Apply =>
      match CopyProtocol.stream (view l) with
      | it :: _ => in_flight (copying (lv_core l)) it.1 || bool_decide (length (outstanding (view l)) = 0%nat)
      | [] => true
      end
  | Thread _ => true
  end.

Lemma live_ok_b_ok size l a : live_ok_b size l a = true -> live_ok size l a.
Proof.
  destruct a as [e|act]; cbn [live_ok_b live_ok].
  - intros [H1%calm_b_ok H2]%andb_true_iff. split; [done|]. destruct e; try done. intros _. by apply bool_decide_eq_true_1 in H2.
  - unfold in_order. destruct act; try done; cbn [action_ok].
    + destruct (CopyProtocol.stream (view l)) as [|it rest]; [done|]. cbn [core view].
      intros [H|H]%orb_true_iff; split; try done; [by rewrite H|]. apply bool_decide_eq_true_1, nil_length_inv in H. by rewrite H.
    + rewrite !andb_true_iff, !Z.leb_le, Z.ltb_lt. intros. split; [lia|done].
Qed.

Fixpoint live_exec device fa (size : Z) skip_zero (l : live) (acts : list live_action) : option live :=
  match acts with
  | [] => Some l
  | a :: acts' => if live_ok_b size l a then l' ← live_next device fa size skip_zero l a; live_exec device fa size skip_zero l' acts' else None
  end.

Lemma live_exec_run device fa size skip_zero l0 l l' acts :
  live_run device fa size skip_zero l0 l -> live_exec device fa size skip_zero l acts = Some l' -> live_run device fa size skip_zero l0 l'.
Proof.
  revert l. induction acts as [|a acts IH]; intros l R; cbn; [by intros [= <-]|].
  destruct (live_ok_b size l a) eqn:Hb; [|done]. destruct (live_next _ _ _ _ l a) as [l1|] eqn:E; [|done]. cbn.
  apply IH. eapply live_step; [done|by apply live_ok_b_ok|done].
Qed.

(** The chunk is read while the device works on a write to it; the record
    comes while the chunk is under way. *)
Definition live_demo_acts : list live_action :=
  [Driver (Submit demo_write 100); Thread (Flag 4096 512); Thread CopyProtocol.Read; Driver (Fill 0); Driver (Complete 0 false);
   Driver demo_read; Thread Apply; Thread Land; Thread Clear; Thread LateOne; Thread Return].

Definition live_demo : live := mk_live demo_fresh 0 (fd_app demo_empty_feed) Idle [].

