(* ===== verification/SeedDrain.v ===== *)
(** * A seed, the drain, and the records after it

    The replica that the hypervisor copied while the node ran, the drain of
    the driver's bitmap with which [check_seed] adopts it, and the records
    that are read from then on.  [rkcdp-seed.py] says that everything written
    since the boot is in the bitmap, so that one recovery makes the replica
    current: the first theorem is that, the second a run in which the recovery
    of a gap takes the bits before the seed is there. *)
From S2P Require Import Prelude Dmcdp Files Seed Replica Apply CopyProtocol Consume Daemon CopyThreads MainLoop Driver Ring DirtyMap DriverRuns DriverStream ChangeMap DriverRecovery LiveCopy.

#[local] Arguments Z.pow : simpl never.

(** ** Catching up *)

Lemma reaches_mono device (G G' : world -> event -> Prop) w0 w :
  (forall w e, G w e -> G' w e) -> reaches device G w0 w -> reaches device G' w0 w.
Proof. intros H R. induction R; constructor; auto. Qed.

Lemma reaches_trans device G w0 w1 w2 : reaches device G w0 w1 -> reaches device G w1 w2 -> reaches device G w0 w2.
Proof. intros R1 R2. induction R2; [done|by constructor]. Qed.

(** What was submitted, and what the driver logged for it. *)
Definition requests (subs : list sub) : list (bio * cdp_pb) := (fun sb => (sb_bio sb, sb_pb sb)) <$> subs.

Lemma requests_grow device G w0 w : reaches device G w0 w -> exists rest, requests (w_subs w) = requests (w_subs w0) ++ rest.
Proof.
  induction 1 as [|w e _ (rest & IH) _]; [exists []; by rewrite app_nil_r|].
  assert (forall k b pb p p', w_subs w !! k = Some (mk_sub b pb p) -> requests (<[k := mk_sub b pb p']> (w_subs w)) = requests (w_subs w)) as HI.
  { intros k b pb p p' Hk. unfold requests. rewrite list_fmap_insert. apply list_insert_id. by rewrite list_lookup_fmap, Hk. }
  destruct e as [b now|k|k error|copy_ok nonblock count|alloc copied cmd|]; cbn [step].
  - destruct (map_reserve (w_target w) b now) as [[pb o] t']. cbn [w_subs]. unfold requests in *. rewrite fmap_app, IH, <-app_assoc. by eexists.
  - destruct (w_subs w !! k) as [[b [off|] []]|] eqn:Hk; try by exists rest. exists rest. cbn [w_subs]. by erewrite HI.
  - destruct (w_subs w !! k) as [[b pb []]|] eqn:Hk; try by exists rest. exists rest. cbn [w_subs]. by erewrite HI.
  - exists rest. by destruct (cdp_read _ _ _ _) as [[] t'].
  - by exists rest.
  - by exists rest.
Qed.

Lemma all_items_requests t subs : all_items t (logged subs) = (bio_item t ∘ fst) <$> filter (fun r => is_Some r.2) (requests subs).
Proof.
  unfold all_items, logged, requests. induction subs as [|sb subs IH]; [done|].
  rewrite fmap_cons, !filter_cons. cbn [snd]. case_decide; [|done]. by rewrite !fmap_cons, IH.
Qed.

Lemma kept_requests subs : Forall kept subs <-> Forall (fun r => logs r.1 = true -> is_Some r.2) (requests subs).
Proof. unfold requests. by rewrite Forall_fmap. Qed.

Lemma apply_kept t img subs : Forall kept subs -> apply_all img (all_items t (logged subs)) ≡ apply_all img (all_items t subs).
Proof. apply apply_logged. Qed.

Section Drain.
Variable device : cdp_target -> bio -> bool -> image -> image.
Hypothesis device_works : forall t b disk, valid_bio t b -> device t b false disk ≡ bio_effect t b disk.
Hypothesis device_local : forall t b error disk i, ~ touches (bio_item t b) i -> device t b error disk i = disk i.

(** The disk at a moment of a calm run is what it will be where no later
    record touches it. *)
Lemma disk_settled disk0 begin len w D q i :
  world_inv w D q -> disk_inv disk0 begin len w -> Forall kept (w_subs w) ->
  let items := all_items (w_target w) (logged (w_subs w)) in
  ~ touched (drop (length D) items) i -> w_disk w i = apply_all disk0 (take (length D) items) i.
Proof.
  intros I DI HK items Ht. destruct (read_items_like w D q I) as (_ & _ & HF). fold items in HF.
  rewrite (di_disk _ _ _ _ DI i). rewrite <-(all_done_items (w_target w)).
  - rewrite <-(apply_kept _ _ _ HK i). fold items. rewrite <-(take_drop (length D) items) at 1. rewrite apply_all_app. by apply apply_all_untouched.
  - intros sb Hsb Hd Y. destruct (logs (sb_bio sb)) eqn:Hl; [|by apply unlogged_effect].
    apply apply_img_untouched. intros T. apply Ht. apply Exists_exists. exists (bio_item (w_target w) (sb_bio sb)). split; [|done].
    apply HF; [done|done|]. exact (proj1 (Forall_forall _ _) HK sb Hsb Hl).
Qed.

(** From any moment of a calm run on, an image that is right at a byte is
    brought to the disk there by the records read since. *)
Lemma catch_up disk0 begin len w2 w3 D2 q2 T img i :
  world_inv w2 D2 q2 -> disk_inv disk0 begin len w2 -> reaches device calm w2 w3 -> world_inv w3 (D2 ++ T) [] ->
  Forall (fun sb => is_done (sb_phase sb) = true) (w_subs w3) -> Forall kept (w_subs w3) -> img i = w_disk w2 i ->
  apply_all img (items_of (slot_frames T)) i = w_disk w3 i.
Proof.
  intros I2 DI2 R I3 Hd3 HK3 Hi.
  assert (disk_inv disk0 begin len w3) as DI3 by (clear -R DI2 device_works; induction R; [done|by apply step_disk]).
  assert (tg_begin (w_target w3) = tg_begin (w_target w2)) as Eb by (by rewrite (proj1 (di_place _ _ _ _ DI3)), (proj1 (di_place _ _ _ _ DI2))).
  destruct (requests_grow _ _ _ _ R) as [rest Er].
  assert (Forall kept (w_subs w2)) as HK2 by (apply kept_requests in HK3; apply kept_requests; rewrite Er in HK3; by apply Forall_app in HK3 as [? _]).
  set (A2 := all_items (w_target w2) (logged (w_subs w2))). set (A3 := all_items (w_target w3) (logged (w_subs w3))).
  assert (exists more, A3 = A2 ++ more) as [more EA].
  { unfold A3, A2. rewrite (all_items_place (w_target w2)), !all_items_requests, Er by done. rewrite filter_app, fmap_app. by eexists. }
  destruct (read_items_like _ _ _ I2) as (_ & Hlen & _). fold A2 in Hlen.
  assert (take (length D2) A3 = take (length D2) A2) as Etk by (rewrite EA; by apply take_app_le).
  assert (Forall2 like (drop (length D2) A3) (items_of (slot_frames T))) as HL.
  { destruct (read_items_like _ _ _ I3) as (H & H3 & _). fold A3 in H, H3. rewrite (read_items_slots _ _ _ I3) in H.
    rewrite take_ge in H.
    - unfold slot_frames in H |- *. rewrite !fmap_app in H. apply (Forall2_drop _ _ _ (length D2)) in H. by rewrite drop_app_length' in H by (by rewrite !length_fmap).
    - pose proof (Forall2_length _ _ _ (wi_subs _ _ _ I3)) as E. rewrite app_nil_r in E. unfold A3, all_items. rewrite length_fmap. lia. }
  rewrite <-(like_apply_all _ _ _ HL).
  rewrite (di_disk _ _ _ _ DI3 i), (done_items_all _ _ Hd3). fold (all_items (w_target w3) (w_subs w3)).
  rewrite <-(apply_kept _ _ _ HK3 i). fold A3. rewrite <-(take_drop (length D2) A3) at 2. rewrite apply_all_app.
  destruct (decide (touched (drop (length D2) A3) i)) as [Tc|Tc]; [by apply apply_all_touched|].
  rewrite !apply_all_untouched by done. rewrite Hi, Etk. apply (disk_settled disk0 begin len w2 D2 q2); try done.
  fold A2. intros H. apply Tc. rewrite EA, drop_app_le by done. unfold touched. apply Exists_app. by left.
Qed.

(** ** What the hypervisor copied *)

(** The seeding: no request fails or overlaps one in flight, and nothing
    clears the bitmap. *)
Definition seeding (w : world) (e : event) : Prop := calm w e /\ tracking w e.

(** Every byte was read from the disk at some moment since the boot, or a
    request has written it since (and its record may have been applied). *)
Definition seeded_from (w0 w : world) (img : image) (size : Z) : Prop :=
  forall i, 0 <= i < size ->
    (exists wi, reaches device seeding w0 wi /\ reaches device seeding wi w /\ img i = w_disk wi i) \/
    (exists sb, sb ∈ w_subs w /\ touches (bio_item (w_target w) (sb_bio sb)) i).

Lemma step_bit w e i :
  target_ok (w_target w) -> tracking w e -> 0 <= i -> test_bit (chunk_of (w_target w) i) (tg_bitmap (w_target w)) = true ->
  test_bit (chunk_of (w_target (step device w e)) i) (tg_bitmap (w_target (step device w e))) = true.
Proof.
  intros K [Hok Hc] Hi. unfold chunk_of. assert (0 <= i / 512 / tg_chunk_sectors (w_target w)) as Hx.
  { pose proof (to_chunk _ K). apply Z.div_pos; [apply Z.div_pos; lia|lia]. }
  destruct e as [b now|k|k error|copy_ok nonblock count|alloc copied cmd|]; cbn [step].
  - pose proof (map_static (w_target w) b now) as M. destruct (map_reserve _ _ _) as [[pb o] t']. destruct M as (Eb & _ & _ & Ec & _).
    cbn [w_target]. rewrite Eb, Ec. destruct (logs b); [|done]. destruct Hok as [V _]. by apply mark_keeps.
  - by destruct (w_subs w !! k) as [[b [off|] []]|].
  - destruct (w_subs w !! k) as [[b pb []]|]; try done. by destruct pb.
  - unfold cdp_read. by destruct (cdp_read_loop _ _ _ _ _ _ _).
  - cbn [w_target]. assert ((cdp_ioctl alloc copied cmd (w_target w)).2 = w_target w \/ (cdp_ioctl alloc copied cmd (w_target w)).2 = cdp_reset_stats (w_target w)) as [->| ->]; try done.
    destruct cmd as [|len [|]| | | |]; cbn; try done; try (by auto). unfold cdp_ioctl_bitmap. destruct (_ <? _); [by left|]. destruct alloc; by left.
  - done.
Qed.

Lemma seeding_tracking w e : seeding w e -> tracking w e.
Proof. by intros [_ H]. Qed.
Lemma seeding_calm w e : seeding w e -> calm w e.
Proof. by intros [H _]. Qed.

Lemma reaches_bit w1 w2 i :
  (exists D q, world_inv w1 D q) -> reaches device tracking w1 w2 -> 0 <= i ->
  test_bit (chunk_of (w_target w1) i) (tg_bitmap (w_target w1)) = true -> test_bit (chunk_of (w_target w2) i) (tg_bitmap (w_target w2)) = true.
Proof.
  intros I R Hi Hb. induction R as [|w e R IH Ht]; [done|]. apply step_bit; try done.
  destruct (reaches_inv device tracking w1 w (fun _ _ H => proj1 H) I R) as (D & q & I'). apply I'.
Qed.
(** A byte whose bit is clear is right in the seed. *)
Lemma seeded_clean w0 w img size i :
  (exists D q, world_inv w0 D q) -> w_subs w0 = [] -> reaches device seeding w0 w -> seeded_from w0 w img size ->
  0 <= i < size -> test_bit (chunk_of (w_target w) i) (tg_bitmap (w_target w)) = false -> img i = w_disk w i.
Proof.
  intros I0 Es R H Hi Hb. pose proof I0 as (D0 & q0 & I).
  assert (forall w', reaches device seeding w0 w' -> tracked (w_disk w0) [] w') as HT.
  { intros w' R'. rewrite <-Es. apply (reaches_tracked device device_local w0 w' (wi_target _ _ _ I)); [by rewrite Es|].
    by apply (reaches_mono _ seeding), R'; apply seeding_tracking. }
  assert (forall w', reaches device seeding w0 w' -> test_bit (chunk_of (w_target w') i) (tg_bitmap (w_target w')) = false -> w_disk w' i = w_disk w0 i) as Hclean.
  { intros w' R' Hb'. destruct (decide (w_disk w' i = w_disk w0 i)) as [E|E]; [done|]. destruct (tk_disk _ _ _ (HT w' R') i E). congruence. }
  destruct (H i Hi) as [(wi & R1 & R2 & ->)|(sb & Hsb & Ht)].
  - rewrite (Hclean w R Hb). apply Hclean; [done|].
    destruct (test_bit (chunk_of (w_target wi) i) (tg_bitmap (w_target wi))) eqn:E; [|done]. rewrite <-Hb. symmetry. apply (reaches_bit wi); try done; try lia.
    + apply (reaches_inv device seeding w0 wi); [|done|done]. by intros ? ? [[? _] _].
    + apply (reaches_mono _ seeding); [apply seeding_tracking|done].
  - destruct (tk_subs _ _ _ (HT w R)) as (s2 & E & _ & Hm). rewrite E in Hsb. cbn [app] in Hsb.
    destruct (proj1 (Forall_forall _ _) Hm sb Hsb i Ht). congruence.
Qed.
End Drain.

(** ** The daemon *)

Section Adopt.
Context {fs : SparseFS} {B : Z} {laws : SparseFSLaws fs B}.
Variable libc_fallocate : file -> Z -> Z -> fallocate_result.
Variable chunk : Z.

(** What the daemon does in the iteration in which it finds the seed, with the
    recovery thread it starts run to its end, on the disk [dev]. *)
Definition adopt_seed (fd : cdp_fd) (dev : image) (seed_raw : option file) (now : Z) : SM daemon unit :=
  check_seed seed_raw now;;
  next_recovery fd now;;
  d ← sm_get id;
  match d_recovery_json d with
  | Some rc => recover libc_fallocate dev (d_size d) chunk (fun _ => false) rc
  | None => mret tt
  end.

(** The daemon waits for a seed, and one of this boot is there. *)
Record seed_waits (d : daemon) (size : Z) (time : option Z) : Prop := {
  sw_size : d_size d = size /\ 0 <= size /\ f_size (rp_fd (replica (d_app d))) = size;
  sw_layer : rp_seed (replica (d_app d)) = None;
  sw_copying : copying (d_app d) = None;
  sw_idle : d_base_progress d = None /\ d_recovery_alive d = false;
  sw_feed : recovery_queue (d_feed d) = [] /\ rebuild_lock (d_feed d) = false;
  sw_manifest : exists m b, d_manifest_json d = Some m /\ d_boot_id d = Some b /\ m_seeded m = Some (Some b, time);
}.

(** [check_seed] with the empty [seed.raw] that [rkcdp-seed] made. *)
Lemma check_seed_fresh now d size time :
  seed_waits d size time ->
  exists d', check_seed (Some (file_create size)) now d = (Ok tt, d') /\ daemon_ok (img_of (d_app d)) d' /\ d_size d' = size /\
    img_of (d_app d') = img_of (d_app d) /\ copying (d_app d') = None /\ is_Some (rp_seed (replica (d_app d'))) /\
    recovery_queue (d_feed d') = [-1] /\ rebuild_lock (d_feed d') = false /\
    d_base_progress d' = None /\ d_recovery_alive d' = false /\ d_seed_required d' = false /\ m_base_end_seq (d_manifest d') = Some 0.
Proof.
  intros [(Hs & H0 & Hf) Hl Hc (Hp & Hr) (Hq & Hlk) (m & b & Hj & Hbt & Hm)].
  destruct (SeedLayer_init_fresh (B := B) (img_of (d_app d)) size H0) as (l & El & Hls & Hinv).
  unfold check_seed. rewrite (sm_bind_Ok _ _ _ (Some m) d) by (unfold sm_get, load_json; by rewrite Hj).
  rewrite Hm. set (d1 := set_seed_required false (set_manifest m d)).
  rewrite (sm_bind_Ok _ _ _ tt (set_manifest m d)) by done.
  rewrite (sm_bind_Ok _ _ _ tt d1) by done. rewrite (sm_bind_Ok _ _ _ d1 d1) by done.
  set (d2 := set_d_app (with_replica (mk_Replica (rp_fd (replica (d_app d))) (rp_punch_ok (replica (d_app d))) (Some l)) (d_app d)) d1).
  rewrite (sm_bind_Ok _ _ _ tt d2).
  2: { change (d_app d1) with (d_app d). rewrite Hl. cbn beta iota zeta. change (d_size d1) with (d_size d). rewrite Hs, El. done. }
  change (d_boot_id d1) with (d_boot_id d). rewrite Hbt, bool_decide_eq_true_2 by done.
  rewrite (sm_bind_Ok _ _ _ tt d2) by done. eexists. split; [done|]. cbn. rewrite Hq. split_and!; try done.
  unfold daemon_ok, replica_ok. cbn. split; [congruence|]. split; [congruence|exact Hinv].
Qed.

Lemma next_recovery_starts fd now gap rc d d1 :
  d_base_progress d = None -> d_recovery_alive d = false -> recovery_queue (d_feed d) = [gap] ->
  start_recovery fd now gap (set_feed (mk_feed (fd_app (d_feed d)) (gap_seen (d_feed d)) [] (pending_bin (d_feed d)) (rebuild_lock (d_feed d))) d) = (Ok rc, d1) ->
  next_recovery fd now d = (Ok tt, d1).
Proof.
  intros Hp Hr Hq E. unfold next_recovery. rewrite (sm_bind_Ok _ _ _ d d) by done. rewrite Hq, Hr, Hp. cbn [negb andb].
  rewrite bool_decide_eq_true_2 by done. erewrite sm_bind_Ok by done. by rewrite (sm_bind_Ok _ _ _ _ _ E).
Qed.
Lemma start_recovery_inv fd now gap d rc d1 :
  start_recovery fd now gap d = (Ok rc, d1) -> d_recovery_json d1 = Some rc /\ d_size d1 = d_size d.
Proof.
  unfold start_recovery. intros H. apply sm_bind_Ok_inv in H as ([[bm c] n] & d0 & E0 & H). injection E0 as _ <-.
  apply sm_bind_Ok_inv in H as (es & d0 & E0 & H). injection E0 as _ <-. by injection H as <- <-.
Qed.

(** Adopting a seed takes the marked chunks from the disk and leaves the
    others. *)
Lemma adopt_seed_result w dev size now time d :
  0 < chunk -> target_ok (w_target w) -> status_fits (w_target w) -> tg_len (w_target w) * 512 = size -> seed_waits d size time ->
  exists d', adopt_seed (fd_of true true (w_target w)) dev (Some (file_create size)) now d = (Ok tt, d') /\
    daemon_ok (img_of (d_app d)) d' /\ d_size d' = size /\ copying (d_app d') = None /\ rebuild_lock (d_feed d') = false /\
    recovery_queue (d_feed d') = [] /\ d_recovery_json d' = None /\
    forall x, 0 <= x < size -> img_of (d_app d') x =
      if test_bit (chunk_of (w_target w) x) (tg_bitmap (w_target w)) then dev x else img_of (d_app d) x.
Proof.
  intros Hch K F Esz SW.
  destruct (check_seed_fresh now d size time SW) as (d1 & E1 & Hok & Hs1 & Hi1 & Hc1 & _ & Hq1 & Hl1 & Hp1 & Hr1 & _).
  unfold adopt_seed. rewrite (sm_bind_Ok _ _ _ _ _ E1).
  set (d2 := set_feed (mk_feed (fd_app (d_feed d1)) (gap_seen (d_feed d1)) [] (pending_bin (d_feed d1)) (rebuild_lock (d_feed d1))) d1).
  pose proof (bitmap_size _ K). pose proof (to_chunk _ K). pose proof (nbits_bounds _ K).
  destruct (recovery_result libc_fallocate dev size chunk (fun _ => false) Hch ltac:(done) (img_of (d_app d)) (fd_of true true (w_target w))
    (bitmap_bytes_of (tg_bitmap (w_target w))) (tg_chunk_sectors (w_target w)) (tg_nbits (w_target w)) now (-1) d2)
    as (d' & E & Hok' & Hs' & Hf & Hcp & Hj & Hdur & Hx); [exact Hok|exact Hs1|done|by apply read_bitmap_of_driver|lia|rewrite blen_bitmap_bytes; lia|].
  apply sm_bind_Ok_inv in E as (rc & d3 & E3 & E). destruct (start_recovery_inv _ _ _ _ _ _ E3) as [Hj3 Hs3].
  rewrite (sm_bind_Ok _ _ _ _ _ (next_recovery_starts _ _ _ _ _ _ Hp1 Hr1 Hq1 E3)). rewrite (sm_bind_Ok _ _ _ d3 d3) by done.
  rewrite Hj3, Hs3. change (d_size d2) with (d_size d1). rewrite Hs1, E. exists d'.
  split; [done|]. split; [done|]. split; [done|]. split; [by apply Hcp|]. split; [rewrite Hf; exact Hl1|]. split; [by rewrite Hf|]. split; [done|].
  intros x Hr. destruct (Hx x Hr) as [Hclean Hdirty]. destruct (chunk_dirty _ x K) as [_ Eb]; [by rewrite Esz|]. rewrite Eb in Hclean, Hdirty.
  destruct (test_bit _ _); [by apply Hdirty|]. rewrite Hclean by done. change (d_app d2) with (d_app d1). by rewrite Hi1.
Qed.

End Adopt.

(** ** Concrete runs *)

(** A seed whose bytes were all read at the boot; one write is complete and
    not read, a discard is in flight when the bitmap is drained. *)
Definition seeding_events : list event :=
  [Submit demo_write 100; Fill 0; Complete 0 false; Submit demo_discard 101; Fill 1].

Definition waiting_manifest : manifest := mk_manifest "n1" "/dev/sda" 1 1 1048576 None None (Some (Some "b1"%string, Some 40)) None.

Definition waiting_daemon : daemon :=
  mk_daemon demo_empty_feed 1048576 (Some "b1"%string) waiting_manifest (Some waiting_manifest) None true None false false 0 false zero_image.

Lemma waiting_daemon_waits : seed_waits waiting_daemon 1048576 (Some 40).
Proof. split; try done. by exists waiting_manifest, "b1"%string. Qed.

Definition seeding_b (w : world) (e : event) : bool := calm_b w e && tracking_b w e.

Lemma seeding_b_ok w e : seeding_b w e = true -> seeding w e.
Proof. intros [H1%calm_b_ok H2%tracking_b_ok]%andb_true_iff. by split. Qed.


(** A request is dropped while the seed is copied, and the next record
    announces it. *)
Definition gap_events : list event :=
  [Submit demo_big 100; Complete 0 false; Submit demo_discard 101; Fill 1; Complete 1 false; demo_read].

(** A gap while the seed is copied takes the bits of the drain.  A daemon
    that waits for its seed answers a gap with a recovery all the same, which
    clears the bitmap.  When a block that the hypervisor read before the
    dropped request is written to the replica after that, the drain finds no
    bit and the old content stays: nothing is pending anywhere, and the seed
    counts as the base. *)
Theorem gap_while_seeding :
  let w1 := run demo_device demo_fresh gap_events in
  let w2 := step demo_device w1 clear_bitmap in
  (exists d1, (on_feed (consume_reads (fun _ _ _ => FaZero) [] (w_reads w1));; next_recovery (fd_of true true (w_target w1)) 45) waiting_daemon = (Ok tt, d1) /\
     d_seed_required d1 = true /\ rc_gap_seq <$> d_recovery_json d1 = Some 0 /\ recovery_queue (d_feed d1) = []) /\
  bitmap_weight (tg_bitmap (w_target w2)) (tg_nbits (w_target w2)) = 0 /\
  rg_tail (tg_ring (w_target w2)) = rg_head (tg_ring (w_target w2)) /\ rg_gap_pending (tg_ring (w_target w2)) = false /\
  Forall (fun sb => is_done (sb_phase sb) = true) (w_subs w2) /\
  exists d', adopt_seed (fs := byte_fs) (fun _ _ _ => FaZero) 4194304 (fd_of true true (w_target w2)) (w_disk w2) (Some (file_create 1048576)) 50 waiting_daemon = (Ok tt, d') /\
    recovery_queue (d_feed d') = [] /\ img_of (d_app d') 524288 = Byte.x00 /\ w_disk w2 524288 = Byte.x42.
Proof.
  intros w1 w2.
  assert (reaches demo_device ok_event demo_fresh w2) as R.
  { assert (w2 = run demo_device demo_fresh (gap_events ++ [clear_bitmap])) as -> by (unfold w2, w1, run; by rewrite foldl_app).
    apply (run_reaches _ _ ok_event_b); [apply ok_event_b_ok|vm_compute; reflexivity]. }
  split.
  { set (m := (on_feed _;; _) waiting_daemon).
    assert ((m.1, d_seed_required m.2, rc_gap_seq <$> d_recovery_json m.2, recovery_queue (d_feed m.2)) = (Ok tt, true, Some 0, [])) as E by (vm_compute; reflexivity).
    clearbody m. destruct m as [o d1]. cbn [fst snd] in E. injection E as -> H1 H2 H3. exists d1. exact (conj eq_refl (conj H1 (conj H2 H3))). }
  do 3 (split; [vm_compute; reflexivity|]). split.
  { apply Forall_forall. intros sb Hsb%list_elem_of_In. revert sb Hsb. apply forallb_forall. vm_compute. reflexivity. }
  pose proof (fresh_inv 0 2048 4096 1 64 0 zero_image zero_image demo_params) as I0. fold demo_fresh in I0.
  destruct (reaches_inv demo_device ok_event demo_fresh w2 (fun _ _ H => H) ltac:(by exists [], []) R) as (D & q & I).
  destruct (adopt_seed_result (fs := byte_fs) (B := 1) (fun _ _ _ => FaZero) 4194304 w2 (w_disk w2) 1048576 50 (Some 40) waiting_daemon) as (d' & E & _ & _ & _ & _ & Hq & _ & Hx).
  - done.
  - apply I.
  - vm_compute. repeat constructor; discriminate.
  - reflexivity.
  - apply waiting_daemon_waits.
  - exists d'. split; [exact E|]. split; [exact Hq|]. split; [|vm_compute; reflexivity]. rewrite Hx by lia.
    replace (test_bit _ _) with false by (vm_compute; reflexivity). reflexivity.
Qed.
