(* ===== verification/DriverLine.v ===== *)
(** * The driver and the device mapper's lines

    The table line that makes a target ([cdp_ctr]), the lines [cdp_status]
    gives back, and loading and unloading the module.  [dmsetup] prints the
    start, the length and the type of a target before such a line; the daemon
    finds its ring device and its disk in them ([ensure_target]). *)
From Stdlib Require Import Ascii.
From stdpp Require Import pretty.
From S2P Require Import Prelude PyString Target HostScript Dmcdp Files Driver Ring DirtyMap.

(** ** The table line *)

(** [isdigit] *)
Definition isdigit (c : ascii) : bool := bool_decide (is_Some (digit_Z c)).

(** The longest run of digits, and what follows. *)
Fixpoint digit_run (s : list ascii) : list ascii * list ascii :=
  match s with
  | c :: s' => if isdigit c then let '(ds, rest) := digit_run s' in (c :: ds, rest) else ([], s)
  | [] => ([], [])
  end.

(** [sscanf(arg, "%llu%c", &offset, &dummy)]: the offset when the result is 1.
    The number wraps at 64 bits. *)
Definition sscanf_llu_c (arg : string) : option Z :=
  match digit_run (lstrip (chars arg)) with
  | ([], _) => None
  | (ds, []) => Some (to_u64 (digits_value ds))
  | _ => None
  end.

(** The arguments of [cdp_ctr]: the device and the offset when they and the
    module parameters are accepted. *)
Definition cdp_ctr_args (argv : list string) (ring_mb chunk_kb : Z) : option (string * Z) :=
  match argv with
  | [dev; off] =>
      let offset := sscanf_llu_c off in
      if ctr_args_ok (blen argv) offset ring_mb chunk_kb then pair dev <$> offset else None
  | _ => None
  end.

(** ** The status lines *)

Inductive status_type : Type := STATUSTYPE_INFO | STATUSTYPE_TABLE | STATUSTYPE_IMA.

(** [DMEMIT]: what fits into [maxlen] bytes, with the end of the string. *)
Definition DMEMIT (maxlen : nat) (text : string) : string := String.substring 0 (maxlen - 1) text.

(** The name of the character device that [device_create] makes. *)
Definition cdp_node (t : cdp_target) : string := ("cdp" +++ pretty (tg_minor t))%string.

Definition ratio (a b : Z) : string := (pretty a +++ "/" +++ pretty b)%string.

Definition info_words (t : cdp_target) : list string :=
  let g := tg_ring t in
  [cdp_node t; if rg_overflowed g then "OVERFLOWED" else "ok";
   "ring"; ratio (to_u64 (rg_head g - rg_tail g)) (rg_size g); "records"; pretty (tg_records t);
   "bytes"; pretty (tg_bytes_logged t); "overflows"; pretty (rg_overflows g); "seq"; pretty (rg_seq_next g);
   "bitmap"; ratio (bitmap_weight (tg_bitmap t) (tg_nbits t)) (tg_nbits t); if tg_dead t then "dead" else "live"]%string.

(** [cdp_status]; [dev] is [t->dev->name]. *)
Definition cdp_status (dev : string) (type : status_type) (maxlen : nat) (t : cdp_target) : string :=
  match type with
  | STATUSTYPE_INFO => DMEMIT maxlen (String.concat " " (info_words t))
  | STATUSTYPE_TABLE => DMEMIT maxlen (String.concat " " [dev; pretty (tg_start t)])
  | STATUSTYPE_IMA => ""
  end%string.

(** [cdp_iterate_devices] *)
Definition cdp_iterate_devices {A} (fn : string -> Z -> Z -> A) (dev : string) (t : cdp_target) : A :=
  fn dev (tg_start t) (tg_len t).

(** ** The module *)

Inductive module_part : Type := ChrdevRegion | CdpClass | TargetType.

#[export] Instance module_part_eq_dec : EqDecision module_part.
Proof. solve_decision. Defined.

(** [dm_cdp_init]: whether it succeeds, what it registered (the last first),
    and what the statements from the label it jumps to take away; [fails] are
    the calls that fail. *)
Definition dm_cdp_init (fails : module_part -> bool) : bool * list module_part * list module_part :=
  let err_chrdev := [ChrdevRegion] in
  let err_class := CdpClass :: err_chrdev in
  if fails ChrdevRegion then (false, [], [])
  else if fails CdpClass then (false, [ChrdevRegion], err_chrdev)
  else if fails TargetType then (false, [CdpClass; ChrdevRegion], err_class)
  else (true, [TargetType; CdpClass; ChrdevRegion], []).

(** What [dm_cdp_exit] takes away, in its order. *)
Definition dm_cdp_exit : list module_part := [TargetType; CdpClass; ChrdevRegion].

(** ** What the tools print *)

Definition CDP_TARGET_NAME : string := "cdp".

(** The line that [dmsetup status] and [dmsetup table] document for a target:
    where it begins, its length, its type, and what the driver said. *)
Definition dmsetup_line (t : cdp_target) (text : string) : string :=
  line_of [pretty (tg_begin t); pretty (tg_len t); CDP_TARGET_NAME] (text +++ String "010"%char "")%string.

(** ** Lemmas *)

Lemma isdigit_pretty_char d : (d < 10)%N -> isdigit (pretty_N_char d) = true.
Proof. intros H. by destruct d as [|[[[[]|[]|]|[[]|[]|]|]|[[[]|[]|]|[[]|[]|]|]|]]; try lia. Qed.

Lemma isdigit_pretty_go x : forall s, Forall (fun c => isdigit c = true) (chars s) -> Forall (fun c => isdigit c = true) (chars (pretty_N_go x s)).
Proof.
  induction (N.lt_wf_0 x) as [x _ IH]. intros s Hs. destruct (decide (0 < x)%N) as [Hx|Hx].
  - rewrite pretty_N_go_step by done. apply IH; [by apply N.div_lt|].
    constructor; [|done]. apply isdigit_pretty_char. by apply N.mod_lt.
  - replace x with 0%N by lia. by rewrite pretty_N_go_0.
Qed.

Lemma isdigit_pretty (x : N) : Forall (fun c => isdigit c = true) (chars (pretty x)).
Proof. unfold pretty, pretty_N. case_decide; [by repeat constructor|]. apply isdigit_pretty_go. constructor. Qed.

Lemma digit_run_all s : Forall (fun c => isdigit c = true) s -> digit_run s = (s, []).
Proof. induction 1 as [|c s Hc _ IH]; [done|]. cbn. by rewrite Hc, IH. Qed.

Lemma lstrip_field w : field w -> lstrip (chars w) = chars w.
Proof. intros [_ Hs]. apply lstrip_id. by destruct Hs. Qed.

Lemma sscanf_pretty z : 0 <= z < 2 ^ 64 -> sscanf_llu_c (pretty z) = Some z.
Proof.
  intros Hz. assert (pretty z = pretty (Z.to_N z)) as E by by destruct z as [|p|p]; [| |lia].
  unfold sscanf_llu_c. rewrite lstrip_field by apply field_pretty. rewrite E, digit_run_all by apply isdigit_pretty.
  destruct (chars (pretty (Z.to_N z))) as [|c s] eqn:Ec.
  { destruct (field_pretty_N (Z.to_N z)) as [Hne _]. by destruct (pretty (Z.to_N z)). }
  rewrite <-Ec, digits_value_pretty. f_equal. unfold to_u64. rewrite Z.mod_small; lia.
Qed.

Lemma length_append s t : String.length (s +++ t)%string = (String.length s + String.length t)%nat.
Proof. induction s as [|c s IH]; [done|]. exact (f_equal S IH). Qed.

Lemma DMEMIT_fits maxlen s : (String.length s < maxlen)%nat -> DMEMIT maxlen s = s.
Proof. intros H. apply substring_all. lia. Qed.

Lemma field_ratio a b : field (ratio a b).
Proof. unfold ratio. apply field_app; [apply field_pretty|]. apply (field_app_r "/"%string); [by repeat constructor|apply field_pretty]. Qed.

Lemma info_fields t : Forall field (info_words t).
Proof.
  unfold info_words, cdp_node. destruct (rg_overflowed _), (tg_dead t);
    repeat apply Forall_cons_2; try apply Forall_nil_2; try apply field_pretty; try apply field_ratio;
    try (apply (bool_decide_unpack _); vm_compute; exact I);
    (apply field_app_r; [by repeat constructor|apply field_pretty]).
Qed.

Lemma split_newline s : split (s +++ String "010"%char "")%string = split s.
Proof.
  unfold split. rewrite chars_app. f_equal. generalize (@nil ascii). induction (chars s) as [|c l IH]; intros word; cbn [app split_from].
  - change (split_from word ["010"%char] = split_from word []). cbn. by repeat case_decide.
  - by rewrite !IH.
Qed.

Lemma split_dmsetup t ws : Forall field ws -> split (dmsetup_line t (String.concat " " ws)) = pretty (tg_begin t) :: pretty (tg_len t) :: CDP_TARGET_NAME :: ws.
Proof.
  intros H. unfold dmsetup_line. rewrite split_line, split_newline, split_concat by (done || (repeat apply Forall_cons_2; try apply Forall_nil_2; try apply field_pretty; by apply (bool_decide_unpack _))).
  done.
Qed.

(** ** What the lines are good for *)

(** C33: the daemon and the driver agree on the names. When the mapping of the
    configured name is a target of the driver, and [dmsetup] prints what the
    driver says of it, the daemon adopts it: it opens the character device
    that the driver made for that target, and takes the device of the table
    line for its disk; nothing is created. *)
Theorem driver_adopted answer realpath c name dev t maxlen :
  conf_str c "dm_name" = Ok name -> field dev ->
  (String.length (String.concat " " (info_words t)) < maxlen)%nat ->
  (String.length dev + String.length (pretty (tg_start t)) + 1 < maxlen)%nat ->
  let status := ["dmsetup"; "status"; name]%string in
  let table := ["dmsetup"; "table"; name]%string in
  answer [] status = Some (mk_completed 0 (dmsetup_line t (cdp_status dev STATUSTYPE_INFO maxlen t))) ->
  answer [status] table = Some (mk_completed 0 (dmsetup_line t (cdp_status dev STATUSTYPE_TABLE maxlen t))) ->
  ensure_target answer realpath (mk_tgt c []) =
    (Ok ("/dev/" +++ cdp_node t)%string,
     mk_tgt (<["device"%string := JStr ("/dev/" +++ basename (realpath ("/sys/dev/block/" +++ dev)))%string]> c) [status; table]).
Proof.
  intros Hn Hd H1 H2 status table E1 E2. cbn [cdp_status] in E1, E2. rewrite DMEMIT_fits in E1 by done.
  rewrite DMEMIT_fits in E2 by (cbn [String.concat]; rewrite !length_append; cbn [String.length]; lia). unfold ensure_target.
  rewrite (sm_bind_Ok _ _ _ c (mk_tgt c [])) by done. rewrite (sm_bind_Ok _ _ _ name (mk_tgt c [])) by (unfold sm_res; by rewrite Hn).
  fold status. erewrite sm_bind_Ok by (unfold run; cbn [t_ran t_conf]; by rewrite E1). cbn [cp_returncode].
  change (0 =? 0) with true. cbn iota. erewrite sm_bind_Ok; last first.
  - unfold table_device. fold table. rewrite sm_bind_assoc. erewrite sm_bind_Ok by (unfold run; cbn [t_ran t_conf app]; by rewrite E2).
    cbn [cp_stdout]. rewrite split_dmsetup by (repeat constructor; try apply Hd; apply field_pretty). rewrite bool_decide_eq_true_2 by done.
    erewrite sm_bind_Ok by done. erewrite sm_bind_Ok by done. done.
  - cbn [cp_stdout]. unfold ring_device, sm_res. rewrite split_dmsetup by apply info_fields.
    unfold info_words. rewrite bool_decide_eq_true_2 by done. done.
Qed.

(** The table line is a faithful record of a target: the line [cdp_status]
    gives for it is accepted by the constructor, and names the same device
    and the same offset. *)
Theorem table_roundtrip dev maxlen t ring_mb chunk_kb :
  field dev -> 0 <= tg_start t < 2 ^ 64 -> (String.length dev + String.length (pretty (tg_start t)) + 1 < maxlen)%nat ->
  0 < ring_mb -> chunk_kb <> 0 -> power_of_two chunk_kb = true ->
  cdp_ctr_args (split (cdp_status dev STATUSTYPE_TABLE maxlen t)) ring_mb chunk_kb = Some (dev, tg_start t).
Proof.
  intros Hd Hs Hm Hr Hc Hp. cbn [cdp_status]. rewrite DMEMIT_fits.
  - rewrite split_concat by (repeat constructor; try apply Hd; apply field_pretty). unfold cdp_ctr_args. rewrite sscanf_pretty by done.
    unfold ctr_args_ok. change (blen [dev; pretty (tg_start t)] =? 2) with true.
    rewrite (proj2 (Z.leb_le _ _)), (proj2 (Z.ltb_lt _ _)), (proj2 (Z.eqb_neq ring_mb 0)), (proj2 (Z.eqb_neq chunk_kb 0)), Hp by lia. done.
  - cbn [String.concat]. rewrite !length_append. cbn [String.length]. lia.
Qed.

(** The module registers everything or keeps nothing, and unloading takes
    away what loading registered, the last first. *)
Theorem module_all_or_nothing fails :
  let '(ok, registered, released) := dm_cdp_init fails in
  (ok = true <-> forall p, fails p = false) /\
  if ok then registered = dm_cdp_exit /\ released = [] else released = registered.
Proof.
  unfold dm_cdp_init. destruct (fails ChrdevRegion) eqn:E1, (fails CdpClass) eqn:E2, (fails TargetType) eqn:E3; cbn;
    (split; [|done]); split; try done; intros H; try (by rewrite H in * ); by intros [].
Qed.

(** ** Concrete lines *)

Definition line_target : cdp_target := cdp_ctr_target 0 2048 0 1 64 3 zero_image.

Example line_target_status : cdp_status "8:0" STATUSTYPE_INFO 256 line_target =
  "cdp3 ok ring 0/1048576 records 0 bytes 0 overflows 0 seq 0 bitmap 0/16 live"%string.
Proof. vm_compute. reflexivity. Qed.

(** A machine on which [dmsetup] prints the lines of [line_target]. *)
Definition line_answer (ran : list (list string)) (cmd : list string) : option completed :=
  match cmd with
  | ["dmsetup"; "status"; _]%string => Some (mk_completed 0 (dmsetup_line line_target (cdp_status "8:0" STATUSTYPE_INFO 256 line_target)))
  | ["dmsetup"; "table"; _]%string => Some (mk_completed 0 (dmsetup_line line_target (cdp_status "8:0" STATUSTYPE_TABLE 256 line_target)))
  | _ => None
  end.

Lemma driver_adopted_witness :
  (ensure_target line_answer (fun p => if String.eqb p "/sys/dev/block/8:0" then "/sys/devices/pci0/block/sda" else p)%string (mk_tgt (default_conf "n1") [])).1 =
    Ok "/dev/cdp3"%string.
Proof.
  rewrite (driver_adopted line_answer _ (default_conf "n1") "rkcdp" "8:0" line_target 256).
  - reflexivity.
  - vm_compute. reflexivity.
  - apply (bool_decide_unpack _). vm_compute. exact I.
  - vm_compute. repeat constructor.
  - vm_compute. repeat constructor.
  - reflexivity.
  - reflexivity.
Defined.

Lemma table_roundtrip_witness :
  cdp_ctr_args (split (cdp_status "8:0" STATUSTYPE_TABLE 256 line_target)) 1 64 = Some ("8:0"%string, 0).
Proof.
  apply table_roundtrip.
  - apply (bool_decide_unpack _). vm_compute. exact I.
  - split; [discriminate|reflexivity].
  - vm_compute. repeat constructor.
  - reflexivity.
  - discriminate.
  - reflexivity.
Defined.
