(* ===== verification/SeedCli.v ===== *)
(** * The command line of the seeding program ([rkcdp-seed.py])

    Its argument parser, the [--status] listing, and what [main] does before
    either: the whole program, from its arguments to its exit code. *)
From stdpp Require Import pretty.
From S2P Require Import Prelude PyString Target Files Seed Apply Consume HostScript Daemon CopyThreads MainLoop SeedTool Locate Launch.

(** ** The arguments *)

Record seed_cli : Type := mk_seed_cli { sc_args : seed_args; sc_status : bool }.

Definition seed_cli_defaults : seed_cli := mk_seed_cli (mk_seed_args None None None) false.

Definition seed_value (o v : string) (c : seed_cli) : option seed_cli :=
  let '(mk_seed_cli (mk_seed_args journal host vmid) st) := c in
  if String.eqb o "--journal" then Some (mk_seed_cli (mk_seed_args (Some v) host vmid) st)
  else if String.eqb o "--host" then Some (mk_seed_cli (mk_seed_args journal (Some v) vmid) st)
  else if String.eqb o "--vmid" then n ← py_int v; Some (mk_seed_cli (mk_seed_args journal host (Some n)) st)
  else None.

Definition seed_flag (o : string) (c : seed_cli) : option seed_cli :=
  if String.eqb o "--status" then Some (mk_seed_cli (sc_args c) true) else None.

(** [ap.parse_args()] *)
Definition seed_parse_args (args : list string) : res seed_cli :=
  match parse_opts seed_flag seed_value args seed_cli_defaults with
  | Some c => Ok c
  | None => Raise (SystemExit "2")
  end.

(** ** The program *)

(** [boot_id()]: the file of the kernel, when it can be read. *)
Definition seed_boot_id (proc_file : option string) : res string :=
  match proc_file with Some text => Ok (strip_str text) | None => Raise OSError end.

(** [boot_id()] of the daemon. *)
Definition boot_id (proc_file : option string) : option string := strip_str <$> proc_file.

(** The directories there are, what is in the node's directory, and the
    phases that were printed ([None]: [{"phase": "none"}]). *)
Record seed_world : Type := mk_seed_world {
  sw_dirs : gset string;
  sw_node : seed_state;
  sw_seed_json : bool;                    (* seed.json can be read *)
  sw_printed : list (option seed_phase);
}.

(** [print(json.dumps(load_json(seed_json, {"phase": "none"})))] *)
Definition print_status : SM seed_world unit := sm_upd (fun w =>
  mk_seed_world (sw_dirs w) (sw_node w) (sw_seed_json w)
    (sw_printed w ++ [if sw_seed_json w then Some (ss_phase (sw_node w)) else None])).

(** [os.makedirs(nd, exist_ok=True)] *)
Definition make_node_dir (nd : string) : SM seed_world unit := sm_upd (fun w =>
  mk_seed_world ({[nd]} ∪ sw_dirs w) (sw_node w) (sw_seed_json w) (sw_printed w)).

(** Steps on the node's directory; the first of them writes [seed.json]. *)
Definition on_node {A} (m : SM seed_state A) : SM seed_world A := fun w =>
  let '(o, s) := m (sw_node w) in (o, mk_seed_world (sw_dirs w) s true (sw_printed w)).

(** The program: its exit code, or the exception that ends it.  [env] is what
    the hosts answer to the arguments. *)
Definition seed_program (CH : Z) (hostname : string) (f : conf_file) (env : seed_args -> seed_env) (args : list string)
    : SM seed_world Z :=
  c ← sm_res (seed_parse_args args);
  nd ← sm_res (seed_dir (sc_args c) hostname f);
  make_node_dir nd;;
  if sc_status c then print_status;; mret 0
  else on_node (seed_main CH (env (sc_args c))).

(** ** What it does *)

(** A command line as the documentation writes it. *)
Definition seed_words (a : seed_args) (st : bool) : list string :=
  match sa_journal a with Some j => ["--journal"%string; j] | None => [] end ++
  match sa_host a with Some h => ["--host"%string; h] | None => [] end ++
  match sa_vmid a with Some v => ["--vmid"%string; pretty v] | None => [] end ++
  if st then ["--status"%string] else [].

Definition plain_args (a : seed_args) : bool :=
  is_value (default EmptyString (sa_journal a)) && is_value (default EmptyString (sa_host a)).

(** The parser reads a command line back as what was meant. *)
Theorem seed_args_roundtrip a st : plain_args a = true -> seed_parse_args (seed_words a st) = Ok (mk_seed_cli a st).
Proof.
  unfold plain_args, seed_words, seed_parse_args. destruct a as [journal host vmid]. cbn [sa_journal sa_host sa_vmid].
  intros [H1 H2]%andb_true_iff. unfold seed_cli_defaults.
  assert (forall c rest, parse_opts seed_flag seed_value (match journal with Some j => ["--journal"%string; j] | None => [] end ++ rest) (mk_seed_cli (mk_seed_args None None None) c)
    = parse_opts seed_flag seed_value rest (mk_seed_cli (mk_seed_args journal None None) c)) as E1.
  { intros c rest. destruct journal as [j|]; [|done]. cbn [app]. by erewrite parse_value by done. }
  assert (forall c rest, parse_opts seed_flag seed_value (match host with Some h => ["--host"%string; h] | None => [] end ++ rest) (mk_seed_cli (mk_seed_args journal None None) c)
    = parse_opts seed_flag seed_value rest (mk_seed_cli (mk_seed_args journal host None) c)) as E2.
  { intros c rest. destruct host as [h|]; [|done]. cbn [app]. by erewrite parse_value by done. }
  assert (forall c rest, parse_opts seed_flag seed_value (match vmid with Some v => ["--vmid"%string; pretty v] | None => [] end ++ rest) (mk_seed_cli (mk_seed_args journal host None) c)
    = parse_opts seed_flag seed_value rest (mk_seed_cli (mk_seed_args journal host vmid) c)) as E3.
  { intros c rest. destruct vmid as [v|]; [|done]. cbn [app]. erewrite parse_value; [done|done|apply is_value_pretty|].
    cbn. by rewrite py_int_pretty. }
  rewrite E1, E2, E3. by destruct st.
Qed.

(** [--status] changes nothing of a seeding: it prints the phase that
    [seed.json] has and exits with 0.  But it makes the node's directory, for
    which the manager then shows a node. *)
Theorem seed_status_result CH hostname f env a nd w :
  plain_args a = true -> seed_dir a hostname f = Ok nd ->
  seed_program CH hostname f env (seed_words a true) w =
    (Ok 0, mk_seed_world ({[nd]} ∪ sw_dirs w) (sw_node w) (sw_seed_json w)
             (sw_printed w ++ [if sw_seed_json w then Some (ss_phase (sw_node w)) else None])).
Proof. intros Hp Hd. unfold seed_program.
  rewrite (sm_bind_Ok _ _ _ (mk_seed_cli a true) w) by (unfold sm_res; by rewrite seed_args_roundtrip).
  cbn [sc_args sc_status]. rewrite (sm_bind_Ok _ _ _ nd w) by (unfold sm_res; by rewrite Hd). done. Qed.

(** Without [--status] the program is [seed_main] on what its arguments and
    the hosts say, in the daemon's node directory. *)
Theorem seed_program_main CH hostname f env a nd w :
  plain_args a = true -> seed_dir a hostname f = Ok nd ->
  let '(o, s) := seed_main CH (env a) (sw_node w) in
  seed_program CH hostname f env (seed_words a false) w = (o, mk_seed_world ({[nd]} ∪ sw_dirs w) s true (sw_printed w)).
Proof.
  intros Hp Hd. destruct (seed_main CH (env a) (sw_node w)) as [o s] eqn:E. unfold seed_program.
  rewrite (sm_bind_Ok _ _ _ (mk_seed_cli a false) w) by (unfold sm_res; by rewrite seed_args_roundtrip).
  cbn [sc_args sc_status]. rewrite (sm_bind_Ok _ _ _ nd w) by (unfold sm_res; by rewrite Hd).
  set (w1 := mk_seed_world ({[nd]} ∪ sw_dirs w) (sw_node w) (sw_seed_json w) (sw_printed w)).
  rewrite (sm_bind_Ok _ _ _ tt w1) by done. unfold on_node. change (sw_node w1) with (sw_node w). by rewrite E.
Qed.

(** A seed of this boot is recognised: the program and the daemon read the
    same file, and [check_seed] queues the drain. *)
Theorem seed_of_this_boot {fs : SparseFS} proc_file b m time now d :
  seed_boot_id proc_file = Ok b -> d_boot_id d = boot_id proc_file ->
  d_manifest_json d = Some m -> m_seeded m = Some (Some b, time) ->
  exists d', check_seed None now d = (Ok tt, d') /\ recovery_queue (d_feed d') = recovery_queue (d_feed d) ++ [-1] /\ d_seed_required d' = false.
Proof.
  intros Hb Hd Hj Hm. assert (Some b = d_boot_id d) as E.
  { rewrite Hd. unfold seed_boot_id, boot_id in *. by destruct proc_file as [text|]; [injection Hb as <-|]. }
  destruct (check_seed_adopted now m (Some b) time d Hj Hm ltac:(by rewrite <-E)) as (d' & E' & Hs & H). exists d'.
  rewrite decide_True in H by done. destruct H as (_ & Hq & _). by split_and!.
Qed.

(** ** Concrete command lines *)

Definition demo_seed_args : seed_args := mk_seed_args (Some "/j"%string) (Some "10.0.0.1"%string) (Some 105).

Lemma seed_args_roundtrip_witness :
  seed_parse_args ["--journal"; "/j"; "--host"; "10.0.0.1"; "--vmid"; "105"; "--status"]%string = Ok (mk_seed_cli demo_seed_args true).
Proof. exact (seed_args_roundtrip demo_seed_args true eq_refl). Defined.

Definition no_node : seed_world := mk_seed_world ∅ no_seed false [].

Lemma seed_status_result_witness :
  seed_program 64 "n1" NoFile (fun _ => demo_seed_env 0 0 None) (seed_words demo_seed_args true) no_node =
    (Ok 0, mk_seed_world {["/j/n1"%string]} no_seed false [None]).
Proof. exact (seed_status_result 64 "n1" NoFile _ demo_seed_args "/j/n1" no_node eq_refl eq_refl). Defined.

Lemma seed_program_main_witness :
  (seed_program 64 "n1" NoFile (fun _ => demo_seed_env 0 1 None) (seed_words demo_seed_args false) no_node).1 = Ok 1.
Proof.
  pose proof (seed_program_main 64 "n1" NoFile (fun _ => demo_seed_env 0 1 None) demo_seed_args "/j/n1" no_node eq_refl eq_refl) as H.
  destruct (seed_main _ _ _) as [o s] eqn:E. rewrite H. apply (f_equal fst) in E. vm_compute in E. exact (eq_sym E).
Defined.

Lemma seed_of_this_boot_witness :
  exists d', check_seed (fs := byte_fs) None 50 seeded_daemon = (Ok tt, d') /\ recovery_queue (d_feed d') = [-1].
Proof.
  destruct (seed_of_this_boot (fs := byte_fs) (Some "b1
"%string) "b1" seeded_manifest (Some 40) 50 seeded_daemon) as (d' & E & H & _); [reflexivity|reflexivity|reflexivity|reflexivity|].
  exists d'. split; [exact E|exact H].
Defined.
