(* ===== verification/ApiRebuild.v ===== *)
(** * The manager's rebuilds over time ([api_rkcdp.py])

    A request is checked against the node's progress file and then starts
    [rkcdp-rebuild], which writes that file itself.  Here are the handlers, the
    processes and the progress files as one transition system: when at most
    one rebuild of a node runs, when two do, and when none can be started any
    more. *)
From Stdlib Require Import Ascii.
From stdpp Require Import pretty.
From S2P Require Import Prelude PyString Files Seed Daemon MainLoop SeedTool Api ApiNodes.

(** ** The state *)

(** [_load(path, default)]: a file that is missing or is no JSON gives the
    default. *)
Inductive json_file (D : Type) : Type := NoSuchFile | BadJson | JsonDoc (d : D).
Arguments NoSuchFile {D}.
Arguments BadJson {D}.
Arguments JsonDoc {D} d.

Definition api_load {D} (f : json_file D) (dflt : option D) : option D :=
  match f with JsonDoc d => Some d | _ => dflt end.

(** A rebuild between [Popen] and its exit.  [lock_var] is the local [lock] of
    [main], which names the lock file from the beginning (whether this rebuild
    has made the file or not) until the copy is done. *)
Inductive rphase : Type :=
  | Spawned                       (* Progress.__init__ has not written the file *)
  | Working (lock_var : bool)     (* ... it has *)
  | Ending (lock_var : bool).     (* done or failed is written, the finally is still to come *)

Record rproc : Type := mk_rproc { rp_node : string; rp_phase : rphase }.

Record manager : Type := mk_manager {
  mg_progress : string -> json_file prog_doc;    (* PROGRESS_DIR/<node>.json *)
  mg_locks : gset string;                        (* the nodes whose directory has a .rebuild.lock *)
  mg_handlers : list string;                     (* requests that passed the checks *)
  mg_procs : list rproc;                         (* rebuilds that run *)
}.

Definition rq_name (rq : rebuild_request) : string := of_chars (strip (default [] (rq_node rq))).

Definition prog_state (m : manager) (node : string) : option string := pg_state <$> api_load (mg_progress m node) None.

(** [prog and prog.get("state") == "running"] *)
Definition prog_running (m : manager) (node : string) : bool := bool_decide (prog_state m node = Some "running"%string).

(** [rkcdp_rebuild_status]: [None] is [{"state": "none"}]. *)
Definition rkcdp_rebuild_status (m : manager) (node : string) : option prog_doc := api_load (mg_progress m node) None.

Definition write_progress (node state : string) (m : manager) : manager :=
  mk_manager (fun n => if decide (n = node) then JsonDoc (mk_prog_doc state "") else mg_progress m n)
    (mg_locks m) (mg_handlers m) (mg_procs m).

Definition set_locks (f : gset string -> gset string) (m : manager) : manager :=
  mk_manager (mg_progress m) (f (mg_locks m)) (mg_handlers m) (mg_procs m).

Definition set_procs (f : list rproc -> list rproc) (m : manager) : manager :=
  mk_manager (mg_progress m) (mg_locks m) (mg_handlers m) (f (mg_procs m)).

Definition idle_manager : manager := mk_manager (fun _ => NoSuchFile) ∅ [] [].

(** ** The steps *)

Inductive mstep : Type :=
  | Post (rq : rebuild_request) (host : option host_row)   (* the handler up to its checks *)
  | Spawn (k : nat)                                        (* ... and its [Popen] *)
  | Begin (k : nat)                                        (* the rebuild makes its Progress *)
  | TakeLock (k : nat)                                     (* step 2 writes the lock file *)
  | DropLock (k : nat)                                     (* the copy is done: [os.remove(lock)], [lock = None] *)
  | End (k : nat) (ok : bool)                              (* [Progress.done] or [Progress.fail] *)
  | Exit (k : nat)                                         (* the [finally] of [main] *)
  | Kill (k : nat).                                        (* it dies on the way *)

Section Manager.
Variables bin journal progress_dir : string.

(** What a request is answered, or that it goes on to start a rebuild. *)
Definition post_answer (m : manager) (rq : rebuild_request) (host : option host_row) : response :=
  rkcdp_rebuild bin journal progress_dir pretty rq (prog_running m (rq_name rq)) host.

(** A step of a rebuild that does not fit its phase changes nothing; a rebuild
    ends well only after it has given up the lock, and a removal of a lock
    file that is gone raises, which leads to [Progress.fail]. *)
Definition mnext (m : manager) (s : mstep) : manager :=
  match s with
  | Post rq host =>
      match post_answer m rq host with
      | Started _ => mk_manager (mg_progress m) (mg_locks m) (mg_handlers m ++ [rq_name rq]) (mg_procs m)
      | HttpError _ => m
      end
  | Spawn k =>
      match mg_handlers m !! k with
      | Some node => mk_manager (mg_progress m) (mg_locks m) (delete k (mg_handlers m)) (mg_procs m ++ [mk_rproc node Spawned])
      | None => m
      end
  | Begin k =>
      match mg_procs m !! k with
      | Some (mk_rproc node Spawned) => write_progress node "running" (set_procs (<[k := mk_rproc node (Working true)]>) m)
      | _ => m
      end
  | TakeLock k =>
      match mg_procs m !! k with
      | Some (mk_rproc node (Working true)) => set_locks (union {[node]}) m
      | _ => m
      end
  | DropLock k =>
      match mg_procs m !! k with
      | Some (mk_rproc node (Working true)) =>
          if decide (node ∈ mg_locks m)
          then set_locks (fun locks => locks ∖ {[node]}) (set_procs (<[k := mk_rproc node (Working false)]>) m)
          else m
      | _ => m
      end
  | End k ok =>
      match mg_procs m !! k with
      | Some (mk_rproc node (Working lock_var)) =>
          if ok && lock_var then m
          else write_progress node (if ok then "done" else "failed")%string (set_procs (<[k := mk_rproc node (Ending lock_var)]>) m)
      | _ => m
      end
  | Exit k =>
      match mg_procs m !! k with
      | Some (mk_rproc node (Ending lock_var)) =>
          set_locks (fun locks => if lock_var then locks ∖ {[node]} else locks) (set_procs (delete k) m)
      | _ => m
      end
  | Kill k => set_procs (delete k) m
  end.

Definition mrun (m : manager) (ss : list mstep) : manager := foldl mnext m ss.

(** The rebuilds of a node that are under way, from the moment a request for
    it has passed the checks up to the moment its end is written. *)
Definition at_work (node : string) (p : rproc) : Prop :=
  rp_node p = node /\ match rp_phase p with Ending _ => False | _ => True end.

#[export] Instance at_work_dec node p : Decision (at_work node p).
Proof. unfold at_work. destruct (rp_phase p); apply _. Defined.

Definition count {A} (P : A -> Prop) `{forall x, Decision (P x)} (l : list A) : nat := length (filter P l).

Definition under_way (m : manager) (node : string) : nat :=
  (count (eq node) (mg_handlers m) + count (at_work node) (mg_procs m))%nat.

(** No request for a node is checked while an earlier one has not come to
    writing its progress file. *)
Definition settled_posts (m : manager) (s : mstep) : Prop :=
  match s with
  | Post rq _ => (rq_name rq ∉ mg_handlers m) /\ Forall (fun p => rp_node p = rq_name rq -> rp_phase p <> Spawned) (mg_procs m)
  | _ => True
  end.

Inductive mreach (G : manager -> mstep -> Prop) (m0 : manager) : manager -> Prop :=
  | mreach_refl : mreach G m0 m0
  | mreach_step m s : mreach G m0 m -> G m s -> mreach G m0 (mnext m s).

(** ** Counting *)

Section Count.
Context {A : Type} (P : A -> Prop) `{forall x, Decision (P x)}.

Lemma count_delete l k x : l !! k = Some x -> count P l = (count P (delete k l) + (if decide (P x) then 1 else 0))%nat.
Proof.
  intros E. rewrite delete_take_drop. rewrite <-(take_drop_middle _ _ _ E) at 1. unfold count.
  rewrite !filter_app, !length_app, filter_cons. case_decide; cbn [length]; lia.
Qed.

Lemma count_delete_le l k : (count P (delete k l) <= count P l)%nat.
Proof.
  destruct (l !! k) as [x|] eqn:E; [rewrite (count_delete l k x E); lia|].
  apply lookup_ge_None_1 in E. by rewrite delete_take_drop, take_ge, drop_ge, app_nil_r by lia.
Qed.

Lemma count_insert l k x y : l !! k = Some x -> (P y -> P x) -> (count P (<[k := y]> l) <= count P l)%nat.
Proof.
  intros E Hxy. rewrite insert_take_drop by (by eapply lookup_lt_Some). rewrite <-(take_drop_middle _ _ _ E) at 3. unfold count.
  rewrite !filter_app, !length_app, !filter_cons. repeat case_decide; cbn [length]; tauto || lia.
Qed.

Lemma count_snoc l x : count P (l ++ [x]) = (count P l + (if decide (P x) then 1 else 0))%nat.
Proof. unfold count. rewrite filter_app, length_app, filter_cons. by case_decide. Qed.

Lemma count_pos l x : x ∈ l -> P x -> (1 <= count P l)%nat.
Proof.
  intros Hx Hp. unfold count. assert (x ∈ filter P l) as Hf by (by apply list_elem_of_filter).
  destruct (filter _ l); [by apply not_elem_of_nil in Hf|]. cbn. lia.
Qed.

Lemma count_none l : (forall x, x ∈ l -> ~ P x) -> count P l = 0%nat.
Proof.
  intros Hn. unfold count. destruct (filter P l) as [|x f] eqn:E; [done|].
  assert (x ∈ filter P l) as Hx by (rewrite E; by left). apply list_elem_of_filter in Hx as [Hp Hx]. by destruct (Hn x).
Qed.
End Count.

Lemma elem_of_delete {A} (x : A) (k : nat) (l : list A) : x ∈ delete k l -> x ∈ l.
Proof.
  rewrite delete_take_drop, elem_of_app. intros [H|H]; rewrite <-(take_drop k l), elem_of_app; [by left|right].
  revert H. rewrite <-(Nat.add_1_r k), <-drop_drop. destruct (drop k l); [done|by right].
Qed.

Lemma elem_of_insert {A} (x y : A) (k : nat) (l : list A) : x ∈ <[k := y]> l -> x = y \/ x ∈ l.
Proof.
  intros [j Hj]%list_elem_of_lookup. apply list_lookup_insert_Some in Hj as [(_ & <- & _)|(_ & Hj)]; [by left|right].
  by eapply list_elem_of_lookup_2.
Qed.

(** ** Invariants *)

Definition is_working (p : rproc) : Prop := match rp_phase p with Working _ => True | _ => False end.

Record manager_inv (m : manager) : Prop := {
  mi_one node : (under_way m node <= 1)%nat;
  mi_running p : p ∈ mg_procs m -> is_working p -> prog_state m (rp_node p) = Some "running"%string;
}.

(** A request for a node whose rebuild is running is refused. *)
Lemma running_refused rq m host cmd : prog_running m (rq_name rq) = true -> post_answer m rq host <> Started cmd.
Proof. unfold post_answer, rkcdp_rebuild. intros ->. by repeat case_match. Qed.

Lemma prog_state_write node state m n :
  prog_state (write_progress node state m) n = if decide (n = node) then Some state else prog_state m n.
Proof. unfold prog_state, write_progress. cbn. by case_decide. Qed.

(** A step that only takes processes away, or leaves them at their work. *)
Lemma shrink_inv m m' :
  manager_inv m -> mg_handlers m' = mg_handlers m -> mg_progress m' = mg_progress m ->
  (forall node, (count (at_work node) (mg_procs m') <= count (at_work node) (mg_procs m))%nat) ->
  (forall p, p ∈ mg_procs m' -> is_working p -> exists p', p' ∈ mg_procs m /\ is_working p' /\ rp_node p' = rp_node p) ->
  manager_inv m'.
Proof.
  intros [H1 H2] Eh Ep Hc Hw. split.
  - intros node. specialize (H1 node). specialize (Hc node). unfold under_way in *. rewrite Eh. lia.
  - intros p Hp Hs. destruct (Hw p Hp Hs) as (p' & Hp' & Hs' & <-). unfold prog_state. rewrite Ep. by apply H2.
Qed.

Lemma delete_inv m k : manager_inv m -> manager_inv (set_procs (delete k) m).
Proof.
  intros I. apply (shrink_inv m); [done..| |]; cbn [set_procs mg_procs]; [intros; apply count_delete_le|].
  intros p Hp Hs. exists p. split; [by eapply elem_of_delete|done].
Qed.

Lemma set_locks_inv m f : manager_inv m -> manager_inv (set_locks f m).
Proof. intros I. apply (shrink_inv m); try done. intros p Hp Hs. by exists p. Qed.

(** A process that comes to write the progress file is the only one at work
    on its node. *)
Lemma write_inv m k node phase phase' state :
  manager_inv m -> mg_procs m !! k = Some (mk_rproc node phase) ->
  match phase with Ending _ => False | _ => True end ->
  (match phase' with Ending _ => True | _ => state = "running"%string end) ->
  manager_inv (write_progress node state (set_procs (<[k := mk_rproc node phase']>) m)).
Proof.
  intros [H1 H2] Hk Hph Hst. assert (at_work node (mk_rproc node phase)) as Haw by by split. split.
  - intros n. specialize (H1 n). unfold under_way in *. cbn [write_progress set_procs mg_handlers mg_procs].
    pose proof (count_insert (at_work n) (mg_procs m) k _ (mk_rproc node phase') Hk) as Hc.
    assert (at_work n (mk_rproc node phase') -> at_work n (mk_rproc node phase)) as Himp by (intros [E _]; cbn in E; by subst n).
    specialize (Hc Himp). lia.
  - intros p Hp Hs. rewrite prog_state_write. cbn [write_progress set_procs mg_procs] in Hp.
    case_decide as Hn.
    + destruct phase' as [|lv|lv]; [by rewrite Hst..|]. exfalso.
      rewrite insert_take_drop in Hp by (by eapply lookup_lt_Some). specialize (H1 node). unfold under_way in H1.
      rewrite (count_delete _ _ _ _ Hk), decide_True in H1 by done.
      assert (1 <= count (at_work node) (delete k (mg_procs m)))%nat; [|lia]. apply (count_pos _ _ p).
      * rewrite delete_take_drop. rewrite elem_of_app, elem_of_cons in Hp. rewrite elem_of_app.
        destruct Hp as [?|[->|?]]; [by left|done|by right].
      * split; [done|]. unfold is_working in Hs. by destruct (rp_phase p).
    + apply elem_of_insert in Hp as [->|Hp]; [done|]. by apply H2.
Qed.

Lemma mnext_inv m s : manager_inv m -> settled_posts m s -> manager_inv (mnext m s).
Proof.
  intros I G. pose proof I as [H1 H2]. destruct s as [rq host|k|k|k|k|k ok|k|k]; cbn [mnext].
  - destruct (post_answer m rq host) as [c|cmd] eqn:E; [done|]. destruct G as [Gh Gp]. split; [|done].
    intros node. unfold under_way. cbn [mg_handlers mg_procs]. rewrite count_snoc. case_decide as Hn; [subst node|specialize (H1 node); unfold under_way in H1; lia].
    rewrite (count_none _ (mg_handlers m)) by (intros x Hx ?; by subst x). rewrite count_none; [lia|]. intros p Hp [En Hph].
    apply (running_refused rq m host cmd); [|done]. apply bool_decide_eq_true_2. rewrite <-En. apply H2; [done|].
    pose proof (proj1 (Forall_forall _ _) Gp p Hp En) as Hns. unfold is_working. by destruct (rp_phase p).
  - destruct (mg_handlers m !! k) as [node|] eqn:Hk; [|done]. split.
    + intros n. specialize (H1 n). unfold under_way in *. cbn [mg_handlers mg_procs].
      rewrite count_snoc. rewrite (count_delete _ _ _ _ Hk) in H1.
      assert ((if decide (at_work n (mk_rproc node Spawned)) then 1 else 0) <= if decide (n = node) then 1 else 0)%nat; [|lia].
      destruct (decide (at_work n (mk_rproc node Spawned))) as [[E _]|]; [|lia]. by rewrite decide_True.
    + intros p. cbn [mg_procs]. rewrite elem_of_app, list_elem_of_singleton. intros [Hp| ->]; [by apply H2|done].
  - destruct (mg_procs m !! k) as [[node []]|] eqn:Hk; try done. by eapply write_inv.
  - destruct (mg_procs m !! k) as [[node [|[]|]]|] eqn:Hk; try done.
  - destruct (mg_procs m !! k) as [[node [|[]|]]|] eqn:Hk; try done. case_decide; [|done]. apply set_locks_inv.
    apply (shrink_inv m); [done..| |]; cbn [set_procs mg_procs].
    + intros n. by apply (count_insert _ _ _ _ _ Hk).
    + intros p Hp Hs. apply elem_of_insert in Hp as [->|Hp]; [|by exists p].
      exists (mk_rproc node (Working true)). split; [by eapply list_elem_of_lookup_2|done].
  - destruct (mg_procs m !! k) as [[node [|lv|]]|] eqn:Hk; try done. destruct (ok && lv); [done|]. by eapply write_inv.
  - destruct (mg_procs m !! k) as [[node []]|] eqn:Hk; try done. by apply set_locks_inv, delete_inv.
  - by apply delete_inv.
Qed.

(** C32: at most one rebuild of a node.  When no request for a node is checked
    between the acceptance of an earlier one and the moment at which its
    rebuild writes the progress file, then at every time at most one rebuild of
    each node is under way, from the acceptance of its request to the writing
    of its end ("done" or "failed"; its clean-up comes after that), and one
    that has written the progress file is reported as running until then. *)
Theorem one_rebuild_at_a_time m :
  mreach settled_posts idle_manager m ->
  forall node, (under_way m node <= 1)%nat /\
    forall p, p ∈ mg_procs m -> rp_node p = node -> is_working p -> prog_running m node = true.
Proof.
  intros R. assert (manager_inv m) as [H1 H2].
  { induction R as [|m s R IH G]; [|by apply mnext_inv]. split; [intros node; apply Nat.le_0_l|]. intros p Hp. by apply not_elem_of_nil in Hp. }
  intros node. split; [apply H1|]. intros p Hp <- Hs. apply bool_decide_eq_true_2. by apply H2.
Qed.

(** ** Where it ends *)

(** The rebuild of a node was killed: its progress file says "running", and
    there is no rebuild of the node that could change that. *)
Definition orphaned (m : manager) (node : string) : Prop :=
  prog_state m node = Some "running"%string /\ under_way m node = 0%nat.

Lemma orphaned_procs m node : under_way m node = 0%nat ->
  (node ∉ mg_handlers m) /\ forall p, p ∈ mg_procs m -> ~ at_work node p.
Proof.
  unfold under_way. intros E. split.
  - intros H. pose proof (count_pos (eq node) _ _ H eq_refl). lia.
  - intros p Hp Hw. pose proof (count_pos (at_work node) _ _ Hp Hw). lia.
Qed.

Lemma mk_orphaned m node :
  prog_state m node = Some "running"%string -> (node ∉ mg_handlers m) -> (forall p, p ∈ mg_procs m -> ~ at_work node p) -> orphaned m node.
Proof. intros E Hh Hp. split; [done|]. unfold under_way. rewrite !count_none; [done|done|intros x Hx ?; by subst x]. Qed.

Lemma orphaned_step m s node : orphaned m node -> orphaned (mnext m s) node.
Proof.
  intros O. pose proof O as [E Hu]. destruct (orphaned_procs m node Hu) as [Hh Hp].
  assert (forall k n ph, mg_procs m !! k = Some (mk_rproc n ph) -> match ph with Ending _ => False | _ => True end -> n <> node) as Hne.
  { intros k n ph Hk Hph ->. apply (Hp (mk_rproc node ph)); [by eapply list_elem_of_lookup_2|done]. }
  destruct s as [rq host|k|k|k|k|k ok|k|k]; cbn [mnext].
  - destruct (post_answer m rq host) as [c|cmd] eqn:Ea; [done|]. apply mk_orphaned; [done| |done]. cbn [mg_handlers].
    rewrite elem_of_app, list_elem_of_singleton. intros [?|E2]; [done|]. apply (running_refused rq m host cmd); [|done].
    apply bool_decide_eq_true_2. by rewrite <-E2.
  - destruct (mg_handlers m !! k) as [n|] eqn:Hk; [|done]. apply mk_orphaned; [done| |].
    + cbn [mg_handlers]. by intros Hin%elem_of_delete.
    + intros p. cbn [mg_procs]. rewrite elem_of_app, list_elem_of_singleton. intros [?| ->]; [by apply Hp|]. intros [E1 _]. cbn in E1. subst n. apply Hh. by eapply list_elem_of_lookup_2.
  - destruct (mg_procs m !! k) as [[n []]|] eqn:Hk; try done. pose proof (Hne _ _ _ Hk I).
    apply mk_orphaned; [rewrite prog_state_write; by case_decide|done|]. intros p [->|Hin]%elem_of_insert; [by intros [? _]|by apply Hp].
  - destruct (mg_procs m !! k) as [[n [|[]|]]|] eqn:Hk; done.
  - destruct (mg_procs m !! k) as [[n [|[]|]]|] eqn:Hk; try done. case_decide; [|done]. pose proof (Hne _ _ _ Hk I).
    apply mk_orphaned; [done|done|]. intros p [->|Hin]%elem_of_insert; [by intros [? _]|by apply Hp].
  - destruct (mg_procs m !! k) as [[n [|lv|]]|] eqn:Hk; try done. destruct (ok && lv); [done|]. pose proof (Hne _ _ _ Hk I).
    apply mk_orphaned; [rewrite prog_state_write; by case_decide|done|]. intros p [->|Hin]%elem_of_insert; [by intros [? _]|by apply Hp].
  - destruct (mg_procs m !! k) as [[n []]|] eqn:Hk; try done. apply mk_orphaned; [done|done|].
    cbn [set_locks set_procs mg_procs]. intros p Hin%elem_of_delete. by apply Hp.
  - apply mk_orphaned; [done|done|]. cbn [set_procs mg_procs]. intros p Hin%elem_of_delete. by apply Hp.
Qed.

(** A killed rebuild blocks its node.  Once the rebuild of a node dies without
    writing an end, every later request for that node is refused, and none
    ever starts, whatever else happens. *)
Theorem killed_rebuild_blocks m m' node :
  orphaned m node -> mreach (fun _ _ => True) m m' ->
  orphaned m' node /\ forall rq host cmd, rq_name rq = node -> post_answer m' rq host <> Started cmd.
Proof.
  intros O R. assert (orphaned m' node) as O' by (induction R; [done|by apply orphaned_step]).
  split; [done|]. intros rq host cmd <-. apply running_refused, bool_decide_eq_true_2, O'.
Qed.
End Manager.

Definition demo_rq : rebuild_request := demo_request "node1".

(** A second request before the first rebuild has written its progress file:
    two rebuilds of the node run, and the manager started both. *)
Definition double_click : list mstep :=
  [Post demo_rq (Some demo_host); Spawn 0; Post demo_rq (Some demo_host); Spawn 0; Begin 0; Begin 1].

Theorem two_rebuilds_started :
  let m := mrun "/opt/rkcdp/rkcdp-rebuild" "/j" "/run/rkcdp" idle_manager double_click in
  under_way m "node1" = 2%nat /\ mg_procs m = [mk_rproc "node1" (Working true); mk_rproc "node1" (Working true)].
Proof. by vm_compute. Qed.

(** The clean-up of a failed rebuild takes the lock of the next one.  The first
    rebuild writes "failed"; a new request is accepted, its rebuild takes the
    lock and copies the replica; then the [finally] of the first one removes
    the lock file, and the daemon writes into the replica while it is copied.
    No two requests overlapped. *)
Definition late_cleanup : list mstep :=
  [Post demo_rq (Some demo_host); Spawn 0; Begin 0; TakeLock 0; End 0 false;
   Post demo_rq (Some demo_host); Spawn 0; Begin 1; TakeLock 1].

Theorem late_cleanup_unlocks :
  let m := mrun "/opt/rkcdp/rkcdp-rebuild" "/j" "/run/rkcdp" idle_manager late_cleanup in
  let m' := mnext "/opt/rkcdp/rkcdp-rebuild" "/j" "/run/rkcdp" m (Exit 0) in
  mg_procs m = [mk_rproc "node1" (Ending true); mk_rproc "node1" (Working true)] /\
  bool_decide ("node1"%string ∈ mg_locks m) = true /\
  mg_procs m' = [mk_rproc "node1" (Working true)] /\ bool_decide ("node1"%string ∈ mg_locks m') = false.
Proof. by vm_compute. Qed.

Lemma one_rebuild_at_a_time_witness :
  let m := mrun "/opt/rkcdp/rkcdp-rebuild" "/j" "/run/rkcdp" idle_manager [Post demo_rq (Some demo_host); Spawn 0; Begin 0] in
  mg_procs m = [mk_rproc "node1" (Working true)] /\ prog_running m "node1" = true.
Proof.
  intros m. assert (mreach "/opt/rkcdp/rkcdp-rebuild" "/j" "/run/rkcdp" settled_posts idle_manager m) as R.
  { unfold m, mrun. cbn [foldl]. repeat apply mreach_step; try done; [constructor|]. split; [apply not_elem_of_nil|constructor]. }
  split; [vm_compute; reflexivity|].
  apply (proj2 (one_rebuild_at_a_time _ _ _ m R "node1"%string) (mk_rproc "node1" (Working true))).
  - replace (mg_procs m) with [mk_rproc "node1" (Working true)] by (vm_compute; reflexivity). by left.
  - reflexivity.
  - exact I.
Defined.

Lemma killed_rebuild_blocks_witness :
  let m := mrun "/opt/rkcdp/rkcdp-rebuild" "/j" "/run/rkcdp" idle_manager [Post demo_rq (Some demo_host); Spawn 0; Begin 0; Kill 0] in
  forall cmd, post_answer "/opt/rkcdp/rkcdp-rebuild" "/j" "/run/rkcdp" m demo_rq (Some demo_host) <> Started cmd.
Proof.
  intros m cmd. apply (killed_rebuild_blocks "/opt/rkcdp/rkcdp-rebuild" "/j" "/run/rkcdp" m m "node1").
  - split; vm_compute; reflexivity.
  - constructor.
  - vm_compute. reflexivity.
Defined.
