(* ===== verification/CdpDrain.v ===== *)
(** * Draining a stream into a file ([tools/cdp-drain.c])

    The main loop of [cdp-drain]: it reads the ring, appends what it read to
    the [-o] file, and walks over the records.  With [cdp-apply] behind it, the
    two tools restore the disk. *)
From S2P Require Import Prelude Dmcdp Files Seed Replica Apply CopyProtocol Consume Driver Ring DirtyMap DriverRuns DriverStream CdpTools.

#[local] Arguments Z.pow : simpl never.

(** ** The loop *)

Definition BUFSZ : Z := 2 ^ 24.

(** What a [read] gives, and what the [write] of the bytes after it returns. *)
Inductive drain_answer : Type :=
  | RdData (b : bytes) (wrote : Z)
  | RdEof                           (* target removed *)
  | RdEintr (stopped : bool)        (* a signal; whether it was SIGINT or SIGTERM *)
  | RdEmsgsize (realloc : bool)     (* the record is longer than the buffer *)
  | RdError.

Record drain_state : Type := mk_drain_state {
  dr_bufsz : Z;
  dr_file : option bytes;           (* the -o file *)
  dr_count : Z;
  dr_total : Z;
  dr_lines : list rec;              (* the records that were printed *)
  dr_stop : bool;
}.

Definition grow_buffer (s : drain_state) : drain_state :=
  mk_drain_state (dr_bufsz s * 2) (dr_file s) (dr_count s) (dr_total s) (dr_lines s) (dr_stop s).
Definition set_stop (s : drain_state) : drain_state :=
  mk_drain_state (dr_bufsz s) (dr_file s) (dr_count s) (dr_total s) (dr_lines s) true.
Definition append_file (b : bytes) (s : drain_state) : drain_state :=
  mk_drain_state (dr_bufsz s) ((fun f => f ++ b) <$> dr_file s) (dr_count s) (dr_total s) (dr_lines s) (dr_stop s).

Section Drain.
Variables (quiet : bool) (limit : Z).

(** One record of the inner loop. *)
Definition drain_record (r : rec) (s : drain_state) : drain_state :=
  mk_drain_state (dr_bufsz s) (dr_file s) (dr_count s + 1)
    (if r_type r =? REC_WRITE then to_u64 (dr_total s + r_len r) else dr_total s)
    (if quiet then dr_lines s else dr_lines s ++ [r]) (dr_stop s).

Definition limit_reached (s : drain_state) : bool := (0 <=? limit) && (limit <=? dr_count s).

(** [while (off + sizeof(struct dm_cdp_rec) <= n)]; [None] is a loop that does
    not end. *)
Fixpoint drain_records (fuel : nat) (buf : bytes) (off : Z) (s : drain_state) : option drain_state :=
  match fuel with
  | O => None
  | S fuel' =>
      match read_header buf off with
      | None => Some s
      | Some r =>
          if negb (r_magic r =? REC_MAGIC) then Some (set_stop s)
          else
            let s := drain_record r s in
            if limit_reached s then Some s else drain_records fuel' buf (off + r_rec_len r) s
      end
  end.

(** [while (!stop && (limit < 0 || count < limit))]; [None]: the tool waits in
    a [read]. *)
Fixpoint cdp_drain_loop (answers : list drain_answer) (s : drain_state) : option drain_state :=
  if dr_stop s || limit_reached s then Some s
  else
    match answers with
    | [] => None
    | RdEintr stopped :: answers' => if stopped then Some (set_stop s) else cdp_drain_loop answers' s
    | RdEmsgsize realloc :: answers' => if realloc then cdp_drain_loop answers' (grow_buffer s) else Some s
    | RdError :: _ | RdEof :: _ => Some s
    | RdData b wrote :: answers' =>
        let s' := append_file (b.[0 : wrote]) s in
        if bool_decide (is_Some (dr_file s)) && negb (wrote =? blen b) then Some s'
        else s1 ← drain_records (S (length b)) b 0 s'; cdp_drain_loop answers' s1
    end.

(** [main] after its options: the exit code and the final state. *)
Definition cdp_drain (out : option bytes) (answers : list drain_answer) : option (Z * drain_state) :=
  s ← cdp_drain_loop answers (mk_drain_state BUFSZ out 0 0 [] false); Some (0, s).

(** ** What it does to whole records *)

Definition written (items : list rec) (total : Z) : Z :=
  foldl (fun n r => if r_type r =? REC_WRITE then to_u64 (n + r_len r) else n) total items.

(** The state after the records [rs] of one read. *)
Definition after_records (rs : list rec) (s : drain_state) : drain_state :=
  mk_drain_state (dr_bufsz s) (dr_file s) (dr_count s + blen rs) (written rs (dr_total s))
    (if quiet then dr_lines s else dr_lines s ++ rs) (dr_stop s).

Lemma after_records_cons r rs s : after_records (r :: rs) s = after_records rs (drain_record r s).
Proof.
  unfold after_records, drain_record, written. cbn [dr_bufsz dr_file dr_count dr_total dr_lines dr_stop foldl]. rewrite blen_cons.
  f_equal; [lia|]. destruct quiet; [done|]. by rewrite <-app_assoc.
Qed.

Lemma after_records_nil s : after_records [] s = s.
Proof. destruct s. unfold after_records. cbn. rewrite Z.add_0_r. destruct quiet; by rewrite ?app_nil_r. Qed.

(** Without a limit in the way: every record once. *)
Lemma drain_records_frames frames : forall pre s fuel,
  frames_ok frames -> (length frames < fuel)%nat -> (0 <= limit -> dr_count s + blen frames < limit) ->
  drain_records fuel (pre ++ concat frames.*1) (blen pre) s = Some (after_records frames.*2 s).
Proof.
  induction frames as [|[b r] frames IH]; intros pre s [|fuel] HF Hf Hl; try (cbn in Hf; lia).
  - cbn [fmap list_fmap concat drain_records]. rewrite app_nil_r, read_header_end by (rewrite REC_SIZE_56; lia). by rewrite after_records_nil.
  - apply Forall_cons in HF as [F HF]. cbn [fmap list_fmap concat drain_records fst snd].
    destruct (frame_header pre b (concat frames.*1) r F) as [-> ->]. rewrite Z.eqb_refl. cbn [negb]. cbn zeta.
    rewrite blen_cons in Hl. pose proof (blen_nonneg frames).
    assert (limit_reached (drain_record r s) = false) as ->.
    { unfold limit_reached. cbn [drain_record dr_count]. destruct (Z.leb_spec 0 limit) as [L|L]; [|done]. specialize (Hl L). cbn [andb]. apply Z.leb_gt. lia. }
    rewrite (frame_len _ _ F), app_assoc, <-blen_app. rewrite IH; [by rewrite after_records_cons|done|cbn in Hf; lia|].
    cbn [drain_record dr_count]. intros L. specialize (Hl L). lia.
Qed.

(** A read in which the limit is reached: the walk stops at record [limit]. *)
Lemma drain_records_limit frames : forall pre s fuel,
  frames_ok frames -> (length frames < fuel)%nat -> 0 <= limit -> dr_count s < limit <= dr_count s + blen frames ->
  drain_records fuel (pre ++ concat frames.*1) (blen pre) s =
    Some (after_records (take (Z.to_nat (limit - dr_count s)) frames.*2) s).
Proof.
  induction frames as [|[b r] frames IH]; intros pre s [|fuel] HF Hf H0 Hl; try (cbn in Hf; lia).
  - change (blen (@nil (bytes * rec))) with 0 in Hl. lia.
  - apply Forall_cons in HF as [F HF]. cbn [fmap list_fmap concat drain_records fst snd].
    destruct (frame_header pre b (concat frames.*1) r F) as [-> ->]. rewrite Z.eqb_refl. cbn [negb]. cbn zeta.
    rewrite blen_cons in Hl. replace (Z.to_nat (limit - dr_count s)) with (S (Z.to_nat (limit - (dr_count s + 1)))) by lia.
    cbn [take]. rewrite after_records_cons. unfold limit_reached at 1. cbn [drain_record dr_count]. rewrite (proj2 (Z.leb_le 0 limit)) by done. cbn [andb].
    destruct (Z.leb_spec limit (dr_count s + 1)) as [L|L].
    + replace (limit - (dr_count s + 1)) with 0 by lia. change (take (Z.to_nat 0) ?l) with (@nil rec). by rewrite after_records_nil.
    + rewrite (frame_len _ _ F), app_assoc, <-blen_app. rewrite IH; [done|done|cbn in Hf; lia|done|cbn [drain_record dr_count]; lia].
Qed.

(** The answer [a] brings the records [fs], or none. *)
Definition reads_as (a : drain_answer) (fs : list (bytes * rec)) : Prop :=
  match a with
  | RdData b wrote => frames_ok fs /\ b = concat fs.*1 /\ wrote = blen b
  | RdEintr false | RdEmsgsize true => fs = []
  | _ => False
  end.

(** [s'] is [s] with the records [fs] appended to the file, and [rs] counted. *)
Record drained (fs : list (bytes * rec)) (rs : list rec) (s s' : drain_state) : Prop := {
  dd_file : dr_file s' = (fun f => f ++ concat fs.*1) <$> dr_file s;
  dd_count : dr_count s' = dr_count s + blen rs;
  dd_total : dr_total s' = written rs (dr_total s);
  dd_lines : dr_lines s' = if quiet then dr_lines s else dr_lines s ++ rs;
  dd_stop : dr_stop s' = dr_stop s;
}.

Lemma drained_refl s : drained [] [] s s.
Proof.
  split; try done.
  - destruct (dr_file s); [|done]. cbn. by rewrite app_nil_r.
  - change (blen (@nil rec)) with 0. lia.
  - destruct quiet; by rewrite ?app_nil_r.
Qed.

Lemma drained_trans fs1 rs1 fs2 rs2 s s1 s2 : drained fs1 rs1 s s1 -> drained fs2 rs2 s1 s2 -> drained (fs1 ++ fs2) (rs1 ++ rs2) s s2.
Proof.
  intros [F1 C1 T1 L1 S1] [F2 C2 T2 L2 S2]. split.
  - rewrite F2, F1. destruct (dr_file s); [|done]. cbn. by rewrite fmap_app, concat_app, app_assoc.
  - rewrite C2, C1, blen_app. lia.
  - rewrite T2, T1. unfold written. by rewrite foldl_app.
  - rewrite L2, L1. destruct quiet; [done|]. by rewrite <-app_assoc.
  - by rewrite S2.
Qed.

Lemma drained_read fs rs s : drained fs rs s (after_records rs (append_file (concat fs.*1) s)).
Proof. by split. Qed.

(** The step of the loop that leaves the whole read in the file. *)
Lemma drain_data fs b wrote answers s :
  reads_as (RdData b wrote) fs -> dr_stop s || limit_reached s = false ->
  cdp_drain_loop (RdData b wrote :: answers) s =
    s1 ← drain_records (S (length b)) b 0 (append_file (concat fs.*1) s); cdp_drain_loop answers s1.
Proof.
  intros (HF & -> & ->) H. cbn [cdp_drain_loop]. rewrite H, slice_all by lia. rewrite Z.eqb_refl. cbn [negb]. by rewrite andb_false_r.
Qed.

Lemma cdp_drain_loop_spec answers fss : forall s rest,
  Forall2 reads_as answers fss -> dr_stop s = false -> (0 <= limit -> dr_count s + blen (concat fss) < limit) ->
  exists s', cdp_drain_loop (answers ++ rest) s = cdp_drain_loop rest s' /\ drained (concat fss) (concat fss).*2 s s'.
Proof.
  intros s rest H. revert s. induction H as [|a fs answers fss Ha _ IH]; intros s Hs Hl.
  - exists s. split; [done|]. apply drained_refl.
  - cbn [concat app] in *. rewrite blen_app in Hl. pose proof (blen_nonneg fs). pose proof (blen_nonneg (concat fss)).
    assert (dr_stop s || limit_reached s = false) as Hgo.
    { rewrite Hs. unfold limit_reached. destruct (Z.leb_spec 0 limit) as [L|L]; [|done]. specialize (Hl L). cbn. apply Z.leb_gt. lia. }
    destruct a as [b wrote| |[]|[]|]; try done.
    + rewrite (drain_data fs) by done. destruct Ha as (HF & -> & _).
      pose proof (concat_frames_length _ HF).
      rewrite (drain_records_frames fs []); [|done|lia|cbn [append_file dr_count]; intros L; specialize (Hl L); lia]. cbn [mbind option_bind].
      destruct (IH (after_records fs.*2 (append_file (concat fs.*1) s))) as (s' & E & Hd); [done| |].
      { cbn [after_records append_file dr_count]. unfold blen in *. rewrite length_fmap. intros L. specialize (Hl L). lia. }
      exists s'. split; [exact E|]. rewrite fmap_app. eapply drained_trans; [apply drained_read|exact Hd].
    + cbn in Ha. subst fs. cbn [app cdp_drain_loop]. rewrite Hgo. destruct (IH s Hs) as (s' & E & Hd); [intros L; specialize (Hl L); lia|]. by exists s'.
    + cbn in Ha. subst fs. cbn [app cdp_drain_loop]. rewrite Hgo. destruct (IH (grow_buffer s) Hs) as (s' & E & Hd).
      { cbn [grow_buffer dr_count]. intros L. specialize (Hl L). lia. }
      exists s'. split; [exact E|]. destruct Hd. by split.
Qed.

(** The file is the stream: with no limit, every record that was read is in the
    file, byte for byte and in order, and was counted once, until the target
    goes away, a signal comes or a read fails; the exit code is 0 in every
    case. *)
Theorem cdp_drain_verbatim answers fss last out :
  limit < 0 -> Forall2 reads_as answers fss -> last ∈ [RdEof; RdEintr true; RdError] ->
  exists s', cdp_drain out (answers ++ [last]) = Some (0, s') /\
    dr_file s' = (fun f => f ++ concat (concat fss).*1) <$> out /\ dr_count s' = blen (concat fss) /\
    dr_total s' = written (concat fss).*2 0 /\ dr_lines s' = if quiet then [] else (concat fss).*2.
Proof.
  intros Hl H Hlast. unfold cdp_drain. destruct (cdp_drain_loop_spec answers fss (mk_drain_state BUFSZ out 0 0 [] false) [last] H) as (s' & E & [Hf Hc Ht Hli Hs]);
    [done|lia|]. rewrite E. cbn [dr_file dr_count dr_total dr_lines dr_stop] in *.
  assert (exists s2, cdp_drain_loop [last] s' = Some s2 /\ dr_file s2 = dr_file s' /\ dr_count s2 = dr_count s' /\ dr_total s2 = dr_total s' /\ dr_lines s2 = dr_lines s')
    as (s2 & -> & G1 & G2 & G3 & G4).
  { cbn [cdp_drain_loop]. rewrite Hs. unfold limit_reached. rewrite (proj2 (Z.leb_gt 0 limit)) by done. cbn [orb andb].
    rewrite !elem_of_cons in Hlast. destruct Hlast as [->|[->|[->|Hn]]]; [by eexists|by eexists|by eexists|by apply not_elem_of_nil in Hn]. }
  exists s2. split; [done|]. rewrite G1, G2, G3, G4, Hf, Hc, Ht, Hli. split; [done|]. split; [unfold blen; rewrite length_fmap; lia|]. split; [done|]. by destruct quiet.
Qed.

(** [-n] bounds the count, not the file: with a limit [n], the read in which the
    [n]-th record comes is written to the file as a whole; its other records
    are taken from the ring, not counted and not printed. *)
Theorem cdp_drain_limit answers fss a fs rest out :
  0 < limit -> Forall2 reads_as answers fss -> (exists b wrote, a = RdData b wrote) -> reads_as a fs ->
  blen (concat fss) < limit <= blen (concat fss) + blen fs ->
  exists s', cdp_drain out (answers ++ a :: rest) = Some (0, s') /\
    dr_file s' = (fun f => f ++ concat (concat fss ++ fs).*1) <$> out /\ dr_count s' = limit /\
    dr_lines s' = if quiet then [] else take (Z.to_nat limit) (concat fss ++ fs).*2.
Proof.
  intros H0 H (b & wrote & ->) Ha Hl. unfold cdp_drain.
  destruct (cdp_drain_loop_spec answers fss (mk_drain_state BUFSZ out 0 0 [] false) (RdData b wrote :: rest) H) as (s' & E & D); [done|cbn [dr_count]; lia|].
  rewrite E. pose proof D as [Hf Hc Ht Hli Hs]. cbn [dr_file dr_count dr_total dr_lines dr_stop] in *.
  assert (dr_count s' = blen (concat fss)) as Ec by (rewrite Hc; unfold blen; rewrite length_fmap; lia).
  rewrite (drain_data fs); [|done|rewrite Hs; unfold limit_reached; rewrite (proj2 (Z.leb_le 0 limit)), (proj2 (Z.leb_gt limit _)) by lia; done].
  destruct Ha as (HF & -> & _). pose proof (concat_frames_length _ HF).
  rewrite (drain_records_limit fs []); [|done|lia|lia|cbn [append_file dr_count]; lia]. cbn [mbind option_bind append_file dr_count].
  set (rs := take _ _). set (s1 := after_records rs _).
  assert (blen rs = limit - blen (concat fss)) as Hr.
  { unfold rs, blen in *. rewrite length_take, length_fmap. lia. }
  assert (limit_reached s1 = true) as Hlim.
  { unfold limit_reached. cbn [s1 after_records append_file dr_count]. rewrite (proj2 (Z.leb_le 0 limit)), (proj2 (Z.leb_le limit _)) by lia. done. }
  assert (cdp_drain_loop rest s1 = Some s1) as -> by (destruct rest; cbn [cdp_drain_loop]; by rewrite Hlim, orb_true_r).
  pose proof (drained_trans _ _ _ _ _ _ _ D (drained_read fs rs s')) as [Gf Gc Gt Gl Gs]. fold s1 in Gf, Gc, Gt, Gl, Gs.
  cbn [dr_file dr_count dr_total dr_lines dr_stop] in *.
  exists s1. split; [done|]. split; [done|]. split; [rewrite blen_app in Gc; rewrite Gc; unfold blen in *; rewrite length_fmap; lia|].
  rewrite Gl. destruct quiet; [done|]. cbn [app]. rewrite fmap_app. rewrite take_app_ge by (rewrite length_fmap; unfold blen in Hl; lia).
  unfold rs. rewrite length_fmap. do 2 f_equal. rewrite Ec. unfold blen. lia.
Qed.
End Drain.

(** ** The two tools on the driver *)

Definition whole (b : bytes) (fs : list (bytes * rec)) : Prop := frames_ok fs /\ b = concat fs.*1.

(** Every [read] returns whole records. *)
Lemma reads_whole device guard w0 w :
  (forall w e, guard w e -> ok_event w e) -> (exists D q, world_inv w0 D q) -> w_reads w0 = [] -> reaches device guard w0 w ->
  exists fss, Forall2 whole (w_reads w) fss.
Proof.
  intros Hg I0 E0 R. induction R as [|w e R (fss & IH) G]; [exists []; rewrite E0; constructor|].
  destruct (reaches_inv device guard w0 w Hg I0 R) as (D & q & I).
  destruct e as [b now|k|k error|copy_ok nonblock count|alloc copied cmd|]; cbn [step]; try (by exists fss).
  - destruct (map_reserve _ _ _) as [[pb o] t']. by exists fss.
  - destruct (w_subs w !! k) as [[b [off|] []]|]; by exists fss.
  - destruct (w_subs w !! k) as [[b pb []]|]; by exists fss.
  - destruct (Hg _ _ G) as [Hc Y].
    destruct (cdp_read_taken copy_ok nonblock count (w_target w) q (wi_ring _ _ _ I) Y Hc) as (g' & -> & _).
    destruct (bool_decide (taken copy_ok count 0 q = [])).
    + pose proof (stop_not_bytes copy_ok nonblock (tg_dead (w_target w)) count q) as Hs. cbn [w_reads].
      destruct (stop_outcome _ _ _ _ _) as [b| | |]; [by destruct (Hs b)|by exists fss..].
    + cbn [w_reads]. exists (fss ++ [slot_frames (taken copy_ok count 0 q)]). apply Forall2_app; [done|]. constructor; [|constructor].
      split; [|by rewrite slot_frames_stream]. apply slot_frames_ok.
      destruct (taken_prefix copy_ok count 0 q) as [rest Eq]. pose proof (sub_slots_wf _ _ _ (wi_subs _ _ _ I)) as W.
      apply Forall_app in W as [_ W]. rewrite Eq in W. by apply Forall_app in W as [W _].
Qed.

(** A run of the tool in which no read and no write fails. *)
Definition clean_answer (a : drain_answer) : Prop :=
  match a with RdData b wrote => wrote = blen b | RdEintr stopped => stopped = false | RdEmsgsize realloc => realloc = true | _ => False end.

Definition answer_data (a : drain_answer) : option bytes := match a with RdData b _ => Some b | _ => None end.

Lemma clean_reads answers : forall fss,
  Forall clean_answer answers -> Forall2 whole (omap answer_data answers) fss ->
  exists fss', Forall2 reads_as answers fss' /\ concat (concat fss').*1 = concat (omap answer_data answers).
Proof.
  induction answers as [|a answers IH]; intros fss HC HW; [exists []; by split; [constructor|]|].
  apply Forall_cons in HC as [Ha HC]. destruct a as [b wrote| |stopped|realloc|]; cbn in Ha; try done; subst; cbn in HW.
  - apply Forall2_cons_inv_l in HW as (fs & fss1 & [HF Eb] & HW & ->). destruct (IH fss1 HC HW) as (fss' & H & E).
    exists (fs :: fss'). split; [by constructor|]. cbn [concat]. rewrite fmap_app, concat_app, E. cbn. by rewrite Eb.
  - destruct (IH fss HC HW) as (fss' & H & E). exists ([] :: fss'). split; [by constructor|exact E].
  - destruct (IH fss HC HW) as (fss' & H & E). exists ([] :: fss'). split; [by constructor|exact E].
Qed.

(** C19: the two tools restore the disk.  The target, on a disk of at most
    8 EiB, was up to a calm run, in which no request failed or overlapped one
    in flight, and is quiet: nothing was dropped, everything is complete and
    read.  Then [cdp-drain -o], with nothing of its reads and writes failing,
    has left a file from which [cdp-apply] makes, on a copy of the disk's first
    content, its present content; both exit with 0. *)
Theorem tools_restore_disk device malloc calloc heap answers begin len offset ring_mb chunk_kb minor mem disk0 w quiet_flag drain_answers last :
  (forall t b disk, valid_bio t b -> device t b false disk ≡ bio_effect t b disk) ->
  (forall n, malloc n = true) -> (forall n, calloc n = true) -> ctr_params begin len ring_mb chunk_kb ->
  len <= 2 ^ 54 ->
  reaches device calm (fresh begin len offset ring_mb chunk_kb minor mem disk0) w -> quiet w -> ring_young (tg_ring (w_target w)) ->
  generous answers -> total_payload (iter_records (concat (w_reads w))).1 <= writes answers ->
  Forall clean_answer drain_answers -> omap answer_data drain_answers = w_reads w -> last ∈ [RdEof; RdEintr true; RdError] ->
  exists s f s', cdp_drain quiet_flag (-1) (Some []) (drain_answers ++ [last]) = Some (0, s) /\ dr_file s = Some f /\
    cdp_apply (-1) (-1) malloc calloc heap answers f disk0 = Some (0, s') /\ as_img s' ≡ w_disk w.
Proof.
  intros Hw Hm Hc P Hlen R Q Y G Hwr HC Ed Hlast.
  destruct (reads_whole device calm _ w calm_ok ltac:(exists [], []; by apply fresh_inv) eq_refl R) as (fss & HF).
  rewrite <-Ed in HF. destruct (clean_reads _ _ HC HF) as (fss' & H & E).
  destruct (cdp_drain_verbatim quiet_flag (-1) drain_answers fss' last (Some []) ltac:(lia) H Hlast) as (s & Es & Hf & _).
  cbn [fmap option_fmap option_map] in Hf. rewrite app_nil_l, E, Ed in Hf.
  destruct (cdp_apply_restores_disk device malloc calloc heap answers begin len offset ring_mb chunk_kb minor mem disk0 w Hw Hm Hc P Hlen R Q Y G Hwr) as (s' & Ea & Hi).
  by exists s, (concat (w_reads w)), s'.
Qed.

(** ** Concrete runs *)

Lemma tools_restore_disk_witness :
  let w := run demo_device demo_fresh demo_events in
  exists s f s', cdp_drain true (-1) (Some []) (((fun b => RdData b (blen b)) <$> w_reads w) ++ [RdEof]) = Some (0, s) /\ dr_file s = Some f /\
    cdp_apply (-1) (-1) (fun _ => true) (fun _ => true) (fun _ _ => []) (replicate 1600 (PwWrote 100)) f zero_image = Some (0, s') /\ as_img s' ≡ w_disk w.
Proof.
  intros w. apply (tools_restore_disk demo_device (fun _ => true) (fun _ => true) (fun _ _ => []) (replicate 1600 (PwWrote 100))
    0 2048 4096 1 64 0 zero_image zero_image w).
  - apply demo_works.
  - reflexivity.
  - reflexivity.
  - apply demo_params.
  - lia.
  - apply demo_calm.
  - apply demo_quiet.
  - vm_compute. reflexivity.
  - apply Forall_replicate. discriminate.
  - vm_compute. discriminate.
  - apply Forall_fmap, Forall_true. reflexivity.
  - induction (w_reads w) as [|b l IH]; [done|]. cbn. by rewrite IH.
  - by left.
Defined.

Lemma cdp_drain_verbatim_witness :
  exists s', cdp_drain false (-1) (Some []) [RdEintr false; RdData (concat demo_frames.*1) (blen (concat demo_frames.*1)); RdEof] = Some (0, s') /\
    dr_file s' = Some (concat demo_frames.*1) /\ dr_count s' = blen demo_frames.
Proof.
  destruct (cdp_drain_verbatim false (-1) [RdEintr false; RdData (concat demo_frames.*1) (blen (concat demo_frames.*1))] [[]; demo_frames] RdEof (Some []))
    as (s' & E & Hf & Hc & _).
  - reflexivity.
  - constructor; [reflexivity|]. constructor; [|constructor]. split; [apply demo_frames_ok|]. by split.
  - by left.
  - cbn [concat app] in *. rewrite app_nil_r in *. exists s'. split; [exact E|]. split; [exact Hf|exact Hc].
Defined.

Lemma cdp_drain_limit_witness :
  exists s', cdp_drain false 1 (Some []) [RdData (concat demo_frames.*1) (blen (concat demo_frames.*1))] = Some (0, s') /\
    dr_file s' = Some (concat demo_frames.*1) /\ dr_count s' = 1 /\ blen demo_frames = 2.
Proof.
  destruct (cdp_drain_limit false 1 [] [] (RdData (concat demo_frames.*1) (blen (concat demo_frames.*1))) demo_frames [] (Some []))
    as (s' & E & Hf & Hc & _).
  - reflexivity.
  - constructor.
  - by eexists _, _.
  - split; [apply demo_frames_ok|done].
  - vm_compute. split; [reflexivity|discriminate].
  - exists s'. split; [exact E|]. split; [exact Hf|]. split; [exact Hc|reflexivity].
Defined.
