(* ===== verification/Lives.v ===== *)
(** * The daemon from its start to its end, and from one life to the next

    [Daemon.main] whole, from the threads it starts to the last status, and a
    node whose daemon is stopped and started any number of times while the
    machine writes on.  What one life leaves (the replica, [seed.raw], the JSON
    files) is what the next one starts with ([restart]); what no life has read
    waits in the ring. *)
From S2P Require Import Prelude Dmcdp Files Seed Replica Apply Consume Daemon CopyThreads MainLoop Lifecycle Driver Ring DirtyMap DriverRuns DriverStream ChangeMap.

#[local] Arguments Z.pow : simpl never.

(** ** One life *)

(** A life of the daemon: what it finds and what happens to it. *)
Record lifetime : Type := mk_lifetime {
  lf_boot : option string;           (* boot_id() *)
  lf_fd : cdp_fd;                    (* the driver at the start ... *)
  lf_start : Z;
  lf_inps : list loop_input;         (* the iterations until the signal *)
  lf_joins : list (SM daemon unit);  (* what the threads do while they are joined *)
  lf_fd_end : cdp_fd;                (* ... and at the end *)
  lf_stop : Z;
}.

(** The locals of [main] before its loop; [now] is [time.time()]. *)
Definition main_locals (now : Z) : locals := mk_locals [] now 0.

Section Lives.
Context {fs : SparseFS}.
Variable libc_fallocate : file -> Z -> Z -> fallocate_result.
Variables cycle_sec consistent_sec : Z.
Variables node device : string.
Variable seed_conf : bool.

(** [Daemon.main] *)
Definition Daemon_main (lf : lifetime) : SM daemon status_json :=
  main_start;;
  main_to_end libc_fallocate cycle_sec consistent_sec (lf_inps lf) (main_locals (lf_start lf)) (lf_joins lf) (lf_fd_end lf) (lf_stop lf).

(** [Daemon(load_conf()).main()], after the constructor has its settings and
    its device. *)
Definition daemon_life (lf : lifetime) (d : daemon) : res daemon :=
  d1 ← restart node device seed_conf (lf_boot lf) (lf_fd lf) d;
  let '(o, d2) := Daemon_main lf d1 in
  _ ← o;
  Ok d2.

Fixpoint daemon_lives (lfs : list lifetime) (d : daemon) : res daemon :=
  match lfs with
  | [] => Ok d
  | lf :: lfs' => d' ← daemon_life lf d; daemon_lives lfs' d'
  end.

(** Everything the lives read, in order. *)
Fixpoint lives_data (lfs : list lifetime) (d : daemon) : list bytes :=
  match lfs with
  | [] => []
  | lf :: lfs' =>
      match restart node device seed_conf (lf_boot lf) (lf_fd lf) d, daemon_life lf d with
      | Ok d1, Ok d' => loop_data consistent_sec (lf_inps lf) d1 ++ lives_data lfs' d'
      | Ok d1, _ => loop_data consistent_sec (lf_inps lf) d1
      | _, _ => []
      end
  end.

(** The driver answers, for a disk of [len] sectors. *)
Definition answers (fd : cdp_fd) (len : Z) : Prop :=
  exists st, status fd = Ok st /\ st !! "dev_sectors" = Some len /\
    Forall (fun k => is_Some (st !! k)) ["flags"; "seq_next"; "ring_used"; "ring_size"; "overflows"].

Lemma driver_answers alloc t : status_fits t -> answers (fd_of alloc true t) (tg_len t).
Proof.
  intros H. exists (status_dict t). split; [by apply status_of_driver|]. split; [reflexivity|].
  repeat constructor; eexists; reflexivity.
Qed.

Lemma dict_get_Some (st : gmap string Z) k v : st !! k = Some v -> dict_get st k = Ok v.
Proof. unfold dict_get. by intros ->. Qed.

Lemma answers_status fd len now d : answers fd len -> exists sj, write_status fd now d = Ok sj.
Proof.
  intros (st & E & _ & HF). unfold write_status. rewrite E, res_bind_Ok.
  rewrite !Forall_cons in HF. destruct HF as ([f Hf] & [q Hq] & [u Hu] & [z Hz] & [o Ho] & _).
  rewrite (dict_get_Some _ _ _ Hf), (dict_get_Some _ _ _ Hq), (dict_get_Some _ _ _ Hu), (dict_get_Some _ _ _ Hz), (dict_get_Some _ _ _ Ho).
  by eexists.
Qed.

(** A life that only tracks the stream: no rebuild, no freeze that hangs, no
    thread that is still alive at the end. *)
Record tracking_life (len : Z) (lf : lifetime) : Prop := {
  tl_calm : Forall MainLoop.calm (lf_inps lf);
  tl_joins : lf_joins lf = [];
  tl_start : answers (lf_fd lf) len;
  tl_stop : answers (lf_fd_end lf) len;
}.

(** A node between two lives: the base copy is done, no recovery and no parked
    record is left, and the replica is synced. *)
Record at_rest (size : Z) (d : daemon) : Prop := {
  ar_base : exists m, d_manifest_json d = Some m /\ m_base_end_seq m <> None;
  ar_recovery : d_recovery_json d = None;
  ar_parked : pending_bin (d_feed d) = None;
  ar_lock : rebuild_lock (d_feed d) = false;
  ar_replica : exists S0, replica_ok S0 size (replica (d_app d));
  ar_synced : d_durable d = img_of (d_app d);
}.

(** *** What a life starts with *)

Context {B : Z} {laws : SparseFSLaws fs B}.
Hypothesis Hdiv : (B | SEED_CHUNK).

(** The seed layer of the next life is one for the seed image in which the
    chunks that the layer forgot are as the replica is now. *)
Lemma seed_reopens S0 R l :
  seed_inv S0 R l ->
  exists l' S1, SeedLayer_init (sl_fd l) (sl_size l) = Ok l' /\ sl_size l' = sl_size l /\ seed_inv S1 R l'.
Proof using Hdiv laws.
  intros I. destruct (SeedLayer_restart Hdiv S0 R l I) as (l' & E & W & H). pose proof I as [Wl Hb].
  destruct (SeedLayer_init_spec (sl_fd l)) as (l2 & E2 & Hs & Hf & Hn & _); [rewrite (wf_file _ Wl); apply Wl|].
  rewrite (wf_file _ Wl) in *. rewrite E in E2. injection E2 as <-.
  exists l', (fun i => if saved_bit (sl_saved l') (i / SEED_CHUNK) then S0 i else R i).
  split; [done|]. split; [done|]. split; [done|]. intros i Hi. rewrite Hs in Hi. specialize (Hb i Hi).
  pose proof (chunk_lt_nchunks i _ Hi) as Hc. rewrite <-(wf_nchunks _ Wl) in Hc. specialize (H _ Hc).
  unfold seed_byte in *. cbn zeta in *. rewrite Hf, Hs. destruct (saved_bit (sl_saved l') (i / SEED_CHUNK)) eqn:Es.
  - destruct (proj1 H eq_refl) as [Hl Hnz]. rewrite Hl in Hb. destruct Hb as [Hb _].
    split; [intros _; by apply Hb|]. intros Hz. exfalso. apply Hz.
    destruct Hnz as (j & Ej & Hj & Hv). exists j. by rewrite Ej, Es.
  - split; [done|]. destruct (saved_bit (sl_saved l) (i / SEED_CHUNK)) eqn:El; [|apply Hb].
    apply (proj2 Hb). intros Hnz. discriminate (proj2 H (conj eq_refl Hnz)).
Qed.

Lemma replica_reopens S0 size rp :
  replica_ok S0 size rp ->
  exists rp' S1, Replica_init (Some (rp_fd rp)) size (sl_fd <$> rp_seed rp) = Ok rp' /\ rp_fd rp' = rp_fd rp /\ replica_ok S1 size rp'.
Proof using Hdiv laws.
  intros [Hs Hl]. unfold Replica_init, replica_ok. destruct (rp_seed rp) as [l|]; cbn [fmap option_fmap option_map].
  - destruct Hl as [<- I]. destruct (seed_reopens _ _ _ I) as (l' & S1 & -> & Hl & I'). rewrite res_bind_Ok.
    exists (mk_Replica (rp_fd rp) true (Some l')), S1. by split_and!.
  - exists (mk_Replica (rp_fd rp) true None), S0. by split_and!.
Qed.

Lemma main_start_none d : d_recovery_json d = None -> m_base_end_seq (d_manifest d) <> None -> main_start d = (Ok tt, d).
Proof using.
  intros Hr Hm. unfold main_start. rewrite (sm_bind_Ok _ _ _ d d) by done.
  rewrite (sm_bind_Ok _ _ _ tt d) by (by rewrite Hr). by rewrite bool_decide_eq_false_2.
Qed.

Lemma restart_ready len boot fd d :
  at_rest (len * 512) d -> answers fd len ->
  exists d1 S1, restart node device seed_conf boot fd d = Ok d1 /\ main_start d1 = (Ok tt, d1) /\ ready d1 /\
    feed_ok S1 (len * 512) (d_feed d1) /\ img_of (d_app d1) = img_of (d_app d) /\
    m_base_end_seq (d_manifest d1) <> None /\ d_manifest_json d1 = Some (d_manifest d1) /\ d_recovery_json d1 = None.
Proof using Hdiv laws.
  intros [(m & Hj & Hm) Hr Hp Hlk [S0 Ho] _] (st & Est & Hlen & _).
  destruct (replica_reopens _ _ _ Ho) as (rp & S1 & Erp & Hfd & Ho1).
  unfold restart, Daemon_init. rewrite Est, res_bind_Ok, (dict_get_Some _ _ _ Hlen), res_bind_Ok, Hj. cbn zeta. rewrite Erp, res_bind_Ok.
  rewrite Hr, Hp, Hlk. eexists _, S1. split; [done|].
  split; [by apply main_start_none|].
  split; [by split_and!; cbn; rewrite ?(bool_decide_eq_false_2 (m_base_end_seq m = None)), ?andb_false_r|].
  unfold img_of, d_app. cbn. rewrite Hfd. by split_and!.
Qed.

(** *** What a life does *)

Lemma life_tracks len lf d d1 frs :
  at_rest (len * 512) d -> tracking_life len lf -> restart node device seed_conf (lf_boot lf) (lf_fd lf) d = Ok d1 ->
  loop_data consistent_sec (lf_inps lf) d1 = frames_bytes <$> frs ->
  stream_ok (len * 512) (concat frs) [] -> gap_seqs (items_of (concat frs)) = [] ->
  exists d', daemon_life lf d = Ok d' /\ at_rest (len * 512) d' /\
    img_of (d_app d') ≡ apply_all (img_of (d_app d)) (items_of (concat frs)).
Proof using Hdiv laws.
  intros A [HC Hj H1 H2] E El (HF & _ & Hin) Hg.
  destruct (restart_ready len (lf_boot lf) (lf_fd lf) d A H1) as (d1' & S1 & E' & Ems & Hr & [Ho Hcp] & Ei & Hb & Hm & Hrc).
  rewrite E in E'. injection E' as <-.
  destruct (apply_items_direct libc_fallocate S1 (len * 512) _ (d_app d1) Ho Hin Hcp) as (a' & Ha & Himg & Ho' & _).
  destruct (main_iters_rounds libc_fallocate cycle_sec consistent_sec (lf_inps lf) (main_locals (lf_start lf)) frs d1 a' HC Hr eq_refl El HF Hg Ha)
    as (l' & d2 & E2 & _ & Ea & (Hidle & Hset & _) & [Nb Nr Nm]).
  set (d3 := set_durable (img_of (d_app d2)) d2). destruct (answers_status _ _ (lf_stop lf) d3 H2) as [sj Es].
  exists d3. split; [|split].
  - unfold daemon_life. rewrite E, res_bind_Ok. unfold Daemon_main. rewrite (sm_bind_Ok _ _ _ _ _ Ems). unfold main_to_end.
    rewrite (sm_bind_Ok _ _ _ _ _ E2), Hj, (shutdown_durable [] _ _ d2 d2 eq_refl). fold d3. by rewrite Es.
  - destruct Hidle as (Hlk & _ & Hp & _). split; try done.
    + exists (d_manifest d2). split; [by apply Nm|]. change (m_base_end_seq (d_manifest d2) <> None). by rewrite Nb.
    + change (d_recovery_json d2 = None). by rewrite Nr.
    + exists S1. change (replica_ok S1 (len * 512) (replica (d_app d2))). by rewrite Ea.
  - change (img_of (d_app d2) ≡ apply_all (img_of (d_app d)) (items_of (concat frs))). by rewrite Ea, <-Ei.
Qed.

Lemma lives_track len lfs : forall d frs,
  at_rest (len * 512) d -> Forall (tracking_life len) lfs -> lives_data lfs d = frames_bytes <$> frs ->
  stream_ok (len * 512) (concat frs) [] -> gap_seqs (items_of (concat frs)) = [] ->
  exists d', daemon_lives lfs d = Ok d' /\ at_rest (len * 512) d' /\
    img_of (d_app d') ≡ apply_all (img_of (d_app d)) (items_of (concat frs)).
Proof using Hdiv laws.
  induction lfs as [|lf lfs IH]; intros d frs A HT E Hs Hg.
  - destruct frs; [|done]. by exists d.
  - apply Forall_cons in HT as [Ht HT]. cbn [lives_data daemon_lives] in *.
    destruct (restart_ready len (lf_boot lf) (lf_fd lf) d A (tl_start _ _ Ht)) as (d1 & _ & E1 & _). rewrite E1 in E.
    assert (forall f1 f2, stream_ok (len * 512) (concat (f1 ++ f2)) [] -> gap_seqs (items_of (concat (f1 ++ f2))) = [] ->
      (stream_ok (len * 512) (concat f1) [] /\ gap_seqs (items_of (concat f1)) = []) /\
      (stream_ok (len * 512) (concat f2) [] /\ gap_seqs (items_of (concat f2)) = [])) as Hsplit.
    { intros f1 f2. rewrite concat_app. intros ([? ?]%Forall_app & ? & Hi). rewrite fmap_app in *. apply Forall_app in Hi as [? ?].
      intros [? ?]%gap_seqs_app_nil. by split_and!. }
    destruct (daemon_life lf d) as [d'| |] eqn:El.
    + symmetry in E. apply fmap_app_inv in E as (f1 & f2 & Ef1 & Ef2 & ->). destruct (Hsplit _ _ Hs Hg) as [[Hs1 Hg1] [Hs2 Hg2]].
      destruct (life_tracks len lf d d1 f1 A Ht E1 Ef1 Hs1 Hg1) as (d2 & El' & A' & Hi). rewrite El in El'. injection El' as <-.
      destruct (IH d' f2 A' HT Ef2 Hs2 Hg2) as (d3 & E3 & A3 & Hi3). exists d3.
      rewrite res_bind_Ok. split; [done|]. split; [done|]. rewrite concat_app, fmap_app, apply_all_app.
      etrans; [exact Hi3|]. by apply apply_all_proper.
    + destruct (life_tracks len lf d d1 frs A Ht E1 E Hs Hg) as (d2 & El' & _). by rewrite El in El'.
    + destruct (life_tracks len lf d d1 frs A Ht E1 E Hs Hg) as (d2 & El' & _). by rewrite El in El'.
Qed.
End Lives.

(** ** The reads of the driver are whole records *)

Lemma stream_nil T : Forall slot_wf T -> stream T = [] -> T = [].
Proof.
  intros W E. rewrite <-slot_frames_stream in E. apply frames_nil in E; [|by apply slot_frames_ok].
  by apply fmap_nil_inv in E.
Qed.

Lemma step_reads device w e :
  w_reads (step device w e) = w_reads w \/ exists r, w_reads (step device w e) = w_reads w ++ [r].
Proof.
  destruct e as [b now|k|k error|copy_ok nonblock count|alloc copied cmd|]; cbn [step]; try by left.
  - left. by destruct (map_reserve (w_target w) b now) as [[pb o] t'].
  - left. by destruct (w_subs w !! k) as [[b [off|] []]|].
  - left. by destruct (w_subs w !! k) as [[b pb []]|].
  - destruct (cdp_read _ _ _ _) as [[] t']; cbn [w_reads]; first [by left|right; by eexists].
Qed.

Lemma driver_reads_whole device guard w0 w D q :
  (forall w e, guard w e -> ok_event w e) -> world_inv w0 D q -> reaches device guard w0 w ->
  exists Ts q', world_inv w (D ++ concat Ts) q' /\ w_reads w = w_reads w0 ++ (stream <$> Ts).
Proof.
  intros Hg I0 R. induction R as [|w e R (Ts & q1 & I & E) Hok].
  { exists [], q. by rewrite !app_nil_r. }
  destruct (world_step_inv device w e _ _ I (Hg _ _ Hok)) as [(T & q2 & I2) _].
  pose proof (wi_reads _ _ _ I2) as E2. unfold stream in E2. rewrite fmap_app, concat_app in E2. fold (stream (D ++ concat Ts)) (stream T) in E2.
  destruct (step_reads device w e) as [Er|[r Er]]; rewrite Er in E2 |- *.
  - rewrite (wi_reads _ _ _ I), <-(app_nil_r (stream _)) in E2 at 1. apply app_inv_head in E2.
    apply eq_sym, stream_nil in E2 as ->; [|pose proof (sub_slots_wf _ _ _ (wi_subs _ _ _ I2)) as [[_ ?]%Forall_app _]%Forall_app; done].
    exists Ts, q2. by rewrite app_nil_r in I2.
  - rewrite concat_app, (wi_reads _ _ _ I) in E2. apply app_inv_head in E2. cbn in E2. rewrite app_nil_r in E2. subst r.
    exists (Ts ++ [T]), q2. rewrite concat_app, fmap_app, app_assoc, app_assoc, E. cbn. by rewrite app_nil_r.
Qed.

(** A read that found nothing. *)
Abbreviation nonempty := (filter (fun b : bytes => b <> [])).

Lemma nonempty_reads data : forall frs0,
  nonempty data = frames_bytes <$> frs0 -> exists frs, data = frames_bytes <$> frs /\ concat frs = concat frs0.
Proof.
  induction data as [|b data IH]; intros frs0; [by exists frs0|]. rewrite filter_cons. case_decide as Hb.
  - intros E. symmetry in E. apply fmap_cons_inv in E as (fr & frs1 & -> & E & ->).
    destruct (IH frs1 E) as (frs & -> & Ec). exists (fr :: frs). cbn. by rewrite Ec.
  - intros E. destruct (IH frs0 E) as (frs & -> & Ec). exists ([] :: frs). clear -Ec Hb. by destruct b.
Qed.

Lemma nonempty_streams Ts :
  Forall slot_wf (concat Ts) ->
  exists frs, nonempty (stream <$> Ts) = frames_bytes <$> frs /\ concat frs = slot_frames (concat Ts).
Proof.
  induction Ts as [|T Ts IH]; [by exists []|]. cbn [concat fmap list_fmap]. intros [HT HTs]%Forall_app.
  destruct (IH HTs) as (frs & E & Ec). rewrite filter_cons. unfold slot_frames in *. rewrite fmap_app, <-Ec. case_decide as Hb.
  - exists (slot_frames T :: frs). rewrite fmap_cons. unfold frames_bytes at 1. by rewrite slot_frames_stream, E.
  - destruct (decide (stream T = [])) as [E0|]; [|done]. apply stream_nil in E0 as ->; [|done]. by exists frs.
Qed.

(** ** The replica across the lives of the daemon *)

Section Machine.
Context {fs : SparseFS} {B : Z} {laws : SparseFSLaws fs B}.
Hypothesis Hdiv : (B | SEED_CHUNK).
Variable libc_fallocate : file -> Z -> Z -> fallocate_result.
Variables cycle_sec consistent_sec : Z.
Variables node device_name : string.
Variable seed_conf : bool.
Abbreviation lives_data := (lives_data libc_fallocate cycle_sec consistent_sec node device_name seed_conf).
Abbreviation daemon_lives := (daemon_lives libc_fallocate cycle_sec consistent_sec node device_name seed_conf).

(** C3: stopping and starting the daemon loses nothing.  The machine writes
    through a calm run of the driver, and the daemon is stopped cleanly and
    started again any number of times in it, with whatever consistent points
    come due: when its lives together read what the driver delivered and the
    target is quiet, the replica is the disk and synced, and the node is ready
    for the next life. *)
Theorem lives_follow_disk device begin len offset ring_mb chunk_kb minor mem disk0 w lfs d :
  (forall t b disk, valid_bio t b -> device t b false disk ≡ bio_effect t b disk) ->
  ctr_params begin len ring_mb chunk_kb ->
  reaches device calm (DriverRuns.fresh begin len offset ring_mb chunk_kb minor mem disk0) w -> quiet w ->
  at_rest (len * 512) d -> img_of (d_app d) ≡ disk0 -> Forall (tracking_life len) lfs ->
  nonempty (lives_data lfs d) = nonempty (w_reads w) ->
  exists d', daemon_lives lfs d = Ok d' /\ at_rest (len * 512) d' /\ d_durable d' ≡ w_disk w.
Proof using Hdiv laws.
  intros Hw P R Q A E0 HT E.
  destruct (driver_reads_whole device calm _ w [] [] calm_ok (fresh_inv begin len offset ring_mb chunk_kb minor mem disk0 P) R) as (Ts & q & I & Er).
  pose proof (reaches_disk device Hw _ _ _ _ _ _ _ _ _ R) as DI. cbn [app] in *.
  destruct (quiet_stream disk0 begin len w _ q I DI Q) as [-> Ed]. destruct (di_place _ _ _ _ DI) as [_ El].
  pose proof (wi_subs _ _ _ I) as S. rewrite app_nil_r in S. pose proof (sub_slots_wf _ _ _ S) as W.
  destruct (nonempty_streams Ts W) as (frs0 & E1 & Ec0). assert (w_reads w = stream <$> Ts) as Er1 by exact Er. rewrite Er1, E1 in E.
  destruct (nonempty_reads _ _ E) as (frs & E2 & Ec). rewrite Ec0 in Ec.
  destruct (lives_track libc_fallocate cycle_sec consistent_sec node device_name seed_conf Hdiv len lfs d frs A HT E2) as (d' & E' & A' & Hi).
  - rewrite Ec. split; [by apply slot_frames_ok|]. split; [by left|]. unfold slot_frames. rewrite <-list_fmap_compose.
    apply Forall_fmap, Forall_forall. intros s Hs. destruct (proj1 (list_elem_of_lookup _ _) Hs) as [k Hk].
    destruct (Forall2_lookup_l _ _ _ _ _ (delivered_filled _ _ _ S (wi_done _ _ _ I)) Hk) as (sb & _ & Ssb & Hph).
    rewrite <-El. apply (sub_slot_in w s sb); [apply I|done|done].
  - rewrite Ec. apply (delivered_clean w (concat Ts) []); [done|apply Q].
  - exists d'. split; [done|]. split; [done|]. rewrite (ar_synced _ _ A'), Hi, Ec, <-Ed. by apply apply_all_proper.
Qed.
End Machine.

(** ** Concrete lives *)

(** A node whose blank disk has been copied. *)
Definition rested_daemon : daemon :=
  mk_daemon demo_empty_feed 1048576 (Some "b1"%string) (with_base 9 77 demo_manifest) (Some (with_base 9 77 demo_manifest))
    None false None false false 0 false zero_image.

Definition demo_world : world := run demo_device demo_fresh demo_events.

(** An hour after the start the iteration takes a consistent point; nothing is
    in the ring then. *)
Definition life_input (rd : read_result) : loop_input :=
  mk_loop_input rd false None (fd_of true true (w_target demo_world)) false 4000 (FreezeOk Thawed) [(false, RBlocked)] 1.

Definition demo_life (reads : list bytes) : lifetime :=
  mk_lifetime (Some "b1"%string) (fd_of true true (w_target demo_world)) 400 (life_input RBlocked :: (life_input ∘ RData <$> reads)) []
    (fd_of true true (w_target demo_world)) 5000.

Lemma demo_life_tracks reads : tracking_life 2048 (demo_life reads).
Proof.
  assert (answers (fd_of true true (w_target demo_world)) 2048) as Ha.
  { apply (driver_answers true (w_target demo_world)). vm_compute. repeat constructor; discriminate. }
  assert (forall rd, MainLoop.calm (life_input rd)) as Hc by (intros rd; split; [by split|split; [by right|by repeat constructor]]).
  split; [|done..]. constructor; [done|]. apply Forall_fmap, Forall_true. intros b. apply Hc.
Qed.

Lemma rested_daemon_rests : at_rest 1048576 rested_daemon.
Proof. split; try done; [by eexists|]. by exists zero_image. Qed.

Lemma lives_follow_disk_witness :
  let lfs := demo_life <$> [take 1 (w_reads demo_world); drop 1 (w_reads demo_world)] in
  exists d', daemon_lives (fs := byte_fs) (fun _ _ _ => FaZero) 1 3600 "n1" "/dev/sda" true lfs rested_daemon = Ok d' /\
    d_durable d' ≡ w_disk demo_world /\ w_disk demo_world 4096 = Byte.x41.
Proof.
  intros lfs.
  destruct (lives_follow_disk (fs := byte_fs) (B := 1) ltac:(by exists SEED_CHUNK) (fun _ _ _ => FaZero) 1 3600 "n1" "/dev/sda" true
    demo_device 0 2048 4096 1 64 0 zero_image zero_image demo_world lfs rested_daemon) as (d' & E & _ & Hd).
  - apply demo_works.
  - apply demo_params.
  - apply demo_calm.
  - apply demo_quiet.
  - apply rested_daemon_rests.
  - done.
  - apply Forall_fmap, Forall_true. intros reads. apply demo_life_tracks.
  - vm_compute. reflexivity.
  - exists d'. split; [exact E|]. split; [exact Hd|]. vm_compute. reflexivity.
Defined.

(** A daemon that dies between a read and its application loses what it read.
    The ring has given the records away, and the daemon that starts next reads
    on behind them: the write never reaches the replica, although its bit is
    still in the bitmap, the driver reports no overflow, and the status says
    "CDP". *)
Theorem killed_after_read :
  match daemon_lives (fs := byte_fs) (fun _ _ _ => FaZero) 1 3600 "n1" "/dev/sda" true [demo_life (drop 1 (w_reads demo_world))] rested_daemon with
  | Ok d' =>
      d_durable d' 4096 = x00 /\ d_recovery_json d' = None /\ recovery_queue (d_feed d') = [] /\
      match write_status (fd_of true true (w_target demo_world)) 6000 d' with Ok sj => sj_state sj = CDP | _ => False end
  | _ => False
  end /\
  w_disk demo_world 4096 = Byte.x41 /\ test_bit (chunk_of (w_target demo_world) 4096) (tg_bitmap (w_target demo_world)) = true.
Proof. vm_compute. by split_and!. Qed.
