(* ===== verification/BitmapRace.v ===== *)
(** * The bitmap ioctl word by word

    [cdp_ioctl_bitmap] (dm-cdp.c:377-408) takes no lock while it empties the
    bitmap: it exchanges one word after the other with zero, and only then
    clears [overflowed] under the lock.  Requests go on beside it: each
    [set_bit] of [cdp_mark] is atomic, and [cdp_reserve] runs under the lock.
    Here the ioctl and the requests take turns at that grain.  Alone the loop
    is the one step of [Driver.cdp_ioctl_bitmap]; beside requests no mark is
    lost, and each is in what was copied or in the bitmap that stays; but the
    flag of an overflow that happens during the loop is cleared. *)
From S2P Require Import Prelude Dmcdp Driver Ring DirtyMap.

(** An ioctl under way: the words in [tmp], and whether the flag was
    cleared. *)
Record bitmap_read : Type := mk_bitmap_read {
  br_target : cdp_target;
  br_tmp : list Z;
  br_cleared : bool;
}.

Inductive bmove : Type :=
  | XchgWord
  | ClearFlag
  | SetBit (b : Z)
  | Reserve (type flags sector len payload now : Z).

(** The move of the ioctl is taken in its order; a request can move at any
    time. *)
Definition bmove_step (s : bitmap_read) (m : bmove) : option bitmap_read :=
  let t := br_target s in
  match m with
  | XchgWord =>
      w ← tg_bitmap t !! length (br_tmp s);
      Some (mk_bitmap_read (set_bitmap (<[length (br_tmp s) := 0]> (tg_bitmap t)) t) (br_tmp s ++ [w]) (br_cleared s))
  | ClearFlag =>
      if br_cleared s || negb (length (br_tmp s) =? length (tg_bitmap t))%nat then None
      else Some (mk_bitmap_read (clear_overflowed t) (br_tmp s) true)
  | SetBit b => Some (mk_bitmap_read (set_bitmap (set_bit b (tg_bitmap t)) t) (br_tmp s) (br_cleared s))
  | Reserve type flags sector len payload now =>
      let '(_, g) := cdp_reserve (tg_ring t) type flags sector len payload now in
      Some (mk_bitmap_read (set_ring g t) (br_tmp s) (br_cleared s))
  end.

Fixpoint bmoves (s : bitmap_read) (ms : list bmove) : option bitmap_read :=
  match ms with
  | [] => Some s
  | m :: ms' => s' ← bmove_step s m; bmoves s' ms'
  end.

Definition read_begins (t : cdp_target) : bitmap_read := mk_bitmap_read t [] false.

(** The bits that the requests set. *)
Definition marked (ms : list bmove) (x : Z) : bool :=
  existsb (fun m => match m with SetBit b => x =? b | _ => false end) ms.

Lemma bmoves_app s ms1 ms2 : bmoves s (ms1 ++ ms2) = s' ← bmoves s ms1; bmoves s' ms2.
Proof. revert s. induction ms1 as [|m ms1 IH]; intros s; [done|]. cbn. destruct (bmove_step s m); [apply IH|done]. Qed.

(** ** Alone *)

Lemma xchg_words t bm1 bm2 tmp :
  length tmp = length bm1 ->
  bmoves (mk_bitmap_read (set_bitmap (bm1 ++ bm2) t) tmp false) (replicate (length bm2) XchgWord) =
    Some (mk_bitmap_read (set_bitmap (bm1 ++ ((fun _ => 0) <$> bm2)) t) (tmp ++ bm2) false).
Proof.
  revert bm1 tmp. induction bm2 as [|w bm2 IH]; intros bm1 tmp E; cbn [length replicate bmoves].
  - by rewrite !app_nil_r.
  - unfold bmove_step. cbn [br_target br_tmp br_cleared set_bitmap tg_bitmap].
    rewrite E, list_lookup_middle by done. cbn [mbind option_bind].
    replace (length bm1) with (length bm1 + 0)%nat by lia. rewrite insert_app_r. cbn [insert list_insert].
    specialize (IH (bm1 ++ [0]) (tmp ++ [w])). rewrite <-!app_assoc in IH. cbn [app] in IH.
    cbn [fmap list_fmap]. rewrite <-IH by (rewrite !length_app; cbn; lia). done.
Qed.

(** The loop and the flag, with nothing beside them, are the one step of the
    driver's model: the copy is the bitmap, which is left empty. *)
Theorem bitmap_read_alone t len :
  cdp_bitmap_bytes t <= len ->
  exists s, bmoves (read_begins t) (replicate (length (tg_bitmap t)) XchgWord ++ [ClearFlag]) = Some s /\
    cdp_ioctl_bitmap true true (Some (len, true)) t = (inr (bitmap_bytes_of (br_tmp s)), br_target s).
Proof.
  intros Hl. pose proof (xchg_words t [] (tg_bitmap t) [] eq_refl) as X. cbn [app] in X.
  assert (set_bitmap (tg_bitmap t) t = t) as E by by destruct t.
  rewrite E in X. eexists. rewrite bmoves_app. unfold read_begins. rewrite X. cbn [mbind option_bind bmoves].
  unfold bmove_step. cbn [br_cleared br_tmp br_target orb set_bitmap tg_bitmap]. rewrite length_fmap, Nat.eqb_refl. cbn.
  split; [done|]. rewrite (proj2 (Z.ltb_ge _ _)) by lia. done.
Qed.

(** ** Beside requests *)

Definition in_either (s : bitmap_read) (x : Z) : bool := test_bit x (br_tmp s) || test_bit x (tg_bitmap (br_target s)).

Definition room (t : cdp_target) (m : bmove) : Prop :=
  match m with SetBit b => 0 <= b /\ (Z.to_nat (b / 64) < length (tg_bitmap t))%nat | _ => True end.

Lemma xchg_either w bm tmp x :
  0 <= x -> bm !! length tmp = Some w ->
  test_bit x (tmp ++ [w]) || test_bit x (<[length tmp := 0]> bm) = test_bit x tmp || test_bit x bm.
Proof.
  intros Hx Hw. unfold test_bit. set (i := Z.to_nat (x / 64)).
  destruct (decide (i = length tmp)) as [->|Hi].
  - rewrite lookup_app_r, Nat.sub_diag by lia. rewrite list_lookup_insert_eq by by eapply lookup_lt_Some.
    rewrite (lookup_ge_None_2 tmp) by lia. rewrite Hw. cbn. by rewrite Z.bits_0, orb_false_r.
  - rewrite list_lookup_insert_ne by done. f_equal. f_equal. f_equal.
    destruct (decide (i < length tmp)%nat); [by rewrite lookup_app_l|].
    rewrite lookup_app_r by lia. rewrite (lookup_ge_None_2 tmp) by lia.
    by rewrite lookup_ge_None_2 by (cbn; lia).
Qed.

Lemma bmove_either s m s' x :
  0 <= x -> room (br_target s) m -> bmove_step s m = Some s' ->
  in_either s' x = in_either s x || marked [m] x /\
  length (tg_bitmap (br_target s')) = length (tg_bitmap (br_target s)).
Proof.
  intros Hx Hr. unfold bmove_step, in_either, marked. destruct m as [| |b|]; cbn [existsb]; rewrite ?orb_false_r.
  - intros (w & Hw & [= <-])%bind_Some. cbn. rewrite length_insert. split; [by apply xchg_either|done].
  - destruct (_ || _); [done|]. by intros [= <-].
  - destruct Hr as [Hb Hl]. intros [= <-]. cbn. rewrite test_bit_set, length_set_bit by done. by rewrite orb_assoc.
  - destruct (cdp_reserve _ _ _ _ _ _ _) as [o g]. by intros [= <-].
Qed.

Lemma bmoves_either ms x : forall s s', 0 <= x -> Forall (room (br_target s)) ms -> bmoves s ms = Some s' ->
  in_either s' x = in_either s x || marked ms x.
Proof.
  induction ms as [|m ms IH]; intros s s' Hx Hr; cbn [bmoves].
  - intros [= ->]. unfold marked. cbn. by rewrite orb_false_r.
  - apply Forall_cons in Hr as [Hm Hr]. intros (s1 & E1 & E2)%bind_Some.
    destruct (bmove_either s m s1 x Hx Hm E1) as [B L].
    rewrite (IH s1), B by (done || (eapply Forall_impl; [exact Hr|]; intros []; cbn; by rewrite ?L)).
    unfold marked. cbn [existsb]. by rewrite orb_false_r, orb_assoc.
Qed.

(** No mark is lost: whatever requests run beside the loop, a bit is in the
    copy or in the bitmap that stays exactly when it was set before or was
    marked meanwhile. *)
Theorem no_mark_lost t ms s x :
  0 <= x -> Forall (room t) ms -> bmoves (read_begins t) ms = Some s ->
  test_bit x (br_tmp s) || test_bit x (tg_bitmap (br_target s)) = test_bit x (tg_bitmap t) || marked ms x.
Proof.
  intros Hx Hr E. pose proof (bmoves_either ms x (read_begins t) s Hx Hr E) as H. unfold in_either in H. rewrite H.
  unfold test_bit at 1. cbn [read_begins br_tmp br_target lookup list_lookup default]. by rewrite Z.bits_0.
Qed.

(** A request beside a read of a bitmap of two words: its chunk is in the
    copy when its word was not yet read, and stays in the bitmap when it
    was. *)
Definition race_target : cdp_target :=
  cdp_ctr_target 0 (128 * 128) 0 64 64 0 (fun _ => Byte.x00).

Lemma no_mark_lost_witness :
  exists s, bmoves (read_begins race_target) [XchgWord; SetBit 3; SetBit 70; XchgWord; ClearFlag] = Some s /\
    test_bit 3 (br_tmp s) || test_bit 3 (tg_bitmap (br_target s)) = true /\
    test_bit 70 (br_tmp s) || test_bit 70 (tg_bitmap (br_target s)) = true.
Proof.
  eexists. split; [vm_compute; reflexivity|].
  split; (rewrite (no_mark_lost race_target [XchgWord; SetBit 3; SetBit 70; XchgWord; ClearFlag]); [vm_compute; reflexivity|lia| |vm_compute; reflexivity];
    repeat constructor; vm_compute; congruence).
Defined.

(** ** The flag

    An overflow that comes after its word was read and before the flag is
    cleared: the flag is gone, the chunk of the dropped request is not in the
    copy, and only [gap_pending] still tells of it, in the next record. *)
Theorem overflow_flag_lost :
  exists s, bmoves (read_begins race_target) [XchgWord; SetBit 3; Reserve REC_WRITE 0 384 (2 ^ 26) (2 ^ 26) 0; XchgWord; ClearFlag] = Some s /\
    test_bit 3 (br_tmp s) = false /\ rg_overflowed (tg_ring (br_target s)) = false /\
    rg_overflows (tg_ring (br_target s)) = 1 /\ rg_gap_pending (tg_ring (br_target s)) = true /\
    test_bit 3 (tg_bitmap (br_target s)) = true.
Proof. eexists. split; [vm_compute; reflexivity|]. repeat split; vm_compute; reflexivity. Qed.
